(** * ch2.arty.tree: the CLRTree spatial index (Cartesian geometry, linear split)

    A shallow embedding of [ch2/arty/tree.py].  The Python object graph is
    kept as it is at run time: every list is an object in a heap, addressed
    by a location, and a node is the immutable pair (height, list).  The
    list iterators of the query generator hold a location and an index, so
    that a list which is changed while a generator is suspended on it is
    seen changed when the generator resumes.

    Coordinates are Python integers (Z).  The one true division of the
    program, in [_pick_linear_seeds], is computed exactly in Q; it raises
    ZeroDivisionError on a zero divisor as Python does. *)

From Stdlib Require Import ZArith QArith List Bool Lia.
From stdpp Require Import base list.
Import ListNotations.
Local Open Scope Z_scope.

(** ** Values *)

Inductive MatchType := EQUAL | CONTAINED | CONTAINS | INTERSECT.

(** The values stored at the leaves: [None] or an integer. *)
Inductive pyval := PyNone | PyInt (n : Z).

Definition pyval_eqb (a b : pyval) : bool :=
  match a, b with
  | PyNone, PyNone => true
  | PyInt x, PyInt y => x =? y
  | _, _ => false
  end.

Definition mbr : Type := Z * Z * Z * Z.

Definition mbr_eqb (a b : mbr) : bool :=
  let '(x1, y1, x2, y2) := a in
  let '(X1, Y1, X2, Y2) := b in
  (x1 =? X1) && (y1 =? Y1) && (x2 =? X2) && (y2 =? Y2).

Abbreviation loc := nat (only parsing).

(** The second component of an entry: a value in a leaf, a node
    (height, data) in an internal node. *)
Inductive content :=
| CVal (v : pyval)
| CNode (height : nat) (data : loc).

Abbreviation entry := (mbr * content)%type (only parsing).
Abbreviation node := (nat * loc)%type (only parsing).

Definition content_eqb (a b : content) : bool :=
  match a, b with
  | CVal v, CVal w => pyval_eqb v w
  | CNode h l, CNode h' l' => Nat.eqb h h' && Nat.eqb l l'
  | _, _ => false
  end.

(** ** Exceptions and results *)

Inductive exn :=
| MinTooHigh            (* 'Min number of entries in a node is too high' *)
| MinTooLow             (* 'Min number of entries in a node is too low' *)
| CannotAddAtHeight (target height : nat)
| CannotAddInEmpty (target : nat)
| FailedToDelete (m : mbr)
| EmptyRoot
| UnexpectedLeaves (found expected : Z)
| TooFewChildren (height : nat)
| TooManyChildren (height : nat)
| BadMBR (height : nat)
| ZeroDivisionError
| TypeError
| IndexError
| DanglingLocation      (* no Python behaviour: a location outside the heap *)
| OutOfFuel.            (* no Python behaviour: the recursion bound was hit *)

Inductive res (A : Type) :=
| Ok (a : A)
| Raise (e : exn).
Arguments Ok {A} a.
Arguments Raise {A} e.

Definition is_raise {A} (r : res A) : bool :=
  match r with Ok _ => false | Raise _ => true end.

(** ** CartesianMixin: geometry *)

Definition _normalize_mbr (x1 y1 x2 y2 : Z) : mbr :=
  (Z.min x1 x2, Z.min y1 y2, Z.max x1 x2, Z.max y1 y2).

Definition _intersect (mbr1 mbr2 : mbr) : bool :=
  let '(x1, y1, x2, y2) := mbr1 in
  let '(X1, Y1, X2, Y2) := mbr2 in
  (x1 <=? X2) && (x2 >=? X1) && (y1 <=? Y2) && (y2 >=? Y1).

Definition _contains (outer inner : mbr) : bool :=
  let '(x1, y1, x2, y2) := outer in
  let '(X1, Y1, X2, Y2) := inner in
  (x1 <=? X1) && (x2 >=? X2) && (y1 <=? Y1) && (y2 >=? Y2).

Definition _area (m : mbr) : Z :=
  let '(x1, y1, x2, y2) := m in (x2 - x1) * (y2 - y1).

Definition _merge (mbr1 mbr2 : mbr) : mbr :=
  let '(x1, y1, x2, y2) := mbr1 in
  let '(X1, Y1, X2, Y2) := mbr2 in
  (Z.min x1 X1, Z.min y1 Y1, Z.max x2 X2, Z.max y2 Y2).

(** ** BaseTree._calculate_mbr

    [None] for no nodes, as in the source. *)
Definition calculate_mbr_step {C : Type} (total : option mbr) (n : mbr * C)
    : option mbr :=
  match total with
  | None => Some (fst n)
  | Some t => Some (_merge t (fst n))
  end.

Definition _calculate_mbr {C : Type} (nodes : list (mbr * C)) : option mbr :=
  fold_left calculate_mbr_step nodes None.

(** ** BaseTree._best

    The loop rebinds [data] to the second component of each entry and
    takes [len(data)] of that: [len] is a parameter here, instantiated at
    each call site with the length of what the entries hold there. *)

Record best_state := mk_best {
  i_best : nat;
  mbr_best : mbr;
  area_best : Z;
  delta_area_best : Z;
  len_best : Z
}.

Section Best.
Context {C : Type} (len : C -> res Z) (m : mbr) (height : nat).

Definition best_take (i_child : nat) (mbr_merge : mbr) (mbr_child : mbr)
    (d : C) : res best_state :=
  match len d with
  | Ok n => Ok (mk_best i_child mbr_merge (_area mbr_merge)
                  (_area mbr_merge - _area mbr_child) n)
  | Raise e => Raise e
  end.

(** One pass of the loop body for the entry [(mbr_child, d)]. *)
Definition best_step (best : option best_state) (i_child : nat)
    (mbr_child : mbr) (d : C) : res (option best_state) :=
  let mbr_merge := _merge mbr_child m in
  match best with
  | None =>
      match best_take i_child mbr_merge mbr_child d with
      | Ok b => Ok (Some b)
      | Raise e => Raise e
      end
  | Some b =>
      let area_merge := _area mbr_merge in
      let delta_area_merge := area_merge - _area mbr_child in
      let take :=
        match best_take i_child mbr_merge mbr_child d with
        | Ok b' => Ok (Some b')
        | Raise e => Raise e
        end in
      if (delta_area_merge <? delta_area_best b)
         || ((delta_area_merge =? delta_area_best b)
             && (area_merge <? area_best b))
      then take
      else if (delta_area_merge =? delta_area_best b)
              && (area_merge =? area_best b)
              && negb (Nat.eqb height 0)
      then match len d with
           | Ok n => if n <? len_best b then take else Ok (Some b)
           | Raise e => Raise e
           end
      else Ok (Some b)
  end.

Fixpoint best_loop (best : option best_state) (i_child : nat)
    (data : list (mbr * C)) : res (option best_state) :=
  match data with
  | [] => Ok best
  | (mbr_child, d) :: rest =>
      match best_step best i_child mbr_child d with
      | Ok best' => best_loop best' (S i_child) rest
      | Raise e => Raise e
      end
  end.

(** [None] stands for the pair (None, None) returned on an empty list. *)
Definition _best (data : list (mbr * C)) : res (option (nat * mbr)) :=
  match best_loop None 0%nat data with
  | Ok (Some b) => Ok (Some (i_best b, mbr_best b))
  | Ok None => Ok None
  | Raise e => Raise e
  end.
End Best.

(** [len] of a (height, data) pair. *)
Definition tuple_len {A B : Type} (_ : A * B) : res Z := Ok 2.

(** [len] of the second component of a stored entry: a child node is the
    pair (height, data); the values of this model have no length. *)
Definition content_len (c : content) : res Z :=
  match c with
  | CNode h l => tuple_len (h, l)
  | CVal _ => Raise TypeError
  end.

(** ** CartesianMixin.__extremes *)

Abbreviation index4 := (nat * nat * nat * nat)%type (only parsing).

Definition extremes_step (acc : index4 * mbr) (i : nat) (m : mbr)
    : index4 * mbr :=
  let '((i0, i1, i2, i3), (e0, e1, e2, e3)) := acc in
  let '(m0, m1, m2, m3) := m in
  (* j = 0 *)
  let '(e0, i0) := if m0 >? e0 then (m0, i) else (e0, i0) in
  let '(e2, i2) := if m2 <? e2 then (m2, i) else (e2, i2) in
  (* j = 1 *)
  let '(e1, i1) := if m1 >? e1 then (m1, i) else (e1, i1) in
  let '(e3, i3) := if m3 <? e3 then (m3, i) else (e3, i3) in
  ((i0, i1, i2, i3), (e0, e1, e2, e3)).

Fixpoint extremes_loop {C : Type} (acc : index4 * mbr) (i : nat)
    (data : list (mbr * C)) : index4 * mbr :=
  match data with
  | [] => acc
  | (m, _) :: rest => extremes_loop (extremes_step acc i m) (S i) rest
  end.

Definition __extremes {C : Type} (data : list (mbr * C))
    : option (index4 * mbr) :=
  match data with
  | [] => None
  | (m, _) :: rest =>
      Some (extremes_loop ((0, 0, 0, 0)%nat, m) 1%nat rest)
  end.

(** True division [x / n]. *)
Definition truediv (x n : Z) : res Q :=
  if n =? 0 then Raise ZeroDivisionError
  else Ok (inject_Z x / inject_Z n)%Q.

Definition Qlt_bool (a b : Q) : bool := negb (Qle_bool b a).

(** ** CartesianMixin._pick_linear_seeds

    [root_data] is the list [self._root[1]]. *)
Definition _pick_linear_seeds {C D : Type} (root_data : list (mbr * C))
    (data : list (mbr * D)) : res (nat * nat) :=
  match _calculate_mbr root_data with
  | None => Raise TypeError
  | Some (g0, g1, g2, g3) =>
      let norm_x := g2 - g0 in
      let norm_y := g3 - g1 in
      match __extremes data with
      | None => Raise TypeError
      | Some ((i0, i1, i2, i3), (e0, e1, e2, e3)) =>
          match truediv e0 norm_x, truediv e1 norm_y,
                truediv e2 norm_x, truediv e3 norm_y with
          | Ok q0, Ok q1, Ok q2, Ok q3 =>
              if Qlt_bool (q3 - q1) (q2 - q0) && negb (Nat.eqb i0 i2)
              then Ok (i0, i2)
              else if Qlt_bool (q2 - q0) (q3 - q1) && negb (Nat.eqb i1 i3)
              then Ok (i1, i3)
              else Ok (0, 1)%nat
          | _, _, _, _ => Raise ZeroDivisionError
          end
      end
  end.

(** ** LinearSplitMixin._split: the distribution loop

    A group is one element of the list [split]: (box, (height, entries)).
    The two lists of entries are fresh objects that nothing else refers to
    while [_split] runs, so they are carried by value here and allocated
    when [_split] returns.  [nodes.pop()] takes the last element: the loop
    runs over [stack], the list [nodes] reversed. *)

Abbreviation group := (mbr * (nat * list entry))%type (only parsing).

Definition group_len (g : group) : Z := Z.of_nat (length (snd (snd g))).

(** [split[index][1][1].extend(nodes)] followed by the recomputation of
    the box.  A group holds its seed, so [_calculate_mbr] is not [None]. *)
Definition split_fill (g : group) (nodes : list entry) : res group :=
  let '(_, (h, es)) := g in
  match _calculate_mbr (es ++ nodes) with
  | Some m' => Ok (m', (h, es ++ nodes))
  | None => Raise TypeError
  end.

(** [split[index] = (mbr, split[index][1])] and the append. *)
Definition split_put (g : group) (m : mbr) (nd : entry) : group :=
  let '(_, (h, es)) := g in (m, (h, es ++ [nd])).

Fixpoint split_loop (min : Z) (height : nat) (stack : list entry)
    (split : group * group) : res (list entry * (group * group)) :=
  match stack with
  | [] => Ok ([], split)
  | nd :: stack' =>
      let '(g0, g1) := split in
      let n := Z.of_nat (length stack) in
      if (n <? min) && (group_len g0 + n =? min) then
        match split_fill g0 (rev stack) with
        | Ok g0' => Ok (rev stack, (g0', g1))
        | Raise e => Raise e
        end
      else if (n <? min) && (group_len g1 + n =? min) then
        match split_fill g1 (rev stack) with
        | Ok g1' => Ok (rev stack, (g0, g1'))
        | Raise e => Raise e
        end
      else
        match _best tuple_len (fst nd) height [g0; g1] with
        | Ok (Some (0%nat, m)) =>
            split_loop min height stack' (split_put g0 m nd, g1)
        | Ok (Some (1%nat, m)) =>
            split_loop min height stack' (g0, split_put g1 m nd)
        | Ok (Some _) => Raise IndexError
        | Ok None => Raise TypeError
        | Raise e => Raise e
        end
  end.

(** [del nodes[i]]. *)
Definition py_del {A : Type} (i : nat) (l : list A) : res (list A) :=
  if (i <? length l)%nat then Ok (delete i l) else Raise IndexError.

(** [_split] on the values: the seeds, the two deletions and the loop.
    Returns what is left in [nodes] and the two groups. *)
Definition split_pure {C : Type} (min : Z) (height : nat)
    (root_data : list (mbr * C)) (nodes : list entry)
    : res (list entry * (group * group)) :=
  match _pick_linear_seeds root_data nodes with
  | Raise e => Raise e
  | Ok (i, j) =>
      match nodes !! i, nodes !! j with
      | Some ni, Some nj =>
          let split := ((fst ni, (height, [ni])), (fst nj, (height, [nj]))) in
          match py_del (Nat.max i j) nodes with
          | Raise e => Raise e
          | Ok nodes1 =>
              match py_del (Nat.min i j) nodes1 with
              | Raise e => Raise e
              | Ok nodes2 => split_loop min height (rev nodes2) split
              end
          end
      | _, _ => Raise IndexError
      end
  end.

(** ** The tree object and the heap *)

Record pystate := mk_state {
  heap : list (list entry);
  _max : Z;
  _min : Z;
  _root : option node;
  _size : Z
}.

Definition set_heap (h : list (list entry)) (st : pystate) : pystate :=
  mk_state h (_max st) (_min st) (_root st) (_size st).
Definition set_root (r : option node) (st : pystate) : pystate :=
  mk_state (heap st) (_max st) (_min st) r (_size st).
Definition set_size (n : Z) (st : pystate) : pystate :=
  mk_state (heap st) (_max st) (_min st) (_root st) n.

(** Computations that read and write the state and may raise; the state
    at the point of the raise is kept. *)
Definition M (A : Type) : Type := pystate -> res A * pystate.

Definition ret {A} (a : A) : M A := fun st => (Ok a, st).
Definition raise {A} (e : exn) : M A := fun st => (Raise e, st).
Definition bind {A B} (m : M A) (f : A -> M B) : M B :=
  fun st =>
    match m st with
    | (Ok a, st') => f a st'
    | (Raise e, st') => (Raise e, st')
    end.
Definition lift {A} (r : res A) : M A := fun st => (r, st).

Declare Scope py_scope.
Delimit Scope py_scope with py.
Notation "'let*' x ':=' m 'in' k" := (bind m (fun x => k))
  (at level 10, x pattern, m at level 100, k at level 200) : py_scope.
Notation "m ';;' k" := (bind m (fun _ => k))
  (at level 100, k at level 200, right associativity) : py_scope.
Local Open Scope py_scope.

Definition read (l : loc) : M (list entry) :=
  fun st =>
    match heap st !! l with
    | Some data => (Ok data, st)
    | None => (Raise DanglingLocation, st)
    end.

Definition write (l : loc) (data : list entry) : M unit :=
  fun st => (Ok tt, set_heap (<[l := data]> (heap st)) st).

(** A new list object. *)
Definition alloc (data : list entry) : M loc :=
  fun st => (Ok (length (heap st)), set_heap (heap st ++ [data]) st).

Definition get_root : M (option node) := fun st => (Ok (_root st), st).
Definition put_root (r : option node) : M unit :=
  fun st => (Ok tt, set_root r st).
Definition get_max : M Z := fun st => (Ok (_max st), st).
Definition get_min : M Z := fun st => (Ok (_min st), st).
Definition add_size (d : Z) : M unit :=
  fun st => (Ok tt, set_size (_size st + d) st).

(** ** BaseTree.__init__ *)

Definition __init__ (max_entries : Z) (min_entries : option Z) : res pystate :=
  let min_entries :=
    match min_entries with
    | None | Some 0 => max_entries / 2       (* [not min_entries] *)
    | Some k => k
    end in
  if min_entries >? max_entries / 2 then Raise MinTooHigh
  else if min_entries <? 1 then Raise MinTooLow
  else Ok (mk_state [] max_entries min_entries None 0).

(** ** LinearSplitMixin._split

    [l] is the list [nodes]; it is changed in place. *)
Definition _split (height : nat) (l : loc) : M (list entry) :=
  let* nodes := read l in
  let* root := get_root in
  match root with
  | None => raise TypeError
  | Some (_, lr) =>
      let* root_data := read lr in
      let* min := get_min in
      let* (rest, (g0, g1)) := lift (split_pure min height root_data nodes) in
      write l rest ;;
      let* l0 := alloc (snd (snd g0)) in
      let* l1 := alloc (snd (snd g1)) in
      ret [(fst g0, CNode (fst (snd g0)) l0); (fst g1, CNode (fst (snd g1)) l1)]
  end.

(** ** BaseTree._add_node *)

Fixpoint _add_node (fuel : nat) (nd : content) (target : nat)
    (value : content) (m : mbr) : M (option (list entry)) :=
  match fuel with
  | O => raise OutOfFuel
  | S fuel' =>
      match nd with
      | CVal _ => raise TypeError              (* height, data = node *)
      | CNode height l =>
          if negb (Nat.eqb height target) then
            let* data := read l in
            let* best := lift (_best content_len m height data) in
            match best with
            | None => raise TypeError          (* data[None] *)
            | Some (i_best, mbr_best) =>
                match data !! i_best with
                | None => raise IndexError
                | Some (_, child) =>
                    write l (<[i_best := (mbr_best, child)]> data) ;;
                    let* split := _add_node fuel' child target value m in
                    match split with
                    | None => ret None
                    | Some sp =>
                        let* data := read l in
                        let* data := lift (py_del i_best data) in
                        let data := data ++ sp in
                        write l data ;;
                        let* max := get_max in
                        if Z.of_nat (length data) <=? max then ret None
                        else
                          let* r := _split height l in
                          ret (Some r)
                    end
                end
            end
          else
            let* data := read l in
            let data := data ++ [(m, value)] in
            write l data ;;
            let* max := get_max in
            if Z.of_nat (length data) <=? max then ret None
            else
              let* r := _split height l in
              ret (Some r)
      end
  end.

(** ** BaseTree._add_normalized_mbr *)

Definition _add_normalized_mbr (fuel : nat) (target : nat) (m : mbr)
    (value : content) : M unit :=
  let* root := get_root in
  match root with
  | Some (h, l) =>
      if (h <? target)%nat then raise (CannotAddAtHeight target h)
      else
        let* split := _add_node fuel (CNode h l) target value m in
        match split with
        | None => ret tt
        | Some sp =>
            match sp with
            | (_, CNode h0 _) :: _ =>
                let* l' := alloc sp in
                put_root (Some (S h0, l'))
            | (_, CVal _) :: _ => raise TypeError
            | [] => raise IndexError
            end
        end
  | None =>
      if negb (Nat.eqb target 0) then raise (CannotAddInEmpty target)
      else
        let* l := alloc [(m, value)] in
        put_root (Some (0%nat, l))
  end.

(** ** BaseTree.add_point, BaseTree.add_box *)

Definition add_point (fuel : nat) (value : pyval) (x y : Z) : M unit :=
  _add_normalized_mbr fuel 0 (x, y, x, y) (CVal value) ;;
  add_size 1.

Definition add_box (fuel : nat) (value : pyval) (x1 y1 x2 y2 : Z) : M unit :=
  _add_normalized_mbr fuel 0 (_normalize_mbr x1 y1 x2 y2) (CVal value) ;;
  add_size 1.

(** ** BaseTree._get_node: the query generator

    An activation of [_get_node] is suspended inside its [for] loop: it
    holds [height], the list object [data] and the position of the list
    iterator.  [yield from] stacks activations, innermost first. *)

Abbreviation frame := (nat * loc * nat)%type (only parsing).

Definition prune_test (mt : MatchType) (mbr_node q : mbr) : bool :=
  match mt with
  | EQUAL | CONTAINED => _contains mbr_node q
  | CONTAINS | INTERSECT => _intersect mbr_node q
  end.

Definition leaf_test (mt : MatchType) (mbr_node q : mbr) : bool :=
  match mt with
  | EQUAL => mbr_eqb q mbr_node
  | CONTAINED => _contains mbr_node q
  | CONTAINS => _contains q mbr_node
  | INTERSECT => _intersect q mbr_node
  end.

(** [value is None or value == contents_node] *)
Definition value_test (value : pyval) (contents_node : content) : bool :=
  match value with
  | PyNone => true
  | PyInt _ => content_eqb (CVal value) contents_node
  end.

(** What one turn of the innermost [for] loop does: the generator is
    finished, goes on with another stack of activations, or yields. *)
Inductive gen_step (Y : Type) :=
| GDone
| GSilent (stk : list frame)
| GYield (y : Y) (stk : list frame).
Arguments GDone {Y}.
Arguments GSilent {Y} stk.
Arguments GYield {Y} y stk.

(** A list iterator reads the list as it is now; past its end the
    activation returns to the one that called it. *)
Definition get_step (h : list (list entry)) (q : mbr) (value : pyval)
    (mt : MatchType) (stk : list frame) : res (gen_step (content * mbr)) :=
  match stk with
  | [] => Ok GDone
  | (height, l, i) :: up =>
      match h !! l with
      | None => Raise DanglingLocation
      | Some data =>
          match data !! i with
          | None => Ok (GSilent up)
          | Some (mbr_node, contents_node) =>
              let stk' := (height, l, S i) :: up in
              if negb (Nat.eqb height 0) then
                if prune_test mt mbr_node q then
                  match contents_node with
                  | CNode h' l' => Ok (GSilent ((h', l', 0%nat) :: stk'))
                  | CVal _ => Raise TypeError
                  end
                else Ok (GSilent stk')
              else if value_test value contents_node
                      && leaf_test mt mbr_node q
              then Ok (GYield (contents_node, mbr_node) stk')
              else Ok (GSilent stk')
          end
      end
  end.

(** Resume the generator until its next [yield]; [None] is StopIteration. *)
Fixpoint get_next (fuel : nat) (h : list (list entry)) (q : mbr)
    (value : pyval) (mt : MatchType) (stk : list frame)
    : res (option (content * mbr) * list frame) :=
  match fuel with
  | O => Raise OutOfFuel
  | S fuel' =>
      match get_step h q value mt stk with
      | Raise e => Raise e
      | Ok GDone => Ok (None, [])
      | Ok (GSilent stk') => get_next fuel' h q value mt stk'
      | Ok (GYield y stk') => Ok (Some y, stk')
      end
  end.

(** [_get_normalized_box]: nothing for no root, else [_get_node] on it. *)
Definition gen_start (root : option node) : list frame :=
  match root with
  | Some (h, l) => [(h, l, 0%nat)]
  | None => []
  end.

(** All that a generator yields when the heap does not change meanwhile. *)
Fixpoint get_drain (fuel : nat) (h : list (list entry)) (q : mbr)
    (value : pyval) (mt : MatchType) (stk : list frame)
    : res (list (content * mbr)) :=
  match fuel with
  | O => Raise OutOfFuel
  | S fuel' =>
      match get_next fuel h q value mt stk with
      | Raise e => Raise e
      | Ok (None, _) => Ok []
      | Ok (Some y, stk') =>
          match get_drain fuel' h q value mt stk' with
          | Ok ys => Ok (y :: ys)
          | Raise e => Raise e
          end
      end
  end.

(** ** BaseTree.get_point, BaseTree.get_box, consumed at once *)

Definition _get_normalized_box (fuel : nat) (q : mbr) (value : pyval)
    (mt : MatchType) (st : pystate) : res (list (content * mbr)) :=
  get_drain fuel (heap st) q value mt (gen_start (_root st)).

Definition get_point (fuel : nat) (x y : Z) (value : pyval) (mt : MatchType)
    (st : pystate) : res (list (content * mbr)) :=
  _get_normalized_box fuel (x, y, x, y) value mt st.

Definition get_box (fuel : nat) (x1 y1 x2 y2 : Z) (value : pyval)
    (mt : MatchType) (st : pystate) : res (list (content * mbr)) :=
  _get_normalized_box fuel (_normalize_mbr x1 y1 x2 y2) value mt st.

(** ** BaseTree._leaves, as a generator *)

Definition leaves_step (h : list (list entry)) (stk : list frame)
    : res (gen_step (mbr * content)) :=
  match stk with
  | [] => Ok GDone
  | (height, l, i) :: up =>
      match h !! l with
      | None => Raise DanglingLocation
      | Some data =>
          match data !! i with
          | None => Ok (GSilent up)
          | Some (m, child) =>
              let stk' := (height, l, S i) :: up in
              if negb (Nat.eqb height 0) then
                match child with
                | CNode h' l' => Ok (GSilent ((h', l', 0%nat) :: stk'))
                | CVal _ => Raise TypeError
                end
              else Ok (GYield (m, child) stk')
          end
      end
  end.

Fixpoint leaves_next (fuel : nat) (h : list (list entry)) (stk : list frame)
    : res (option (mbr * content) * list frame) :=
  match fuel with
  | O => Raise OutOfFuel
  | S fuel' =>
      match leaves_step h stk with
      | Raise e => Raise e
      | Ok GDone => Ok (None, [])
      | Ok (GSilent stk') => leaves_next fuel' h stk'
      | Ok (GYield y stk') => Ok (Some y, stk')
      end
  end.

(** ** BaseTree._delete_node

    [i] is the position of the [for] loop; an insert is
    (height, box, contents). *)

Abbreviation orphan := (nat * mbr * content)%type (only parsing).

Fixpoint _delete_node (fuel : nat) (nd : content) (i : nat) (m : mbr)
    (value : pyval) : M (option (bool * list orphan)) :=
  match fuel with
  | O => raise OutOfFuel
  | S fuel' =>
      match nd with
      | CVal _ => raise TypeError              (* height, data = node *)
      | CNode height l =>
          let* data := read l in
          match data !! i with
          | None => ret None
          | Some (mbr_node, contents_node) =>
              if negb (Nat.eqb height 0) then
                if _contains mbr_node m then
                  let* found := _delete_node fuel' contents_node 0 m value in
                  match found with
                  | None => _delete_node fuel' nd (S i) m value
                  | Some (true, inserts) =>
                      let* data := read l in
                      let* data := lift (py_del i data) in
                      write l data ;;
                      let* min := get_min in
                      if Z.of_nat (length data) <? min then
                        ret (Some (true,
                                   inserts ++ map (fun n => (height, fst n, snd n)) data))
                      else ret (Some (false, inserts))
                  | Some (false, inserts) =>
                      let* data := read l in
                      match data !! i with
                      | Some (_, CNode height_children children) =>
                          let* cs := read children in
                          match _calculate_mbr cs with
                          | Some new_mbr =>
                              write l (<[i := (new_mbr, CNode height_children children)]> data) ;;
                              ret (Some (false, inserts))
                          | None => raise TypeError
                          end
                      | Some (_, CVal _) => raise TypeError
                      | None => raise IndexError
                      end
                  end
                else _delete_node fuel' nd (S i) m value
              else if mbr_eqb mbr_node m && value_test value contents_node then
                let* data := lift (py_del i data) in
                write l data ;;
                let* min := get_min in
                if Z.of_nat (length data) <? min then
                  ret (Some (true, map (fun n => (0%nat, fst n, snd n)) data))
                else ret (Some (false, []))
              else _delete_node fuel' nd (S i) m value
          end
      end
  end.

(** ** BaseTree._reinsert *)

Fixpoint reinsert_leaves (fuel : nat) (stk : list frame) : M unit :=
  match fuel with
  | O => raise OutOfFuel
  | S fuel' =>
      fun st =>
        match leaves_next fuel (heap st) stk with
        | Raise e => (Raise e, st)
        | Ok (None, _) => (Ok tt, st)
        | Ok (Some (m, value), stk') =>
            (_add_normalized_mbr fuel' 0 m value ;;
             reinsert_leaves fuel' stk') st
        end
  end.

Fixpoint reinsert_loop (fuel : nat) (max_height : nat) (inserts : list orphan)
    : M unit :=
  match inserts with
  | [] => ret tt
  | (h, m, c) :: rest =>
      (if (max_height <? h)%nat then
         match c with
         | CNode h' l' => reinsert_leaves fuel [(h', l', 0%nat)]
         | CVal _ => raise TypeError
         end
       else _add_normalized_mbr fuel h m c) ;;
      reinsert_loop fuel max_height rest
  end.

Definition _reinsert (fuel : nat) (inserts : list orphan) : M unit :=
  let* root := get_root in
  let max_height := match root with Some (h, _) => h | None => 0%nat end in
  reinsert_loop fuel max_height inserts.

(** ** BaseTree._delete_normalized_mbr

    The [for] loop resumes the query generator between the deletions. *)

(** The test after each deletion: a root that is internal and has a
    single child is replaced by that child. *)
Definition collapse_root : M unit :=
  let* root := get_root in
  match root with
  | Some (S h, l) =>
      let* data := read l in
      match data with
      | [(_, CNode h' l')] => put_root (Some (h', l'))
      | [(_, CVal _)] => raise TypeError
      | _ => ret tt
      end
  | _ => ret tt
  end.

Definition root_content (root : option node) : res content :=
  match root with
  | Some (h, l) => Ok (CNode h l)
  | None => Raise TypeError
  end.

Fixpoint delete_loop (fuel : nat) (q : mbr) (value : pyval) (mt : MatchType)
    (stk : list frame) (count : Z) : M Z :=
  match fuel with
  | O => raise OutOfFuel
  | S fuel' =>
      fun st =>
        match get_next fuel (heap st) q value mt stk with
        | Raise e => (Raise e, st)
        | Ok (None, _) => (Ok count, st)
        | Ok (Some (_, mbr_match), stk') =>
            (let* root := get_root in
             let* r := lift (root_content root) in
             let* found := _delete_node fuel' r 0 mbr_match value in
             match found with
             | Some (delete, inserts) =>
                 (if delete : bool then put_root None else ret tt) ;;
                 _reinsert fuel' inserts ;;
                 add_size (-1) ;;
                 collapse_root ;;
                 delete_loop fuel' q value mt stk' (count + 1)
             | None => raise (FailedToDelete mbr_match)
             end) st
        end
  end.

Definition _delete_normalized_mbr (fuel : nat) (q : mbr) (value : pyval)
    (mt : MatchType) : M Z :=
  let* root := get_root in
  delete_loop fuel q value mt (gen_start root) 0.

Definition delete_point (fuel : nat) (x y : Z) (value : pyval)
    (mt : MatchType) : M Z :=
  _delete_normalized_mbr fuel (x, y, x, y) value mt.

Definition delete_box (fuel : nat) (x1 y1 x2 y2 : Z) (value : pyval)
    (mt : MatchType) : M Z :=
  _delete_normalized_mbr fuel (_normalize_mbr x1 y1 x2 y2) value mt.

(** ** BaseTree.assert_consistent *)

(** [==] on nodes and values: tuples and lists are compared by value. *)
Fixpoint py_eqb (fuel : nat) (h : list (list entry)) (a b : content)
    : res bool :=
  match fuel with
  | O => Raise OutOfFuel
  | S fuel' =>
      match a, b with
      | CVal v, CVal w => Ok (pyval_eqb v w)
      | CNode h1 l1, CNode h2 l2 =>
          if negb (Nat.eqb h1 h2) then Ok false
          else if Nat.eqb l1 l2 then Ok true
          else
            match h !! l1, h !! l2 with
            | Some d1, Some d2 =>
                if negb (Nat.eqb (length d1) (length d2)) then Ok false
                else
                  (fix entries_eqb (d1 d2 : list entry) : res bool :=
                     match d1, d2 with
                     | [], [] => Ok true
                     | (m1, c1) :: r1, (m2, c2) :: r2 =>
                         if negb (mbr_eqb m1 m2) then Ok false
                         else
                           match py_eqb fuel' h c1 c2 with
                           | Ok true => entries_eqb r1 r2
                           | r => r
                           end
                     | _, _ => Ok false
                     end) d1 d2
            | _, _ => Raise DanglingLocation
            end
      | _, _ => Ok false
      end
  end.

Definition option_mbr_eqb (a : option mbr) (b : mbr) : bool :=
  match a with
  | Some a => mbr_eqb a b
  | None => false
  end.

Fixpoint _assert_consistent (fuel : nat) (nd : option content) : M Z :=
  match fuel with
  | O => raise OutOfFuel
  | S fuel' =>
      match nd with
      | None => ret 0
      | Some (CVal _) => raise TypeError
      | Some (CNode height l) =>
          let* data := read l in
          let* min := get_min in
          let* max := get_max in
          let* root := get_root in
          let* too_few :=
            (if Z.of_nat (length data) <? min then
               match root with
               | None => ret true
               | Some (hr, lr) =>
                   fun st =>
                     match py_eqb fuel' (heap st) (CNode height l) (CNode hr lr) with
                     | Ok b => (Ok (negb b), st)
                     | Raise e => (Raise e, st)
                     end
               end
             else ret false) in
          if too_few : bool then raise (TooFewChildren height)
          else if Z.of_nat (length data) >? max then raise (TooManyChildren height)
          else if negb (Nat.eqb height 0) then
            (fix children (data : list entry) (count : Z) : M Z :=
               match data with
               | [] => ret count
               | (m, CVal _) :: _ => raise TypeError
               | (m, CNode height_child data_child) :: rest =>
                   let* cs := read data_child in
                   if negb (option_mbr_eqb (_calculate_mbr cs) m)
                   then raise (BadMBR height)
                   else
                     let* n := _assert_consistent fuel' (Some (CNode height_child data_child)) in
                     children rest (count + n)
               end) data 0
          else ret (Z.of_nat (length data))
      end
  end.

Definition assert_consistent (fuel : nat) : M unit :=
  fun st =>
    if negb (_size st =? 0) && negb (bool_decide (is_Some (_root st)))
    then (Raise EmptyRoot, st)
    else
      (let* size := _assert_consistent fuel
                      (match _root st with
                       | Some (h, l) => Some (CNode h l)
                       | None => None
                       end) in
       if negb (size =? _size st) then raise (UnexpectedLeaves size (_size st))
       else ret tt) st.

(** ** Sequences of public calls *)

Inductive call :=
| AddPoint (value : pyval) (x y : Z)
| AddBox (value : pyval) (x1 y1 x2 y2 : Z)
| DeletePoint (x y : Z) (value : pyval) (mt : MatchType)
| DeleteBox (x1 y1 x2 y2 : Z) (value : pyval) (mt : MatchType).

Definition do_call (fuel : nat) (c : call) : M unit :=
  match c with
  | AddPoint v x y => add_point fuel v x y
  | AddBox v x1 y1 x2 y2 => add_box fuel v x1 y1 x2 y2
  | DeletePoint x y v mt => delete_point fuel x y v mt ;; ret tt
  | DeleteBox x1 y1 x2 y2 v mt => delete_box fuel x1 y1 x2 y2 v mt ;; ret tt
  end.

(** The calls in order, up to the first one that raises. *)
Fixpoint do_calls (fuel : nat) (cs : list call) : M unit :=
  match cs with
  | [] => ret tt
  | c :: cs' => do_call fuel c ;; do_calls fuel cs'
  end.

(** A computation on a tree made by [__init__]. *)
Definition on_new_tree {A} (max_entries : Z) (min_entries : option Z)
    (m : M A) : res (res A * pystate) :=
  match __init__ max_entries min_entries with
  | Ok st => Ok (m st)
  | Raise e => Raise e
  end.

(** ** The tree a node stands for

    The heap below a node read as a value; [k] bounds the depth.  A leaf is
    a node of height 0 whose entries hold values; the entries of a node of
    another height hold nodes. *)

#[local] Set Warnings "-register-all".
Inductive rtree :=
| Leaf (entries : list (mbr * pyval))
| Inner (height : nat) (entries : list (mbr * rtree)).

Definition leaf_entry (e : entry) : option (mbr * pyval) :=
  match snd e with
  | CVal v => Some (fst e, v)
  | CNode _ _ => None
  end.

Fixpoint unfold_tree (k : nat) (h : list (list entry)) (c : content)
    : option rtree :=
  match k with
  | O => None
  | S k' =>
      match c with
      | CVal _ => None
      | CNode height l =>
          match h !! l with
          | None => None
          | Some data =>
              match height with
              | O => Leaf <$> mapM leaf_entry data
              | S _ =>
                  Inner height <$>
                    mapM (fun e => pair (fst e) <$> unfold_tree k' h (snd e)) data
              end
          end
      end
  end.

Definition root_tree (k : nat) (st : pystate) : option rtree :=
  match _root st with
  | Some (h, l) => unfold_tree k (heap st) (CNode h l)
  | None => None
  end.

(** All (box, value) pairs stored below a node, in the order of [_leaves]. *)
Fixpoint leaves (t : rtree) : list (mbr * pyval) :=
  match t with
  | Leaf es => es
  | Inner _ es => flat_map (fun e => leaves (snd e)) es
  end.

(** The box of a node: the merge of the boxes of its entries. *)
Definition tree_mbr (t : rtree) : option mbr :=
  match t with
  | Leaf es => _calculate_mbr es
  | Inner _ es => _calculate_mbr es
  end.

Definition fanout (t : rtree) : Z :=
  match t with
  | Leaf es => Z.of_nat (length es)
  | Inner _ es => Z.of_nat (length es)
  end.

(** A box in the canonical form that [add_point] and [add_box] store. *)
Definition canonical (m : mbr) : bool :=
  let '(x1, y1, x2, y2) := m in (x1 <=? x2) && (y1 <=? y2).

(** Every recorded box of an internal entry is the merge of the boxes of
    the entries of its child. *)
Fixpoint tight (t : rtree) : bool :=
  match t with
  | Leaf _ => true
  | Inner _ es =>
      forallb (fun e => option_mbr_eqb (tree_mbr (snd e)) (fst e) && tight (snd e)) es
  end.

(** Every node below the root has between [min] and [max] entries. *)
Fixpoint fanout_ok (min max : Z) (t : rtree) : bool :=
  match t with
  | Leaf _ => true
  | Inner _ es =>
      forallb (fun e => (min <=? fanout (snd e)) && (fanout (snd e) <=? max)
                        && fanout_ok min max (snd e)) es
  end.

(** The three invariants of the data model, on the state of a tree. *)
Definition invariants (k : nat) (st : pystate) : bool :=
  match _root st with
  | None => _size st =? 0
  | Some _ =>
      match root_tree k st with
      | None => false
      | Some t =>
          fanout_ok (_min st) (_max st) t && tight t
          && (_size st =? Z.of_nat (length (leaves t)))
      end
  end.

(** ** The query, in the words of the specification *)

Definition spec_leaf_accept (mt : MatchType) (stored_box query_box : mbr)
    : bool :=
  match mt with
  | EQUAL => mbr_eqb stored_box query_box
  | CONTAINED => _contains stored_box query_box
  | CONTAINS => _contains query_box stored_box
  | INTERSECT => _intersect query_box stored_box
  end.

Definition spec_prune (mt : MatchType) (subtree_box query_box : mbr) : bool :=
  match mt with
  | EQUAL | CONTAINED => _contains subtree_box query_box
  | CONTAINS | INTERSECT => _intersect subtree_box query_box
  end.

(** [None] is no filter. *)
Definition spec_value_ok (value_filter : pyval) (v : pyval) : bool :=
  match value_filter with
  | PyNone => true
  | PyInt _ => pyval_eqb v value_filter
  end.

Definition spec_accept (q : mbr) (value_filter : pyval) (mt : MatchType)
    (e : mbr * pyval) : bool :=
  spec_leaf_accept mt (fst e) q && spec_value_ok value_filter (snd e).

Definition yielded (e : mbr * pyval) : content * mbr := (CVal (snd e), fst e).

(** The entries a query yields: subtrees are entered when their box
    passes the pruning test, leaf entries are kept when they pass the
    acceptance test and the value filter. *)
Fixpoint query_spec (q : mbr) (value_filter : pyval) (mt : MatchType)
    (t : rtree) : list (mbr * pyval) :=
  match t with
  | Leaf es => List.filter (spec_accept q value_filter mt) es
  | Inner _ es =>
      flat_map
        (fun e =>
           if spec_prune mt (fst e) q
           then query_spec q value_filter mt (snd e)
           else [])
        es
  end.


(** The construction rule in the words of the specification: the
    effective minimum is the supplied value, or [max_entries // 2] when
    none is supplied. *)
Definition spec_effective_min (max_entries : Z) (min_entries : option Z) : Z :=
  match min_entries with
  | Some k => k
  | None => max_entries / 2
  end.

(** What the code takes instead: a supplied 0 counts as not supplied. *)
Definition effective_min (max_entries : Z) (min_entries : option Z) : Z :=
  match min_entries with
  | None | Some 0 => max_entries / 2
  | Some k => k
  end.

Definition min_in_range (max_entries min_entries : Z) : Prop :=
  1 <= min_entries /\ 2 * min_entries <= max_entries.

(** ** Inputs used below *)

(** Three values at one point, in a tree of at most two entries a node. *)
Definition same_point_calls : list call :=
  [AddPoint (PyInt 1) 0 0; AddPoint (PyInt 2) 0 0; AddPoint (PyInt 3) 0 0].

(** The state after the first two of them: one leaf, the root. *)
Definition two_at_origin (max_entries min_entries : Z) : pystate :=
  mk_state [[((0, 0, 0, 0), CVal (PyInt 1)); ((0, 0, 0, 0), CVal (PyInt 2))]]
    max_entries min_entries (Some (0%nat, 0%nat)) 2.

Definition origin_entries : list entry :=
  [((0, 0, 0, 0), CVal (PyInt 1)); ((0, 0, 0, 0), CVal (PyInt 2));
   ((0, 0, 0, 0), CVal (PyInt 3))].

(** Three points on the line x = 0. *)
Definition column_entries : list entry :=
  [((0, 0, 0, 0), CVal (PyInt 1)); ((0, 1, 0, 1), CVal (PyInt 2));
   ((0, 2, 0, 2), CVal (PyInt 3))].

(** Five values in the same box, in a tree of at most four entries a node. *)
Definition same_box_calls : list call :=
  [AddBox (PyInt 1) 0 0 10 10; AddBox (PyInt 2) 0 0 10 10;
   AddBox (PyInt 3) 0 0 10 10; AddBox (PyInt 4) 0 0 10 10;
   AddBox (PyInt 5) 0 0 10 10].

(** The state they leave: a root with two leaves of three and two
    entries under equal boxes (location 0 is the list of the old root). *)
Definition uneven_leaves : pystate :=
  mk_state
    [[((0, 0, 10, 10), CVal (PyInt 3))];
     [((0, 0, 10, 10), CVal (PyInt 1)); ((0, 0, 10, 10), CVal (PyInt 5));
      ((0, 0, 10, 10), CVal (PyInt 4))];
     [((0, 0, 10, 10), CVal (PyInt 2)); ((0, 0, 10, 10), CVal (PyInt 3))];
     [((0, 0, 10, 10), CNode 0 1%nat); ((0, 0, 10, 10), CNode 0 2%nat)]]
    4 2 (Some (1%nat, 3%nat)) 5.

(** Three points on the line y = 0. *)
Definition row_entries : list entry :=
  [((0, 0, 0, 0), CVal (PyInt 1)); ((1, 0, 1, 0), CVal (PyInt 2));
   ((2, 0, 2, 0), CVal (PyInt 3))].

(** Two groups of entries, far apart, in a tree of at most four entries
    a node; one of the values is [None]. *)
Definition two_clusters_calls : list call :=
  [AddPoint (PyInt 1) 0 0; AddPoint PyNone 1 1; AddPoint (PyInt 3) 10 10;
   AddPoint (PyInt 4) 11 11; AddBox (PyInt 1) 2 2 0 0].

(** The state they leave: the fifth call splits the root. *)
Definition two_clusters : pystate :=
  mk_state
    [[];
     [((0, 0, 0, 0), CVal (PyInt 1)); ((0, 0, 2, 2), CVal (PyInt 1))];
     [((1, 1, 1, 1), CVal PyNone); ((11, 11, 11, 11), CVal (PyInt 4));
      ((10, 10, 10, 10), CVal (PyInt 3))];
     [((0, 0, 2, 2), CNode 0 1%nat); ((1, 1, 11, 11), CNode 0 2%nat)]]
    4 2 (Some (1%nat, 3%nat)) 5.

Definition two_clusters_tree : rtree :=
  Inner 1
    [((0, 0, 2, 2), Leaf [((0, 0, 0, 0), PyInt 1); ((0, 0, 2, 2), PyInt 1)]);
     ((1, 1, 11, 11),
      Leaf [((1, 1, 1, 1), PyNone); ((11, 11, 11, 11), PyInt 4);
            ((10, 10, 10, 10), PyInt 3)])].

(** All four indices are positions of a list of [n] elements. *)
Definition below4 (n : nat) (ix : index4) : Prop :=
  let '(i0, i1, i2, i3) := ix in
  (i0 < n)%nat /\ (i1 < n)%nat /\ (i2 < n)%nat /\ (i3 < n)%nat.

(** The box of a group is the merge of the boxes of its entries. *)
Definition group_ok (g : group) : Prop :=
  _calculate_mbr (snd (snd g)) = Some (fst g).

(** The two errors of [_add_normalized_mbr] about the target height. *)
Definition is_height_error (e : exn) : bool :=
  match e with
  | CannotAddAtHeight _ _ | CannotAddInEmpty _ => true
  | _ => false
  end.

(** The condition under which the specification lets insertion fail. *)
Definition bad_target (root : option node) (target : nat) : Prop :=
  match root with
  | Some (h, _) => (h < target)%nat
  | None => target <> 0%nat
  end.

Definition no_height_error {A : Type} (m : M A) : Prop :=
  forall st e st', m st = (Raise e, st') -> is_height_error e = false.

(** What [_best] compares for a candidate box: the area increase, then
    the merged area. *)
Definition cost (m mbr_child : mbr) : Z * Z :=
  (_area (_merge mbr_child m) - _area mbr_child, _area (_merge mbr_child m)).

Definition cost_lt (a b : Z * Z) : Prop :=
  fst a < fst b \/ (fst a = fst b /\ snd a < snd b).

Definition cost_le (a b : Z * Z) : Prop :=
  fst a < fst b \/ (fst a = fst b /\ snd a <= snd b).

(** The state of the loop of [_best] after the entries [seen]. *)
Definition best_inv {C : Type} (m : mbr) (seen : list (mbr * C))
    (best : option best_state) : Prop :=
  match best with
  | None => seen = []
  | Some b =>
      exists mb c,
        seen !! i_best b = Some (mb, c)
        /\ mbr_best b = _merge mb m
        /\ area_best b = snd (cost m mb)
        /\ delta_area_best b = fst (cost m mb)
        /\ len_best b = 2
        /\ (forall j mj cj, seen !! j = Some (mj, cj) ->
              (j < i_best b)%nat -> cost_lt (cost m mb) (cost m mj))
        /\ (forall j mj cj, seen !! j = Some (mj, cj) ->
              cost_le (cost m mb) (cost m mj))
  end.

(** The root leaf of [two_clusters] before its split: five entries, one
    more than max_entries = 4. *)
Definition overflowing_leaf : list entry :=
  [((0, 0, 0, 0), CVal (PyInt 1)); ((1, 1, 1, 1), CVal PyNone);
   ((10, 10, 10, 10), CVal (PyInt 3)); ((11, 11, 11, 11), CVal (PyInt 4));
   ((0, 0, 2, 2), CVal (PyInt 1))].

Definition overflowing_root : pystate :=
  mk_state [overflowing_leaf] 4 2 (Some (0%nat, 0%nat)) 4.


(** A computation that leaves the size counter and the two bounds of
    the tree as they are, whether it returns or raises. *)
Definition keeps_counters {A : Type} (m : M A) : Prop :=
  forall st r st', m st = (r, st') ->
    _size st' = _size st /\ _max st' = _max st /\ _min st' = _min st.

(** ** The tree below a node, read from the heap

    Used to state what insertion keeps: [tree_at] reads the tree, [foot_at]
    lists the locations of its lists, [valid] says that the heap holds a
    tree there. *)

(** The merge of two optional boxes. *)
Definition omerge (a b : option mbr) : option mbr :=
  match a, b with
  | Some a, Some b => Some (_merge a b)
  | Some a, None => Some a
  | None, b => b
  end.

(** The (box, value) pair of a leaf entry. *)
Definition unleaf (e : entry) : mbr * pyval :=
  (fst e, match snd e with CVal v => v | CNode _ _ => PyNone end).

(** The content of a leaf entry: a value, not a node. *)
Definition is_val (c : content) : Prop :=
  match c with CVal _ => True | CNode _ _ => False end.

(** The tree below a node, its lists, and whether the heap holds a tree
    there at all, to depth [k]. *)
Fixpoint tree_at (k : nat) (h : list (list entry)) (c : content) : rtree :=
  match k with
  | O => Leaf []
  | S k' =>
      match c with
      | CVal _ => Leaf []
      | CNode height l =>
          let data := default [] (h !! l) in
          match height with
          | O => Leaf (map unleaf data)
          | S _ => Inner height (map (fun e => (fst e, tree_at k' h (snd e))) data)
          end
      end
  end.

Fixpoint foot_at (k : nat) (h : list (list entry)) (c : content) : list loc :=
  match k with
  | O => []
  | S k' =>
      match c with
      | CVal _ => []
      | CNode height l =>
          let data := default [] (h !! l) in
          match height with
          | O => [l]
          | S _ => l :: concat (map (fun e => foot_at k' h (snd e)) data)
          end
      end
  end.

Fixpoint valid (k : nat) (h : list (list entry)) (c : content) : Prop :=
  match k with
  | O => False
  | S k' =>
      match c with
      | CVal _ => False
      | CNode height l =>
          exists data, h !! l = Some data /\
            match height with
            | O => Forall (fun e => is_val (snd e)) data
            | S _ => Forall (fun e => valid k' h (snd e)) data
            end
      end
  end.

(** The tree and the lists below one entry of an internal node, and the
    lists below all of them. *)
Definition etree (k : nat) (h : list (list entry)) (e : entry) : mbr * rtree :=
  (fst e, tree_at k h (snd e)).

Definition efoot (k : nat) (h : list (list entry)) (e : entry) : list loc :=
  foot_at k h (snd e).

Definition feet (k : nat) (h : list (list entry)) (es : list entry) : list loc :=
  concat (map (efoot k h) es).

(** An entry of an internal node in order: its child is a tree with
    tight boxes and bounded fan-out, under the box of the entry. *)
Definition entry_ok (min max : Z) (k : nat) (h : list (list entry))
    (e : entry) : Prop :=
  valid k h (snd e)
  /\ tight (tree_at k h (snd e)) = true
  /\ fanout_ok min max (tree_at k h (snd e)) = true
  /\ tree_mbr (tree_at k h (snd e)) = Some (fst e)
  /\ min <= fanout (tree_at k h (snd e)) <= max.

(** The entries of an internal node in order: each of them is, and no
    list is below two of them or twice below one. *)
Definition entries_ok (min max : Z) (k : nat) (h : list (list entry))
    (es : list entry) : Prop :=
  Forall (entry_ok min max k h) es /\ NoDup (feet k h es).

(** A node in order: a tree without shared lists, with tight boxes and
    bounded fan-out below it. *)
Definition good (min max : Z) (k : nat) (h : list (list entry)) (c : content)
    : Prop :=
  valid k h c
  /\ NoDup (foot_at k h c)
  /\ tight (tree_at k h c) = true
  /\ fanout_ok min max (tree_at k h c) = true.

(** The locations of [new] are locations of [old] or were allocated
    after the heap had [n] lists. *)
Definition fresh_or (n : nat) (old new : list loc) : Prop :=
  forall x, x ∈ new -> x ∈ old \/ (n <= x)%nat.

(** The stored pairs below the entries of an internal node. *)
Definition eleaves (k : nat) (h : list (list entry)) (es : list entry)
    : list (mbr * pyval) :=
  flat_map (fun e => leaves (tree_at k h (snd e))) es.

(** What [_add_node] leaves when it returns [None]: the node holds one
    pair more, under a box merged with the new one. *)
Definition grown (min max : Z) (v : pyval) (m : mbr) (k : nat)
    (h : list (list entry)) (c : content) (h' : list (list entry)) : Prop :=
  good min max k h' c
  /\ fresh_or (length h) (foot_at k h c) (foot_at k h' c)
  /\ fanout (tree_at k h c) <= fanout (tree_at k h' c) <= max
  /\ tree_mbr (tree_at k h' c) = omerge (tree_mbr (tree_at k h c)) (Some m)
  /\ leaves (tree_at k h' c) ≡ₚ (m, v) :: leaves (tree_at k h c).

(** What it leaves when it returns a split: two entries in order whose
    nodes hold the pairs of the node and the new one. *)
Definition halved (min max : Z) (v : pyval) (m : mbr) (k : nat)
    (h : list (list entry)) (c : content) (h' : list (list entry))
    (sp : list entry) : Prop :=
  exists e0 e1,
    sp = [e0; e1]
    /\ entries_ok min max k h' sp
    /\ fresh_or (length h) (foot_at k h c) (feet k h' sp)
    /\ omerge (Some (fst e0)) (Some (fst e1))
       = omerge (tree_mbr (tree_at k h c)) (Some m)
    /\ eleaves k h' sp ≡ₚ (m, v) :: leaves (tree_at k h c).

(** What a returning [_add_node] at the node [c] of depth [k] leaves. *)
Definition add_node_post (min max : Z) (v : pyval) (m : mbr) (k : nat)
    (st : pystate) (c : content) (r : option (list entry)) (st' : pystate)
    : Prop :=
  (length (heap st) <= length (heap st'))%nat
  /\ (forall x, (x < length (heap st))%nat -> x ∉ foot_at k (heap st) c ->
        heap st' !! x = heap st !! x)
  /\ _root st' = _root st /\ _min st' = min /\ _max st' = max
  /\ match r with
     | None => grown min max v m k (heap st) c (heap st')
     | Some sp => halved min max v m k (heap st) c (heap st') sp
     end.

(** [_add_node] at target height 0 keeps nodes of depth [k] in order. *)
Definition add_node_spec_at (min max : Z) (v : pyval) (m : mbr) (k : nat)
    : Prop :=
  forall fuel c st r st',
    good min max k (heap st) c ->
    fanout (tree_at k (heap st) c) <= max ->
    _min st = min -> _max st = max ->
    _add_node fuel c 0 (CVal v) m st = (Ok r, st') ->
    add_node_post min max v m k st c r st'.

(** The pairs a tree holds. *)
Definition stored (k : nat) (st : pystate) : list (mbr * pyval) :=
  match _root st with
  | Some (h, l) => leaves (tree_at k (heap st) (CNode h l))
  | None => []
  end.

(** The shape of a tree in order: valid parameters and, below the root, a
    tree without shared lists, with tight boxes and bounded fan-out, whose
    root has at most max_entries entries. *)
Definition shape_ok (k : nat) (st : pystate) : Prop :=
  1 <= _min st /\ 2 * _min st <= _max st
  /\ match _root st with
     | None => True
     | Some (h, l) =>
         good (_min st) (_max st) k (heap st) (CNode h l)
         /\ fanout (tree_at k (heap st) (CNode h l)) <= _max st
     end.

(** A tree in order: its shape is, and the size counts the stored pairs. *)
Definition well_formed (k : nat) (st : pystate) : Prop :=
  shape_ok k st /\ _size st = Z.of_nat (length (stored k st)).

(** The pair an insertion call adds. *)
Definition added (c : call) : list (mbr * pyval) :=
  match c with
  | AddPoint v x y => [((x, y, x, y), v)]
  | AddBox v x1 y1 x2 y2 => [(_normalize_mbr x1 y1 x2 y2, v)]
  | DeletePoint _ _ _ _ | DeleteBox _ _ _ _ _ _ => []
  end.

(** The call is an insertion. *)
Definition is_add (c : call) : Prop :=
  match c with
  | AddPoint _ _ _ | AddBox _ _ _ _ _ => True
  | DeletePoint _ _ _ _ | DeleteBox _ _ _ _ _ _ => False
  end.

(** The point (x, y) as the zero-area box that the tree stores for it. *)
Definition point_box (x y : Z) : mbr := (x, y, x, y).

(** Coordinate [j] of a box, as in [mbr[j]]. *)
Definition coord (j : nat) (m : mbr) : Z :=
  let '(m0, m1, m2, m3) := m in
  match j with
  | 0%nat => m0
  | 1%nat => m1
  | 2%nat => m2
  | _ => m3
  end.

(** [i] is the first position of [data] whose box has the greatest value
    of [f], and [e] is that value. *)
Definition first_max_at {C : Type} (f : mbr -> Z) (data : list (mbr * C))
    (i : nat) (e : Z) : Prop :=
  (exists b c, data !! i = Some (b, c) /\ f b = e)
  /\ (forall j b c, data !! j = Some (b, c) ->
        f b <= e /\ ((j < i)%nat -> f b < e)).

(** The boxes of the stored pairs are canonical. *)
Definition canonical_pairs (l : list (mbr * pyval)) : Prop :=
  Forall (fun e => canonical (fst e) = true) l.

(** The number of nodes of a tree. *)
Fixpoint size_of (t : rtree) : nat :=
  match t with
  | Leaf _ => 1
  | Inner _ es => S (list_sum (map (fun e => size_of (snd e)) es))
  end.

(** What assert_consistent checks of a node: the boxes of its entries are
    tight, the nodes below it have between [min] and [max] entries and it
    has at most [max] itself. *)
Definition node_checked (min max : Z) (t : rtree) : Prop :=
  tight t = true /\ fanout_ok min max t = true /\ fanout t <= max.

(** The loop of [_assert_consistent] over the entries of an internal
    node, and the comparison of two lists of entries in [py_eqb], with
    the recursive call as a parameter. *)
Definition assert_children (rec : option content -> M Z) (height : nat)
    : list entry -> Z -> M Z :=
  fix children (data : list entry) (count : Z) : M Z :=
    match data with
    | [] => ret count
    | (m, CVal _) :: _ => raise TypeError
    | (m, CNode height_child data_child) :: rest =>
        bind (read data_child) (fun cs =>
          if negb (option_mbr_eqb (_calculate_mbr cs) m)
          then raise (BadMBR height)
          else
            bind (rec (Some (CNode height_child data_child)))
              (fun n => children rest (count + n)))
    end.

Definition entries_eqb (rec : content -> content -> res bool)
    : list entry -> list entry -> res bool :=
  fix entries_eqb (d1 d2 : list entry) : res bool :=
    match d1, d2 with
    | [], [] => Ok true
    | (m1, c1) :: r1, (m2, c2) :: r2 =>
        if negb (mbr_eqb m1 m2) then Ok false
        else
          match rec c1 c2 with
          | Ok true => entries_eqb r1 r2
          | r => r
          end
    | _, _ => Ok false
    end.


(** The extent of a tree: the box of its root. *)
Definition extent (k : nat) (st : pystate) : option mbr :=
  match _root st with
  | Some (h, l) => tree_mbr (tree_at k (heap st) (CNode h l))
  | None => None
  end.



(** ** BaseTree.__len__ *)
Definition __len__ (st : pystate) : Z := _size st.

(** ** BaseTree.dump, BaseTree._dump, consumed at once
    A line is (height, box, value); the box of the first line is None for
    a root without entries, the value is None on the lines of internal
    nodes. *)
Definition dump_line : Type := nat * option mbr * content.

(** The [for] loop of [_dump] at a node of the given height. *)
Definition dump_entries (rec : content -> res (list dump_line))
    (height : nat) : list entry -> res (list dump_line) :=
  fix lines (data : list entry) : res (list dump_line) :=
    match data with
    | [] => Ok []
    | (m, value) :: rest =>
        let line :=
          (height, Some m, if Nat.eqb height 0 then value else CVal PyNone) in
        match (if negb (Nat.eqb height 0) then rec value else Ok []) with
        | Raise e => Raise e
        | Ok below =>
            match lines rest with
            | Raise e => Raise e
            | Ok more => Ok (line :: below ++ more)
            end
        end
    end.

Fixpoint _dump (fuel : nat) (h : list (list entry)) (nd : content)
    : res (list dump_line) :=
  match fuel with
  | O => Raise OutOfFuel
  | S fuel' =>
      match nd with
      | CVal _ => Raise TypeError              (* height, data = node *)
      | CNode height l =>
          match h !! l with
          | None => Raise DanglingLocation
          | Some data => dump_entries (_dump fuel' h) height data
          end
      end
  end.

Definition dump (fuel : nat) (st : pystate) : res (list dump_line) :=
  match _root st with
  | None => Ok []
  | Some (height, l) =>
      match heap st !! l with
      | None => Raise DanglingLocation
      | Some data =>
          match _dump fuel (heap st) (CNode height l) with
          | Raise e => Raise e
          | Ok lines => Ok ((S height, _calculate_mbr data, CVal PyNone) :: lines)
          end
      end
  end.

(** The lines of a tree: one for each entry of each node, a node before
    the nodes below it. *)
Fixpoint tree_lines (t : rtree) : list dump_line :=
  match t with
  | Leaf es => map (fun e => (0%nat, Some (fst e), CVal (snd e))) es
  | Inner height es =>
      flat_map (fun e => (height, Some (fst e), CVal PyNone) :: tree_lines (snd e))
        es
  end.

(** The lines of height 0. *)
Definition leaf_lines (lines : list dump_line) : list dump_line :=
  List.filter (fun ln => Nat.eqb (fst (fst ln)) 0) lines.

(** ** Heights
    The height a node records, and a tree whose nodes record the height
    of each child as one less than their own: its leaves are all at the
    depth that the root records. *)
Definition height_of (t : rtree) : nat :=
  match t with
  | Leaf _ => 0
  | Inner height _ => height
  end.

Fixpoint balanced (t : rtree) : bool :=
  match t with
  | Leaf _ => true
  | Inner height es =>
      forallb (fun e => Nat.eqb (S (height_of (snd e))) height
                        && balanced (snd e)) es
  end.

(** The heights of the lists of the heap, by location: [hs] is not part
    of the program, it records at which height each list was made.  An
    entry fits a list of height [ht] when [ht] is 0 and it holds a value,
    with a box and a value that satisfy [P], or it holds a node of height
    [ht - 1] whose list was made at that height. *)
Definition entry_level (P : mbr * pyval -> Prop) (hs : list nat) (ht : nat)
    (e : entry) : Prop :=
  match ht, snd e with
  | O, CVal v => P (fst e, v)
  | S h', CNode hc lc => hc = h' /\ hs !! lc = Some h'
  | _, _ => False
  end.

Definition orphan_level (P : mbr * pyval -> Prop) (hs : list nat)
    (o : orphan) : Prop :=
  entry_level P hs (fst (fst o)) (snd (fst o), snd o).

Definition node_level (hs : list nat) (nd : content) : Prop :=
  match nd with
  | CNode height l => hs !! l = Some height
  | CVal _ => True
  end.

(** What [_add_node] at the node [nd] returns, and what [_delete_node]
    returns. *)
Definition add_node_level (P : mbr * pyval -> Prop) (nd : content)
    (hs : list nat) (r : option (list entry)) : Prop :=
  match nd with
  | CVal _ => False
  | CNode height _ =>
      match r with
      | Some sp => Forall (entry_level P hs (S height)) sp
      | None => True
      end
  end.

Definition delete_node_level (P : mbr * pyval -> Prop) (hs : list nat)
    (r : option (bool * list orphan)) : Prop :=
  match r with
  | Some (_, inserts) => Forall (orphan_level P hs) inserts
  | None => True
  end.

(** Every list of the heap holds entries that fit its height, and the
    root records the height of its list. *)
Definition levelled (P : mbr * pyval -> Prop) (hs : list nat)
    (st : pystate) : Prop :=
  length hs = length (heap st)
  /\ (forall l data ht,
        heap st !! l = Some data -> hs !! l = Some ht ->
        Forall (entry_level P hs ht) data)
  /\ (forall hr lr, _root st = Some (hr, lr) -> hs !! lr = Some hr).

(** A computation that keeps the heap levelled, whether it returns or
    raises, with more lists perhaps; what it returns satisfies [post]. *)
Definition keeps_levels {A : Type} (P : mbr * pyval -> Prop) (hs : list nat)
    (m : M A) (post : list nat -> A -> Prop) : Prop :=
  forall st r st',
    levelled P hs st -> m st = (r, st') ->
    exists hs', hs `prefix_of` hs' /\ levelled P hs' st'
      /\ forall a, r = Ok a -> post hs' a.

Definition frames_level (hs : list nat) (stk : list frame) : Prop :=
  Forall (fun f => hs !! snd (fst f) = Some (fst (fst f))) stk.

Definition yield_ok (P : mbr * pyval -> Prop) (q : mbr) (value : pyval)
    (mt : MatchType) (y : content * mbr) : Prop :=
  exists v, fst y = CVal v /\ P (snd y, v)
    /\ value_test value (fst y) = true /\ leaf_test mt (snd y) q = true.

(** What an entry added at height [target] brings: at height 0 a value,
    with its pair; higher a node in order, with the pairs below it. *)
Definition fits (min max : Z) (kv : nat) (h : list (list entry))
    (target : nat) (m : mbr) (value : content) (news : list (mbr * pyval))
    : Prop :=
  match target with
  | O => exists v, value = CVal v /\ news = [(m, v)]
  | S _ =>
      entry_ok min max kv h (m, value)
      /\ NoDup (foot_at kv h value)
      /\ news = leaves (tree_at kv h value)
  end.

(** What a returning [_add_node] leaves at the node [c], of depth [k]
    before and read to depth [K] after: the pairs [news] more, in lists
    that were lists of the node or of the added entry, or are new. *)
Definition add_post_g (min max : Z) (news : list (mbr * pyval)) (m : mbr)
    (ft : list loc) (k K : nat) (st : pystate) (c : content)
    (r : option (list entry)) (st' : pystate) : Prop :=
  (length (heap st) <= length (heap st'))%nat
  /\ (forall x, (x < length (heap st))%nat -> x ∉ foot_at k (heap st) c ->
        heap st' !! x = heap st !! x)
  /\ _root st' = _root st /\ _min st' = min /\ _max st' = max
  /\ match r with
     | None =>
         good min max K (heap st') c
         /\ fresh_or (length (heap st)) (foot_at k (heap st) c ++ ft)
              (foot_at K (heap st') c)
         /\ fanout (tree_at k (heap st) c)
            <= fanout (tree_at K (heap st') c) <= max
         /\ tree_mbr (tree_at K (heap st') c)
            = omerge (tree_mbr (tree_at k (heap st) c)) (Some m)
         /\ leaves (tree_at K (heap st') c)
            ≡ₚ news ++ leaves (tree_at k (heap st) c)
     | Some sp =>
         exists e0 e1,
           sp = [e0; e1]
           /\ entries_ok min max K (heap st') sp
           /\ fresh_or (length (heap st)) (foot_at k (heap st) c ++ ft)
                (feet K (heap st') sp)
           /\ omerge (Some (fst e0)) (Some (fst e1))
              = omerge (tree_mbr (tree_at k (heap st) c)) (Some m)
           /\ eleaves K (heap st') sp
              ≡ₚ news ++ leaves (tree_at k (heap st) c)
     end.

Definition add_spec_g (min max : Z) (kv k : nat) : Prop :=
  forall fuel c target value m news st r st' K,
    good min max k (heap st) c ->
    fanout (tree_at k (heap st) c) <= max ->
    _min st = min -> _max st = max ->
    fits min max kv (heap st) target m value news ->
    (forall x, x ∈ foot_at kv (heap st) value ->
       x ∉ foot_at k (heap st) c) ->
    (k + kv <= K)%nat ->
    _add_node fuel c target value m st = (Ok r, st') ->
    add_post_g min max news m (foot_at kv (heap st) value) k K st c r st'.

(** The lists of the tree. *)
Definition root_foot (k : nat) (st : pystate) : list loc :=
  match _root st with
  | Some (h, l) => foot_at k (heap st) (CNode h l)
  | None => []
  end.

(** What a returning [_add_normalized_mbr] leaves: a tree in order that
    holds the pairs [news] more, in lists that were lists of the tree or
    of the added entry, or are new; no other list has changed. *)
Definition added_to (news : list (mbr * pyval)) (ft : list loc) (k : nat)
    (st : pystate) (K : nat) (st' : pystate) : Prop :=
  shape_ok K st'
  /\ stored K st' ≡ₚ news ++ stored k st
  /\ (length (heap st) <= length (heap st'))%nat
  /\ (forall x, (x < length (heap st))%nat -> x ∉ root_foot k st ++ ft ->
        heap st' !! x = heap st !! x)
  /\ fresh_or (length (heap st)) (root_foot k st ++ ft) (root_foot K st')
  /\ _size st' = _size st.

(** ** Orphans: the entries that [_delete_node] hands back for
    reinsertion, each with the height of the node it was in *)
Definition ofoot (K : nat) (h : list (list entry)) (o : orphan) : list loc :=
  foot_at K h (snd o).

Definition ofeet (K : nat) (h : list (list entry)) (os : list orphan)
    : list loc :=
  concat (map (ofoot K h) os).

(** The pairs an orphan carries. *)
Definition oleaves (K : nat) (h : list (list entry)) (o : orphan)
    : list (mbr * pyval) :=
  match snd o with
  | CVal v => [(snd (fst o), v)]
  | CNode _ _ => leaves (tree_at K h (snd o))
  end.

Definition orphan_leaves (K : nat) (h : list (list entry))
    (os : list orphan) : list (mbr * pyval) :=
  flat_map (oleaves K h) os.

(** An orphan in order: a value from a leaf, or an entry in order from an
    internal node. *)
Definition orphan_ok (min max : Z) (K : nat) (h : list (list entry))
    (o : orphan) : Prop :=
  match fst (fst o) with
  | O => is_val (snd o)
  | S _ => entry_ok min max K h (snd (fst o), snd o)
  end.

Definition orphans_ok (min max : Z) (K : nat) (h : list (list entry))
    (os : list orphan) : Prop :=
  Forall (orphan_ok min max K h) os /\ NoDup (ofeet K h os).

(** What a returning [_delete_node] at the node [c] of depth [k] leaves:
    nothing changed when it found nothing; else one pair with the box [m]
    and a value that passes the filter is gone, and the other pairs are
    below the node or below the orphans. *)
Definition delete_post (min max : Z) (m : mbr) (value : pyval) (k : nat)
    (st : pystate) (c : content) (r : option (bool * list orphan))
    (st' : pystate) : Prop :=
  match r with
  | None => st' = st
  | Some (del, inserts) =>
      length (heap st') = length (heap st)
      /\ (forall x, x ∉ foot_at k (heap st) c ->
            heap st' !! x = heap st !! x)
      /\ _root st' = _root st
      /\ orphans_ok min max k (heap st') inserts
      /\ (forall x, x ∈ ofeet k (heap st') inserts ->
            x ∈ foot_at k (heap st) c)
      /\ exists v,
           value_test value (CVal v) = true
           /\ if del : bool then
                leaves (tree_at k (heap st) c)
                ≡ₚ (m, v) :: orphan_leaves k (heap st') inserts
              else
                good min max k (heap st') c
                /\ fanout (tree_at k (heap st') c)
                   <= fanout (tree_at k (heap st) c)
                /\ (min <= fanout (tree_at k (heap st) c) ->
                    min <= fanout (tree_at k (heap st') c))
                /\ (forall x, x ∈ foot_at k (heap st') c ->
                      x ∈ foot_at k (heap st) c
                      /\ x ∉ ofeet k (heap st') inserts)
                /\ leaves (tree_at k (heap st) c)
                   ≡ₚ (m, v) :: leaves (tree_at k (heap st') c)
                        ++ orphan_leaves k (heap st') inserts
  end.

(** [_delete_node] at depth [k] does what [delete_post] says. *)
Definition delete_spec_at (min max : Z) (m : mbr) (value : pyval)
    (fuel : nat) : Prop :=
  forall k c i st r st',
    good min max k (heap st) c ->
    _min st = min ->
    _delete_node fuel c i m value st = (Ok r, st') ->
    delete_post min max m value k st c r st'.

(** ** The activations of [_leaves] over a tree that does not change:
    an activation is at a node that the heap holds a tree below, with its
    lists among [F]; [frame_leaves] are the pairs it has still to yield. *)
Definition frame_ok (K : nat) (h : list (list entry)) (F : list loc)
    (f : frame) : Prop :=
  valid K h (CNode (fst (fst f)) (snd (fst f)))
  /\ forall x, x ∈ foot_at K h (CNode (fst (fst f)) (snd (fst f))) -> x ∈ F.

Definition frame_leaves (K : nat) (h : list (list entry)) (f : frame)
    : list (mbr * pyval) :=
  let data := drop (snd f) (default [] (h !! snd (fst f))) in
  match fst (fst f) with
  | O => map unleaf data
  | S _ => eleaves (pred K) h data
  end.

Definition stack_leaves (K : nat) (h : list (list entry)) (stk : list frame)
    : list (mbr * pyval) :=
  flat_map (frame_leaves K h) stk.

(** The pairs a deletion removed: each passed the test of the match type
    and the value filter. *)
Definition removable (q : mbr) (value : pyval) (mt : MatchType)
    (p : mbr * pyval) : Prop :=
  leaf_test mt (fst p) q = true /\ value_test value (CVal (snd p)) = true.

(** A root over one leaf, and a second leaf that is no part of the tree. *)
Definition leaf_aside : pystate :=
  mk_state
    [[((0, 0, 0, 0), CVal (PyInt 1))];
     [((1, 1, 1, 1), CVal (PyInt 2)); ((3, 3, 3, 3), CVal PyNone)];
     [((0, 0, 0, 0), CNode 0 0%nat)]]
    4 1 (Some (1%nat, 2%nat)) 1.

(** ** What a suspended generator still yields on an unchanged heap *)

Inductive yields (h : list (list entry)) (q : mbr) (value : pyval)
    (mt : MatchType) : list frame -> list (content * mbr) -> Prop :=
| yields_done stk :
    get_step h q value mt stk = Ok GDone ->
    yields h q value mt stk []
| yields_silent stk stk' ys :
    get_step h q value mt stk = Ok (GSilent stk') ->
    yields h q value mt stk' ys ->
    yields h q value mt stk ys
| yields_yield stk y stk' ys :
    get_step h q value mt stk = Ok (GYield y stk') ->
    yields h q value mt stk' ys ->
    yields h q value mt stk (y :: ys).

Definition canonical_leaves (t : rtree) : bool :=
  forallb (fun e => canonical (fst e)) (leaves t).


(** * Properties *)

(** ** Construction *)

Lemma init_ok_inv (max_entries : Z) (min_entries : option Z) (st : pystate) :
  __init__ max_entries min_entries = Ok st ->
  st = mk_state [] max_entries (effective_min max_entries min_entries) None 0
  /\ min_in_range max_entries (effective_min max_entries min_entries).
Proof.
  unfold __init__, min_in_range.
  replace (match min_entries with
           | Some 0 | None => max_entries / 2
           | Some k => k
           end) with (effective_min max_entries min_entries)
    by (destruct min_entries as [[| |]|]; reflexivity).
  set (m := effective_min max_entries min_entries).
  destruct (m >? max_entries / 2) eqn:Hhi; [discriminate|].
  destruct (m <? 1) eqn:Hlo; [discriminate|].
  intros [= <-]. split; [reflexivity|].
  assert (m <= max_entries / 2) by lia.
  assert (2 * (max_entries / 2) <= max_entries)
    by (apply Z.mul_div_le; lia).
  lia.
Qed.

Lemma init_raise_inv (max_entries : Z) (min_entries : option Z) (e : exn) :
  __init__ max_entries min_entries = Raise e ->
  ~ min_in_range max_entries (effective_min max_entries min_entries).
Proof.
  unfold __init__, min_in_range.
  replace (match min_entries with
           | Some 0 | None => max_entries / 2
           | Some k => k
           end) with (effective_min max_entries min_entries)
    by (destruct min_entries as [[| |]|]; reflexivity).
  set (m := effective_min max_entries min_entries).
  destruct (m >? max_entries / 2) eqn:Hhi.
  - intros _ [_ H].
    assert (max_entries / 2 < m) by lia.
    assert (max_entries < 2 * (max_entries / 2) + 2).
    { pose proof (Z.mod_pos_bound max_entries 2 ltac:(lia)).
      pose proof (Z.div_mod max_entries 2 ltac:(lia)). lia. }
    lia.
  - destruct (m <? 1) eqn:Hlo; [|discriminate].
    intros _ [H _]. lia.
Qed.

(** C7, as stated: a supplied minimum of 0 lies outside 1 <= min <= max/2,
    and yet construction with max_entries = 8 and min_entries = 0 does not
    fail (it takes the default, 4). *)
Lemma init_accepts_zero_min :
  __init__ 8 (Some 0) = Ok (mk_state [] 8 4 None 0)
  /\ spec_effective_min 8 (Some 0) = 0
  /\ ~ min_in_range 8 (spec_effective_min 8 (Some 0)).
Proof.
  split; [reflexivity|]. split; [reflexivity|].
  unfold min_in_range. simpl. lia.
Qed.

(** C7, amended: construction fails exactly when the effective minimum,
    which is max_entries // 2 when min_entries is not supplied or is
    supplied as 0 and the supplied value otherwise, violates
    1 <= min <= max/2; a tree that is constructed is empty, holds that
    minimum and satisfies the bound. *)
Theorem init_fails_iff_effective_min_out_of_range
    (max_entries : Z) (min_entries : option Z) :
  (is_raise (__init__ max_entries min_entries) = true
   <-> ~ min_in_range max_entries (effective_min max_entries min_entries))
  /\ (forall st, __init__ max_entries min_entries = Ok st ->
        _max st = max_entries
        /\ _min st = effective_min max_entries min_entries
        /\ min_in_range (_max st) (_min st)
        /\ _root st = None /\ _size st = 0).
Proof.
  split.
  - destruct (__init__ max_entries min_entries) as [st|e] eqn:E; simpl.
    + apply init_ok_inv in E as [_ Hr]. split; [discriminate|].
      intros Hn. contradiction.
    + apply init_raise_inv in E. split; auto.
  - intros st E. apply init_ok_inv in E as [-> Hr]. simpl. auto.
Qed.

(** ** The empty tree *)

(** C10: on a tree without root every query yields nothing and every
    deletion returns 0, whatever the match type and the value filter; no
    exception is raised and the state is the one before the call. *)
Theorem empty_tree_get_and_delete
    (h : list (list entry)) (mx mn sz : Z) (fuel : nat) (value : pyval)
    (mt : MatchType) (x y x1 y1 x2 y2 : Z) :
  let st := mk_state h mx mn None sz in
  get_point (S fuel) x y value mt st = Ok []
  /\ get_box (S fuel) x1 y1 x2 y2 value mt st = Ok []
  /\ delete_point (S fuel) x y value mt st = (Ok 0, st)
  /\ delete_box (S fuel) x1 y1 x2 y2 value mt st = (Ok 0, st).
Proof.
  repeat split.
Qed.

(** ** Geometry *)

Lemma mbr_eqb_eq (a b : mbr) : mbr_eqb a b = true <-> a = b.
Proof.
  destruct a as [[[x1 y1] x2] y2], b as [[[X1 Y1] X2] Y2]. simpl.
  rewrite !andb_true_iff, !Z.eqb_eq. split.
  - intros [[[-> ->] ->] ->]. reflexivity.
  - intros [= -> -> -> ->]. auto.
Qed.

Lemma mbr_eqb_sym (a b : mbr) : mbr_eqb a b = mbr_eqb b a.
Proof.
  destruct a as [[[x1 y1] x2] y2], b as [[[X1 Y1] X2] Y2]. simpl.
  rewrite (Z.eqb_sym x1), (Z.eqb_sym y1), (Z.eqb_sym x2), (Z.eqb_sym y2).
  reflexivity.
Qed.

Lemma pyval_eqb_sym (a b : pyval) : pyval_eqb a b = pyval_eqb b a.
Proof. destruct a, b; simpl; auto using Z.eqb_sym. Qed.

Lemma contains_spec (a b : mbr) :
  _contains a b = true <->
  let '(x1, y1, x2, y2) := a in
  let '(X1, Y1, X2, Y2) := b in
  x1 <= X1 /\ X2 <= x2 /\ y1 <= Y1 /\ Y2 <= y2.
Proof.
  destruct a as [[[x1 y1] x2] y2], b as [[[X1 Y1] X2] Y2]. simpl.
  rewrite !andb_true_iff. lia.
Qed.

Lemma intersect_spec (a b : mbr) :
  _intersect a b = true <->
  let '(x1, y1, x2, y2) := a in
  let '(X1, Y1, X2, Y2) := b in
  x1 <= X2 /\ X1 <= x2 /\ y1 <= Y2 /\ Y1 <= y2.
Proof.
  destruct a as [[[x1 y1] x2] y2], b as [[[X1 Y1] X2] Y2]. simpl.
  rewrite !andb_true_iff. lia.
Qed.

Lemma canonical_spec (a : mbr) :
  canonical a = true <-> let '(x1, y1, x2, y2) := a in x1 <= x2 /\ y1 <= y2.
Proof.
  destruct a as [[[x1 y1] x2] y2]. simpl. rewrite andb_true_iff. lia.
Qed.

Lemma contains_refl (a : mbr) : _contains a a = true.
Proof. apply contains_spec. destruct a as [[[x1 y1] x2] y2]. lia. Qed.

Lemma contains_trans (a b c : mbr) :
  _contains a b = true -> _contains b c = true -> _contains a c = true.
Proof.
  rewrite !contains_spec.
  destruct a as [[[? ?] ?] ?], b as [[[? ?] ?] ?], c as [[[? ?] ?] ?]. lia.
Qed.

Lemma merge_contains_l (a b : mbr) : _contains (_merge a b) a = true.
Proof.
  apply contains_spec.
  destruct a as [[[? ?] ?] ?], b as [[[? ?] ?] ?]. simpl. lia.
Qed.

Lemma merge_contains_r (a b : mbr) : _contains (_merge a b) b = true.
Proof.
  apply contains_spec.
  destruct a as [[[? ?] ?] ?], b as [[[? ?] ?] ?]. simpl. lia.
Qed.

(** The pruning test is necessary for the acceptance test below a box
    that contains the stored box. *)
Lemma prune_of_accept (mt : MatchType) (subtree_box stored_box q : mbr) :
  _contains subtree_box stored_box = true ->
  canonical stored_box = true ->
  spec_leaf_accept mt stored_box q = true ->
  spec_prune mt subtree_box q = true.
Proof.
  intros Hc Hn. destruct mt; simpl.
  - rewrite mbr_eqb_eq. intros <-. exact Hc.
  - intros H. eapply contains_trans; eauto.
  - revert Hc Hn. rewrite !contains_spec, canonical_spec, intersect_spec.
    destruct subtree_box as [[[? ?] ?] ?], stored_box as [[[? ?] ?] ?],
      q as [[[? ?] ?] ?]. lia.
  - revert Hc. rewrite contains_spec, !intersect_spec.
    destruct subtree_box as [[[? ?] ?] ?], stored_box as [[[? ?] ?] ?],
      q as [[[? ?] ?] ?]. lia.
Qed.

(** ** _calculate_mbr *)

Lemma calculate_mbr_fold_contains {C : Type} (nodes : list (mbr * C))
    (t b : mbr) :
  fold_left calculate_mbr_step nodes (Some t) = Some b ->
  _contains b t = true /\ Forall (fun n => _contains b (fst n) = true) nodes.
Proof.
  revert t. induction nodes as [|n nodes IH]; simpl; intros t.
  - intros [= ->]. split; [apply contains_refl | constructor].
  - intros H. apply IH in H as [H1 H2]. split.
    + eapply contains_trans; [exact H1 | apply merge_contains_l].
    + constructor; [|exact H2].
      eapply contains_trans; [exact H1 | apply merge_contains_r].
Qed.

Lemma calculate_mbr_contains {C : Type} (nodes : list (mbr * C)) (b : mbr) :
  _calculate_mbr nodes = Some b ->
  Forall (fun n => _contains b (fst n) = true) nodes.
Proof.
  unfold _calculate_mbr. destruct nodes as [|n nodes]; simpl.
  - constructor.
  - intros H. apply calculate_mbr_fold_contains in H as [H1 H2].
    constructor; assumption.
Qed.

(** Arithmetic on lengths, whatever name the type of the elements goes by. *)
Ltac len_lia := lia.

(** ** The query generator on an unchanged heap *)

Section Generator.
Context (h : list (list entry)) (q : mbr) (value : pyval) (mt : MatchType).

Lemma get_next_S (fuel : nat) (stk : list frame) :
  get_next (S fuel) h q value mt stk =
  match get_step h q value mt stk with
  | Raise e => Raise e
  | Ok GDone => Ok (None, [])
  | Ok (GSilent stk') => get_next fuel h q value mt stk'
  | Ok (GYield y stk') => Ok (Some y, stk')
  end.
Proof. reflexivity. Qed.

Lemma get_drain_S (fuel : nat) (stk : list frame) :
  get_drain (S fuel) h q value mt stk =
  match get_next (S fuel) h q value mt stk with
  | Raise e => Raise e
  | Ok (None, _) => Ok []
  | Ok (Some y, stk') =>
      match get_drain fuel h q value mt stk' with
      | Ok ys => Ok (y :: ys)
      | Raise e => Raise e
      end
  end.
Proof. reflexivity. Qed.

Lemma get_next_mono (fuel : nat) :
  forall stk r,
    get_next fuel h q value mt stk = Ok r ->
    get_next (S fuel) h q value mt stk = Ok r.
Proof.
  induction fuel as [|fuel IH]; intros stk r.
  - discriminate.
  - rewrite (get_next_S (S fuel)), (get_next_S fuel).
    destruct (get_step h q value mt stk) as [[|stk'|y stk']|e]; auto.
Qed.

Lemma get_drain_mono (fuel : nat) :
  forall stk ys,
    get_drain fuel h q value mt stk = Ok ys ->
    get_drain (S fuel) h q value mt stk = Ok ys.
Proof.
  induction fuel as [|fuel IH]; intros stk ys.
  - discriminate.
  - rewrite (get_drain_S (S fuel)), (get_drain_S fuel).
    destruct (get_next (S fuel) h q value mt stk) as [[o stk']|e] eqn:E;
      [|discriminate].
    rewrite (get_next_mono _ _ _ E).
    destruct o as [y|]; [|auto].
    destruct (get_drain fuel h q value mt stk') as [ys'|e] eqn:E';
      [|discriminate].
    rewrite (IH _ _ E'). auto.
Qed.

Lemma get_drain_mono_le (fuel fuel' : nat) (stk : list frame)
    (ys : list (content * mbr)) :
  (fuel <= fuel')%nat ->
  get_drain fuel h q value mt stk = Ok ys ->
  get_drain fuel' h q value mt stk = Ok ys.
Proof.
  induction 1 as [|fuel' _ IH]; auto using get_drain_mono.
Qed.

(** With enough fuel the bounded run returns what the generator yields. *)
Lemma yields_drain (stk : list frame) (ys : list (content * mbr)) :
  yields h q value mt stk ys ->
  exists fuel, get_drain fuel h q value mt stk = Ok ys.
Proof.
  induction 1 as [stk E | stk stk' ys E _ [fuel IH] | stk y stk' ys E _ [fuel IH]].
  - exists 1%nat. rewrite get_drain_S, get_next_S, E. reflexivity.
  - destruct fuel as [|fuel]; [discriminate|].
    exists (S (S fuel)).
    rewrite get_drain_S, get_next_S, E.
    rewrite get_drain_S in IH.
    destruct (get_next (S fuel) h q value mt stk') as [[[y|] stk'']|e];
      [|exact IH|discriminate].
    destruct (get_drain fuel h q value mt stk'') as [ys'|e] eqn:E';
      [|discriminate].
    rewrite (get_drain_mono _ _ _ E'). exact IH.
  - exists (S fuel). rewrite get_drain_S, get_next_S, E, IH. reflexivity.
Qed.

Lemma value_test_spec (v : pyval) :
  value_test value (CVal v) = spec_value_ok value v.
Proof.
  destruct value as [|n]; simpl; [reflexivity|]. apply (pyval_eqb_sym (PyInt n)).
Qed.

Lemma leaf_test_spec (stored : mbr) :
  leaf_test mt stored q = spec_leaf_accept mt stored q.
Proof. destruct mt; simpl; auto using mbr_eqb_sym. Qed.

(** An activation on a leaf, with its iterator at position [i]. *)
Lemma yields_leaf (l : loc) (data : list entry) (es : list (mbr * pyval))
    (up : list frame) (ys : list (content * mbr)) :
  h !! l = Some data ->
  mapM leaf_entry data = Some es ->
  yields h q value mt up ys ->
  forall n i,
    (length data - i)%nat = n ->
    yields h q value mt ((0%nat, l, i) :: up)
      (map yielded (List.filter (spec_accept q value mt) (drop i es)) ++ ys).
Proof.
  intros Hl Hes Hup. apply mapM_Some in Hes.
  pose proof (Forall2_length _ _ _ Hes) as Hlen.
  induction n as [|n IH]; intros i Hn.
  - rewrite drop_ge by len_lia. simpl.
    eapply yields_silent; [|exact Hup].
    simpl. rewrite Hl. rewrite lookup_ge_None_2 by len_lia. reflexivity.
  - assert (Hlt : (i < length data)%nat) by (clear IH; len_lia).
    destruct (lookup_lt_is_Some_2 data i Hlt) as [[m c] Hi].
    destruct (Forall2_lookup_l _ _ _ _ _ Hes Hi) as ([m' v] & Hi' & He).
    unfold leaf_entry in He. simpl in He.
    destruct c as [v0|]; [|discriminate]. injection He as <- <-.
    rewrite (drop_S _ _ _ Hi'). simpl.
    specialize (IH (S i) ltac:(lia)).
    unfold spec_accept at 1. simpl.
    rewrite <- value_test_spec, <- leaf_test_spec, andb_comm.
    destruct (value_test value (CVal v0) && leaf_test mt m q) eqn:T; simpl.
    + eapply yields_yield; [|exact IH].
      simpl. rewrite Hl, Hi. simpl. rewrite T. reflexivity.
    + eapply yields_silent; [|exact IH].
      simpl. rewrite Hl, Hi. simpl. rewrite T. reflexivity.
Qed.

(** An activation on an internal node, given what the activations on
    its children yield. *)
Lemma yields_inner (height : nat) (l : loc) (data : list entry)
    (es : list (mbr * rtree)) (k : nat) :
  h !! l = Some data ->
  Forall2 (fun e e' => pair (fst e) <$> unfold_tree k h (snd e) = Some e')
    data es ->
  (forall c t, unfold_tree k h c = Some t ->
     forall ht lc, c = CNode ht lc ->
     forall up ys, yields h q value mt up ys ->
       yields h q value mt ((ht, lc, 0%nat) :: up)
         (map yielded (query_spec q value mt t) ++ ys)) ->
  forall n i up ys,
    (length data - i)%nat = n ->
    yields h q value mt up ys ->
    yields h q value mt ((S height, l, i) :: up)
      (map yielded
         (flat_map
            (fun e => if spec_prune mt (fst e) q
                      then query_spec q value mt (snd e) else [])
            (drop i es)) ++ ys).
Proof.
  intros Hl Hes Hch.
  pose proof (Forall2_length _ _ _ Hes) as Hlen.
  induction n as [|n IH]; intros i up ys Hn Hup.
  - rewrite drop_ge by len_lia. simpl.
    eapply yields_silent; [|exact Hup].
    simpl. rewrite Hl. rewrite lookup_ge_None_2 by len_lia. reflexivity.
  - assert (Hlt : (i < length data)%nat) by (clear IH; len_lia).
    destruct (lookup_lt_is_Some_2 data i Hlt) as [[m c] Hi].
    destruct (Forall2_lookup_l _ _ _ _ _ Hes Hi) as ([m' t] & Hi' & He).
    simpl in He.
    destruct (unfold_tree k h c) as [t'|] eqn:Ht; [|discriminate].
    injection He as <- <-.
    rewrite (drop_S _ _ _ Hi'). simpl.
    specialize (IH (S i) up ys ltac:(lia) Hup).
    destruct (spec_prune mt m q) eqn:P.
    + destruct c as [v|hc lc].
      { destruct k; discriminate. }
      rewrite map_app, <- app_assoc.
      eapply yields_silent.
      * simpl. rewrite Hl, Hi. simpl.
        change (prune_test mt m q) with (spec_prune mt m q). rewrite P.
        reflexivity.
      * eapply Hch; eauto.
    + eapply yields_silent; [|exact IH].
      simpl. rewrite Hl, Hi. simpl.
      change (prune_test mt m q) with (spec_prune mt m q). rewrite P.
      reflexivity.
Qed.

Lemma yields_tree (k : nat) :
  forall c t, unfold_tree k h c = Some t ->
  forall ht lc, c = CNode ht lc ->
  forall up ys, yields h q value mt up ys ->
    yields h q value mt ((ht, lc, 0%nat) :: up)
      (map yielded (query_spec q value mt t) ++ ys).
Proof.
  induction k as [|k IH]; intros c t Hu ht lc -> up ys Hup.
  - discriminate.
  - simpl in Hu.
    destruct (h !! lc) as [data|] eqn:Hl; [|discriminate].
    destruct ht as [|ht].
    + destruct (mapM leaf_entry data) as [es|] eqn:Hes; [|discriminate].
      injection Hu as <-. simpl.
      apply (yields_leaf lc data es up ys Hl Hes Hup (length data) 0%nat).
      lia.
    + destruct (mapM (fun e => pair (fst e) <$> unfold_tree k h (snd e)) data)
        as [es|] eqn:Hes; [|discriminate].
      injection Hu as <-. simpl.
      apply mapM_Some in Hes.
      apply (yields_inner ht lc data es k Hl Hes IH (length data) 0%nat up ys);
        [lia | exact Hup].
Qed.

(** Draining the generator started on a node returns the query of the
    specification on the tree the node stands for. *)
Lemma drain_tree (k : nat) (ht : nat) (lc : loc) (t : rtree) :
  unfold_tree k h (CNode ht lc) = Some t ->
  exists fuel0, forall fuel, (fuel0 <= fuel)%nat ->
    get_drain fuel h q value mt [(ht, lc, 0%nat)]
    = Ok (map yielded (query_spec q value mt t)).
Proof.
  intros Hu.
  assert (Hy : yields h q value mt [(ht, lc, 0%nat)]
                 (map yielded (query_spec q value mt t) ++ [])).
  { eapply yields_tree; eauto. apply yields_done. reflexivity. }
  rewrite app_nil_r in Hy. apply yields_drain in Hy as [fuel0 H0].
  exists fuel0. intros fuel Hle. eapply get_drain_mono_le; eauto.
Qed.
End Generator.

(** ** Pruning loses nothing in a tree with tight boxes *)

Lemma rtree_nested_ind (P : rtree -> Prop) :
  (forall es, P (Leaf es)) ->
  (forall height es, Forall (fun e => P (snd e)) es -> P (Inner height es)) ->
  forall t, P t.
Proof.
  intros HL HI. fix IH 1. intros [es|height es].
  - apply HL.
  - apply HI. induction es as [|e es IHes]; constructor; [apply IH | exact IHes].
Qed.

Lemma option_mbr_eqb_eq (o : option mbr) (b : mbr) :
  option_mbr_eqb o b = true -> o = Some b.
Proof.
  destruct o as [a|]; simpl; [|discriminate].
  rewrite mbr_eqb_eq. congruence.
Qed.

(** The box of a node with tight boxes contains every box stored below. *)
Lemma tight_covers (t : rtree) :
  tight t = true ->
  forall b, tree_mbr t = Some b ->
    Forall (fun e => _contains b (fst e) = true) (leaves t).
Proof.
  induction t as [es|height es IH] using rtree_nested_ind; intros Ht b Hb.
  - simpl in *. apply calculate_mbr_contains. exact Hb.
  - simpl in *. apply calculate_mbr_contains in Hb.
    induction es as [|e es IHes]; simpl; [constructor|].
    simpl in Ht. apply andb_true_iff in Ht as [He Ht].
    apply andb_true_iff in He as [Hbox Hte].
    inversion IH as [|? ? IHe IHr]; subst.
    inversion Hb as [|? ? Hbe Hbr]; subst.
    apply Forall_app. split; [|auto].
    apply option_mbr_eqb_eq in Hbox.
    specialize (IHe Hte _ Hbox).
    eapply Forall_impl; [exact IHe|].
    intros x Hx. simpl in Hx. eapply contains_trans; eauto.
Qed.

Lemma filter_none {A : Type} (f : A -> bool) (l : list A) :
  Forall (fun x => f x = false) l -> List.filter f l = [].
Proof.
  induction 1 as [|x l Hx _ IH]; simpl; [reflexivity|].
  rewrite Hx. exact IH.
Qed.

Lemma query_spec_filter (q : mbr) (value : pyval) (mt : MatchType) (t : rtree) :
  tight t = true ->
  canonical_leaves t = true ->
  query_spec q value mt t = List.filter (spec_accept q value mt) (leaves t).
Proof.
  unfold canonical_leaves.
  induction t as [es|height es IH] using rtree_nested_ind; intros Ht Hc.
  - reflexivity.
  - simpl in *.
    induction es as [|e es IHes]; simpl; [reflexivity|].
    simpl in Ht, Hc. apply andb_true_iff in Ht as [He Ht].
    apply andb_true_iff in He as [Hbox Hte].
    rewrite forallb_app in Hc. apply andb_true_iff in Hc as [Hce Hcr].
    inversion IH as [|? ? IHe IHr]; subst.
    rewrite List.filter_app, (IHes IHr Ht Hcr). f_equal.
    destruct (spec_prune mt (fst e) q) eqn:P; [auto|].
    symmetry. apply filter_none.
    apply option_mbr_eqb_eq in Hbox.
    pose proof (tight_covers _ Hte _ Hbox) as Hcov.
    rewrite forallb_forall in Hce.
    rewrite Forall_forall in Hcov |- *.
    intros x Hx. unfold spec_accept.
    destruct (spec_leaf_accept mt (fst x) q) eqn:A; [|reflexivity].
    rewrite (prune_of_accept mt (fst e) (fst x) q) in P; [discriminate| | |exact A].
    + apply Hcov, Hx.
    + apply Hce. apply list_elem_of_In. exact Hx.
Qed.

(** ** Queries *)

Lemma get_normalized_box_tree (k : nat) (st : pystate) (t : rtree) (q : mbr)
    (value : pyval) (mt : MatchType) :
  root_tree k st = Some t ->
  exists fuel0, forall fuel, (fuel0 <= fuel)%nat ->
    _get_normalized_box fuel q value mt st
    = Ok (map yielded (query_spec q value mt t)).
Proof.
  unfold root_tree, _get_normalized_box.
  destruct (_root st) as [[ht lc]|]; [|discriminate].
  intros Hu. simpl. eapply drain_tree; eauto.
Qed.

(** C4: a query on a tree yields, as (value, box) pairs, the leaf entries
    reached through the internal entries whose box passes the pruning test
    (contains for EQUAL and CONTAINED, intersect for CONTAINS and
    INTERSECT) and which pass the acceptance test of the match type and
    the value filter; when the boxes of the tree are tight these are
    exactly the stored entries that pass the acceptance test and the
    value filter. *)
Theorem query_yields_accepted_entries (k : nat) (st : pystate) (t : rtree)
    (value : pyval) (mt : MatchType) (x y x1 y1 x2 y2 : Z) :
  root_tree k st = Some t ->
  (exists fuel0, forall fuel, (fuel0 <= fuel)%nat ->
     get_point fuel x y value mt st
     = Ok (map yielded (query_spec (x, y, x, y) value mt t))
     /\ get_box fuel x1 y1 x2 y2 value mt st
        = Ok (map yielded
                (query_spec (_normalize_mbr x1 y1 x2 y2) value mt t)))
  /\ (tight t = true -> canonical_leaves t = true ->
      forall q, query_spec q value mt t
                = List.filter (spec_accept q value mt) (leaves t)).
Proof.
  intros Hu. split.
  - destruct (get_normalized_box_tree k st t (x, y, x, y) value mt Hu)
      as [f1 H1].
    destruct (get_normalized_box_tree k st t (_normalize_mbr x1 y1 x2 y2)
                value mt Hu) as [f2 H2].
    exists (Nat.max f1 f2). intros fuel Hle. split.
    + apply H1. lia.
    + apply H2. lia.
  - intros Ht Hc q. apply query_spec_filter; assumption.
Qed.

(** ** The value filter *)






(** ** Deletion from a leaf without a value filter *)

Definition leaf_deletion (min : Z) (data' : list entry)
    : option (bool * list orphan) :=
  if Z.of_nat (length data') <? min
  then Some (true, map (fun n => (0%nat, fst n, snd n)) data')
  else Some (false, []).

Lemma delete_node_leaf_S (fuel : nat) (l : loc) (i : nat) (m : mbr)
    (value : pyval) (st : pystate) (data : list entry) :
  heap st !! l = Some data ->
  _delete_node (S fuel) (CNode 0 l) i m value st =
  match data !! i with
  | None => (Ok None, st)
  | Some (mbr_node, contents_node) =>
      if mbr_eqb mbr_node m && value_test value contents_node then
        (Ok (leaf_deletion (_min st) (delete i data)),
         set_heap (<[l := delete i data]> (heap st)) st)
      else _delete_node fuel (CNode 0 l) (S i) m value st
  end.
Proof.
  intros Hl. simpl. unfold bind at 1. unfold read at 1. rewrite Hl.
  destruct (data !! i) as [[mbr_node c]|] eqn:Hi; [|reflexivity].
  destruct (mbr_eqb mbr_node m && value_test value c); [|reflexivity].
  unfold bind, lift, py_del.
  apply lookup_lt_Some in Hi.
  destruct (Nat.ltb_spec i (length data)) as [_|Hge]; [|lia].
  unfold write, get_min, leaf_deletion, ret. simpl.
  destruct (Z.of_nat (length (delete i data)) <? _min st); reflexivity.
Qed.



Lemma two_clusters_built :
  on_new_tree 4 None (do_calls 9 two_clusters_calls) = Ok (Ok tt, two_clusters)
  /\ root_tree 3 two_clusters = Some two_clusters_tree
  /\ invariants 3 two_clusters = true.
Proof. repeat split. Qed.

Lemma query_yields_accepted_entries_witness :
  root_tree 3 two_clusters = Some two_clusters_tree
  /\ tight two_clusters_tree = true
  /\ canonical_leaves two_clusters_tree = true
  /\ (exists fuel0, forall fuel, (fuel0 <= fuel)%nat ->
        get_point fuel 1 1 PyNone CONTAINS two_clusters
        = Ok (map yielded
                (query_spec (1, 1, 1, 1) PyNone CONTAINS two_clusters_tree))
        /\ get_box fuel 0 0 5 5 PyNone CONTAINS two_clusters
           = Ok (map yielded
                   (query_spec (_normalize_mbr 0 0 5 5) PyNone CONTAINS
                      two_clusters_tree)))
  /\ (forall q, query_spec q PyNone CONTAINS two_clusters_tree
                = List.filter (spec_accept q PyNone CONTAINS)
                    (leaves two_clusters_tree)).
Proof.
  split; [reflexivity|]. split; [reflexivity|]. split; [reflexivity|].
  destruct (query_yields_accepted_entries 3 two_clusters two_clusters_tree
              PyNone CONTAINS 1 1 0 0 5 5 eq_refl) as [H1 H2].
  split; [exact H1 | exact (H2 eq_refl eq_refl)].
Defined.


(** ** Degenerate extents *)

(** C6: with the three entries at one point, and with three entries on a
    vertical or on a horizontal line, whose extent has zero width or zero
    height, seed selection does not return the first two entries: the
    normalisation divides by the zero extent. *)
Lemma pick_linear_seeds_divides_by_zero_extent :
  _calculate_mbr origin_entries = Some (0, 0, 0, 0)
  /\ _pick_linear_seeds origin_entries origin_entries = Raise ZeroDivisionError
  /\ _calculate_mbr column_entries = Some (0, 0, 0, 2)
  /\ _pick_linear_seeds column_entries column_entries = Raise ZeroDivisionError
  /\ _calculate_mbr row_entries = Some (0, 0, 2, 0)
  /\ _pick_linear_seeds row_entries row_entries = Raise ZeroDivisionError.
Proof. repeat split. Qed.

(** C2: the root leaf of a tree with max_entries = 2 that holds three
    entries at one point is a list of max_entries + 1 entries on which
    the split returns no pair of nodes: it raises, and leaves the list as
    it was. *)
Lemma split_raises_on_entries_at_one_point :
  let st := mk_state [origin_entries] 2 1 (Some (0%nat, 0%nat)) 2 in
  Z.of_nat (length origin_entries) = _max st + 1
  /\ split_pure (_min st) 0 origin_entries origin_entries
     = Raise ZeroDivisionError
  /\ _split 0 0 st = (Raise ZeroDivisionError, st).
Proof. repeat split. Qed.

(** C8: on a tree whose root is a leaf with two entries at one point and
    max_entries = 2, insertion at height 0, which is the height of the
    tree, raises, and the list of the root is changed. *)
Lemma add_at_tree_height_raises :
  let st := two_at_origin 2 1 in
  _root st = Some (0%nat, 0%nat)
  /\ _add_normalized_mbr 9 0 (0, 0, 0, 0) (CVal (PyInt 3)) st
     = (Raise ZeroDivisionError,
        mk_state [origin_entries] 2 1 (Some (0%nat, 0%nat)) 2).
Proof. repeat split. Qed.

(** C1: three add_point calls at one point on a tree made with
    max_entries = 2: the third raises and leaves a root with three
    entries and a size of two; the invariants fail and assert_consistent
    raises. *)
Lemma add_point_thrice_breaks_invariants :
  let st := mk_state [origin_entries] 2 1 (Some (0%nat, 0%nat)) 2 in
  on_new_tree 2 None (do_calls 9 same_point_calls)
  = Ok (Raise ZeroDivisionError, st)
  /\ root_tree 2 st
     = Some (Leaf [((0, 0, 0, 0), PyInt 1); ((0, 0, 0, 0), PyInt 2);
                   ((0, 0, 0, 0), PyInt 3)])
  /\ _size st = 2
  /\ invariants 2 st = false
  /\ assert_consistent 9 st = (Raise (TooManyChildren 0), st).
Proof. repeat split. Qed.

(** ** Deletion while the query is suspended *)

(** C3: two values at one point in a tree made with the default
    max_entries = 8.  The query yields both; the deletion with the same
    arguments returns 1, and the query after it still yields the second
    pair. *)
Lemma delete_point_returns_less_than_get_yields :
  let st := two_at_origin 8 4 in
  on_new_tree 8 None
    (do_calls 9 [AddPoint (PyInt 1) 0 0; AddPoint (PyInt 2) 0 0])
  = Ok (Ok tt, st)
  /\ get_point 9 0 0 PyNone EQUAL st
     = Ok [(CVal (PyInt 1), (0, 0, 0, 0)); (CVal (PyInt 2), (0, 0, 0, 0))]
  /\ fst (delete_point 9 0 0 PyNone EQUAL st) = Ok 1
  /\ get_point 9 0 0 PyNone EQUAL (snd (delete_point 9 0 0 PyNone EQUAL st))
     = Ok [(CVal (PyInt 2), (0, 0, 0, 0))].
Proof. repeat split. Qed.

(** ** The tie-break on the number of children *)

(** C5: the root of [uneven_leaves] has two children under equal boxes,
    the first with three entries and the second with two.  For a point
    inside the box the area increase and the merged area are tied, and
    [_best] at this internal level returns the first child, which has
    more entries; add_point puts the point there. *)
Lemma best_keeps_first_of_tied_children :
  on_new_tree 4 None (do_calls 9 same_box_calls) = Ok (Ok tt, uneven_leaves)
  /\ heap uneven_leaves !! 3%nat
     = Some [((0, 0, 10, 10), CNode 0 1%nat); ((0, 0, 10, 10), CNode 0 2%nat)]
  /\ length <$> heap uneven_leaves !! 1%nat = Some 3%nat
  /\ length <$> heap uneven_leaves !! 2%nat = Some 2%nat
  /\ _best content_len (5, 5, 5, 5) 1
       [((0, 0, 10, 10), CNode 0 1%nat); ((0, 0, 10, 10), CNode 0 2%nat)]
     = Ok (Some (0%nat, (0, 0, 10, 10)))
  /\ length <$> heap (snd (add_point 9 (PyInt 6) 5 5 uneven_leaves)) !! 1%nat
     = Some 4%nat
  /\ length <$> heap (snd (add_point 9 (PyInt 6) 5 5 uneven_leaves)) !! 2%nat
     = Some 2%nat.
Proof. repeat split. Qed.

(** ** Seed selection *)

Lemma extremes_step_below (n i : nat) (ix : index4) (e m : mbr) :
  below4 n ix -> (i < n)%nat -> below4 n (fst (extremes_step (ix, e) i m)).
Proof.
  destruct ix as [[[i0 i1] i2] i3], e as [[[e0 e1] e2] e3],
    m as [[[m0 m1] m2] m3].
  unfold below4, extremes_step. intros (H0 & H1 & H2 & H3) Hi.
  destruct (m0 >? e0), (m2 <? e2), (m1 >? e1), (m3 <? e3); simpl; auto.
Qed.

Lemma extremes_loop_below {C : Type} (data : list (mbr * C)) :
  forall (acc : index4 * mbr) (i : nat),
    below4 i (fst acc) ->
    below4 (i + length data) (fst (extremes_loop acc i data)).
Proof.
  induction data as [|[m c] data IH]; intros [ix e] i Hacc;
    cbn [extremes_loop length].
  - rewrite Nat.add_0_r. exact Hacc.
  - replace (i + S (length data))%nat with (S i + length data)%nat by lia.
    apply IH. apply extremes_step_below; [|lia].
    destruct ix as [[[i0 i1] i2] i3]. simpl in *. lia.
Qed.

Lemma extremes_below {C : Type} (data : list (mbr * C)) (ix : index4)
    (e : mbr) :
  __extremes data = Some (ix, e) -> below4 (length data) ix.
Proof.
  destruct data as [|[m c] data]; simpl; [discriminate|].
  intros [= H].
  change ix with (fst (ix, e)). rewrite <- H.
  apply (extremes_loop_below data ((0, 0, 0, 0)%nat, m) 1%nat).
  simpl. lia.
Qed.

(** The seeds that are returned are two different positions of the list. *)
Lemma pick_linear_seeds_inv {C D : Type} (root_data : list (mbr * C))
    (data : list (mbr * D)) (i j : nat) :
  _pick_linear_seeds root_data data = Ok (i, j) ->
  i <> j
  /\ ((2 <= length data)%nat -> (i < length data)%nat /\ (j < length data)%nat).
Proof.
  unfold _pick_linear_seeds.
  destruct (_calculate_mbr root_data) as [[[[g0 g1] g2] g3]|]; [|discriminate].
  destruct (__extremes data) as [[[[[i0 i1] i2] i3] [[[e0 e1] e2] e3]]|] eqn:E;
    [|discriminate].
  apply extremes_below in E. simpl in E.
  destruct (truediv e0 (g2 - g0)) as [q0|]; [|discriminate].
  destruct (truediv e1 (g3 - g1)) as [q1|]; [|discriminate].
  destruct (truediv e2 (g2 - g0)) as [q2|]; [|discriminate].
  destruct (truediv e3 (g3 - g1)) as [q3|]; [|discriminate].
  destruct (Qlt_bool (q3 - q1) (q2 - q0) && negb (Nat.eqb i0 i2)) eqn:B1.
  { intros [= <- <-]. apply andb_true_iff in B1 as [_ B1].
    apply negb_true_iff, Nat.eqb_neq in B1. split; [exact B1 | lia]. }
  destruct (Qlt_bool (q2 - q0) (q3 - q1) && negb (Nat.eqb i1 i3)) eqn:B2.
  { intros [= <- <-]. apply andb_true_iff in B2 as [_ B2].
    apply negb_true_iff, Nat.eqb_neq in B2. split; [exact B2 | lia]. }
  intros [= <- <-]. split; [discriminate | lia].
Qed.


(** The fallback: when the two extremes of the axis that the comparison
    selects are the same entry, the seeds are the first two entries. *)
Lemma pick_linear_seeds_same_entry {C D : Type} (root_data : list (mbr * C))
    (data : list (mbr * D)) (g0 g1 g2 g3 : Z) (i0 i1 i2 i3 : nat)
    (e0 e1 e2 e3 : Z) (q0 q1 q2 q3 : Q) :
  _calculate_mbr root_data = Some (g0, g1, g2, g3) ->
  __extremes data = Some ((i0, i1, i2, i3), (e0, e1, e2, e3)) ->
  truediv e0 (g2 - g0) = Ok q0 -> truediv e1 (g3 - g1) = Ok q1 ->
  truediv e2 (g2 - g0) = Ok q2 -> truediv e3 (g3 - g1) = Ok q3 ->
  (Qlt_bool (q3 - q1) (q2 - q0) = true /\ i0 = i2)
  \/ (Qlt_bool (q2 - q0) (q3 - q1) = true /\ i1 = i3)
  \/ (Qlt_bool (q3 - q1) (q2 - q0) = false
      /\ Qlt_bool (q2 - q0) (q3 - q1) = false) ->
  _pick_linear_seeds root_data data = Ok (0, 1)%nat.
Proof.
  intros Hg He H0 H1 H2 H3 Hcase. unfold _pick_linear_seeds.
  rewrite Hg, He, H0, H1, H2, H3.
  assert (Hexcl : Qlt_bool (q3 - q1) (q2 - q0) = true ->
                  Qlt_bool (q2 - q0) (q3 - q1) = false).
  { unfold Qlt_bool. rewrite !negb_true_iff, negb_false_iff.
    intros Hle. apply Qle_bool_iff.
    destruct (Qlt_le_dec (q3 - q1) (q2 - q0)) as [Hlt|Hge].
    - apply Qlt_le_weak. exact Hlt.
    - apply Qle_bool_iff in Hge. congruence. }
  destruct Hcase as [[Hx ->]|[[Hy ->]|[Hx Hy]]].
  - rewrite Hx, (Hexcl Hx), Nat.eqb_refl. reflexivity.
  - rewrite Hy, Nat.eqb_refl.
    destruct (Qlt_bool (q3 - q1) (q2 - q0)); [|reflexivity].
    rewrite (Hexcl eq_refl) in Hy. discriminate.
  - rewrite Hx, Hy. reflexivity.
Qed.

(** ** The distribution loop of the split *)

Lemma calculate_mbr_fold_some {C : Type} (nodes : list (mbr * C)) (t : mbr) :
  exists b, fold_left calculate_mbr_step nodes (Some t) = Some b.
Proof.
  revert t. induction nodes as [|n nodes IH]; intros t; simpl; eauto.
Qed.

Lemma calculate_mbr_app_some {C : Type} (l1 l2 : list (mbr * C)) (b : mbr) :
  _calculate_mbr l1 = Some b -> exists b', _calculate_mbr (l1 ++ l2) = Some b'.
Proof.
  unfold _calculate_mbr. rewrite fold_left_app. intros ->.
  apply calculate_mbr_fold_some.
Qed.

Lemma calculate_mbr_snoc {C : Type} (l : list (mbr * C)) (n : mbr * C)
    (b : mbr) :
  _calculate_mbr l = Some b ->
  _calculate_mbr (l ++ [n]) = Some (_merge b (fst n)).
Proof. unfold _calculate_mbr. rewrite fold_left_app. intros ->. reflexivity. Qed.

Lemma calculate_mbr_nonempty {C : Type} (l : list (mbr * C)) (b : mbr) :
  _calculate_mbr l = Some b -> (1 <= length l)%nat.
Proof. destruct l; simpl; [discriminate | lia]. Qed.

(** Between two groups [_best] returns one of them, with its box merged
    with the new one. *)
Lemma best_of_two (m : mbr) (height : nat) (g0 g1 : group) :
  _best tuple_len m height [g0; g1] = Ok (Some (0%nat, _merge (fst g0) m))
  \/ _best tuple_len m height [g0; g1] = Ok (Some (1%nat, _merge (fst g1) m)).
Proof.
  destruct g0 as [b0 n0], g1 as [b1 n1].
  unfold _best, best_loop, best_step, best_take, tuple_len. simpl.
  repeat match goal with
         | |- context [if ?b then _ else _] => destruct b; simpl
         end; auto.
Qed.

Lemma split_loop_post (min : Z) (height : nat) :
  forall (stack : list entry) (g0 g1 : group),
    group_ok g0 -> group_ok g1 ->
    min <= group_len g0 + Z.of_nat (length stack) ->
    min <= group_len g1 + Z.of_nat (length stack) ->
    2 * min <= group_len g0 + group_len g1 + Z.of_nat (length stack) ->
    exists rest g0' g1',
      split_loop min height stack (g0, g1) = Ok (rest, (g0', g1'))
      /\ group_ok g0' /\ group_ok g1'
      /\ min <= group_len g0' /\ min <= group_len g1'
      /\ fst (snd g0') = fst (snd g0) /\ fst (snd g1') = fst (snd g1)
      /\ snd (snd g0') ++ snd (snd g1')
         ≡ₚ snd (snd g0) ++ snd (snd g1) ++ stack.
Proof.
  induction stack as [|nd stack IH]; intros g0 g1 Hg0 Hg1 H0 H1 H2.
  - exists [], g0, g1. simpl in *. rewrite app_nil_r.
    repeat split; auto; lia.
  - cbn [split_loop].
    set (n := Z.of_nat (length (nd :: stack))) in *.
    assert (Hn : n = Z.of_nat (length stack) + 1)
      by (subst n; cbn [length]; lia).
    pose proof (calculate_mbr_nonempty _ _ Hg0) as L0.
    pose proof (calculate_mbr_nonempty _ _ Hg1) as L1.
    unfold group_len in *.
    destruct g0 as [b0 [h0 es0]], g1 as [b1 [h1 es1]].
    unfold group_ok in Hg0, Hg1. cbn [fst snd] in *.
    destruct ((n <? min) && (Z.of_nat (length es0) + n =? min)) eqn:D0.
    { apply andb_true_iff in D0 as [_ D0]. apply Z.eqb_eq in D0.
      unfold split_fill.
      destruct (calculate_mbr_app_some es0 (rev (nd :: stack)) b0 Hg0)
        as [b' Hb'].
      rewrite Hb'. eexists _, (b', (h0, es0 ++ rev (nd :: stack))), (b1, (h1, es1)).
      split; [reflexivity|]. unfold group_ok. cbn [fst snd].
      rewrite length_app, length_rev.
      repeat split; auto; try lia.
      rewrite <- app_assoc. apply Permutation_app_head.
      rewrite (Permutation_app_comm es1). apply Permutation_app_tail.
      symmetry. apply Permutation_rev. }
    destruct ((n <? min) && (Z.of_nat (length es1) + n =? min)) eqn:D1.
    { apply andb_true_iff in D1 as [_ D1]. apply Z.eqb_eq in D1.
      unfold split_fill.
      destruct (calculate_mbr_app_some es1 (rev (nd :: stack)) b1 Hg1)
        as [b' Hb'].
      rewrite Hb'. eexists _, (b0, (h0, es0)), (b', (h1, es1 ++ rev (nd :: stack))).
      split; [reflexivity|]. unfold group_ok. cbn [fst snd].
      rewrite length_app, length_rev.
      repeat split; auto; try lia.
      do 2 apply Permutation_app_head. symmetry. apply Permutation_rev. }
    assert (Hk0 : min + 1 <= Z.of_nat (length es0) + n).
    { apply andb_false_iff in D0 as [D0|D0].
      - apply Z.ltb_ge in D0. lia.
      - apply Z.eqb_neq in D0. lia. }
    assert (Hk1 : min + 1 <= Z.of_nat (length es1) + n).
    { apply andb_false_iff in D1 as [D1|D1].
      - apply Z.ltb_ge in D1. lia.
      - apply Z.eqb_neq in D1. lia. }
    destruct (best_of_two (fst nd) height (b0, (h0, es0)) (b1, (h1, es1)))
      as [B|B]; rewrite B; cbn [fst snd split_put].
    + destruct (IH (_merge b0 (fst nd), (h0, es0 ++ [nd])) (b1, (h1, es1)))
        as (rest & g0' & g1' & E & K0 & K1 & M0 & M1 & T0 & T1 & P);
        unfold group_ok, group_len; cbn [fst snd];
        rewrite ?length_app; cbn [length];
        auto using calculate_mbr_snoc; try lia.
      exists rest, g0', g1'. rewrite E.
      unfold group_len in *. cbn [fst snd] in *.
      repeat split; auto.
      rewrite P, <- !app_assoc. apply Permutation_app_head.
      cbn [app]. apply Permutation_middle.
    + destruct (IH (b0, (h0, es0)) (_merge b1 (fst nd), (h1, es1 ++ [nd])))
        as (rest & g0' & g1' & E & K0 & K1 & M0 & M1 & T0 & T1 & P);
        unfold group_ok, group_len; cbn [fst snd];
        rewrite ?length_app; cbn [length];
        auto using calculate_mbr_snoc; try lia.
      exists rest, g0', g1'. rewrite E.
      unfold group_len in *. cbn [fst snd] in *.
      repeat split; auto.
      rewrite P, <- !app_assoc. do 2 apply Permutation_app_head.
      reflexivity.
Qed.

Lemma seeds_removed (nodes : list entry) (i j : nat) (ni nj : entry) :
  i <> j -> nodes !! i = Some ni -> nodes !! j = Some nj ->
  py_del (Nat.max i j) nodes = Ok (delete (Nat.max i j) nodes)
  /\ py_del (Nat.min i j) (delete (Nat.max i j) nodes)
     = Ok (delete (Nat.min i j) (delete (Nat.max i j) nodes))
  /\ nodes ≡ₚ ni :: nj :: delete (Nat.min i j) (delete (Nat.max i j) nodes).
Proof.
  intros Hij Hi Hj.
  pose proof (lookup_lt_Some _ _ _ Hi) as Li.
  pose proof (lookup_lt_Some _ _ _ Hj) as Lj.
  assert (Hlen : forall k x, nodes !! k = Some x ->
                 length (delete k nodes) = (length nodes - 1)%nat).
  { intros k x Hk. apply length_delete. eauto. }
  unfold py_del.
  destruct (Nat.ltb_spec (Nat.max i j) (length nodes)) as [_|]; [|lia].
  destruct (Nat.lt_ge_cases i j) as [Hlt|Hge].
  - rewrite (Nat.max_r i j), (Nat.min_l i j) by lia.
    rewrite (Hlen _ _ Hj).
    destruct (Nat.ltb_spec i (length nodes - 1)) as [_|]; [|lia].
    repeat split.
    etransitivity; [apply (delete_Permutation nodes j nj Hj)|].
    etransitivity; [|apply perm_swap].
    apply perm_skip, delete_Permutation.
    rewrite list_lookup_delete_lt by lia. exact Hi.
  - rewrite (Nat.max_l i j), (Nat.min_r i j) by lia.
    rewrite (Hlen _ _ Hi).
    destruct (Nat.ltb_spec j (length nodes - 1)) as [_|]; [|lia].
    repeat split.
    etransitivity; [apply (delete_Permutation nodes i ni Hi)|].
    apply perm_skip, delete_Permutation.
    rewrite list_lookup_delete_lt by lia. exact Hj.
Qed.

(** The split on the values: when seed selection returns, the entries
    are divided between two groups of at least [min] entries each, every
    entry in exactly one of them, under the merge of their boxes. *)
Lemma split_pure_post {C : Type} (min max : Z) (height : nat)
    (root_data : list (mbr * C)) (nodes : list entry) (i j : nat) :
  1 <= min -> 2 * min <= max ->
  Z.of_nat (length nodes) = max + 1 ->
  _pick_linear_seeds root_data nodes = Ok (i, j) ->
  exists rest b0 es0 b1 es1,
    split_pure min height root_data nodes
    = Ok (rest, ((b0, (height, es0)), (b1, (height, es1))))
    /\ _calculate_mbr es0 = Some b0 /\ _calculate_mbr es1 = Some b1
    /\ min <= Z.of_nat (length es0) <= max + 1 - min
    /\ min <= Z.of_nat (length es1) <= max + 1 - min
    /\ es0 ++ es1 ≡ₚ nodes.
Proof.
  intros Hmin Hmax Hlen Hseeds. unfold split_pure. rewrite Hseeds.
  destruct (pick_linear_seeds_inv _ _ _ _ Hseeds) as [Hij Hin].
  destruct Hin as [Li Lj]; [lia|].
  destruct (lookup_lt_is_Some_2 nodes i Li) as [ni Hi].
  destruct (lookup_lt_is_Some_2 nodes j Lj) as [nj Hj].
  rewrite Hi, Hj.
  destruct (seeds_removed nodes i j ni nj Hij Hi Hj) as (D1 & D2 & P).
  rewrite D1, D2.
  set (nodes2 := delete (Nat.min i j) (delete (Nat.max i j) nodes)) in *.
  assert (L2 : Z.of_nat (length nodes2) = max - 1).
  { apply Permutation_length in P. cbn [length] in P. lia. }
  destruct (split_loop_post min height (rev nodes2)
              (fst ni, (height, [ni])) (fst nj, (height, [nj])))
    as (rest & [b0 [h0 es0]] & [b1 [h1 es1]] & E & K0 & K1 & M0 & M1 & T0 & T1 & Q);
    unfold group_ok, group_len; cbn [fst snd length];
    rewrite ?length_rev; try reflexivity; try lia.
  unfold group_ok, group_len in *. cbn [fst snd] in *. subst h0 h1.
  exists rest, b0, es0, b1, es1. rewrite E.
  assert (Hperm : es0 ++ es1 ≡ₚ nodes).
  { rewrite Q, P. cbn [app]. do 2 apply perm_skip.
    symmetry. apply Permutation_rev. }
  pose proof (Permutation_length Hperm) as Hl. rewrite length_app in Hl.
  repeat split; auto; lia.
Qed.

(** [_split] on the tree: the list [nodes] at [l] holds max_entries + 1
    entries and seed selection returns.  Two new nodes of the height of
    the split node are returned, each with its box. *)
Lemma split_post (st : pystate) (height : nat) (l : loc)
    (nodes : list entry) (hr : nat) (lr : loc) (root_data : list entry)
    (i j : nat) :
  heap st !! l = Some nodes ->
  _root st = Some (hr, lr) ->
  heap st !! lr = Some root_data ->
  1 <= _min st -> 2 * _min st <= _max st ->
  Z.of_nat (length nodes) = _max st + 1 ->
  _pick_linear_seeds root_data nodes = Ok (i, j) ->
  exists st' b0 l0 es0 b1 l1 es1,
    _split height l st
    = (Ok [(b0, CNode height l0); (b1, CNode height l1)], st')
    /\ l0 <> l1
    /\ heap st' !! l0 = Some es0 /\ heap st' !! l1 = Some es1
    /\ _calculate_mbr es0 = Some b0 /\ _calculate_mbr es1 = Some b1
    /\ _min st <= Z.of_nat (length es0) <= _max st + 1 - _min st
    /\ _min st <= Z.of_nat (length es1) <= _max st + 1 - _min st
    /\ Z.of_nat (length es0) + Z.of_nat (length es1)
       = Z.of_nat (length nodes)
    /\ es0 ++ es1 ≡ₚ nodes
    /\ _root st' = _root st /\ _size st' = _size st.
Proof.
  intros Hl Hr Hlr Hmin Hmax Hlen Hseeds.
  destruct (split_pure_post (_min st) (_max st) height root_data nodes i j
              Hmin Hmax Hlen Hseeds)
    as (rest & b0 & es0 & b1 & es1 & E & K0 & K1 & M0 & M1 & P).
  unfold _split, bind, read, get_root, get_min, lift, write, alloc, ret.
  rewrite Hl, Hr, Hlr, E. cbn [fst snd heap set_heap].
  eexists _, b0, _, es0, b1, _, es1. split; [reflexivity|].
  cbn [heap _root _size set_heap].
  rewrite !length_app, length_insert. cbn [length].
  pose proof (Permutation_length P) as HP. rewrite length_app in HP.
  repeat split; auto; try lia.
  - rewrite lookup_app_l by (rewrite length_app, length_insert; simpl; lia).
    apply list_lookup_middle. rewrite length_insert. reflexivity.
  - apply list_lookup_middle.
    rewrite length_app, length_insert. reflexivity.
Qed.

(** ** The height errors of insertion *)

Lemma no_height_error_ret {A : Type} (a : A) : no_height_error (ret a).
Proof. intros st e st'. discriminate. Qed.

Lemma no_height_error_raise {A : Type} (e : exn) :
  is_height_error e = false -> no_height_error (@raise A e).
Proof. intros He st e' st' [= <- _]. exact He. Qed.

Lemma no_height_error_lift {A : Type} (r : res A) :
  (forall e, r = Raise e -> is_height_error e = false) ->
  no_height_error (lift r).
Proof. intros Hr st e st' [= H _]. auto. Qed.

Lemma no_height_error_bind {A B : Type} (m : M A) (f : A -> M B) :
  no_height_error m -> (forall a, no_height_error (f a)) ->
  no_height_error (bind m f).
Proof.
  intros Hm Hf st e st'. unfold bind.
  destruct (m st) as [[a|e0] st0] eqn:E.
  - apply Hf.
  - intros [= <- _]. eapply Hm; eauto.
Qed.

Lemma no_height_error_read (l : loc) : no_height_error (read l).
Proof.
  intros st e st'. unfold read.
  destruct (heap st !! l); [discriminate|]. intros [= <- _]. reflexivity.
Qed.

Lemma no_height_error_state {A : Type} (f : pystate -> A)
    (g : pystate -> pystate) :
  no_height_error (fun st => (Ok (f st), g st)).
Proof. intros st e st'. discriminate. Qed.

Ltac no_height_error_tac :=
  repeat first
    [ apply no_height_error_ret
    | apply no_height_error_raise; reflexivity
    | apply no_height_error_read
    | apply (no_height_error_state (fun _ => tt))
    | apply (no_height_error_state (fun st => length (heap st)))
    | apply (no_height_error_state _root)
    | apply (no_height_error_state _max)
    | apply (no_height_error_state _min)
    | apply no_height_error_bind; [|intros ?]
    | match goal with
      | |- no_height_error (match ?x with _ => _ end) => destruct x
      | |- no_height_error (if ?x then _ else _) => destruct x
      end ].

Lemma best_loop_raise {C : Type} (len : C -> res Z) (m : mbr) (height : nat)
    (P : exn -> Prop) :
  (forall d e, len d = Raise e -> P e) ->
  forall data best i e,
    best_loop len m height best i data = Raise e -> P e.
Proof.
  intros Hlen. induction data as [|[mbr_child d] data IH]; intros best i e.
  - discriminate.
  - cbn [best_loop].
    destruct (best_step len m height best i mbr_child d) as [best'|e0] eqn:E.
    + apply IH.
    + intros [= <-]. revert E. unfold best_step, best_take.
      destruct (len d) as [n|e1] eqn:L.
      * destruct best as [b|]; [|discriminate].
        repeat match goal with
               | |- context [if ?c then _ else _] => destruct c
               end; discriminate.
      * specialize (Hlen _ _ L).
        destruct best as [b|]; [|intros [= <-]; exact Hlen].
        repeat match goal with
               | |- context [if ?c then _ else _] => destruct c
               end; intros [= <-] || discriminate; exact Hlen.
Qed.

Lemma best_raise {C : Type} (len : C -> res Z) (m : mbr) (height : nat)
    (P : exn -> Prop) (data : list (mbr * C)) (e : exn) :
  (forall d e, len d = Raise e -> P e) ->
  _best len m height data = Raise e -> P e.
Proof.
  intros Hlen. unfold _best.
  destruct (best_loop len m height None 0%nat data) as [[b|]|e0] eqn:E;
    try discriminate.
  intros [= <-]. eapply best_loop_raise; eauto.
Qed.

Lemma content_len_raise (c : content) (e : exn) :
  content_len c = Raise e -> is_height_error e = false.
Proof. destruct c; [intros [= <-]; reflexivity | discriminate]. Qed.

Lemma pick_linear_seeds_raise {C D : Type} (root_data : list (mbr * C))
    (data : list (mbr * D)) (e : exn) :
  _pick_linear_seeds root_data data = Raise e -> is_height_error e = false.
Proof.
  unfold _pick_linear_seeds.
  repeat match goal with
         | |- context [match ?x with _ => _ end] => destruct x
         end; try discriminate; intros [= <-]; reflexivity.
Qed.

Lemma split_loop_raise (min : Z) (height : nat) :
  forall stack split e,
    split_loop min height stack split = Raise e -> is_height_error e = false.
Proof.
  induction stack as [|nd stack IH]; intros [g0 g1] e.
  - discriminate.
  - cbn [split_loop]. unfold split_fill.
    destruct g0 as [b0 [h0 es0]], g1 as [b1 [h1 es1]].
    repeat match goal with
           | |- context [if ?c then _ else _] => destruct c
           | |- context [match _calculate_mbr ?x with _ => _ end] =>
               destruct (_calculate_mbr x)
           end; try discriminate; try (intros [= <-]; reflexivity).
    destruct (best_of_two (fst nd) height (b0, (h0, es0)) (b1, (h1, es1)))
      as [B|B]; rewrite B; apply IH.
Qed.

Lemma split_pure_raise {C : Type} (min : Z) (height : nat)
    (root_data : list (mbr * C)) (nodes : list entry) (e : exn) :
  split_pure min height root_data nodes = Raise e ->
  is_height_error e = false.
Proof.
  unfold split_pure, py_del.
  destruct (_pick_linear_seeds root_data nodes) as [[i j]|e0] eqn:S.
  - repeat match goal with
           | |- context [match ?x !! ?i with _ => _ end] => destruct (x !! i)
           | |- context [if ?c then _ else _] => destruct c
           end; try (intros [= <-]; reflexivity).
    apply split_loop_raise.
  - intros [= <-]. eapply pick_linear_seeds_raise; eauto.
Qed.

Lemma split_no_height_error (height : nat) (l : loc) :
  no_height_error (_split height l).
Proof.
  unfold _split. no_height_error_tac.
  apply no_height_error_lift. intros e. apply split_pure_raise.
Qed.

Lemma add_node_no_height_error (fuel : nat) :
  forall nd target value m,
    no_height_error (_add_node fuel nd target value m).
Proof.
  induction fuel as [|fuel IH]; intros nd target value m; cbn [_add_node].
  - no_height_error_tac.
  - destruct nd as [v|height l]; [no_height_error_tac|].
    destruct (negb (Nat.eqb height target)).
    + apply no_height_error_bind; [no_height_error_tac|]. intros data.
      apply no_height_error_bind.
      { apply no_height_error_lift. intros e He.
        eapply (best_raise content_len m height
                  (fun e => is_height_error e = false)); eauto.
        apply content_len_raise. }
      intros [[i_best mbr_best]|]; [|no_height_error_tac].
      destruct (data !! i_best) as [[m0 child]|]; [|no_height_error_tac].
      apply no_height_error_bind; [no_height_error_tac|]. intros _.
      apply no_height_error_bind; [apply IH|].
      intros [sp|]; [|no_height_error_tac].
      apply no_height_error_bind; [no_height_error_tac|]. intros data'.
      apply no_height_error_bind.
      { apply no_height_error_lift. unfold py_del. intros e.
        destruct (_ <? _)%nat; [discriminate | intros [= <-]; reflexivity]. }
      intros data''. no_height_error_tac.
      apply no_height_error_lift. intros e. apply split_pure_raise.
    + no_height_error_tac.
      apply no_height_error_lift. intros e. apply split_pure_raise.
Qed.

Lemma add_normalized_mbr_height_error (fuel target : nat) (m : mbr)
    (value : content) (st : pystate) :
  (bad_target (_root st) target ->
   exists e, _add_normalized_mbr fuel target m value st = (Raise e, st)
             /\ is_height_error e = true)
  /\ (forall e st', _add_normalized_mbr fuel target m value st = (Raise e, st') ->
        is_height_error e = true -> bad_target (_root st) target).
Proof.
  unfold _add_normalized_mbr, bad_target, bind, get_root.
  destruct (_root st) as [[h l]|].
  - destruct (Nat.ltb_spec h target) as [Hlt|Hge].
    + split; [eexists; split; reflexivity | auto].
    + split; [lia|]. intros e st' H He. exfalso.
      destruct (_add_node fuel (CNode h l) target value m st)
        as [[sp|e0] st0] eqn:E.
      * assert (Hn : no_height_error
                       (match sp with
                        | None => ret tt
                        | Some sp =>
                            match sp with
                            | (_, CNode h0 _) :: _ =>
                                bind (alloc sp) (fun l' => put_root (Some (S h0, l')))
                            | (_, CVal _) :: _ => raise TypeError
                            | [] => raise IndexError
                            end
                        end)).
        { unfold alloc, put_root. no_height_error_tac. }
        apply Hn in H. congruence.
      * injection H as <- _.
        apply (add_node_no_height_error fuel) in E. congruence.
  - destruct (Nat.eqb_spec target 0) as [->|Hne]; simpl.
    + split; [intros []; reflexivity|].
      intros e st'. unfold alloc, put_root. discriminate.
    + split; [eexists; split; reflexivity | auto].
Qed.

(** ** What [_best] returns *)

Section BestFirst.
Context {C : Type} (len : C -> res Z) (m : mbr) (height : nat).

Lemma best_step_inv (seen : list (mbr * C)) (best : option best_state)
    (mbr_child : mbr) (d : C) :
  len d = Ok 2 ->
  best_inv m seen best ->
  exists best',
    best_step len m height best (length seen) mbr_child d = Ok (Some best')
    /\ best_inv m (seen ++ [(mbr_child, d)]) (Some best').
Proof.
  intros len_is_2 Hinv. unfold best_step, best_take. rewrite len_is_2.
  destruct best as [b|]; simpl in Hinv.
  - destruct Hinv as (mb & c & Hi & Hm & Ha & Hd & Hl & Hbefore & Hall).
    pose proof (lookup_lt_Some _ _ _ Hi) as Hlt.
    rewrite Hl, Ha, Hd. unfold cost. cbn [fst snd].
    change (2 <? 2) with false.
    set (a' := _area (_merge mbr_child m)).
    set (d' := a' - _area mbr_child).
    set (ab := _area (_merge mb m)).
    set (db := ab - _area mb).
    assert (Hkeep : cost_le (cost m mb) (cost m mbr_child) ->
                    best_inv m (seen ++ [(mbr_child, d)]) (Some b)).
    { intros Hle. exists mb, c.
      rewrite lookup_app_l by lia. repeat split; auto.
      - intros j mj cj Hj Hjb. rewrite lookup_app_l in Hj by lia. eauto.
      - intros j mj cj Hj.
        destruct (Nat.lt_ge_cases j (length seen)) as [Hjl|Hjg].
        + rewrite lookup_app_l in Hj by lia. eauto.
        + apply lookup_lt_Some in Hj as Hj'. rewrite length_app in Hj'.
          simpl in Hj'.
          replace j with (length seen) in Hj by lia.
          rewrite list_lookup_middle in Hj by reflexivity.
          injection Hj as <- <-. exact Hle. }
    destruct ((d' <? db) || ((d' =? db) && (a' <? ab))) eqn:B1.
    + eexists. split; [reflexivity|].
      assert (Hlt' : cost_lt (cost m mbr_child) (cost m mb)).
      { unfold cost_lt, cost. cbn [fst snd]. fold a' d' ab db.
        apply orb_true_iff in B1 as [B|B].
        - left. apply Z.ltb_lt. exact B.
        - apply andb_true_iff in B as [B B']. right.
          split; [apply Z.eqb_eq | apply Z.ltb_lt]; assumption. }
      exists mbr_child, d. cbn [i_best mbr_best area_best delta_area_best len_best].
      rewrite list_lookup_middle by reflexivity.
      repeat split; auto.
      * intros j mj cj Hj Hjl. rewrite lookup_app_l in Hj by lia.
        specialize (Hall _ _ _ Hj).
        unfold cost_lt, cost_le in *. lia.
      * intros j mj cj Hj.
        destruct (Nat.lt_ge_cases j (length seen)) as [Hjl|Hjg].
        -- rewrite lookup_app_l in Hj by lia. specialize (Hall _ _ _ Hj).
           unfold cost_lt, cost_le in *. lia.
        -- apply lookup_lt_Some in Hj as Hj'. rewrite length_app in Hj'.
           simpl in Hj'.
           replace j with (length seen) in Hj by lia.
           rewrite list_lookup_middle in Hj by reflexivity.
           injection Hj as <- <-. unfold cost_le. lia.
    + assert (Hle : cost_le (cost m mb) (cost m mbr_child)).
      { unfold cost_le, cost. cbn [fst snd]. fold a' d' ab db.
        apply orb_false_iff in B1 as [B B'].
        apply Z.ltb_ge in B.
        apply andb_false_iff in B'.
        destruct B' as [B'|B'];
          [apply Z.eqb_neq in B' | apply Z.ltb_ge in B']; lia. }
      destruct ((d' =? db) && (a' =? ab) && negb (Nat.eqb height 0));
        (eexists; split; [reflexivity | auto]).
  - subst seen. eexists. split; [reflexivity|].
    exists mbr_child, d. simpl. repeat split; auto.
    + intros j mj cj Hj Hlt. lia.
    + intros [|j] mj cj Hj; simpl in Hj; [|discriminate].
      injection Hj as <- <-. unfold cost_le. lia.
Qed.

Lemma best_loop_inv (rest : list (mbr * C)) :
  Forall (fun e => len (snd e) = Ok 2) rest ->
  forall seen best,
    best_inv m seen best ->
    exists best',
      best_loop len m height best (length seen) rest = Ok best'
      /\ best_inv m (seen ++ rest) best'.
Proof.
  induction 1 as [|[mbr_child d] rest Hd _ IH]; intros seen best Hinv.
  - exists best. rewrite app_nil_r. auto.
  - cbn [best_loop].
    destruct (best_step_inv seen best mbr_child d Hd Hinv) as (b' & E & Hinv').
    rewrite E.
    destruct (IH (seen ++ [(mbr_child, d)]) (Some b') Hinv')
      as (best' & E' & Hinv'').
    rewrite length_app in E'. simpl in E'.
    replace (S (length seen)) with (length seen + 1)%nat by lia.
    rewrite <- app_assoc in Hinv''. eauto.
Qed.

Lemma best_first_minimum (data : list (mbr * C)) :
  Forall (fun e => len (snd e) = Ok 2) data ->
  data <> [] ->
  exists i mb c,
    _best len m height data = Ok (Some (i, _merge mb m))
    /\ data !! i = Some (mb, c)
    /\ (forall j mj cj, data !! j = Some (mj, cj) ->
          cost_le (cost m mb) (cost m mj))
    /\ (forall j mj cj, data !! j = Some (mj, cj) -> (j < i)%nat ->
          cost_lt (cost m mb) (cost m mj)).
Proof.
  intros Hlen Hne. unfold _best.
  destruct (best_loop_inv data Hlen [] None eq_refl) as (best' & E & Hinv).
  simpl in E, Hinv. rewrite E.
  destruct best' as [b|]; simpl in Hinv; [|contradiction].
  destruct Hinv as (mb & c & Hi & Hm & _ & _ & _ & Hbefore & Hall).
  exists (i_best b), mb, c. rewrite Hm. repeat split; eauto.
Qed.
End BestFirst.

(** ** Further properties of the split and of insertion *)

(** X1: when seed selection returns on a list of max_entries + 1 entries,
    [_split] returns two (box, node) pairs; the two nodes are new lists,
    each holds between min_entries and the total less min_entries
    entries, together they hold every entry of the list exactly once, and
    each box is the merge of the boxes of the entries of its node.  The
    root and the size of the tree are not touched. *)
Theorem split_returns_two_valid_nodes (st : pystate) (height : nat) (l : loc)
    (nodes : list entry) (hr : nat) (lr : loc) (root_data : list entry)
    (i j : nat) :
  heap st !! l = Some nodes ->
  _root st = Some (hr, lr) ->
  heap st !! lr = Some root_data ->
  1 <= _min st -> 2 * _min st <= _max st ->
  Z.of_nat (length nodes) = _max st + 1 ->
  _pick_linear_seeds root_data nodes = Ok (i, j) ->
  exists st' b0 l0 es0 b1 l1 es1,
    _split height l st
    = (Ok [(b0, CNode height l0); (b1, CNode height l1)], st')
    /\ l0 <> l1
    /\ heap st' !! l0 = Some es0 /\ heap st' !! l1 = Some es1
    /\ _calculate_mbr es0 = Some b0 /\ _calculate_mbr es1 = Some b1
    /\ _min st <= Z.of_nat (length es0) <= _max st + 1 - _min st
    /\ _min st <= Z.of_nat (length es1) <= _max st + 1 - _min st
    /\ Z.of_nat (length es0) + Z.of_nat (length es1)
       = Z.of_nat (length nodes)
    /\ es0 ++ es1 ≡ₚ nodes
    /\ _root st' = _root st /\ _size st' = _size st.
Proof. apply split_post. Qed.

Lemma split_returns_two_valid_nodes_witness :
  heap overflowing_root !! 0%nat = Some overflowing_leaf
  /\ _pick_linear_seeds overflowing_leaf overflowing_leaf = Ok (0, 1)%nat
  /\ exists st' b0 l0 es0 b1 l1 es1,
       _split 0 0 overflowing_root
       = (Ok [(b0, CNode 0 l0); (b1, CNode 0 l1)], st')
       /\ l0 <> l1
       /\ heap st' !! l0 = Some es0 /\ heap st' !! l1 = Some es1
       /\ _calculate_mbr es0 = Some b0 /\ _calculate_mbr es1 = Some b1
       /\ _min overflowing_root <= Z.of_nat (length es0)
          <= _max overflowing_root + 1 - _min overflowing_root
       /\ _min overflowing_root <= Z.of_nat (length es1)
          <= _max overflowing_root + 1 - _min overflowing_root
       /\ Z.of_nat (length es0) + Z.of_nat (length es1)
          = Z.of_nat (length overflowing_leaf)
       /\ es0 ++ es1 ≡ₚ overflowing_leaf
       /\ _root st' = _root overflowing_root
       /\ _size st' = _size overflowing_root.
Proof.
  split; [reflexivity|]. split; [reflexivity|].
  apply (split_returns_two_valid_nodes overflowing_root 0 0 overflowing_leaf
           0 0 overflowing_leaf 0 1);
    first [reflexivity | simpl; lia].
Defined.

(** X2: insertion at a target height raises one of its two height errors
    exactly when the target exceeds the height of the tree, or the tree is
    empty and the target is not 0; the state is then left as it was. *)
Theorem add_raises_height_error_iff_bad_target (fuel target : nat) (m : mbr)
    (value : content) (st : pystate) :
  ((exists e st', _add_normalized_mbr fuel target m value st = (Raise e, st')
                  /\ is_height_error e = true)
   <-> bad_target (_root st) target)
  /\ (forall e st', _add_normalized_mbr fuel target m value st = (Raise e, st') ->
        is_height_error e = true -> st' = st).
Proof.
  destruct (add_normalized_mbr_height_error fuel target m value st) as [H1 H2].
  split; [split|].
  - intros (e & st' & E & He). eauto.
  - intros Hb. destruct (H1 Hb) as (e & E & He). eauto.
  - intros e st' E He. destruct (H1 (H2 _ _ E He)) as (e' & E' & _).
    congruence.
Qed.



(** X4: among the entries of an internal node [_best] returns the first one
    that minimises the area increase and then the merged area; the number
    of entries of the children plays no part. *)
Theorem best_returns_first_minimum (m : mbr) (height : nat)
    (data : list entry) :
  Forall (fun e => exists h l, snd e = CNode h l) data ->
  data <> [] ->
  exists i mb c,
    _best content_len m height data = Ok (Some (i, _merge mb m))
    /\ data !! i = Some (mb, c)
    /\ (forall j mj cj, data !! j = Some (mj, cj) ->
          cost_le (cost m mb) (cost m mj))
    /\ (forall j mj cj, data !! j = Some (mj, cj) -> (j < i)%nat ->
          cost_lt (cost m mb) (cost m mj)).
Proof.
  intros Hn Hne. apply best_first_minimum; [|exact Hne].
  eapply Forall_impl; [exact Hn|].
  intros e (h & l & ->). reflexivity.
Qed.

Lemma best_returns_first_minimum_witness :
  exists i mb c,
    _best content_len (5, 5, 5, 5) 1
      [((0, 0, 10, 10), CNode 0 1%nat); ((0, 0, 10, 10), CNode 0 2%nat)]
    = Ok (Some (i, _merge mb (5, 5, 5, 5)))
    /\ [((0, 0, 10, 10), CNode 0 1%nat); ((0, 0, 10, 10), CNode 0 2%nat)] !! i
       = Some (mb, c)
    /\ (forall j mj cj,
          [((0, 0, 10, 10), CNode 0 1%nat); ((0, 0, 10, 10), CNode 0 2%nat)] !! j
          = Some (mj, cj) ->
          cost_le (cost (5, 5, 5, 5) mb) (cost (5, 5, 5, 5) mj))
    /\ (forall j mj cj,
          [((0, 0, 10, 10), CNode 0 1%nat); ((0, 0, 10, 10), CNode 0 2%nat)] !! j
          = Some (mj, cj) -> (j < i)%nat ->
          cost_lt (cost (5, 5, 5, 5) mb) (cost (5, 5, 5, 5) mj)).
Proof.
  apply (best_returns_first_minimum (5, 5, 5, 5) 1
           [((0, 0, 10, 10), CNode 0 1%nat); ((0, 0, 10, 10), CNode 0 2%nat)]).
  - repeat constructor; eauto.
  - discriminate.
Defined.

(** ** The size counter *)

Lemma keeps_counters_ret {A : Type} (a : A) : keeps_counters (ret a).
Proof. intros st r st' [= _ <-]. auto. Qed.

Lemma keeps_counters_raise {A : Type} (e : exn) : keeps_counters (@raise A e).
Proof. intros st r st' [= _ <-]. auto. Qed.

Lemma keeps_counters_lift {A : Type} (r : res A) : keeps_counters (lift r).
Proof. intros st r' st' [= _ <-]. auto. Qed.

Lemma keeps_counters_bind {A B : Type} (m : M A) (f : A -> M B) :
  keeps_counters m -> (forall a, keeps_counters (f a)) ->
  keeps_counters (bind m f).
Proof.
  intros Hm Hf st r st'. unfold bind.
  destruct (m st) as [[a|e] st0] eqn:E.
  - intros H. apply Hf in H. apply Hm in E. intuition congruence.
  - intros [= _ <-]. apply Hm in E. exact E.
Qed.

Lemma keeps_counters_read (l : loc) : keeps_counters (read l).
Proof.
  intros st r st'. unfold read.
  destruct (heap st !! l); intros [= _ <-]; auto.
Qed.

Lemma keeps_counters_write (l : loc) (data : list entry) :
  keeps_counters (write l data).
Proof. intros st r st' [= _ <-]. auto. Qed.

Lemma keeps_counters_alloc (data : list entry) : keeps_counters (alloc data).
Proof. intros st r st' [= _ <-]. auto. Qed.

Lemma keeps_counters_put_root (r : option node) : keeps_counters (put_root r).
Proof. intros st r' st' [= _ <-]. auto. Qed.

Lemma keeps_counters_get {A : Type} (f : pystate -> A) :
  keeps_counters (fun st => (Ok (f st), st)).
Proof. intros st r st' [= _ <-]. auto. Qed.

Ltac keeps_counters_tac :=
  repeat first
    [ apply keeps_counters_ret
    | apply keeps_counters_raise
    | apply keeps_counters_read
    | apply keeps_counters_write
    | apply keeps_counters_alloc
    | apply keeps_counters_put_root
    | apply keeps_counters_lift
    | apply (keeps_counters_get _root)
    | apply (keeps_counters_get _max)
    | apply (keeps_counters_get _min)
    | assumption
    | apply keeps_counters_bind; [|intros ?]
    | match goal with
      | |- keeps_counters (match ?x with _ => _ end) => destruct x
      | |- keeps_counters (if ?x then _ else _) => destruct x
      end ].

Lemma split_keeps_counters (height : nat) (l : loc) :
  keeps_counters (_split height l).
Proof. unfold _split. keeps_counters_tac. Qed.

Lemma add_node_keeps_counters (fuel : nat) :
  forall nd target value m,
    keeps_counters (_add_node fuel nd target value m).
Proof.
  induction fuel as [|fuel IH]; intros nd target value m; cbn [_add_node].
  - keeps_counters_tac.
  - pose proof (IH) as IH'.
    destruct nd as [v|height l]; [keeps_counters_tac|].
    destruct (negb (Nat.eqb height target)).
    + apply keeps_counters_bind; [keeps_counters_tac|]. intros data.
      apply keeps_counters_bind; [keeps_counters_tac|].
      intros [[i_best mbr_best]|]; [|keeps_counters_tac].
      destruct (data !! i_best) as [[m0 child]|]; [|keeps_counters_tac].
      apply keeps_counters_bind; [keeps_counters_tac|]. intros _.
      apply keeps_counters_bind; [apply IH|].
      intros [sp|]; [|keeps_counters_tac].
      clear IH IH'. keeps_counters_tac.
    + clear IH IH'. keeps_counters_tac.
Qed.

Lemma add_normalized_mbr_keeps_counters (fuel target : nat) (m : mbr)
    (value : content) :
  keeps_counters (_add_normalized_mbr fuel target m value).
Proof.
  unfold _add_normalized_mbr.
  apply keeps_counters_bind; [keeps_counters_tac|].
  intros [[h l]|].
  - destruct (h <? target)%nat; [keeps_counters_tac|].
    apply keeps_counters_bind; [apply add_node_keeps_counters|].
    intros sp. keeps_counters_tac.
  - keeps_counters_tac.
Qed.

Lemma delete_node_keeps_counters (fuel : nat) :
  forall nd i m value, keeps_counters (_delete_node fuel nd i m value).
Proof.
  induction fuel as [|fuel IH]; intros nd i m value; cbn [_delete_node].
  - keeps_counters_tac.
  - destruct nd as [v|height l]; [keeps_counters_tac|].
    apply keeps_counters_bind; [keeps_counters_tac|]. intros data.
    destruct (data !! i) as [[mbr_node contents_node]|]; [|keeps_counters_tac].
    destruct (negb (Nat.eqb height 0)).
    + destruct (_contains mbr_node m); [|apply IH].
      apply keeps_counters_bind; [apply IH|].
      intros [[[|] inserts]|]; [| |apply IH];
        clear IH; keeps_counters_tac.
    + destruct (mbr_eqb mbr_node m && value_test value contents_node);
        [|apply IH].
      clear IH. keeps_counters_tac.
Qed.

Lemma reinsert_leaves_keeps_counters (fuel : nat) :
  forall stk, keeps_counters (reinsert_leaves fuel stk).
Proof.
  induction fuel as [|fuel IH]; intros stk; cbn [reinsert_leaves].
  - keeps_counters_tac.
  - intros st r st'.
    destruct (leaves_next (S fuel) (heap st) stk) as [[[[m value]|] stk']|e].
    + apply keeps_counters_bind;
        [apply add_normalized_mbr_keeps_counters | intros _; apply IH].
    + intros [= _ <-]. auto.
    + intros [= _ <-]. auto.
Qed.

Lemma reinsert_keeps_counters (fuel : nat) (inserts : list orphan) :
  keeps_counters (_reinsert fuel inserts).
Proof.
  unfold _reinsert. apply keeps_counters_bind; [keeps_counters_tac|].
  intros root. generalize (match root with Some (h, _) => h | None => 0%nat end).
  intros max_height.
  induction inserts as [|[[h m] c] inserts IH]; cbn [reinsert_loop].
  - keeps_counters_tac.
  - apply keeps_counters_bind; [|intros _; exact IH].
    destruct (max_height <? h)%nat.
    + destruct c; [keeps_counters_tac | apply reinsert_leaves_keeps_counters].
    + apply add_normalized_mbr_keeps_counters.
Qed.

Lemma collapse_root_keeps_counters : keeps_counters collapse_root.
Proof. unfold collapse_root. keeps_counters_tac. Qed.

(** The loop of the deletion counts what it takes off the size. *)
Lemma delete_loop_counts (fuel : nat) (q : mbr) (value : pyval)
    (mt : MatchType) :
  forall stk count st n st',
    delete_loop fuel q value mt stk count st = (Ok n, st') ->
    count <= n
    /\ _size st' = _size st - (n - count)
    /\ _max st' = _max st /\ _min st' = _min st.
Proof.
  induction fuel as [|fuel IH]; intros stk count st n st'; cbn [delete_loop].
  - discriminate.
  - destruct (get_next (S fuel) (heap st) q value mt stk)
      as [[[[v mbr_match]|] stk']|e]; [| |discriminate].
    + unfold bind at 1. unfold get_root at 1.
      unfold bind at 1. unfold lift at 1.
      destruct (root_content (_root st)) as [r|e]; [|discriminate].
      unfold bind at 1.
      destruct (_delete_node fuel r 0 mbr_match value st)
        as [[[[delete inserts]|]|e] st1] eqn:E1; [| discriminate..].
      apply delete_node_keeps_counters in E1 as (S1 & X1 & N1).
      unfold bind at 1.
      destruct ((if delete then put_root None else ret tt) st1)
        as [[[]|e] st2] eqn:E2; [|discriminate].
      assert (K2 : _size st2 = _size st1 /\ _max st2 = _max st1
                   /\ _min st2 = _min st1).
      { destruct delete; injection E2 as <-; auto. }
      destruct K2 as (S2 & X2 & N2).
      unfold bind at 1.
      destruct (_reinsert fuel inserts st2) as [[[]|e] st3] eqn:E3;
        [|discriminate].
      apply reinsert_keeps_counters in E3 as (S3 & X3 & N3).
      unfold bind at 1. unfold add_size at 1.
      unfold bind at 1.
      destruct (collapse_root (set_size (_size st3 + -1) st3))
        as [[[]|e] st4] eqn:E4; [|discriminate].
      apply collapse_root_keeps_counters in E4 as (S4 & X4 & N4).
      simpl in S4, X4, N4.
      intros H. apply IH in H as (Hc & Hs & Hx & Hn).
      repeat split; try lia; congruence.
    + intros [= <- <-]. repeat split; lia.
Qed.

(** X5: add_point and add_box that return have incremented the size by
    exactly one; when they raise the size is the one before the call.  The
    two bounds of the tree are never changed. *)
Theorem add_increments_size (fuel : nat) (value : pyval) (x y x1 y1 x2 y2 : Z)
    (st : pystate) :
  (forall r st', add_point fuel value x y st = (r, st') ->
     _size st' = (if is_raise r then _size st else _size st + 1)
     /\ _max st' = _max st /\ _min st' = _min st)
  /\ (forall r st', add_box fuel value x1 y1 x2 y2 st = (r, st') ->
        _size st' = (if is_raise r then _size st else _size st + 1)
        /\ _max st' = _max st /\ _min st' = _min st).
Proof.
  split; intros r st'; unfold add_point, add_box, bind.
  - destruct (_add_normalized_mbr fuel 0 (x, y, x, y) (CVal value) st)
      as [[[]|e] st1] eqn:E;
      apply add_normalized_mbr_keeps_counters in E as (S1 & X1 & N1).
    + intros [= <- <-]. simpl. repeat split; congruence.
    + intros [= <- <-]. simpl. auto.
  - destruct (_add_normalized_mbr fuel 0 (_normalize_mbr x1 y1 x2 y2)
                (CVal value) st) as [[[]|e] st1] eqn:E;
      apply add_normalized_mbr_keeps_counters in E as (S1 & X1 & N1).
    + intros [= <- <-]. simpl. repeat split; congruence.
    + intros [= <- <-]. simpl. auto.
Qed.

(** X6: a deletion that returns n has taken exactly n off the size, and
    n is not negative. *)
Theorem delete_returns_size_decrease (fuel : nat) (value : pyval)
    (mt : MatchType) (x y x1 y1 x2 y2 : Z) (st : pystate) :
  (forall n st', delete_point fuel x y value mt st = (Ok n, st') ->
     0 <= n /\ _size st' = _size st - n)
  /\ (forall n st', delete_box fuel x1 y1 x2 y2 value mt st = (Ok n, st') ->
        0 <= n /\ _size st' = _size st - n).
Proof.
  split; intros n st' H;
    unfold delete_point, delete_box, _delete_normalized_mbr, bind, get_root in H;
    apply delete_loop_counts in H as (Hc & Hs & _); split; lia.
Qed.

(** ** Insertion keeps the tree in order *)

Lemma merge_assoc (a b c : mbr) : _merge (_merge a b) c = _merge a (_merge b c).
Proof.
  destruct a as [[[? ?] ?] ?], b as [[[? ?] ?] ?], c as [[[? ?] ?] ?]. simpl.
  rewrite !Z.min_assoc, !Z.max_assoc. reflexivity.
Qed.

Lemma merge_comm (a b : mbr) : _merge a b = _merge b a.
Proof.
  destruct a as [[[? ?] ?] ?], b as [[[? ?] ?] ?]. simpl.
  f_equal; [f_equal; [f_equal|]|]; auto using Z.min_comm, Z.max_comm.
Qed.

Lemma calculate_mbr_fold {C : Type} (l : list (mbr * C)) (t : mbr) :
  fold_left calculate_mbr_step l (Some t) = omerge (Some t) (_calculate_mbr l).
Proof.
  revert t. induction l as [|x l IH]; intros t; [reflexivity|].
  unfold _calculate_mbr. simpl. rewrite !IH.
  destruct (_calculate_mbr l); simpl; [|reflexivity].
  rewrite merge_assoc. reflexivity.
Qed.

Lemma calculate_mbr_cons {C : Type} (x : mbr * C) (l : list (mbr * C)) :
  _calculate_mbr (x :: l) = omerge (Some (fst x)) (_calculate_mbr l).
Proof. unfold _calculate_mbr at 1. simpl. apply calculate_mbr_fold. Qed.

Lemma omerge_assoc (a b c : option mbr) :
  omerge (omerge a b) c = omerge a (omerge b c).
Proof.
  destruct a, b, c; simpl; auto. rewrite merge_assoc. reflexivity.
Qed.

Lemma omerge_comm (a b : option mbr) : omerge a b = omerge b a.
Proof. destruct a, b; simpl; auto. rewrite merge_comm. reflexivity. Qed.

Lemma calculate_mbr_app {C : Type} (l1 l2 : list (mbr * C)) :
  _calculate_mbr (l1 ++ l2) = omerge (_calculate_mbr l1) (_calculate_mbr l2).
Proof.
  induction l1 as [|x l1 IH]; [reflexivity|].
  simpl. rewrite !calculate_mbr_cons, IH, omerge_assoc. reflexivity.
Qed.

Lemma calculate_mbr_perm {C : Type} (l1 l2 : list (mbr * C)) :
  l1 ≡ₚ l2 -> _calculate_mbr l1 = _calculate_mbr l2.
Proof.
  induction 1 as [|x l1 l2 _ IH|x y l|l1 l2 l3 _ IH1 _ IH2].
  - reflexivity.
  - rewrite !calculate_mbr_cons, IH. reflexivity.
  - rewrite !calculate_mbr_cons, <- !omerge_assoc.
    f_equal. apply omerge_comm.
  - congruence.
Qed.

(** The merge of boxes depends on the boxes alone. *)
Lemma calculate_mbr_map {C D : Type} (f : mbr * C -> mbr * D) (l : list (mbr * C)) :
  (forall x, fst (f x) = fst x) ->
  _calculate_mbr (map f l) = _calculate_mbr l.
Proof.
  intros Hf. induction l as [|x l IH]; [reflexivity|].
  simpl. rewrite !calculate_mbr_cons, IH, Hf. reflexivity.
Qed.

Lemma delete_insert_same {A : Type} (l : list A) (i : nat) (x : A) :
  delete i (<[i := x]> l) = delete i l.
Proof.
  revert i. induction l as [|y l IH]; intros [|i]; simpl; auto.
  f_equal. apply IH.
Qed.

Lemma calculate_mbr_insert {C : Type} (l : list (mbr * C)) (i : nat)
    (b m : mbr) (c c' : C) :
  l !! i = Some (b, c) ->
  _calculate_mbr (<[i := (_merge b m, c')]> l)
  = omerge (_calculate_mbr l) (Some m).
Proof.
  intros Hi.
  rewrite (calculate_mbr_perm l ((b, c) :: delete i l))
    by (apply delete_Permutation; exact Hi).
  rewrite (calculate_mbr_perm (<[i := (_merge b m, c')]> l)
             ((_merge b m, c') :: delete i l)).
  - rewrite !calculate_mbr_cons. simpl.
    destruct (_calculate_mbr (delete i l)); simpl; [|reflexivity].
    rewrite !merge_assoc. f_equal. f_equal. apply merge_comm.
  - etransitivity.
    + apply (delete_Permutation _ i (_merge b m, c')).
      apply list_lookup_insert_eq. eapply lookup_lt_Some; eauto.
    + rewrite delete_insert_same. reflexivity.
Qed.

Lemma mapM_leaf_entry (data : list entry) :
  Forall (fun e => is_val (snd e)) data ->
  mapM leaf_entry data = Some (map unleaf data).
Proof.
  intros H. apply mapM_Some. induction H as [|[b c] data Hc _ IH]; simpl.
  - constructor.
  - constructor; [|exact IH]. destruct c; [reflexivity | contradiction].
Qed.

Lemma valid_unfold (k : nat) (h : list (list entry)) :
  forall c, valid k h c -> unfold_tree k h c = Some (tree_at k h c).
Proof.
  induction k as [|k IH]; intros c; [contradiction|].
  destruct c as [v|height l]; [contradiction|].
  simpl. intros (data & Hl & Hd). rewrite Hl. simpl.
  destruct height as [|ht].
  - rewrite (mapM_leaf_entry data Hd). reflexivity.
  - assert (E : mapM (fun e => pair (fst e) <$> unfold_tree k h (snd e)) data
                = Some (map (fun e => (fst e, tree_at k h (snd e))) data)).
    { apply mapM_Some. clear Hl.
      induction Hd as [|e data He _ IHd]; simpl; constructor.
      - rewrite (IH _ He). reflexivity.
      - exact IHd. }
    rewrite E. reflexivity.
Qed.

Lemma foot_at_bound (k : nat) (h : list (list entry)) :
  forall c, valid k h c -> Forall (fun l => (l < length h)%nat) (foot_at k h c).
Proof.
  induction k as [|k IH]; intros c; [contradiction|].
  destruct c as [v|height l]; [contradiction|].
  simpl. intros (data & Hl & Hd). rewrite Hl. simpl.
  pose proof (lookup_lt_Some _ _ _ Hl) as Hlt.
  destruct height as [|ht]; [repeat constructor; exact Hlt|].
  constructor; [exact Hlt|]. clear Hl.
  induction Hd as [|e data He _ IHd]; simpl; [constructor|].
  apply Forall_app. split; [apply IH; exact He | exact IHd].
Qed.

(** A heap that agrees with [h] on the lists of a node holds the same
    tree there. *)
Lemma tree_frame (k : nat) (h h' : list (list entry)) :
  forall c,
    valid k h c ->
    (forall l, l ∈ foot_at k h c -> h' !! l = h !! l) ->
    valid k h' c
    /\ tree_at k h' c = tree_at k h c
    /\ foot_at k h' c = foot_at k h c.
Proof.
  induction k as [|k IH]; intros c; [contradiction|].
  destruct c as [v|height l]; [contradiction|].
  cbn [valid tree_at foot_at]. intros (data & Hl & Hd) Hagree.
  assert (Hl' : h' !! l = Some data).
  { rewrite <- Hl. apply Hagree. rewrite Hl. simpl.
    destruct height; apply list_elem_of_here. }
  rewrite Hl, Hl'. simpl. rewrite Hl in Hagree. simpl in Hagree.
  destruct height as [|ht]; [split; [eauto|auto]|].
  assert (Hsub : Forall (fun e => valid k h' (snd e)
                          /\ tree_at k h' (snd e) = tree_at k h (snd e)
                          /\ foot_at k h' (snd e) = foot_at k h (snd e)) data).
  { assert (Hag : forall l0, l0 ∈ concat (map (fun e => foot_at k h (snd e)) data) ->
                    h' !! l0 = h !! l0).
    { intros l0 Hin. apply Hagree. apply list_elem_of_further. exact Hin. }
    clear Hagree Hl Hl'.
    induction Hd as [|e data He _ IHd]; constructor.
    - apply IH; [exact He|]. intros l0 Hin. apply Hag. simpl.
      apply elem_of_app. left. exact Hin.
    - apply IHd. intros l0 Hin. apply Hag. simpl.
      apply elem_of_app. right. exact Hin. }
  split; [|split].
  - exists data. split; [reflexivity|].
    eapply Forall_impl; [exact Hsub|]. intros e (H1 & _). exact H1.
  - f_equal. apply map_ext_Forall.
    eapply Forall_impl; [exact Hsub|]. intros e (_ & H2 & _).
    simpl. rewrite H2. reflexivity.
  - f_equal. f_equal. apply map_ext_Forall.
    eapply Forall_impl; [exact Hsub|]. intros e (_ & _ & H3). exact H3.
Qed.

(** ** What a returning [_add_node] and [_split] have done *)

Lemma add_node_here_inv (fuel height : nat) (l : loc) (value : content)
    (m : mbr) (st : pystate) (r : option (list entry)) (st' : pystate) :
  _add_node (S fuel) (CNode height l) height value m st = (Ok r, st') ->
  exists data, heap st !! l = Some data /\
    let data' := data ++ [(m, value)] in
    let st1 := set_heap (<[l := data']> (heap st)) st in
    if Z.of_nat (length data') <=? _max st
    then r = None /\ st' = st1
    else exists sp, _split height l st1 = (Ok sp, st') /\ r = Some sp.
Proof.
  cbn [_add_node]. rewrite Nat.eqb_refl. cbn [negb].
  unfold bind at 1. unfold read at 1.
  destruct (heap st !! l) as [data|]; [|discriminate].
  intros H. exists data. split; [reflexivity|]. cbn zeta.
  unfold bind at 1 in H. unfold write at 1 in H.
  unfold bind at 1 in H. unfold get_max at 1 in H.
  cbn [_max set_heap] in H.
  destruct (Z.of_nat (length (data ++ [(m, value)])) <=? _max st).
  - injection H as <- <-. auto.
  - unfold bind in H.
    destruct (_split height l _) as [[sp|e] st2] eqn:E; [|discriminate].
    injection H as <- <-. eauto.
Qed.

Lemma add_node_down_inv (fuel height target : nat) (l : loc) (value : content)
    (m : mbr) (st : pystate) (r : option (list entry)) (st' : pystate) :
  height <> target ->
  _add_node (S fuel) (CNode height l) target value m st = (Ok r, st') ->
  exists data i mbr_best b child rc st2,
    heap st !! l = Some data
    /\ _best content_len m height data = Ok (Some (i, mbr_best))
    /\ data !! i = Some (b, child)
    /\ _add_node fuel child target value m
         (set_heap (<[l := <[i := (mbr_best, child)]> data]> (heap st)) st)
       = (Ok rc, st2)
    /\ match rc with
       | None => r = None /\ st' = st2
       | Some sp =>
           exists data2, heap st2 !! l = Some data2
             /\ (i < length data2)%nat
             /\ let data3 := delete i data2 ++ sp in
                let st3 := set_heap (<[l := data3]> (heap st2)) st2 in
                if Z.of_nat (length data3) <=? _max st2
                then r = None /\ st' = st3
                else exists sp', _split height l st3 = (Ok sp', st')
                                 /\ r = Some sp'
       end.
Proof.
  intros Hne. cbn [_add_node].
  destruct (Nat.eqb_spec height target) as [|_]; [contradiction|]. cbn [negb].
  unfold bind at 1. unfold read at 1.
  destruct (heap st !! l) as [data|]; [|discriminate].
  unfold bind at 1. unfold lift at 1.
  destruct (_best content_len m height data) as [[[i mbr_best]|]|e] eqn:B;
    [| discriminate..].
  destruct (data !! i) as [[b child]|] eqn:Hi; [|discriminate].
  unfold bind at 1. unfold write at 1.
  unfold bind at 1.
  destruct (_add_node fuel child target value m _) as [[rc|e] st2] eqn:E;
    [|discriminate].
  intros H. exists data, i, mbr_best, b, child, rc, st2.
  split; [reflexivity|]. split; [exact B|]. split; [exact Hi|].
  split; [exact E|].
  destruct rc as [sp|]; [|injection H as <- <-; auto].
  unfold bind at 1 in H. unfold read at 1 in H.
  destruct (heap st2 !! l) as [data2|]; [|discriminate].
  exists data2. split; [reflexivity|].
  unfold bind at 1 in H. unfold lift at 1, py_del in H.
  destruct (Nat.ltb_spec i (length data2)) as [Hlt|]; [|discriminate].
  split; [exact Hlt|]. cbn zeta.
  unfold bind at 1 in H. unfold write at 1 in H.
  unfold bind at 1 in H. unfold get_max at 1 in H.
  cbn [_max set_heap] in H.
  destruct (Z.of_nat (length (delete i data2 ++ sp)) <=? _max st2).
  - injection H as <- <-. auto.
  - unfold bind in H.
    destruct (_split height l _) as [[sp'|e] st3] eqn:E'; [|discriminate].
    injection H as <- <-. eauto.
Qed.

Lemma split_inv (st : pystate) (height : nat) (l : loc) (nodes sp : list entry)
    (st' : pystate) :
  _split height l st = (Ok sp, st') ->
  heap st !! l = Some nodes ->
  1 <= _min st -> 2 * _min st <= _max st ->
  Z.of_nat (length nodes) = _max st + 1 ->
  exists rest b0 es0 b1 es1,
    sp = [(b0, CNode height (length (heap st)));
          (b1, CNode height (S (length (heap st))))]
    /\ st' = set_heap ((<[l := rest]> (heap st) ++ [es0]) ++ [es1]) st
    /\ _calculate_mbr es0 = Some b0 /\ _calculate_mbr es1 = Some b1
    /\ _min st <= Z.of_nat (length es0) <= _max st + 1 - _min st
    /\ _min st <= Z.of_nat (length es1) <= _max st + 1 - _min st
    /\ es0 ++ es1 ≡ₚ nodes.
Proof.
  intros H Hl Hmin Hmax Hlen. unfold _split in H.
  unfold bind at 1 in H. unfold read at 1 in H. rewrite Hl in H.
  unfold bind at 1 in H. unfold get_root at 1 in H.
  destruct (_root st) as [[hr lr]|]; [|discriminate].
  unfold bind at 1 in H. unfold read at 1 in H.
  destruct (heap st !! lr) as [root_data|]; [|discriminate].
  unfold bind at 1 in H. unfold get_min at 1 in H.
  unfold bind at 1 in H. unfold lift at 1 in H.
  destruct (_pick_linear_seeds root_data nodes) as [[i j]|e] eqn:Hs.
  - destruct (split_pure_post (_min st) (_max st) height root_data nodes i j
                Hmin Hmax Hlen Hs)
      as (rest & b0 & es0 & b1 & es1 & E & K0 & K1 & M0 & M1 & P).
    rewrite E in H.
    unfold bind, write, alloc, ret in H. cbn [fst snd heap set_heap] in H.
    rewrite length_app, length_insert in H. cbn [length] in H.
    injection H as <- <-.
    exists rest, b0, es0, b1, es1.
    replace (length (heap st) + 1)%nat with (S (length (heap st))) by lia.
    repeat split; auto; lia.
  - unfold split_pure in H. rewrite Hs in H. discriminate.
Qed.

Section Entries.
Context (min max : Z).

Lemma good_leaf (k : nat) (h : list (list entry)) (l : loc)
    (data : list entry) :
  h !! l = Some data ->
  Forall (fun e => is_val (snd e)) data ->
  good min max (S k) h (CNode 0 l)
  /\ tree_at (S k) h (CNode 0 l) = Leaf (map unleaf data)
  /\ foot_at (S k) h (CNode 0 l) = [l].
Proof.
  intros Hl Hd. unfold good. cbn [valid tree_at foot_at]. rewrite Hl.
  simpl. repeat split; eauto.
  apply NoDup_singleton.
Qed.

Lemma good_inner (k : nat) (h : list (list entry)) (ht : nat) (l : loc)
    (data : list entry) :
  h !! l = Some data ->
  (good min max (S k) h (CNode (S ht) l)
   <-> entries_ok min max k h data /\ l ∉ feet k h data).
Proof.
  intros Hl. unfold good, entries_ok, feet.
  cbn [valid tree_at foot_at]. rewrite Hl. cbn [default].
  cbn [tight fanout_ok]. rewrite !forallb_forall.
  rewrite NoDup_cons. split.
  - intros ((data' & [= <-] & Hv) & (Hnl & Hnd) & Ht & Hf).
    split; [split|]; auto.
    rewrite Forall_forall in Hv |- *. intros e He.
    apply list_elem_of_In in He as He'.
    specialize (Ht (fst e, tree_at k h (snd e))).
    specialize (Hf (fst e, tree_at k h (snd e))).
    assert (Hin : In (fst e, tree_at k h (snd e))
                    (map (fun e => (fst e, tree_at k h (snd e))) data)).
    { apply in_map_iff. eauto. }
    specialize (Ht Hin). specialize (Hf Hin). cbn [fst snd] in Ht, Hf.
    apply andb_true_iff in Ht as [Ht1 Ht2].
    apply andb_true_iff in Hf as [Hf1 Hf3].
    apply andb_true_iff in Hf1 as [Hf1 Hf2].
    apply option_mbr_eqb_eq in Ht1.
    unfold entry_ok. repeat split; auto; lia.
  - intros ((Hall & Hnd) & Hnl).
    rewrite Forall_forall in Hall.
    split; [|split; [|split]]; auto.
    + exists data. split; [reflexivity|].
      rewrite Forall_forall. intros e He. apply (Hall e He).
    + intros x Hx. apply in_map_iff in Hx as (e & <- & He).
      apply list_elem_of_In in He.
      destruct (Hall e He) as (_ & Ht & _ & Hb & _). cbn [fst snd].
      rewrite Hb, Ht. simpl. rewrite (proj2 (mbr_eqb_eq _ _) eq_refl).
      reflexivity.
    + intros x Hx. apply in_map_iff in Hx as (e & <- & He).
      apply list_elem_of_In in He.
      destruct (Hall e He) as (_ & _ & Hf & _ & Hlo & Hhi). cbn [fst snd].
      rewrite Hf. apply andb_true_iff. split; [|reflexivity].
      apply andb_true_iff. split; lia.
Qed.

Lemma tree_at_inner (k : nat) (h : list (list entry)) (ht : nat) (l : loc)
    (data : list entry) :
  h !! l = Some data ->
  tree_at (S k) h (CNode (S ht) l) = Inner (S ht) (map (etree k h) data)
  /\ foot_at (S k) h (CNode (S ht) l) = l :: feet k h data.
Proof. intros Hl. cbn [tree_at foot_at]. rewrite Hl. auto. Qed.

Lemma entry_ok_good (k : nat) (h : list (list entry)) (e : entry) :
  entry_ok min max k h e -> NoDup (efoot k h e) ->
  good min max k h (snd e).
Proof. intros (Hv & Ht & Hf & _) Hn. unfold good. auto. Qed.

Lemma entry_frame (k : nat) (h h' : list (list entry)) (e : entry) :
  entry_ok min max k h e ->
  (forall l, l ∈ efoot k h e -> h' !! l = h !! l) ->
  entry_ok min max k h' e /\ efoot k h' e = efoot k h e
  /\ etree k h' e = etree k h e.
Proof.
  intros (Hv & Ht & Hf & Hb & Hn) Hag.
  destruct (tree_frame k h h' (snd e) Hv Hag) as (Hv' & Et & Ef).
  unfold entry_ok, efoot, etree. rewrite Et, Ef. auto 10.
Qed.

Lemma feet_app (k : nat) (h : list (list entry)) (es1 es2 : list entry) :
  feet k h (es1 ++ es2) = feet k h es1 ++ feet k h es2.
Proof. unfold feet. rewrite map_app, concat_app. reflexivity. Qed.

Lemma feet_perm (k : nat) (h : list (list entry)) (es1 es2 : list entry) :
  es1 ≡ₚ es2 -> feet k h es1 ≡ₚ feet k h es2.
Proof.
  intros P. unfold feet. induction P; simpl.
  - reflexivity.
  - apply Permutation_app_head. assumption.
  - rewrite !app_assoc. apply Permutation_app_tail, Permutation_app_comm.
  - etransitivity; eauto.
Qed.

Lemma feet_elem (k : nat) (h : list (list entry)) (es : list entry) (x : loc) :
  x ∈ feet k h es <-> exists e, e ∈ es /\ x ∈ efoot k h e.
Proof.
  unfold feet. induction es as [|e es IH]; simpl.
  - split; [intros H; inversion H | intros (e & He & _); inversion He].
  - rewrite elem_of_app, IH. split.
    + intros [Hx|(e' & He' & Hx)].
      * exists e. split; [apply list_elem_of_here | exact Hx].
      * exists e'. split; [apply list_elem_of_further; exact He' | exact Hx].
    + intros (e' & He' & Hx). apply elem_of_cons in He' as [->|He'].
      * left. exact Hx.
      * right. eauto.
Qed.

Lemma entries_frame (k : nat) (h h' : list (list entry)) (es : list entry) :
  entries_ok min max k h es ->
  (forall l, l ∈ feet k h es -> h' !! l = h !! l) ->
  entries_ok min max k h' es /\ feet k h' es = feet k h es
  /\ map (etree k h') es = map (etree k h) es.
Proof.
  intros [Hall Hnd] Hag.
  assert (H : Forall (fun e => entry_ok min max k h' e
                        /\ efoot k h' e = efoot k h e
                        /\ etree k h' e = etree k h e) es).
  { rewrite Forall_forall in Hall |- *. intros e He.
    apply entry_frame; [auto|].
    intros l Hl. apply Hag. apply feet_elem. eauto. }
  assert (Ef : feet k h' es = feet k h es).
  { unfold feet. f_equal. apply map_ext_Forall.
    eapply Forall_impl; [exact H|]. intros e (_ & E & _). exact E. }
  split; [split|split]; auto.
  - eapply Forall_impl; [exact H|]. intros e (E & _). exact E.
  - rewrite Ef. exact Hnd.
  - apply map_ext_Forall.
    eapply Forall_impl; [exact H|]. intros e (_ & _ & E). exact E.
Qed.

Lemma entries_perm (k : nat) (h : list (list entry)) (es1 es2 : list entry) :
  es1 ≡ₚ es2 -> entries_ok min max k h es1 -> entries_ok min max k h es2.
Proof.
  intros P [Hall Hnd]. split.
  - rewrite <- P. exact Hall.
  - rewrite <- (feet_perm k h _ _ P). exact Hnd.
Qed.

Lemma entries_bound (k : nat) (h : list (list entry)) (es : list entry) :
  entries_ok min max k h es ->
  Forall (fun l => (l < length h)%nat) (feet k h es).
Proof.
  intros [Hall _]. rewrite Forall_forall. intros x Hx.
  apply feet_elem in Hx as (e & He & Hx).
  rewrite Forall_forall in Hall. destruct (Hall e He) as (Hv & _).
  pose proof (foot_at_bound k h _ Hv) as Hb.
  rewrite Forall_forall in Hb. apply Hb. exact Hx.
Qed.
End Entries.

Lemma tree_mbr_inner (k : nat) (h : list (list entry)) (ht : nat)
    (data : list entry) :
  tree_mbr (Inner ht (map (etree k h) data)) = _calculate_mbr data.
Proof. simpl. apply calculate_mbr_map. reflexivity. Qed.

Lemma leaves_inner (k : nat) (h : list (list entry)) (ht : nat)
    (data : list entry) :
  leaves (Inner ht (map (etree k h) data)) = eleaves k h data.
Proof.
  simpl. unfold eleaves. induction data as [|e data IH]; simpl; [reflexivity|].
  rewrite IH. reflexivity.
Qed.

Lemma eleaves_perm (k : nat) (h : list (list entry)) (es1 es2 : list entry) :
  es1 ≡ₚ es2 -> eleaves k h es1 ≡ₚ eleaves k h es2.
Proof.
  intros P. unfold eleaves. induction P; simpl.
  - reflexivity.
  - apply Permutation_app_head. assumption.
  - rewrite !app_assoc. apply Permutation_app_tail, Permutation_app_comm.
  - etransitivity; eauto.
Qed.

Lemma eleaves_app (k : nat) (h : list (list entry)) (es1 es2 : list entry) :
  eleaves k h (es1 ++ es2) = eleaves k h es1 ++ eleaves k h es2.
Proof. unfold eleaves. apply flat_map_app. Qed.

Lemma eleaves_frame (k : nat) (h h' : list (list entry)) (es : list entry) :
  map (etree k h') es = map (etree k h) es ->
  eleaves k h' es = eleaves k h es.
Proof.
  unfold eleaves. induction es as [|e es IH]; simpl; [reflexivity|].
  intros [= E1 E2]. rewrite E1, (IH E2). reflexivity.
Qed.

Section AddLeaf.
Context (min max : Z) (v : pyval) (m : mbr).
Hypothesis Hmin : 1 <= min.
Hypothesis Hmax : 2 * min <= max.

Lemma unleaf_perm (es data : list entry) :
  es ≡ₚ data -> map unleaf es ≡ₚ map unleaf data.
Proof. apply Permutation_map. Qed.

Lemma entries_ok_leaves (k : nat) (h : list (list entry)) (b0 b1 : mbr)
    (l0 l1 : loc) (es0 es1 : list entry) :
  l0 <> l1 ->
  h !! l0 = Some es0 -> h !! l1 = Some es1 ->
  Forall (fun e => is_val (snd e)) es0 ->
  Forall (fun e => is_val (snd e)) es1 ->
  _calculate_mbr es0 = Some b0 -> _calculate_mbr es1 = Some b1 ->
  min <= Z.of_nat (length es0) <= max ->
  min <= Z.of_nat (length es1) <= max ->
  entries_ok min max (S k) h [(b0, CNode 0 l0); (b1, CNode 0 l1)]
  /\ feet (S k) h [(b0, CNode 0 l0); (b1, CNode 0 l1)] = [l0; l1]
  /\ eleaves (S k) h [(b0, CNode 0 l0); (b1, CNode 0 l1)]
     = map unleaf es0 ++ map unleaf es1.
Proof.
  intros Hne H0 H1 V0 V1 C0 C1 F0 F1.
  destruct (good_leaf min max k h l0 es0 H0 V0) as ((Hv0 & _) & T0 & Ft0).
  destruct (good_leaf min max k h l1 es1 H1 V1) as ((Hv1 & _) & T1 & Ft1).
  unfold entries_ok, feet, eleaves, efoot. cbn [map concat flat_map snd].
  rewrite Ft0, Ft1, T0, T1. cbn [app leaves]. rewrite app_nil_r.
  split; [split|auto].
  - apply Forall_cons; split; [|apply Forall_cons; split; [|apply Forall_nil]];
      unfold entry_ok; cbn [fst snd];
      rewrite ?T0, ?T1; cbn [tight fanout_ok tree_mbr fanout];
      rewrite ?length_map, ?(calculate_mbr_map unleaf) by reflexivity;
      auto.
  - apply NoDup_cons. split; [|apply NoDup_singleton].
    intros Hin. apply list_elem_of_singleton in Hin. contradiction.
Qed.

Lemma add_leaf_spec (k : nat) (fuel : nat) (l : loc) (st : pystate)
    (r : option (list entry)) (st' : pystate) :
  good min max (S k) (heap st) (CNode 0 l) ->
  fanout (tree_at (S k) (heap st) (CNode 0 l)) <= max ->
  _min st = min -> _max st = max ->
  _add_node (S fuel) (CNode 0 l) 0 (CVal v) m st = (Ok r, st') ->
  (length (heap st) <= length (heap st'))%nat
  /\ (forall l', (l' < length (heap st))%nat ->
        l' ∉ foot_at (S k) (heap st) (CNode 0 l) ->
        heap st' !! l' = heap st !! l')
  /\ _root st' = _root st /\ _min st' = min /\ _max st' = max
  /\ match r with
     | None => grown min max v m (S k) (heap st) (CNode 0 l) (heap st')
     | Some sp => halved min max v m (S k) (heap st) (CNode 0 l) (heap st') sp
     end.
Proof.
  intros Hg Hfan Emin Emax H.
  apply add_node_here_inv in H as (data & Hl & H). cbn zeta in H.
  destruct Hg as ((data' & Hl' & Hv) & _).
  rewrite Hl in Hl'. injection Hl' as <-.
  destruct (good_leaf min max k (heap st) l data Hl Hv) as (_ & Et & Ef).
  rewrite Et in Hfan. cbn [fanout] in Hfan. rewrite length_map in Hfan.
  pose proof (lookup_lt_Some _ _ _ Hl) as Hlt.
  set (data1 := data ++ [(m, CVal v)]) in *.
  assert (Hv1 : Forall (fun e => is_val (snd e)) data1).
  { apply Forall_app. split; [exact Hv | repeat constructor]. }
  assert (Hlen1 : Z.of_nat (length data1) = Z.of_nat (length data) + 1).
  { subst data1. rewrite length_app. simpl. lia. }
  assert (Hmbr1 : _calculate_mbr data1
                  = omerge (_calculate_mbr data) (Some m)).
  { subst data1. rewrite calculate_mbr_app. reflexivity. }
  assert (Hlv1 : map unleaf data1 ≡ₚ (m, v) :: map unleaf data).
  { subst data1. rewrite map_app. simpl.
    symmetry. apply Permutation_cons_append. }
  set (h1 := <[l := data1]> (heap st)) in *.
  assert (Hl1 : h1 !! l = Some data1)
    by (apply list_lookup_insert_eq; exact Hlt).
  rewrite Emax in H.
  destruct (Z.leb_spec (Z.of_nat (length data1)) max) as [Hle|Hgt].
  - destruct H as [-> ->]. cbn [heap set_heap _root _min _max].
    fold h1. unfold h1 at 1. rewrite length_insert.
    split; [lia|]. split.
    { intros l' _ Hnot. rewrite Ef in Hnot.
      apply list_lookup_insert_ne. intros ->. apply Hnot, list_elem_of_here. }
    do 3 (split; [auto|]).
    destruct (good_leaf min max k h1 l data1 Hl1 Hv1) as (Hg1 & Et1 & Ef1).
    unfold grown. split; [exact Hg1|]. rewrite Et, Et1, Ef, Ef1.
    cbn [fanout tree_mbr leaves].
    rewrite !length_map, !(calculate_mbr_map unleaf) by reflexivity.
    split; [intros x Hx; left; exact Hx|].
    repeat split; auto; lia.
  - destruct H as (sp & Hs & ->).
    destruct (split_inv _ _ _ data1 _ _ Hs) as
      (rest & b0 & es0 & b1 & es1 & -> & -> & C0 & C1 & F0 & F1 & P);
      cbn [heap set_heap _min _max]; try lia; auto.
    cbn [heap set_heap _root _min _max] in *. fold h1 in F0, F1 |- *.
    rewrite Emin, Emax in F0, F1.
    assert (Hlen : length h1 = length (heap st))
      by (unfold h1; apply length_insert).
    set (h2 := (<[l := rest]> h1 ++ [es0]) ++ [es1]).
    assert (L2 : length h2 = S (S (length (heap st)))).
    { unfold h2. rewrite !length_app, length_insert, Hlen. simpl. lia. }
    assert (H0 : h2 !! length h1 = Some es0).
    { unfold h2. rewrite lookup_app_l
        by (rewrite length_app, length_insert; simpl; lia).
      apply list_lookup_middle. rewrite length_insert. reflexivity. }
    assert (H1 : h2 !! S (length h1) = Some es1).
    { unfold h2. apply list_lookup_middle.
      rewrite length_app, length_insert. simpl. lia. }
    split; [lia|]. split.
    { intros l' Hl'lt Hnot. rewrite Ef in Hnot.
      assert (l' <> l) by (intros ->; apply Hnot, list_elem_of_here).
      unfold h2. rewrite !lookup_app_l
        by (rewrite ?length_app, !length_insert; simpl; lia).
      rewrite list_lookup_insert_ne by auto.
      unfold h1. apply list_lookup_insert_ne. auto. }
    do 3 (split; [auto|]).
    assert (V01 : Forall (fun e => is_val (snd e)) (es0 ++ es1))
      by (rewrite P; exact Hv1).
    apply Forall_app in V01 as [V0 V1].
    destruct (entries_ok_leaves k h2 b0 b1 (length h1) (S (length h1))
                es0 es1) as (Hok & Hfeet & Hlv); auto; try lia.
    exists (b0, CNode 0 (length h1)), (b1, CNode 0 (S (length h1))).
    split; [reflexivity|]. split; [exact Hok|]. split; [|split].
    + rewrite Hfeet. intros x Hx. right.
      apply elem_of_cons in Hx as [->|Hx]; [lia|].
      apply list_elem_of_singleton in Hx as ->. lia.
    + cbn [fst]. rewrite Et. cbn [tree_mbr].
      rewrite (calculate_mbr_map unleaf) by reflexivity.
      rewrite <- Hmbr1, <- (calculate_mbr_perm _ _ P), calculate_mbr_app, C0, C1.
      reflexivity.
    + rewrite Hlv, Et. cbn [leaves]. rewrite <- map_app, <- Hlv1.
      apply Permutation_map. exact P.
Qed.
End AddLeaf.

Section Rebuild.
Context (min max : Z).

Lemma entries_app (k : nat) (h : list (list entry)) (es1 es2 : list entry) :
  entries_ok min max k h (es1 ++ es2)
  <-> entries_ok min max k h es1 /\ entries_ok min max k h es2
      /\ (forall x, x ∈ feet k h es1 -> x ∉ feet k h es2).
Proof.
  unfold entries_ok. rewrite Forall_app, feet_app, NoDup_app. tauto.
Qed.

(** The node read at a list of entries in order. *)
Lemma inner_at (k ht : nat) (l : loc) (h h' : list (list entry))
    (es : list entry) :
  h' !! l = Some es ->
  entries_ok min max k h es -> l ∉ feet k h es ->
  (forall x, x ∈ feet k h es -> h' !! x = h !! x) ->
  good min max (S k) h' (CNode (S ht) l)
  /\ tree_at (S k) h' (CNode (S ht) l) = Inner (S ht) (map (etree k h) es)
  /\ foot_at (S k) h' (CNode (S ht) l) = l :: feet k h es.
Proof.
  intros Hl Hok Hnl Hag.
  destruct (entries_frame min max k h h' es Hok Hag) as (Hok' & Ef & Et).
  destruct (tree_at_inner k h' ht l es Hl) as (T & F).
  rewrite T, F, Ef, Et. split; [|auto].
  apply (good_inner min max k h' ht l es Hl). rewrite Ef. auto.
Qed.

Lemma inner_store (k ht : nat) (l : loc) (h : list (list entry))
    (es : list entry) :
  (l < length h)%nat ->
  entries_ok min max k h es -> l ∉ feet k h es ->
  good min max (S k) (<[l := es]> h) (CNode (S ht) l)
  /\ tree_at (S k) (<[l := es]> h) (CNode (S ht) l)
     = Inner (S ht) (map (etree k h) es)
  /\ foot_at (S k) (<[l := es]> h) (CNode (S ht) l) = l :: feet k h es.
Proof.
  intros Hlt Hok Hnl. apply inner_at; auto.
  - apply list_lookup_insert_eq. exact Hlt.
  - intros x Hx. apply list_lookup_insert_ne. intros ->. contradiction.
Qed.

(** The entries of a node after the entry at [i] made place for [news]. *)
Lemma replace_child (k : nat) (l : loc) (i : nat) (b : mbr) (child : content)
    (h h2 : list (list entry)) (data news : list entry) :
  (l < length h)%nat ->
  entries_ok min max k h data -> l ∉ feet k h data ->
  data !! i = Some (b, child) ->
  (forall x, (x < length h)%nat -> x ∉ foot_at k h child -> x <> l ->
     h2 !! x = h !! x) ->
  entries_ok min max k h2 news ->
  fresh_or (length h) (foot_at k h child) (feet k h2 news) ->
  entries_ok min max k h2 (delete i data ++ news)
  /\ (l ∉ feet k h2 (delete i data ++ news))
  /\ fresh_or (length h) (feet k h data) (feet k h2 (delete i data ++ news))
  /\ eleaves k h2 (delete i data ++ news)
     = eleaves k h (delete i data) ++ eleaves k h2 news
  /\ eleaves k h data
     ≡ₚ leaves (tree_at k h child) ++ eleaves k h (delete i data)
  /\ _calculate_mbr data = omerge (Some b) (_calculate_mbr (delete i data))
  /\ entry_ok min max k h (b, child)
  /\ (l ∉ foot_at k h child)
  /\ NoDup (foot_at k h child).
Proof.
  intros Hlt Hok Hnl Hi Hag Hnews Hfresh.
  pose proof (delete_Permutation data i (b, child) Hi) as P.
  pose proof (entries_perm min max k h _ _ P Hok) as Hok1.
  change ((b, child) :: delete i data)
    with ([(b, child)] ++ delete i data) in Hok1.
  apply entries_app in Hok1 as (Hc & Hoth & Hdis).
  assert (Fc : feet k h [(b, child)] = foot_at k h child).
  { unfold feet, efoot. simpl. apply app_nil_r. }
  rewrite Fc in Hdis.
  assert (Hsub : forall x, x ∈ foot_at k h child -> x ∈ feet k h data).
  { intros x Hx. rewrite (feet_perm k h _ _ P).
    change ((b, child) :: delete i data) with ([(b, child)] ++ delete i data).
    rewrite feet_app, Fc. apply elem_of_app. auto. }
  assert (Hsub' : forall x, x ∈ feet k h (delete i data) -> x ∈ feet k h data).
  { intros x Hx. rewrite (feet_perm k h _ _ P).
    change ((b, child) :: delete i data) with ([(b, child)] ++ delete i data).
    rewrite feet_app. apply elem_of_app. auto. }
  pose proof (entries_bound min max k h _ Hoth) as Hb.
  rewrite Forall_forall in Hb.
  assert (Hago : forall x, x ∈ feet k h (delete i data) -> h2 !! x = h !! x).
  { intros x Hx. apply Hag.
    - apply Hb. exact Hx.
    - intros Hc'. exact (Hdis x Hc' Hx).
    - intros ->. apply Hnl, Hsub'. exact Hx. }
  destruct (entries_frame min max k h h2 _ Hoth Hago) as (Hoth2 & Ef & Et).
  assert (Hnc : l ∉ foot_at k h child) by (intros Hx; apply Hnl, Hsub, Hx).
  split; [|split; [|split; [|split; [|split; [|split; [|split; [|split]]]]]]].
  - apply entries_app. split; [exact Hoth2|]. split; [exact Hnews|].
    rewrite Ef. intros x Hx Hx'. destruct (Hfresh x Hx') as [Hin|Hge].
    + exact (Hdis x Hin Hx).
    + specialize (Hb x Hx). lia.
  - rewrite feet_app, Ef. intros Hx. apply elem_of_app in Hx as [Hx|Hx].
    + apply Hnl, Hsub'. exact Hx.
    + destruct (Hfresh l Hx) as [Hin|Hge]; [contradiction | lia].
  - intros x. rewrite feet_app, Ef. intros Hx.
    apply elem_of_app in Hx as [Hx|Hx].
    + left. apply Hsub'. exact Hx.
    + destruct (Hfresh x Hx) as [Hin|Hge]; [left; apply Hsub; exact Hin | auto].
  - rewrite eleaves_app. f_equal. apply eleaves_frame. exact Et.
  - rewrite (eleaves_perm k h _ _ P). unfold eleaves. simpl. reflexivity.
  - rewrite (calculate_mbr_perm _ _ P), calculate_mbr_cons. reflexivity.
  - destruct Hc as [Hc _]. inversion Hc; subst. assumption.
  - exact Hnc.
  - destruct Hc as [_ Hc]. rewrite Fc in Hc. exact Hc.
Qed.

(** The two entries that stand for the halves of a split internal node. *)
Lemma inner_split (k ht : nat) (l : loc) (h3 : list (list entry))
    (data3 rest es0 es1 : list entry) (b0 b1 : mbr) :
  (l < length h3)%nat ->
  entries_ok min max k h3 data3 -> l ∉ feet k h3 data3 ->
  es0 ++ es1 ≡ₚ data3 ->
  _calculate_mbr es0 = Some b0 -> _calculate_mbr es1 = Some b1 ->
  min <= Z.of_nat (length es0) <= max ->
  min <= Z.of_nat (length es1) <= max ->
  let h4 := (<[l := rest]> h3 ++ [es0]) ++ [es1] in
  let sp := [(b0, CNode (S ht) (length h3));
             (b1, CNode (S ht) (S (length h3)))] in
  entries_ok min max (S k) h4 sp
  /\ feet (S k) h4 sp ≡ₚ length h3 :: S (length h3) :: feet k h3 data3
  /\ eleaves (S k) h4 sp ≡ₚ eleaves k h3 data3.
Proof.
  intros Hlt Hok Hnl P C0 C1 F0 F1 h4 sp.
  symmetry in P.
  pose proof (entries_perm min max k h3 _ _ P Hok) as Hok'.
  apply entries_app in Hok' as (Hok0 & Hok1 & Hdis).
  pose proof (entries_bound min max k h3 _ Hok0) as Hb0.
  pose proof (entries_bound min max k h3 _ Hok1) as Hb1.
  rewrite Forall_forall in Hb0, Hb1.
  assert (Hnl' : l ∉ feet k h3 (es0 ++ es1))
    by (rewrite <- (feet_perm k h3 _ _ P); exact Hnl).
  rewrite feet_app, elem_of_app in Hnl'.
  assert (Hag : forall x, (x < length h3)%nat -> x <> l -> h4 !! x = h3 !! x).
  { intros x Hx Hne. unfold h4.
    rewrite !lookup_app_l
      by (rewrite ?length_app, !length_insert; simpl; lia).
    apply list_lookup_insert_ne. auto. }
  assert (H0 : h4 !! length h3 = Some es0).
  { unfold h4. rewrite lookup_app_l
      by (rewrite length_app, length_insert; simpl; lia).
    apply list_lookup_middle. rewrite length_insert. reflexivity. }
  assert (H1 : h4 !! S (length h3) = Some es1).
  { unfold h4. apply list_lookup_middle.
    rewrite length_app, length_insert. simpl. lia. }
  destruct (inner_at k ht (length h3) h3 h4 es0 H0 Hok0) as (G0 & T0 & Ft0).
  { intros Hx. specialize (Hb0 _ Hx). lia. }
  { intros x Hx. apply Hag; [auto|]. intros ->. tauto. }
  destruct (inner_at k ht (S (length h3)) h3 h4 es1 H1 Hok1) as (G1 & T1 & Ft1).
  { intros Hx. specialize (Hb1 _ Hx). lia. }
  { intros x Hx. apply Hag; [auto|]. intros ->. tauto. }
  assert (Fsp : feet (S k) h4 sp
                = (length h3 :: feet k h3 es0)
                  ++ S (length h3) :: feet k h3 es1).
  { unfold feet, sp, efoot. cbn [map concat snd]. rewrite Ft0, Ft1.
    rewrite app_nil_r. reflexivity. }
  assert (Psp : feet (S k) h4 sp
                ≡ₚ length h3 :: S (length h3) :: feet k h3 data3).
  { rewrite Fsp, (feet_perm k h3 _ _ P), feet_app. simpl.
    apply perm_skip. symmetry. apply Permutation_middle. }
  split; [split|split].
  - destruct G0 as (V0 & _ & Tt0 & Fo0), G1 as (V1 & _ & Tt1 & Fo1).
    apply Forall_cons_2; [|apply Forall_cons_2; [|apply Forall_nil_2]];
      unfold entry_ok; cbn [fst snd];
      (split; [assumption|]); (split; [assumption|]); (split; [assumption|]);
      rewrite ?T0, ?T1, tree_mbr_inner; cbn [fanout]; rewrite length_map; auto.
  - rewrite Psp. apply NoDup_cons. split.
    + intros Hx. apply elem_of_cons in Hx as [Hx|Hx]; [lia|].
      pose proof (entries_bound min max k h3 _ Hok) as Hb.
      rewrite Forall_forall in Hb. specialize (Hb _ Hx). lia.
    + apply NoDup_cons. split; [|apply Hok].
      intros Hx.
      pose proof (entries_bound min max k h3 _ Hok) as Hb.
      rewrite Forall_forall in Hb. specialize (Hb _ Hx). lia.
  - exact Psp.
  - unfold eleaves at 1. unfold sp. cbn [flat_map snd].
    rewrite T0, T1, !leaves_inner, app_nil_r, <- eleaves_app.
    apply eleaves_perm. symmetry. exact P.
Qed.
End Rebuild.

Lemma valid_node (k : nat) (h : list (list entry)) (c : content) :
  valid k h c -> exists ht l, c = CNode ht l.
Proof.
  destruct k; [contradiction|]. destruct c; [contradiction|]. eauto.
Qed.

Lemma entries_lookup (min max : Z) (k : nat) (h : list (list entry))
    (data : list entry) (i : nat) (e : entry) :
  entries_ok min max k h data -> data !! i = Some e ->
  entry_ok min max k h e
  /\ (forall x, x ∈ efoot k h e -> x ∈ feet k h data).
Proof.
  intros [Hall _] Hi. apply list_elem_of_lookup_2 in Hi. split.
  - rewrite Forall_forall in Hall. auto.
  - intros x Hx. apply feet_elem. eauto.
Qed.

Lemma calculate_mbr_two (e0 e1 : entry) :
  _calculate_mbr [e0; e1] = omerge (Some (fst e0)) (Some (fst e1)).
Proof. rewrite !calculate_mbr_cons. reflexivity. Qed.

Section AddInner.
Context (min max : Z) (v : pyval) (m : mbr).
Hypothesis Hmin : 1 <= min.
Hypothesis Hmax : 2 * min <= max.

Lemma add_inner_spec (k : nat) (fuel ht : nat) (l : loc) (st : pystate)
    (r : option (list entry)) (st' : pystate) :
  add_node_spec_at min max v m k ->
  good min max (S k) (heap st) (CNode (S ht) l) ->
  fanout (tree_at (S k) (heap st) (CNode (S ht) l)) <= max ->
  _min st = min -> _max st = max ->
  _add_node (S fuel) (CNode (S ht) l) 0 (CVal v) m st = (Ok r, st') ->
  add_node_post min max v m (S k) st (CNode (S ht) l) r st'.
Proof.
  intros IH Hg Hfan Emin Emax H.
  apply add_node_down_inv in H
    as (data & i & mbr_best & b & child & rc & st2
        & Hl & Hbest & Hi & Hrec & Hrc); [|discriminate].
  pose proof (lookup_lt_Some _ _ _ Hl) as Hlt.
  pose proof (lookup_lt_Some _ _ _ Hi) as Hilt.
  apply (good_inner min max k (heap st) ht l data Hl) in Hg as (Hok & Hnl).
  destruct (tree_at_inner k (heap st) ht l data Hl) as (T & F).
  rewrite T in Hfan. cbn [fanout] in Hfan. rewrite length_map in Hfan.
  unfold add_node_post. rewrite F.
  destruct (entries_lookup min max k (heap st) data i (b, child) Hok Hi)
    as (Hc & Hsub).
  unfold efoot in Hsub. cbn [snd] in Hsub.
  destruct Hc as (Vc & Tc & Fc & Bc & Nc). cbn [fst snd] in Vc, Tc, Fc, Bc, Nc.
  assert (Hnlc : l ∉ foot_at k (heap st) child) by (intros Hx; auto).
  assert (Hmb : mbr_best = _merge b m).
  { destruct (best_first_minimum content_len m (S ht) data)
      as (i' & mb & c' & E & Hi' & _).
    - destruct Hok as [Hall _]. eapply Forall_impl; [exact Hall|].
      intros e (Hv & _). apply valid_node in Hv as (h0 & l0 & ->).
      reflexivity.
    - intros ->. discriminate Hi.
    - rewrite E in Hbest. injection Hbest as <- <-.
      rewrite Hi in Hi'. injection Hi' as <- <-. reflexivity. }
  set (h := heap st) in *.
  set (data1 := <[i := (mbr_best, child)]> data) in *.
  set (h1 := <[l := data1]> h) in *.
  assert (Hlen1 : length h1 = length h) by apply length_insert.
  assert (Hag1 : forall x, x <> l -> h1 !! x = h !! x).
  { intros x Hx. apply list_lookup_insert_ne. auto. }
  assert (Hl1 : h1 !! l = Some data1)
    by (apply list_lookup_insert_eq; exact Hlt).
  destruct (tree_frame k h h1 child Vc) as (Vc1 & Tc1 & Fc1).
  { intros x Hx. apply Hag1. intros ->. contradiction. }
  specialize (IH fuel child (set_heap h1 st) rc st2).
  unfold add_node_post in IH. cbn [heap set_heap _min _max _root] in IH.
  destruct IH as (Hle & Hframe & Hroot & Hmin2 & Hmax2 & Hpost); auto.
  { unfold good. rewrite Tc1, Fc1. repeat split; auto.
    destruct Hok as [_ Hnd]. clear - Hnd Hi.
    pose proof (delete_Permutation data i (b, child) Hi) as P.
    rewrite (feet_perm k h _ _ P) in Hnd.
    change ((b, child) :: delete i data)
      with ([(b, child)] ++ delete i data) in Hnd.
    rewrite feet_app in Hnd. apply NoDup_app in Hnd as (Hnd & _).
    unfold feet, efoot in Hnd. simpl in Hnd. rewrite app_nil_r in Hnd.
    exact Hnd. }
  { rewrite Tc1. lia. }
  set (h2 := heap st2) in *.
  rewrite Fc1, Hlen1 in Hframe.
  assert (Hag2 : forall x, (x < length h)%nat -> x ∉ foot_at k h child ->
                   x <> l -> h2 !! x = h !! x).
  { intros x Hx Hn Hne. rewrite Hframe, Hag1; auto. }
  assert (Hl2 : h2 !! l = Some data1) by (rewrite Hframe; auto).
  assert (Hdel : delete i data1 = delete i data) by apply delete_insert_same.
  assert (Hfr0 : forall x, (x < length h)%nat -> x ∉ l :: feet k h data ->
                   h2 !! x = h !! x).
  { intros x Hx Hn. apply Hag2; auto.
    - intros Hc. apply Hn, list_elem_of_further, Hsub, Hc.
    - intros ->. apply Hn, list_elem_of_here. }
  destruct rc as [sp|].
  - destruct Hpost as (e0 & e1 & -> & Hsp & Hfr & Hmb2 & Hlv).
    rewrite Hlen1, Fc1 in Hfr. rewrite Tc1 in Hmb2, Hlv.
    destruct Hrc as (data2 & Hl2' & Hi2 & Hrc).
    fold h2 in Hl2'. rewrite Hl2 in Hl2'. injection Hl2' as <-.
    cbn zeta in Hrc. rewrite Hdel, Hmax2 in Hrc. fold h2 in Hrc.
    destruct (replace_child min max k l i b child h h2 data [e0; e1]
                Hlt Hok Hnl Hi Hag2 Hsp Hfr)
      as (Hok3 & Hnl3 & Hfr3 & Hlv3 & Hlvd & Hmbd & _).
    set (data3 := delete i data ++ [e0; e1]) in *.
    assert (Hlen3 : Z.of_nat (length data3) = Z.of_nat (length data) + 1).
    { unfold data3. rewrite length_app, length_delete by eauto. simpl. lia. }
    assert (Hmb3 : _calculate_mbr data3
                   = omerge (_calculate_mbr data) (Some m)).
    { unfold data3. rewrite calculate_mbr_app, calculate_mbr_two, Hmb2, Bc, Hmbd.
      rewrite <- omerge_assoc, (omerge_comm _ (Some b)). reflexivity. }
    assert (Hlvs3 : eleaves k h2 data3 ≡ₚ (m, v) :: eleaves k h data).
    { rewrite Hlv3, Hlv, Hlvd. rewrite Permutation_app_comm. reflexivity. }
    set (h3 := <[l := data3]> h2) in *.
    assert (Hlt2 : (l < length h2)%nat) by lia.
    assert (Hlen3' : length h3 = length h2) by apply length_insert.
    destruct (inner_store min max k ht l h2 data3 Hlt2 Hok3 Hnl3)
      as (G3 & T3 & F3). fold h3 in G3, T3, F3.
    assert (Hfr03 : forall x, (x < length h)%nat -> x ∉ l :: feet k h data ->
                      h3 !! x = h !! x).
    { intros x Hx Hn. unfold h3. rewrite list_lookup_insert_ne; auto.
      intros ->. apply Hn, list_elem_of_here. }
    assert (Hfresh3 : fresh_or (length h) (l :: feet k h data)
                        (l :: feet k h2 data3)).
    { intros x Hx. apply elem_of_cons in Hx as [->|Hx].
      - left. apply list_elem_of_here.
      - destruct (Hfr3 x Hx); [left; apply list_elem_of_further|right]; auto. }
    destruct (Z.leb_spec (Z.of_nat (length data3)) max) as [Hle3|Hgt3].
    + destruct Hrc as [-> ->]. cbn [heap set_heap _root _min _max].
      fold h3. split; [lia|]. split; [exact Hfr03|].
      do 3 (split; [auto|]).
      unfold grown. rewrite T, F, T3, F3. split; [exact G3|].
      split; [exact Hfresh3|].
      cbn [fanout]. rewrite !length_map. split; [lia|].
      rewrite !tree_mbr_inner, !leaves_inner. auto.
    + destruct Hrc as (sp' & Hs & ->).
      destruct (split_inv _ _ _ data3 _ _ Hs) as
        (rest & b0 & es0 & b1 & es1 & -> & -> & C0 & C1 & F0 & F1 & P);
        cbn [heap set_heap _min _max]; rewrite ?Hmin2, ?Hmax2; auto; try lia.
      { apply list_lookup_insert_eq. exact Hlt2. }
      cbn [heap set_heap _root _min _max] in *. fold h3 in F0, F1 |- *.
      rewrite Hmin2, Hmax2 in F0, F1.
      destruct (entries_frame min max k h2 h3 data3 Hok3) as (Hok3' & Ef3 & Et3).
      { intros x Hx. apply list_lookup_insert_ne. intros ->. contradiction. }
      destruct (inner_split min max k ht l h3 data3 rest es0 es1 b0 b1)
        as (Hsp' & Pf & Pl); auto; try lia.
      { rewrite Ef3. exact Hnl3. }
      split; [rewrite !length_app, length_insert; simpl; lia|]. split.
      { intros x Hx Hn. rewrite !lookup_app_l
          by (rewrite ?length_app, !length_insert; simpl; lia).
        rewrite list_lookup_insert_ne; [auto|].
        intros ->. apply Hn, list_elem_of_here. }
      do 3 (split; [auto|]).
      unfold halved. rewrite F. eexists _, _. split; [reflexivity|].
      split; [exact Hsp'|]. split; [|split].
      * intros x Hx. rewrite Pf, Ef3 in Hx.
        apply elem_of_cons in Hx as [->|Hx]; [right; lia|].
        apply elem_of_cons in Hx as [->|Hx]; [right; lia|].
        apply Hfresh3. apply list_elem_of_further. exact Hx.
      * cbn [fst]. rewrite T, tree_mbr_inner.
        rewrite <- Hmb3, <- (calculate_mbr_perm _ _ P), calculate_mbr_app, C0, C1.
        reflexivity.
      * rewrite Pl, T, leaves_inner, (eleaves_frame k h2 h3 data3 Et3).
        exact Hlvs3.
  - destruct Hrc as [-> ->]. destruct Hpost as (Gc & Hfr & Hfan2 & Hmb2 & Hlv).
    rewrite Hlen1, Fc1 in Hfr. rewrite Tc1 in Hfan2, Hmb2, Hlv.
    fold h2 in Gc, Hfr, Hfan2, Hmb2, Hlv |- *.
    assert (Hfn : feet k h2 [(mbr_best, child)] = foot_at k h2 child).
    { unfold feet, efoot. simpl. apply app_nil_r. }
    assert (Hnews : entries_ok min max k h2 [(mbr_best, child)]).
    { destruct Gc as (V & N & Tt & Fo). split.
      - apply Forall_cons_2; [|apply Forall_nil_2].
        unfold entry_ok. cbn [fst snd]. rewrite Hmb2, Bc, Hmb.
        repeat split; auto; lia.
      - rewrite Hfn. exact N. }
    rewrite <- Hfn in Hfr.
    destruct (replace_child min max k l i b child h h2 data [(mbr_best, child)]
                Hlt Hok Hnl Hi Hag2 Hnews Hfr)
      as (Hok3 & Hnl3 & Hfr3 & Hlv3 & Hlvd & Hmbd & _).
    assert (P1 : delete i data ++ [(mbr_best, child)] ≡ₚ data1).
    { rewrite <- Hdel, <- Permutation_cons_append. symmetry.
      apply delete_Permutation. unfold data1.
      apply list_lookup_insert_eq. exact Hilt. }
    pose proof (entries_perm min max k h2 _ _ P1 Hok3) as Hok1.
    rewrite (feet_perm k h2 _ _ P1) in Hnl3.
    destruct (inner_at min max k ht l h2 h2 data1 Hl2 Hok1 Hnl3)
      as (G3 & T3 & F3); [reflexivity|].
    split; [lia|]. split; [exact Hfr0|]. do 3 (split; [auto|]).
    unfold grown. rewrite T, F, T3, F3. split; [exact G3|]. split.
    { intros x Hx. apply elem_of_cons in Hx as [->|Hx].
      - left. apply list_elem_of_here.
      - rewrite <- (feet_perm k h2 _ _ P1) in Hx.
        destruct (Hfr3 x Hx); [left; apply list_elem_of_further|right]; auto. }
    cbn [fanout]. rewrite !length_map.
    replace (length data1) with (length data) by (symmetry; apply length_insert).
    split; [lia|]. rewrite !tree_mbr_inner, !leaves_inner. split.
    + unfold data1. rewrite Hmb.
      apply (calculate_mbr_insert data i b m child child Hi).
    + rewrite <- (eleaves_perm k h2 _ _ P1), Hlv3, Hlvd.
      unfold eleaves at 2. cbn [flat_map snd]. rewrite app_nil_r, Hlv.
      rewrite Permutation_app_comm. reflexivity.
Qed.

Lemma add_node_spec (k : nat) : add_node_spec_at min max v m k.
Proof.
  induction k as [|k IH]; intros fuel c st r st' Hg Hfan Emin Emax H.
  - destruct Hg as [[] _].
  - destruct c as [v0|height l]; [destruct Hg as [[] _]|].
    destruct fuel as [|fuel]; [discriminate|].
    destruct height as [|ht].
    + unfold add_node_post.
      destruct (add_leaf_spec min max v m Hmin Hmax k fuel l st r st'
                  Hg Hfan Emin Emax H) as (A1 & A2 & A3 & A4 & A5 & A6).
      auto 10.
    + apply (add_inner_spec k fuel ht l st r st' IH Hg Hfan Emin Emax H).
Qed.
End AddInner.

Lemma add_normalized_mbr_shape (fuel : nat) (m : mbr) (v : pyval) (k : nat)
    (st st' : pystate) :
  shape_ok k st ->
  _add_normalized_mbr fuel 0 m (CVal v) st = (Ok tt, st') ->
  exists k', shape_ok k' st' /\ stored k' st' ≡ₚ (m, v) :: stored k st.
Proof.
  intros (Hmin & Hmax & Hroot) H.
  pose proof (add_normalized_mbr_keeps_counters fuel 0 m (CVal v) st _ _ H)
    as (_ & Emax & Emin).
  unfold shape_ok, stored. rewrite Emax, Emin.
  unfold _add_normalized_mbr in H. unfold bind at 1 in H.
  unfold get_root at 1 in H.
  destruct (_root st) as [[h l]|] eqn:Er.
  - destruct Hroot as (Hg & Hfan). cbn [Nat.ltb Nat.leb] in H.
    unfold bind at 1 in H.
    destruct (_add_node fuel (CNode h l) 0 (CVal v) m st) as [[r|e] st1] eqn:E;
      [|discriminate].
    destruct (add_node_spec (_min st) (_max st) v m Hmin Hmax k fuel
                (CNode h l) st r st1 Hg Hfan eq_refl eq_refl E)
      as (Hle & Hframe & Hr1 & Hmin1 & Hmax1 & Hpost).
    destruct r as [sp|].
    + destruct Hpost as (e0 & e1 & -> & Hsp & Hfr & Hmb & Hlv).
      destruct e0 as [b0 c0].
      assert (Hc0 : exists h0 l0, c0 = CNode h0 l0).
      { destruct Hsp as [Hall _]. inversion Hall as [|? ? He0 _]; subst.
        destruct He0 as (Hv & _). exact (valid_node _ _ _ Hv). }
      destruct Hc0 as (h0 & l0 & ->).
      unfold bind, alloc, put_root in H. injection H as <-.
      cbn [_root heap set_root set_heap].
      set (h1 := heap st1) in *.
      pose proof (entries_bound _ _ _ _ _ Hsp) as Hb.
      rewrite Forall_forall in Hb.
      destruct (inner_at (_min st) (_max st) k h0 (length h1) h1
                  (h1 ++ [[(b0, CNode h0 l0); e1]])
                  [(b0, CNode h0 l0); e1]) as (G & T & F); auto.
      { apply list_lookup_middle. reflexivity. }
      { intros Hx. specialize (Hb _ Hx). lia. }
      { intros x Hx. apply lookup_app_l. apply Hb. exact Hx. }
      exists (S k). split; [split; [|split; [|split]]|]; auto.
      * rewrite T. cbn [fanout map length]. lia.
      * rewrite T, leaves_inner. exact Hlv.
    + injection H as <-. rewrite Hr1, Er.
      destruct Hpost as (Hg' & _ & Hfan' & _ & Hlv).
      exists k. split; [split; [|split; [|split]]|]; auto. lia.
  - cbn [Nat.eqb negb] in H. unfold bind, alloc, put_root in H.
    injection H as <-. cbn [_root heap set_root set_heap].
    destruct (good_leaf (_min st) (_max st) 0 (heap st ++ [[(m, CVal v)]])
                (length (heap st)) [(m, CVal v)]) as (G & T & F).
    { apply list_lookup_middle. reflexivity. }
    { repeat constructor. }
    exists 1%nat. split; [split; [|split; [|split]]|]; auto.
    + rewrite T. cbn [fanout map length]. lia.
    + rewrite T. reflexivity.
Qed.

Lemma do_call_well_formed (fuel : nat) (c : call) (k : nat)
    (st st' : pystate) :
  is_add c -> well_formed k st ->
  do_call fuel c st = (Ok tt, st') ->
  exists k', well_formed k' st' /\ stored k' st' ≡ₚ added c ++ stored k st.
Proof.
  intros Hc [Hs Hsz] H.
  assert (Hadd : exists m v,
             added c = [(m, v)]
             /\ do_call fuel c
                = bind (_add_normalized_mbr fuel 0 m (CVal v))
                    (fun _ => add_size 1)).
  { destruct c; try contradiction; eexists _, _; split; reflexivity. }
  destruct Hadd as (m & v & -> & Ed). rewrite Ed in H. unfold bind in H.
  destruct (_add_normalized_mbr fuel 0 m (CVal v) st) as [[[]|e] st1] eqn:E;
    [|discriminate].
  pose proof (add_normalized_mbr_keeps_counters fuel 0 m (CVal v) st _ _ E)
    as (Esz & _ & _).
  destruct (add_normalized_mbr_shape fuel m v k st st1 Hs E) as (k' & Hs' & P).
  unfold add_size in H. injection H as <-.
  exists k'. split; [split|]; auto.
  cbn [_size set_size]. unfold stored in *. cbn [_root heap set_size].
  rewrite P, Esz, Hsz. simpl length. lia.
Qed.

Lemma do_calls_well_formed (fuel : nat) (cs : list call) :
  Forall is_add cs ->
  forall k st st',
    well_formed k st ->
    do_calls fuel cs st = (Ok tt, st') ->
    exists k', well_formed k' st'
      /\ stored k' st' ≡ₚ flat_map added cs ++ stored k st.
Proof.
  induction 1 as [|c cs Hc _ IH]; intros k st st' Hw H.
  - injection H as <-. exists k. auto.
  - cbn [do_calls] in H. unfold bind in H.
    destruct (do_call fuel c st) as [[[]|e] st1] eqn:E; [|discriminate].
    destruct (do_call_well_formed fuel c k st st1 Hc Hw E) as (k1 & Hw1 & P1).
    destruct (IH k1 st1 st' Hw1 H) as (k' & Hw' & P').
    exists k'. split; [exact Hw'|].
    rewrite P', P1. cbn [flat_map]. rewrite <- !app_assoc.
    rewrite (app_assoc (flat_map added cs)), (app_assoc (added c)).
    apply Permutation_app_tail, Permutation_app_comm.
Qed.

Lemma init_well_formed (max_entries : Z) (min_entries : option Z)
    (st : pystate) :
  __init__ max_entries min_entries = Ok st ->
  well_formed 0 st /\ stored 0 st = [].
Proof.
  unfold __init__. intros H.
  set (mn := match min_entries with
             | None | Some 0 => max_entries / 2
             | Some k => k
             end) in *.
  destruct (Z.gtb_spec mn (max_entries / 2)) as [|Hhi]; [discriminate|].
  destruct (Z.ltb_spec mn 1) as [|Hlo]; [discriminate|].
  injection H as <-. unfold well_formed, shape_ok, stored. cbn.
  repeat split; auto.
  pose proof (Z.mul_div_le max_entries 2). lia.
Qed.

Lemma well_formed_invariants_holds (k : nat) (st : pystate) :
  well_formed k st -> invariants k st = true.
Proof.
  intros ((_ & _ & Hroot) & Hsz). unfold invariants, root_tree.
  unfold stored in Hsz.
  destruct (_root st) as [[h l]|].
  - destruct Hroot as ((Hv & _ & Ht & Hf) & _).
    rewrite (valid_unfold k (heap st) _ Hv), Hf, Ht. simpl.
    apply Z.eqb_eq. exact Hsz.
  - apply Z.eqb_eq. exact Hsz.
Qed.

(** X7: insertion keeps a tree in order.  From a state whose tree has
    valid parameters, no shared lists, tight boxes, a fan-out within bounds
    and a size equal to the number of stored pairs, add_point and add_box
    that return leave such a state again; it satisfies the three invariants
    and holds the pairs of before and the new pair. *)
Theorem add_preserves_invariants (fuel : nat) (c : call) (k : nat)
    (st st' : pystate) :
  is_add c -> well_formed k st ->
  do_call fuel c st = (Ok tt, st') ->
  exists k', well_formed k' st' /\ invariants k' st' = true
    /\ stored k' st' ≡ₚ added c ++ stored k st.
Proof.
  intros Hc Hw H.
  destruct (do_call_well_formed fuel c k st st' Hc Hw H) as (k' & Hw' & P).
  exists k'. auto using well_formed_invariants_holds.
Qed.

(** X8: on a new tree, insertions that all return leave a tree that
    satisfies the three invariants and holds the inserted pairs, each as
    often as it was inserted. *)
Theorem adds_on_new_tree_keep_invariants (max_entries : Z)
    (min_entries : option Z) (fuel : nat) (cs : list call) (st' : pystate) :
  Forall is_add cs ->
  on_new_tree max_entries min_entries (do_calls fuel cs) = Ok (Ok tt, st') ->
  exists k, well_formed k st' /\ invariants k st' = true
    /\ stored k st' ≡ₚ flat_map added cs.
Proof.
  intros Hcs H. unfold on_new_tree in H.
  destruct (__init__ max_entries min_entries) as [st|e] eqn:E; [|discriminate].
  injection H as H.
  destruct (init_well_formed _ _ _ E) as (Hw & Hst).
  destruct (do_calls_well_formed fuel cs Hcs 0 st st' Hw H) as (k & Hw' & P).
  exists k. rewrite Hst, app_nil_r in P.
  auto using well_formed_invariants_holds.
Qed.

Lemma add_preserves_invariants_witness :
  well_formed 1 (two_at_origin 8 4)
  /\ do_call 2 (AddPoint (PyInt 3) 1 1) (two_at_origin 8 4)
     = (Ok tt,
        mk_state [[((0, 0, 0, 0), CVal (PyInt 1)); ((0, 0, 0, 0), CVal (PyInt 2));
                   ((1, 1, 1, 1), CVal (PyInt 3))]]
          8 4 (Some (0%nat, 0%nat)) 3)
  /\ exists k',
       well_formed k'
         (mk_state [[((0, 0, 0, 0), CVal (PyInt 1));
                     ((0, 0, 0, 0), CVal (PyInt 2));
                     ((1, 1, 1, 1), CVal (PyInt 3))]]
            8 4 (Some (0%nat, 0%nat)) 3)
       /\ invariants k'
            (mk_state [[((0, 0, 0, 0), CVal (PyInt 1));
                        ((0, 0, 0, 0), CVal (PyInt 2));
                        ((1, 1, 1, 1), CVal (PyInt 3))]]
               8 4 (Some (0%nat, 0%nat)) 3) = true
       /\ stored k'
            (mk_state [[((0, 0, 0, 0), CVal (PyInt 1));
                        ((0, 0, 0, 0), CVal (PyInt 2));
                        ((1, 1, 1, 1), CVal (PyInt 3))]]
               8 4 (Some (0%nat, 0%nat)) 3)
          ≡ₚ added (AddPoint (PyInt 3) 1 1) ++ stored 1 (two_at_origin 8 4).
Proof.
  assert (Hw : well_formed 1 (two_at_origin 8 4)).
  { unfold well_formed, shape_ok, good, stored. simpl.
    repeat split; try lia; eauto using NoDup_singleton.
    eexists. split; [reflexivity|]. repeat constructor. }
  split; [exact Hw|]. split; [reflexivity|].
  apply (add_preserves_invariants 2 (AddPoint (PyInt 3) 1 1) 1
           (two_at_origin 8 4)); [exact I | exact Hw | reflexivity].
Defined.

Lemma adds_on_new_tree_keep_invariants_witness :
  Forall is_add two_clusters_calls
  /\ on_new_tree 4 None (do_calls 3 two_clusters_calls) = Ok (Ok tt, two_clusters)
  /\ exists k, well_formed k two_clusters /\ invariants k two_clusters = true
       /\ stored k two_clusters ≡ₚ flat_map added two_clusters_calls.
Proof.
  assert (Ha : Forall is_add two_clusters_calls) by (repeat constructor).
  split; [exact Ha|]. split; [reflexivity|].
  apply (adds_on_new_tree_keep_invariants 4 None 3 two_clusters_calls);
    [exact Ha | reflexivity].
Defined.

(** ** CartesianMixin: the geometry *)

Lemma mbr_eq4 (a b c d a' b' c' d' : Z) :
  a = a' -> b = b' -> c = c' -> d = d' -> (a, b, c, d) = (a', b', c', d').
Proof. congruence. Qed.

(** X9: _normalize_mbr takes the two corners in any order: the box it
    returns is canonical (lower left first), is the same whichever of the
    x and of the y coordinates are exchanged, contains both corners, and
    normalising it again changes nothing. *)
Theorem normalize_mbr_orders_corners (x1 y1 x2 y2 : Z) :
  canonical (_normalize_mbr x1 y1 x2 y2) = true
  /\ _normalize_mbr x2 y1 x1 y2 = _normalize_mbr x1 y1 x2 y2
  /\ _normalize_mbr x1 y2 x2 y1 = _normalize_mbr x1 y1 x2 y2
  /\ _normalize_mbr x2 y2 x1 y1 = _normalize_mbr x1 y1 x2 y2
  /\ _contains (_normalize_mbr x1 y1 x2 y2) (point_box x1 y1) = true
  /\ _contains (_normalize_mbr x1 y1 x2 y2) (point_box x2 y2) = true
  /\ (let '(a, b, c, d) := _normalize_mbr x1 y1 x2 y2 in
      _normalize_mbr a b c d = (a, b, c, d)).
Proof.
  unfold _normalize_mbr, point_box. repeat split.
  - apply canonical_spec. lia.
  - apply mbr_eq4; lia.
  - apply mbr_eq4; lia.
  - apply mbr_eq4; lia.
  - apply contains_spec. lia.
  - apply contains_spec. lia.
  - apply mbr_eq4; lia.
Qed.

(** X10: _merge returns the least box that contains both boxes: it
    contains each of them, and a box contains the merge exactly when it
    contains both.  The merge is commutative, associative and idempotent,
    and the merge with a box contained in the first is the first. *)
Theorem merge_is_least_containing_box (a b c : mbr) :
  _contains (_merge a b) a = true
  /\ _contains (_merge a b) b = true
  /\ _contains c (_merge a b) = _contains c a && _contains c b
  /\ _merge a b = _merge b a
  /\ _merge (_merge a b) c = _merge a (_merge b c)
  /\ _merge a a = a
  /\ (_contains a b = true -> _merge a b = a).
Proof.
  split; [apply merge_contains_l|]. split; [apply merge_contains_r|].
  destruct a as [[[a0 a1] a2] a3], b as [[[b0 b1] b2] b3],
    c as [[[c0 c1] c2] c3].
  split; [|split; [|split; [|split]]].
  - apply eq_true_iff_eq. rewrite andb_true_iff, !contains_spec. simpl. lia.
  - simpl. apply mbr_eq4; lia.
  - simpl. apply mbr_eq4; lia.
  - simpl. apply mbr_eq4; lia.
  - rewrite contains_spec. simpl. intros H.
    apply mbr_eq4; lia.
Qed.

(** X11: _contains is a partial order on boxes (reflexive, transitive,
    and two boxes that contain each other are equal), and a box that
    contains a canonical box intersects it. *)
Theorem contains_is_partial_order (a b c : mbr) :
  _contains a a = true
  /\ (_contains a b = true -> _contains b c = true -> _contains a c = true)
  /\ _contains a b && _contains b a = mbr_eqb a b
  /\ (canonical b = true -> _contains a b = true -> _intersect a b = true).
Proof.
  split; [apply contains_refl|]. split; [apply contains_trans|].
  destruct a as [[[a0 a1] a2] a3], b as [[[b0 b1] b2] b3]. split.
  - apply eq_true_iff_eq.
    rewrite andb_true_iff, !contains_spec, mbr_eqb_eq. split.
    + intros [H1 H2]. apply mbr_eq4; lia.
    + intros [= -> -> -> ->]. lia.
  - rewrite canonical_spec, contains_spec, intersect_spec. lia.
Qed.

(** X12: _intersect is symmetric, and two canonical boxes intersect
    exactly when some point lies in both (touching edges and corners
    count). *)
Theorem intersect_iff_common_point (a b : mbr) :
  _intersect a b = _intersect b a
  /\ (canonical a = true -> canonical b = true ->
      (_intersect a b = true <->
       exists x y, _contains a (point_box x y) = true
                   /\ _contains b (point_box x y) = true)).
Proof.
  destruct a as [[[a0 a1] a2] a3], b as [[[b0 b1] b2] b3]. split.
  - apply eq_true_iff_eq. rewrite !intersect_spec. lia.
  - rewrite !canonical_spec, intersect_spec. intros Ha Hb. split.
    + intros H. exists (Z.max a0 b0), (Z.max a1 b1).
      rewrite !contains_spec. unfold point_box. lia.
    + intros (x & y & H1 & H2). revert H1 H2.
      rewrite !contains_spec. unfold point_box. lia.
Qed.

Lemma intersect_iff_common_point_witness :
  canonical (0, 0, 2, 2) = true /\ canonical (2, 1, 5, 3) = true
  /\ (_intersect (0, 0, 2, 2) (2, 1, 5, 3) = true <->
      exists x y, _contains (0, 0, 2, 2) (point_box x y) = true
                  /\ _contains (2, 1, 5, 3) (point_box x y) = true).
Proof.
  split; [reflexivity|]. split; [reflexivity|].
  apply (proj2 (intersect_iff_common_point (0, 0, 2, 2) (2, 1, 5, 3)));
    reflexivity.
Defined.

(** X13: the area of a canonical box is not negative, a box has at least
    the area of a canonical box it contains, and so merging a canonical
    box with any box never shrinks it: the enlargement that _best
    minimises is not negative. *)
Theorem area_grows_with_containment (a b : mbr) :
  canonical b = true ->
  0 <= _area b
  /\ (_contains a b = true -> _area b <= _area a)
  /\ canonical (_merge b a) = true
  /\ 0 <= _area (_merge b a) - _area b.
Proof.
  destruct a as [[[a0 a1] a2] a3], b as [[[b0 b1] b2] b3].
  rewrite canonical_spec. intros [Hx Hy].
  split; [simpl; nia|]. split; [|split].
  - rewrite contains_spec. intros H. simpl. nia.
  - apply canonical_spec. simpl. lia.
  - simpl.
    assert (b2 - b0 <= Z.max b2 a2 - Z.min b0 a0) by lia.
    assert (b3 - b1 <= Z.max b3 a3 - Z.min b1 a1) by lia.
    nia.
Qed.

Lemma area_grows_with_containment_witness :
  canonical (1, 1, 3, 2) = true
  /\ 0 <= _area (1, 1, 3, 2)
  /\ (_contains (0, 0, 4, 4) (1, 1, 3, 2) = true ->
      _area (1, 1, 3, 2) <= _area (0, 0, 4, 4))
  /\ canonical (_merge (1, 1, 3, 2) (0, 0, 4, 4)) = true
  /\ 0 <= _area (_merge (1, 1, 3, 2) (0, 0, 4, 4)) - _area (1, 1, 3, 2).
Proof.
  split; [reflexivity|].
  apply (area_grows_with_containment (0, 0, 4, 4) (1, 1, 3, 2)). reflexivity.
Defined.

(** ** _calculate_mbr *)

Lemma contains_merge (a b c : mbr) :
  _contains c (_merge a b) = _contains c a && _contains c b.
Proof.
  destruct a as [[[a0 a1] a2] a3], b as [[[b0 b1] b2] b3],
    c as [[[c0 c1] c2] c3].
  apply eq_true_iff_eq. rewrite andb_true_iff, !contains_spec. simpl. lia.
Qed.

Lemma calculate_mbr_none {C : Type} (nodes : list (mbr * C)) :
  _calculate_mbr nodes = None <-> nodes = [].
Proof.
  destruct nodes as [|n nodes]; [split; reflexivity|].
  rewrite calculate_mbr_cons.
  destruct (_calculate_mbr nodes); split; discriminate.
Qed.

Lemma calculate_mbr_least {C : Type} (nodes : list (mbr * C)) :
  forall b c,
    _calculate_mbr nodes = Some b ->
    Forall (fun n => _contains c (fst n) = true) nodes ->
    _contains c b = true.
Proof.
  induction nodes as [|n nodes IH]; intros b c Hb Hc; [discriminate|].
  rewrite calculate_mbr_cons in Hb.
  inversion Hc as [|? ? Hn Hr]; subst.
  destruct (_calculate_mbr nodes) as [b'|]; simpl in Hb;
    injection Hb as <-; [|exact Hn].
  rewrite contains_merge, Hn. simpl. apply (IH b' c eq_refl Hr).
Qed.

(** X14: _calculate_mbr returns None for no node and for nodes the least
    box that contains the box of each of them: it contains them all, and
    every box that contains them all contains it.  The order of the nodes
    plays no part, and the box of two lists together is the merge of
    their boxes. *)
Theorem calculate_mbr_is_least_cover {C : Type} (nodes : list (mbr * C)) :
  (_calculate_mbr nodes = None <-> nodes = [])
  /\ (forall b, _calculate_mbr nodes = Some b ->
        Forall (fun n => _contains b (fst n) = true) nodes
        /\ (forall c, Forall (fun n => _contains c (fst n) = true) nodes ->
              _contains c b = true))
  /\ (forall nodes', nodes ≡ₚ nodes' ->
        _calculate_mbr nodes' = _calculate_mbr nodes)
  /\ (forall more,
        _calculate_mbr (nodes ++ more)
        = omerge (_calculate_mbr nodes) (_calculate_mbr more)).
Proof.
  split; [apply calculate_mbr_none|]. split; [|split].
  - intros b Hb. split; [apply calculate_mbr_contains; exact Hb|].
    intros c Hc. eapply calculate_mbr_least; eauto.
  - intros nodes' P. symmetry. apply calculate_mbr_perm. exact P.
  - intros more. apply calculate_mbr_app.
Qed.

(** ** __extremes *)

Lemma first_max_at_step {C : Type} (f : mbr -> Z) (seen : list (mbr * C))
    (i0 : nat) (e0 : Z) (m : mbr) (c : C) :
  first_max_at f seen i0 e0 ->
  first_max_at f (seen ++ [(m, c)])
    (if f m >? e0 then length seen else i0)
    (if f m >? e0 then f m else e0).
Proof.
  intros ((b & cb & Hi & Hb) & Hall).
  pose proof (lookup_lt_Some _ _ _ Hi) as Hlt.
  destruct (Z.gtb_spec (f m) e0) as [Hgt|Hle]; split.
  - exists m, c. split; [|reflexivity].
    apply list_lookup_middle. reflexivity.
  - intros j b' c' Hj.
    destruct (decide (j < length seen)%nat) as [Hjl|Hjl].
    + rewrite lookup_app_l in Hj by exact Hjl.
      destruct (Hall j b' c' Hj) as [H1 _]. split; lia.
    + rewrite lookup_app_r in Hj by lia.
      destruct (j - length seen)%nat eqn:E; [|destruct n; discriminate].
      injection Hj as <- <-. split; lia.
  - exists b, cb. split; [|exact Hb]. rewrite lookup_app_l by exact Hlt.
    exact Hi.
  - intros j b' c' Hj.
    destruct (decide (j < length seen)%nat) as [Hjl|Hjl].
    + rewrite lookup_app_l in Hj by exact Hjl. exact (Hall j b' c' Hj).
    + rewrite lookup_app_r in Hj by lia.
      destruct (j - length seen)%nat eqn:E; [|destruct n; discriminate].
      injection Hj as <- <-. split; lia.
Qed.

(** What the loop of [__extremes] has found after the entries [seen]. *)
Lemma extremes_loop_first {C : Type} (rest : list (mbr * C)) :
  forall (seen : list (mbr * C)) i0 i1 i2 i3 e0 e1 e2 e3,
    first_max_at (coord 0) seen i0 e0 ->
    first_max_at (coord 1) seen i1 e1 ->
    first_max_at (fun b => - coord 2 b) seen i2 (- e2) ->
    first_max_at (fun b => - coord 3 b) seen i3 (- e3) ->
    let '((j0, j1, j2, j3), (f0, f1, f2, f3)) :=
      extremes_loop ((i0, i1, i2, i3), (e0, e1, e2, e3)) (length seen) rest in
    first_max_at (coord 0) (seen ++ rest) j0 f0
    /\ first_max_at (coord 1) (seen ++ rest) j1 f1
    /\ first_max_at (fun b => - coord 2 b) (seen ++ rest) j2 (- f2)
    /\ first_max_at (fun b => - coord 3 b) (seen ++ rest) j3 (- f3).
Proof.
  induction rest as [|[m c] rest IH];
    intros seen i0 i1 i2 i3 e0 e1 e2 e3 H0 H1 H2 H3.
  - simpl. rewrite app_nil_r. auto.
  - cbn [extremes_loop].
    pose proof (first_max_at_step _ seen i0 e0 m c H0) as K0.
    pose proof (first_max_at_step _ seen i1 e1 m c H1) as K1.
    pose proof (first_max_at_step _ seen i2 (- e2) m c H2) as K2.
    pose proof (first_max_at_step _ seen i3 (- e3) m c H3) as K3.
    destruct m as [[[m0 m1] m2] m3]. cbn [coord] in K0, K1, K2, K3.
    unfold extremes_step.
    replace (- m2 >? - e2) with (m2 <? e2) in K2
      by (apply eq_true_iff_eq; rewrite Z.ltb_lt, Z.gtb_gt; lia).
    replace (- m3 >? - e3) with (m3 <? e3) in K3
      by (apply eq_true_iff_eq; rewrite Z.ltb_lt, Z.gtb_gt; lia).
    specialize (IH (seen ++ [((m0, m1, m2, m3), c)])).
    rewrite length_app in IH. cbn [length] in IH.
    replace (length seen + 1)%nat with (S (length seen)) in IH by lia.
    rewrite <- app_assoc in IH. cbn [app] in IH.
    destruct (m0 >? e0), (m2 <? e2), (m1 >? e1), (m3 <? e3);
      apply IH; assumption.
Qed.

(** X15: for a list of nodes that is not empty __extremes returns, for
    each of the four coordinates, the extreme value over the boxes of the
    nodes (the greatest lower-left x and y, the least upper-right x and y)
    and the first position of a node that has it; for no node it returns
    the pair of None. *)
Theorem extremes_returns_first_extreme_nodes {C : Type}
    (data : list (mbr * C)) :
  (__extremes data = None <-> data = [])
  /\ (forall i0 i1 i2 i3 e0 e1 e2 e3,
        __extremes data = Some ((i0, i1, i2, i3), (e0, e1, e2, e3)) ->
        first_max_at (coord 0) data i0 e0
        /\ first_max_at (coord 1) data i1 e1
        /\ first_max_at (fun b => - coord 2 b) data i2 (- e2)
        /\ first_max_at (fun b => - coord 3 b) data i3 (- e3)).
Proof.
  split.
  - destruct data as [|[m c] rest]; split; try reflexivity; discriminate.
  - intros i0 i1 i2 i3 e0 e1 e2 e3 H.
    destruct data as [|[m c] rest]; [discriminate|].
    cbn [__extremes] in H. injection H as H.
    destruct m as [[[m0 m1] m2] m3].
    assert (Hb : forall f : mbr -> Z,
               first_max_at f [((m0, m1, m2, m3), c)] 0 (f (m0, m1, m2, m3))).
    { intros f. split.
      - exists (m0, m1, m2, m3), c. split; reflexivity.
      - intros [|j] b c' Hj; [|destruct j; discriminate].
        injection Hj as <- <-. split; lia. }
    pose proof (extremes_loop_first rest [((m0, m1, m2, m3), c)]
                  0 0 0 0 m0 m1 m2 m3
                  (Hb (coord 0)) (Hb (coord 1))
                  (Hb (fun b => - coord 2 b)) (Hb (fun b => - coord 3 b)))
      as K.
    cbn [length app] in K.
    remember (extremes_loop ((0, 0, 0, 0)%nat, (m0, m1, m2, m3)) 1 rest)
      as r eqn:Er in K.
    assert (E : r = ((i0, i1, i2, i3), (e0, e1, e2, e3)))
      by (rewrite Er; exact H).
    rewrite E in K. exact K.
Qed.

(** ** Queries on a tree in order *)

Lemma filter_sublist_impl {A : Type} (p r : A -> bool) (l : list A) :
  Forall (fun x => p x = true -> r x = true) l ->
  List.filter p l `sublist_of` List.filter r l.
Proof.
  induction 1 as [|x l Hx _ IH]; simpl; [constructor|].
  destruct (p x) eqn:P.
  - rewrite (Hx eq_refl). apply sublist_skip. exact IH.
  - destruct (r x); [apply sublist_cons|]; exact IH.
Qed.

Lemma filter_perm {A : Type} (p : A -> bool) (l1 l2 : list A) :
  l1 ≡ₚ l2 -> List.filter p l1 ≡ₚ List.filter p l2.
Proof.
  induction 1 as [|x l1 l2 _ IH|x y l|l1 l2 l3 _ IH1 _ IH2]; simpl.
  - reflexivity.
  - destruct (p x); [apply perm_skip|]; exact IH.
  - destruct (p x), (p y); try reflexivity. apply perm_swap.
  - etransitivity; eauto.
Qed.

Lemma canonical_pairs_leaves (t : rtree) :
  canonical_pairs (leaves t) <-> canonical_leaves t = true.
Proof.
  unfold canonical_pairs, canonical_leaves.
  rewrite forallb_forall, Forall_forall. split.
  - intros H x Hx. apply H. apply list_elem_of_In. exact Hx.
  - intros H x Hx. apply H. apply list_elem_of_In. exact Hx.
Qed.

(** On a tree in order a query returns the stored pairs that pass the
    test of the match type and the value filter, in the order of the
    leaves. *)
Lemma query_well_formed (k : nat) (st : pystate) (q : mbr) (value : pyval)
    (mt : MatchType) :
  well_formed k st -> canonical_pairs (stored k st) ->
  exists fuel0, forall fuel, (fuel0 <= fuel)%nat ->
    _get_normalized_box fuel q value mt st
    = Ok (map yielded (List.filter (spec_accept q value mt) (stored k st))).
Proof.
  intros ((_ & _ & Hroot) & _) Hc.
  unfold stored in *.
  destruct (_root st) as [[h l]|] eqn:Er.
  - destruct Hroot as ((Hv & _ & Ht & _) & _).
    pose proof (valid_unfold k (heap st) _ Hv) as Hu.
    assert (Hr : root_tree k st = Some (tree_at k (heap st) (CNode h l)))
      by (unfold root_tree; rewrite Er; exact Hu).
    destruct (get_normalized_box_tree k st _ q value mt Hr) as [fuel0 H0].
    exists fuel0. intros fuel Hle. rewrite (H0 fuel Hle).
    rewrite query_spec_filter; auto.
    apply canonical_pairs_leaves. exact Hc.
  - exists 1%nat. intros [|fuel] Hle; [lia|].
    unfold _get_normalized_box. rewrite Er. reflexivity.
Qed.

Lemma accept_nested (q : mbr) (value : pyval) (e : mbr * pyval) :
  (spec_accept q value EQUAL e = true -> spec_accept q value CONTAINED e = true)
  /\ (spec_accept q value EQUAL e = true ->
      spec_accept q value CONTAINS e = true)
  /\ (canonical (fst e) = true -> spec_accept q value CONTAINS e = true ->
      spec_accept q value INTERSECT e = true)
  /\ (canonical q = true -> spec_accept q value CONTAINED e = true ->
      spec_accept q value INTERSECT e = true).
Proof.
  unfold spec_accept. destruct e as [b v]. cbn [fst snd spec_leaf_accept].
  rewrite !andb_true_iff, mbr_eqb_eq.
  repeat split; try tauto.
  - destruct H as [-> _]. apply contains_refl.
  - destruct H as [-> _]. apply contains_refl.
  - destruct H0 as [H0 _]. revert H H0.
    rewrite canonical_spec, contains_spec, intersect_spec.
    destruct q as [[[? ?] ?] ?], b as [[[? ?] ?] ?]. lia.
  - destruct H0 as [H0 _]. revert H H0.
    rewrite canonical_spec, contains_spec, intersect_spec.
    destruct q as [[[? ?] ?] ?], b as [[[? ?] ?] ?]. lia.
Qed.

(** X16: the match types are nested.  On a tree in order whose stored boxes
    are canonical, what a query yields with EQUAL is among what it yields
    with CONTAINED and with CONTAINS, in the same order, and what it
    yields with CONTAINS is among what it yields with INTERSECT; so is
    what it yields with CONTAINED when the box of the query is canonical. *)
Theorem match_types_are_nested (k : nat) (st : pystate) (q : mbr)
    (value : pyval) :
  well_formed k st -> canonical_pairs (stored k st) ->
  exists fuel0, forall fuel, (fuel0 <= fuel)%nat ->
    exists eq cd cs it,
      _get_normalized_box fuel q value EQUAL st = Ok eq
      /\ _get_normalized_box fuel q value CONTAINED st = Ok cd
      /\ _get_normalized_box fuel q value CONTAINS st = Ok cs
      /\ _get_normalized_box fuel q value INTERSECT st = Ok it
      /\ eq `sublist_of` cd /\ eq `sublist_of` cs /\ cs `sublist_of` it
      /\ (canonical q = true -> cd `sublist_of` it).
Proof.
  intros Hw Hc.
  destruct (query_well_formed k st q value EQUAL Hw Hc) as [f1 H1].
  destruct (query_well_formed k st q value CONTAINED Hw Hc) as [f2 H2].
  destruct (query_well_formed k st q value CONTAINS Hw Hc) as [f3 H3].
  destruct (query_well_formed k st q value INTERSECT Hw Hc) as [f4 H4].
  exists (Nat.max (Nat.max f1 f2) (Nat.max f3 f4)). intros fuel Hle.
  eexists _, _, _, _.
  split; [apply H1; lia|]. split; [apply H2; lia|].
  split; [apply H3; lia|]. split; [apply H4; lia|].
  repeat split; try intros Hq; apply fmap_sublist, filter_sublist_impl;
    (eapply Forall_impl; [exact Hc|]); intros e He;
    destruct (accept_nested q value e) as (A1 & A2 & A3 & A4); auto.
Qed.

Lemma two_at_origin_well_formed : well_formed 1 (two_at_origin 8 4).
Proof.
  unfold well_formed, shape_ok, good, stored. simpl.
  repeat split; try lia; eauto using NoDup_singleton.
  eexists. split; [reflexivity|]. repeat constructor.
Qed.

Lemma match_types_are_nested_witness :
  well_formed 1 (two_at_origin 8 4)
  /\ canonical_pairs (stored 1 (two_at_origin 8 4))
  /\ exists fuel0, forall fuel, (fuel0 <= fuel)%nat ->
       exists eq cd cs it,
         _get_normalized_box fuel (0, 0, 1, 1) PyNone EQUAL (two_at_origin 8 4)
         = Ok eq
         /\ _get_normalized_box fuel (0, 0, 1, 1) PyNone CONTAINED
              (two_at_origin 8 4) = Ok cd
         /\ _get_normalized_box fuel (0, 0, 1, 1) PyNone CONTAINS
              (two_at_origin 8 4) = Ok cs
         /\ _get_normalized_box fuel (0, 0, 1, 1) PyNone INTERSECT
              (two_at_origin 8 4) = Ok it
         /\ eq `sublist_of` cd /\ eq `sublist_of` cs /\ cs `sublist_of` it
         /\ (canonical (0, 0, 1, 1) = true -> cd `sublist_of` it).
Proof.
  assert (Hc : canonical_pairs (stored 1 (two_at_origin 8 4)))
    by (repeat constructor).
  split; [exact two_at_origin_well_formed|]. split; [exact Hc|].
  apply (match_types_are_nested 1 (two_at_origin 8 4) (0, 0, 1, 1) PyNone
           two_at_origin_well_formed Hc).
Defined.

(** X17: a query after an insertion.  On a tree in order whose stored
    boxes are canonical, after an add_point or add_box that returns a query
    yields what it yielded before and, when the new pair passes the test of
    the match type and the value filter, the new pair, each pair as often as
    before; and the query at the box of the new pair, without filter or
    with the new value as filter, yields the new pair whatever the match
    type. *)
Theorem query_after_add (fuel_add : nat) (c : call) (k : nat)
    (st st' : pystate) (q : mbr) (value : pyval) (mt : MatchType) :
  is_add c -> well_formed k st -> canonical_pairs (stored k st) ->
  do_call fuel_add c st = (Ok tt, st') ->
  exists fuel0, forall fuel, (fuel0 <= fuel)%nat ->
    (exists before after,
       _get_normalized_box fuel q value mt st = Ok before
       /\ _get_normalized_box fuel q value mt st' = Ok after
       /\ after ≡ₚ map yielded (List.filter (spec_accept q value mt) (added c))
                   ++ before)
    /\ (forall m v, added c = [(m, v)] ->
        exists any same,
          _get_normalized_box fuel m PyNone mt st' = Ok any
          /\ _get_normalized_box fuel m v mt st' = Ok same
          /\ (CVal v, m) ∈ any /\ (CVal v, m) ∈ same).
Proof.
  intros Ha Hw Hc H.
  destruct (do_call_well_formed fuel_add c k st st' Ha Hw H) as (k' & Hw' & P).
  assert (Hca : canonical_pairs (added c)).
  { destruct c; try contradiction; repeat constructor; cbn [added fst].
    - apply canonical_spec. lia.
    - apply canonical_spec. unfold _normalize_mbr. lia. }
  assert (Hc' : canonical_pairs (stored k' st')).
  { unfold canonical_pairs. rewrite P. apply Forall_app. split; assumption. }
  assert (Hm : exists m v, added c = [(m, v)])
    by (destruct c; try contradiction; eauto).
  destruct Hm as (m & v & Hm).
  destruct (query_well_formed k st q value mt Hw Hc) as [f1 H1].
  destruct (query_well_formed k' st' q value mt Hw' Hc') as [f2 H2].
  destruct (query_well_formed k' st' m PyNone mt Hw' Hc') as [f3 H3].
  destruct (query_well_formed k' st' m v mt Hw' Hc') as [f4 H4].
  exists (Nat.max (Nat.max f1 f2) (Nat.max f3 f4)). intros fuel Hle. split.
  - eexists _, _. split; [apply H1; lia|]. split; [apply H2; lia|].
    rewrite <- map_app, <- List.filter_app.
    apply Permutation_map, filter_perm. exact P.
  - intros m' v' Hm'. rewrite Hm in Hm'. injection Hm' as <- <-.
    eexists _, _. split; [apply H3; lia|]. split; [apply H4; lia|].
    assert (Hin : (m, v) ∈ stored k' st').
    { rewrite P, Hm. apply list_elem_of_here. }
    assert (Hcm : canonical m = true).
    { rewrite Hm in Hca. inversion Hca; subst. assumption. }
    assert (Hbox : spec_leaf_accept mt m m = true).
    { destruct mt; simpl.
      - apply mbr_eqb_eq. reflexivity.
      - apply contains_refl.
      - apply contains_refl.
      - revert Hcm. rewrite canonical_spec, intersect_spec.
        destruct m as [[[? ?] ?] ?]. lia. }
    split.
    + change (CVal v, m) with (yielded (m, v)). apply list_elem_of_fmap_2.
      apply list_elem_of_In, filter_In. split; [apply list_elem_of_In, Hin|].
      unfold spec_accept. cbn [fst snd]. rewrite Hbox. reflexivity.
    + change (CVal v, m) with (yielded (m, v)). apply list_elem_of_fmap_2.
      apply list_elem_of_In, filter_In. split; [apply list_elem_of_In, Hin|].
      unfold spec_accept. cbn [fst snd]. rewrite Hbox.
      destruct v as [|n]; simpl; [reflexivity|]. apply Z.eqb_refl.
Qed.

Lemma query_after_add_witness :
  well_formed 1 (two_at_origin 8 4)
  /\ canonical_pairs (stored 1 (two_at_origin 8 4))
  /\ do_call 2 (AddBox (PyInt 3) 2 2 1 1) (two_at_origin 8 4)
     = (Ok tt,
        mk_state [[((0, 0, 0, 0), CVal (PyInt 1)); ((0, 0, 0, 0), CVal (PyInt 2));
                   ((1, 1, 2, 2), CVal (PyInt 3))]]
          8 4 (Some (0%nat, 0%nat)) 3)
  /\ exists fuel0, forall fuel, (fuel0 <= fuel)%nat ->
       (exists before after,
          _get_normalized_box fuel (0, 0, 5, 5) PyNone CONTAINS
            (two_at_origin 8 4) = Ok before
          /\ _get_normalized_box fuel (0, 0, 5, 5) PyNone CONTAINS
               (mk_state [[((0, 0, 0, 0), CVal (PyInt 1));
                           ((0, 0, 0, 0), CVal (PyInt 2));
                           ((1, 1, 2, 2), CVal (PyInt 3))]]
                  8 4 (Some (0%nat, 0%nat)) 3) = Ok after
          /\ after ≡ₚ map yielded
                        (List.filter (spec_accept (0, 0, 5, 5) PyNone CONTAINS)
                           (added (AddBox (PyInt 3) 2 2 1 1)))
                      ++ before)
       /\ (forall m v, added (AddBox (PyInt 3) 2 2 1 1) = [(m, v)] ->
           exists any same,
             _get_normalized_box fuel m PyNone CONTAINS
               (mk_state [[((0, 0, 0, 0), CVal (PyInt 1));
                           ((0, 0, 0, 0), CVal (PyInt 2));
                           ((1, 1, 2, 2), CVal (PyInt 3))]]
                  8 4 (Some (0%nat, 0%nat)) 3) = Ok any
             /\ _get_normalized_box fuel m v CONTAINS
                  (mk_state [[((0, 0, 0, 0), CVal (PyInt 1));
                              ((0, 0, 0, 0), CVal (PyInt 2));
                              ((1, 1, 2, 2), CVal (PyInt 3))]]
                     8 4 (Some (0%nat, 0%nat)) 3) = Ok same
             /\ (CVal v, m) ∈ any /\ (CVal v, m) ∈ same).
Proof.
  assert (Hc : canonical_pairs (stored 1 (two_at_origin 8 4)))
    by (repeat constructor).
  split; [exact two_at_origin_well_formed|]. split; [exact Hc|].
  split; [reflexivity|].
  apply (query_after_add 2 (AddBox (PyInt 3) 2 2 1 1) 1 (two_at_origin 8 4) _
           (0, 0, 5, 5) PyNone CONTAINS I two_at_origin_well_formed Hc).
  reflexivity.
Defined.

(** ** assert_consistent *)

Lemma assert_consistent_S (fuel : nat) (height : nat) (l : loc) :
  _assert_consistent (S fuel) (Some (CNode height l)) =
  bind (read l) (fun data =>
  bind get_min (fun min =>
  bind get_max (fun max =>
  bind get_root (fun root =>
  bind
     (if Z.of_nat (length data) <? min then
        match root with
        | None => ret true
        | Some (hr, lr) =>
            fun st =>
              match py_eqb fuel (heap st) (CNode height l) (CNode hr lr) with
              | Ok b => (Ok (negb b), st)
              | Raise e => (Raise e, st)
              end
        end
      else ret false)
   (fun too_few : bool =>
   if too_few then raise (TooFewChildren height)
   else if Z.of_nat (length data) >? max then raise (TooManyChildren height)
   else if negb (Nat.eqb height 0) then
     assert_children (_assert_consistent fuel) height data 0
   else ret (Z.of_nat (length data))))))).
Proof. reflexivity. Qed.

Lemma py_eqb_S (fuel : nat) (h : list (list entry)) (h1 : nat) (l1 : loc)
    (h2 : nat) (l2 : loc) :
  py_eqb (S fuel) h (CNode h1 l1) (CNode h2 l2) =
  if negb (Nat.eqb h1 h2) then Ok false
  else if Nat.eqb l1 l2 then Ok true
  else
    match h !! l1, h !! l2 with
    | Some d1, Some d2 =>
        if negb (Nat.eqb (length d1) (length d2)) then Ok false
        else entries_eqb (py_eqb fuel h) d1 d2
    | _, _ => Raise DanglingLocation
    end.
Proof. reflexivity. Qed.

Lemma tree_at_indep (h : list (list entry)) (ka : nat) :
  forall kb c, valid ka h c -> valid kb h c -> tree_at ka h c = tree_at kb h c.
Proof.
  induction ka as [|ka IH]; intros kb c Ha Hb; [contradiction|].
  destruct kb as [|kb]; [contradiction|].
  destruct c as [v|ht l]; [contradiction|].
  cbn [valid tree_at] in *.
  destruct Ha as (data & Hl & Ha), Hb as (data' & Hl' & Hb).
  rewrite Hl in Hl'. injection Hl' as <-. rewrite Hl. cbn [default].
  destruct ht as [|ht]; [reflexivity|]. f_equal.
  apply map_ext_Forall. rewrite Forall_forall in Ha, Hb |- *.
  intros e He. rewrite (IH kb (snd e)); auto.
Qed.

Lemma entries_eqb_true (rec : content -> content -> res bool)
    (d1 : list entry) :
  forall d2, entries_eqb rec d1 d2 = Ok true ->
    Forall2 (fun e1 e2 => rec (snd e1) (snd e2) = Ok true) d1 d2.
Proof.
  induction d1 as [|[m1 c1] d1 IH]; intros [|[m2 c2] d2] H; simpl in H;
    try discriminate; [constructor|].
  destruct (negb (mbr_eqb m1 m2)); [discriminate|].
  destruct (rec c1 c2) as [[|]|e] eqn:E; try discriminate.
  constructor; [exact E | apply IH; exact H].
Qed.

Lemma sum_sizes (h : list (list entry)) (ka kb : nat) (d1 d2 : list entry) :
  Forall2 (fun e1 e2 => size_of (tree_at ka h (snd e1))
                        = size_of (tree_at kb h (snd e2))) d1 d2 ->
  list_sum (map (fun e => size_of (snd e))
              (map (fun e => (fst e, tree_at ka h (snd e))) d1))
  = list_sum (map (fun e => size_of (snd e))
                (map (fun e => (fst e, tree_at kb h (snd e))) d2)).
Proof.
  induction 1 as [|e1 e2 d1 d2 He _ IH]; [reflexivity|].
  simpl. rewrite He. f_equal. exact IH.
Qed.

(** Two nodes that compare equal stand for trees with as many nodes. *)
Lemma py_eqb_true_size (h : list (list entry)) (fuel : nat) :
  forall ka kb a b,
    valid ka h a -> valid kb h b ->
    py_eqb fuel h a b = Ok true ->
    size_of (tree_at ka h a) = size_of (tree_at kb h b).
Proof.
  induction fuel as [|fuel IH]; intros ka kb a b Ha Hb H; [discriminate|].
  destruct ka as [|ka]; [contradiction|].
  destruct kb as [|kb]; [contradiction|].
  destruct a as [v|h1 l1]; [contradiction|].
  destruct b as [w|h2 l2]; [contradiction|].
  rewrite py_eqb_S in H.
  destruct (Nat.eqb_spec h1 h2) as [<-|]; [|discriminate]. cbn [negb] in H.
  destruct (Nat.eqb_spec l1 l2) as [<-|_].
  { rewrite (tree_at_indep h (S ka) (S kb) _ Ha Hb). reflexivity. }
  cbn [valid tree_at] in *.
  destruct Ha as (d1 & Hl1 & Ha), Hb as (d2 & Hl2 & Hb).
  rewrite Hl1, Hl2 in *. cbn [default].
  destruct (negb (length d1 =? length d2)%nat); [discriminate|].
  destruct h1 as [|h1]; [reflexivity|]. cbn [size_of]. f_equal.
  apply entries_eqb_true in H. clear Hl1 Hl2. unfold id.
  apply sum_sizes.
  induction H as [|e1 e2 d1 d2 He _ IHd]; [constructor|].
  inversion Ha; subst. inversion Hb; subst.
  constructor; [eapply IH; eauto | auto].
Qed.

Lemma list_sum_elem (x : nat) (l : list nat) :
  x ∈ l -> (x <= list_sum l)%nat.
Proof.
  induction 1 as [x l|x y l _ IH]; simpl; lia.
Qed.

Section Checked.
Context (st : pystate) (N : nat).
Hypothesis Hroot :
  match _root st with
  | None => True
  | Some (hr, lr) =>
      exists kr, valid kr (heap st) (CNode hr lr)
                 /\ size_of (tree_at kr (heap st) (CNode hr lr)) = N
  end.

(** What the loop over the children has checked when it returns. *)
Lemma assert_children_sound (k : nat) (fuel height : nat) :
  (forall c n st',
     valid k (heap st) c ->
     (size_of (tree_at k (heap st) c) < N)%nat ->
     _assert_consistent fuel (Some c) st = (Ok n, st') ->
     st' = st
     /\ n = Z.of_nat (length (leaves (tree_at k (heap st) c)))
     /\ node_checked (_min st) (_max st) (tree_at k (heap st) c)
     /\ _min st <= fanout (tree_at k (heap st) c)) ->
  forall data count n st',
    Forall (fun e => valid k (heap st) (snd e)) data ->
    Forall (fun e => (size_of (tree_at k (heap st) (snd e)) < N)%nat) data ->
    assert_children (_assert_consistent fuel) height data count st
    = (Ok n, st') ->
    st' = st
    /\ n = count + Z.of_nat (length (eleaves k (heap st) data))
    /\ tight (Inner height (map (etree k (heap st)) data)) = true
    /\ fanout_ok (_min st) (_max st) (Inner height (map (etree k (heap st)) data))
       = true.
Proof.
  intros IH. induction data as [|[m c] data IHd]; intros count n st' Hv Hs H.
  - injection H as <- <-. unfold eleaves. simpl. repeat split; lia.
  - inversion Hv as [|? ? Hc Hvr]; subst. inversion Hs as [|? ? Hsc Hsr]; subst.
    cbn [snd] in Hc, Hsc.
    destruct k as [|k']; [contradiction|].
    destruct c as [v|hc lc]; [contradiction|].
    cbn [assert_children] in H. unfold bind at 1 in H. unfold read at 1 in H.
    pose proof Hc as (cs & Hl & Hcs). rewrite Hl in H.
    destruct (option_mbr_eqb (_calculate_mbr cs) m) eqn:Eb; [|discriminate].
    cbn [negb] in H. unfold bind at 1 in H.
    destruct (_assert_consistent fuel (Some (CNode hc lc)) st)
      as [[n1|e] st1] eqn:E1; [|discriminate].
    destruct (IH _ _ _ Hc Hsc E1) as (-> & -> & (Ht & Hf & Hmx) & Hmn).
    destruct (IHd _ _ _ Hvr Hsr H) as (-> & -> & Htr & Hfr).
    split; [reflexivity|]. split; [|split].
    + unfold eleaves. cbn [flat_map snd]. rewrite length_app.
      fold (eleaves (S k') (heap st) data). lia.
    + cbn [tight map forallb] in Htr |- *. rewrite Htr.
      change (etree (S k') (heap st) (m, CNode hc lc))
        with (m, tree_at (S k') (heap st) (CNode hc lc)).
      cbn [fst snd]. rewrite Ht, andb_true_r, andb_true_r.
      replace (tree_mbr (tree_at (S k') (heap st) (CNode hc lc)))
        with (_calculate_mbr cs); [exact Eb|].
      cbn [tree_at]. rewrite Hl. cbn [default].
      destruct hc; simpl; symmetry; apply calculate_mbr_map; reflexivity.
    + cbn [fanout_ok map forallb] in Hfr |- *. rewrite Hfr.
      change (etree (S k') (heap st) (m, CNode hc lc))
        with (m, tree_at (S k') (heap st) (CNode hc lc)).
      cbn [fst snd]. rewrite Hf, !andb_true_r.
      apply andb_true_iff. split; lia.
Qed.

Lemma assert_node_sound (k : nat) :
  forall fuel c n st',
    valid k (heap st) c ->
    (size_of (tree_at k (heap st) c) <= N)%nat ->
    _assert_consistent fuel (Some c) st = (Ok n, st') ->
    st' = st
    /\ n = Z.of_nat (length (leaves (tree_at k (heap st) c)))
    /\ node_checked (_min st) (_max st) (tree_at k (heap st) c)
    /\ ((size_of (tree_at k (heap st) c) < N)%nat ->
        _min st <= fanout (tree_at k (heap st) c)).
Proof.
  induction k as [|k IH]; intros fuel c n st' Hv Hs H; [contradiction|].
  destruct c as [v|height l]; [contradiction|].
  destruct fuel as [|fuel]; [discriminate|].
  rewrite assert_consistent_S in H.
  pose proof Hv as (data & Hl & Hd).
  unfold bind at 1 in H. unfold read at 1 in H. rewrite Hl in H.
  unfold bind at 1 in H. unfold get_min at 1 in H.
  unfold bind at 1 in H. unfold get_max at 1 in H.
  unfold bind at 1 in H. unfold get_root at 1 in H.
  assert (Hfan : fanout (tree_at (S k) (heap st) (CNode height l))
                 = Z.of_nat (length data)).
  { cbn [tree_at]. rewrite Hl. cbn [default].
    destruct height; cbn [fanout]; rewrite length_map; reflexivity. }
  assert (Hmin : (size_of (tree_at (S k) (heap st) (CNode height l)) < N)%nat ->
                 _min st <= Z.of_nat (length data)).
  { intros Hlt.
    destruct (Z.ltb_spec (Z.of_nat (length data)) (_min st)) as [Hfew|]; [|lia].
    exfalso. unfold bind at 1 in H.
    destruct (_root st) as [[hr lr]|]; [|discriminate].
    destruct Hroot as (kr & Hvr & Hn).
    destruct (py_eqb fuel (heap st) (CNode height l) (CNode hr lr))
      as [[|]|e] eqn:E; try discriminate.
    pose proof (py_eqb_true_size _ _ _ _ _ _ Hv Hvr E). lia. }
  unfold bind at 1 in H.
  match type of H with
  | (match ?m with _ => _ end) = _ =>
      destruct m as [[too_few|e] st1] eqn:Et; [|discriminate]
  end.
  assert (st1 = st) as ->.
  { unfold ret in Et. destruct (Z.of_nat (length data) <? _min st).
    - destruct (_root st) as [[hr lr]|]; [|injection Et as _ <-; reflexivity].
      destruct (py_eqb fuel (heap st) (CNode height l) (CNode hr lr));
        injection Et as _ <-; reflexivity.
    - injection Et as _ <-. reflexivity. }
  destruct too_few; [discriminate|].
  destruct (Z.gtb_spec (Z.of_nat (length data)) (_max st)) as [|Hmx];
    [discriminate|].
  destruct height as [|ht].
  - cbn [Nat.eqb negb] in H. injection H as <- <-.
    cbn [tree_at] in *. rewrite Hl in *. cbn [default leaves] in *.
    rewrite length_map. repeat split; auto.
    + cbn [fanout]. rewrite length_map. exact Hmx.
    + intros Hlt. cbn [fanout]. rewrite length_map. apply Hmin. exact Hlt.
  - cbn [Nat.eqb negb] in H.
    destruct (tree_at_inner k (heap st) ht l data Hl) as (T & _).
    rewrite T in *. cbn [size_of] in Hs.
    assert (Hsz : Forall (fun e => (size_of (tree_at k (heap st) (snd e)) < N)%nat)
                    data).
    { rewrite Forall_forall. intros e He.
      assert (size_of (tree_at k (heap st) (snd e))
              <= list_sum (map (fun e0 => size_of (snd e0))
                             (map (etree k (heap st)) data)))%nat; [|lia].
      apply list_sum_elem. rewrite map_map.
      apply (list_elem_of_fmap_2 (fun x => size_of (snd (etree k (heap st) x)))).
      exact He. }
    destruct (assert_children_sound k fuel (S ht)) with (data := data)
      (count := 0) (n := n) (st' := st') as (-> & -> & Ht & Hf); auto.
    { intros c n0 st0 Hc Hlt E.
      destruct (IH fuel c n0 st0 Hc ltac:(lia) E) as (A & B & C0 & D).
      auto. }
    split; [reflexivity|]. split; [|split].
    + rewrite leaves_inner. lia.
    + split; [exact Ht|]. split; [exact Hf|].
      cbn [fanout]. rewrite length_map. exact Hmx.
    + intros Hlt. cbn [fanout]. rewrite length_map. apply Hmin.
      cbn [size_of]. exact Hlt.
Qed.
End Checked.

(** A node in order passes the check. *)
Lemma assert_children_complete (st : pystate) (k : nat) (fuel height : nat) :
  (forall c,
     valid k (heap st) c ->
     node_checked (_min st) (_max st) (tree_at k (heap st) c) ->
     _min st <= fanout (tree_at k (heap st) c) ->
     _assert_consistent fuel (Some c) st
     = (Ok (Z.of_nat (length (leaves (tree_at k (heap st) c)))), st)) ->
  forall data count,
    Forall (fun e => valid k (heap st) (snd e)) data ->
    tight (Inner height (map (etree k (heap st)) data)) = true ->
    fanout_ok (_min st) (_max st) (Inner height (map (etree k (heap st)) data))
    = true ->
    assert_children (_assert_consistent fuel) height data count st
    = (Ok (count + Z.of_nat (length (eleaves k (heap st) data))), st).
Proof.
  intros IH. induction data as [|[m c] data IHd]; intros count Hv Ht Hf.
  - unfold eleaves. simpl. unfold ret. do 2 f_equal. lia.
  - inversion Hv as [|? ? Hc Hvr]; subst. cbn [snd] in Hc.
    destruct k as [|k']; [contradiction|].
    destruct c as [v|hc lc]; [contradiction|].
    cbn [tight fanout_ok map forallb] in Ht, Hf.
    change (etree (S k') (heap st) (m, CNode hc lc))
      with (m, tree_at (S k') (heap st) (CNode hc lc)) in Ht, Hf.
    cbn [fst snd] in Ht, Hf.
    apply andb_true_iff in Ht as [Ht Htr]. apply andb_true_iff in Ht as [Hb Ht].
    apply andb_true_iff in Hf as [Hf Hfr]. apply andb_true_iff in Hf as [Hn Hf].
    apply andb_true_iff in Hn as [Hmn Hmx].
    pose proof Hc as (cs & Hl & Hcs).
    cbn [assert_children]. unfold bind at 1. unfold read at 1. rewrite Hl.
    replace (_calculate_mbr cs)
      with (tree_mbr (tree_at (S k') (heap st) (CNode hc lc))).
    2:{ cbn [tree_at]. rewrite Hl. cbn [default].
        destruct hc; simpl; apply calculate_mbr_map; reflexivity. }
    rewrite Hb. cbn [negb]. unfold bind at 1.
    rewrite (IH _ Hc) by (try split; try split; auto; lia).
    rewrite (IHd _ Hvr Htr Hfr). unfold eleaves. cbn [flat_map snd].
    rewrite length_app. do 2 f_equal. lia.
Qed.

Lemma assert_node_complete (st : pystate) (k : nat) :
  forall fuel c,
    (k < fuel)%nat ->
    valid k (heap st) c ->
    node_checked (_min st) (_max st) (tree_at k (heap st) c) ->
    (_min st <= fanout (tree_at k (heap st) c)
     \/ exists hr lr, _root st = Some (hr, lr) /\ c = CNode hr lr) ->
    _assert_consistent fuel (Some c) st
    = (Ok (Z.of_nat (length (leaves (tree_at k (heap st) c)))), st).
Proof.
  induction k as [|k IH]; intros fuel c Hk Hv (Ht & Hf & Hmx) Hmn;
    [contradiction|].
  destruct c as [v|height l]; [contradiction|].
  destruct fuel as [|fuel]; [lia|].
  rewrite assert_consistent_S.
  pose proof Hv as (data & Hl & Hd).
  unfold bind at 1. unfold read at 1. rewrite Hl.
  unfold bind at 1. unfold get_min at 1.
  unfold bind at 1. unfold get_max at 1.
  unfold bind at 1. unfold get_root at 1.
  assert (Hfan : fanout (tree_at (S k) (heap st) (CNode height l))
                 = Z.of_nat (length data)).
  { cbn [tree_at]. rewrite Hl. cbn [default].
    destruct height; cbn [fanout]; rewrite length_map; reflexivity. }
  rewrite Hfan in Hmx, Hmn.
  unfold bind at 1.
  match goal with
  | |- (match ?m with _ => _ end) = _ =>
      replace m with (@Ok bool false, st)
  end.
  2:{ symmetry.
      destruct (Z.ltb_spec (Z.of_nat (length data)) (_min st)) as [Hfew|];
        [|reflexivity].
      destruct Hmn as [|(hr & lr & -> & [= <- <-])]; [lia|].
      destruct fuel as [|fuel]; [lia|].
      rewrite py_eqb_S, !Nat.eqb_refl. reflexivity. }
  destruct (Z.gtb_spec (Z.of_nat (length data)) (_max st)) as [|_]; [lia|].
  destruct height as [|ht].
  - cbn [Nat.eqb negb tree_at]. rewrite Hl. cbn [default leaves].
    rewrite length_map. reflexivity.
  - cbn [Nat.eqb negb].
    destruct (tree_at_inner k (heap st) ht l data Hl) as (T & _).
    rewrite T in *.
    rewrite (assert_children_complete st k fuel (S ht)); auto.
    + rewrite leaves_inner. reflexivity.
    + intros c Hc Hn Hm. apply IH; auto. lia.
Qed.

(** The check reads the tree and never changes it. *)
Lemma assert_children_pure (rec : option content -> M Z) (height : nat) :
  (forall nd st r st', rec nd st = (r, st') -> st' = st) ->
  forall data count st r st',
    assert_children rec height data count st = (r, st') -> st' = st.
Proof.
  intros Hrec. induction data as [|[m c] data IH]; intros count st r st' H.
  - injection H as _ <-. reflexivity.
  - destruct c as [v|hc lc]; [injection H as _ <-; reflexivity|].
    cbn [assert_children] in H. unfold bind at 1 in H. unfold read at 1 in H.
    destruct (heap st !! lc) as [cs|]; [|injection H as _ <-; reflexivity].
    destruct (negb (option_mbr_eqb (_calculate_mbr cs) m));
      [injection H as _ <-; reflexivity|].
    unfold bind at 1 in H.
    destruct (rec (Some (CNode hc lc)) st) as [[n|e] st1] eqn:E;
      apply Hrec in E as ->; [eauto | injection H as _ <-; reflexivity].
Qed.

Lemma assert_node_pure (fuel : nat) :
  forall nd st r st', _assert_consistent fuel nd st = (r, st') -> st' = st.
Proof.
  induction fuel as [|fuel IH]; intros nd st r st' H.
  - injection H as _ <-. reflexivity.
  - destruct nd as [[v|height l]|];
      [injection H as _ <-; reflexivity | | injection H as _ <-; reflexivity].
    rewrite assert_consistent_S in H.
    unfold bind at 1 in H. unfold read at 1 in H.
    destruct (heap st !! l) as [data|]; [|injection H as _ <-; reflexivity].
    unfold bind at 1 in H. unfold get_min at 1 in H.
    unfold bind at 1 in H. unfold get_max at 1 in H.
    unfold bind at 1 in H. unfold get_root at 1 in H.
    unfold bind at 1 in H.
    match type of H with
    | (match ?m with _ => _ end) = _ =>
        destruct m as [[too_few|e] st1] eqn:Et
    end.
    + assert (st1 = st) as ->.
      { unfold ret in Et. destruct (Z.of_nat (length data) <? _min st).
        - destruct (_root st) as [[hr lr]|]; [|injection Et as _ <-; reflexivity].
          destruct (py_eqb fuel (heap st) (CNode height l) (CNode hr lr));
            injection Et as _ <-; reflexivity.
        - injection Et as _ <-. reflexivity. }
      destruct too_few; [injection H as _ <-; reflexivity|].
      destruct (Z.of_nat (length data) >? _max st);
        [injection H as _ <-; reflexivity|].
      destruct (negb (height =? 0)%nat);
        [|injection H as _ <-; reflexivity].
      eapply assert_children_pure; eauto.
    + injection H as _ <-.
      unfold ret in Et. destruct (Z.of_nat (length data) <? _min st).
      * destruct (_root st) as [[hr lr]|]; [|discriminate].
        destruct (py_eqb fuel (heap st) (CNode height l) (CNode hr lr));
          injection Et as _ <-; reflexivity.
      * discriminate.
Qed.

(** With fuel for the depth of the tree, [assert_consistent] returns
    exactly on the states that satisfy the invariants and whose root has
    at most max_entries entries. *)
Lemma assert_consistent_decides (k fuel : nat) (st : pystate) :
  (forall hr lr, _root st = Some (hr, lr) -> valid k (heap st) (CNode hr lr)) ->
  (k < fuel)%nat ->
  assert_consistent fuel st = (Ok tt, st)
  <-> invariants k st = true
      /\ forall t, root_tree k st = Some t -> fanout t <= _max st.
Proof.
  intros Hv Hk.
  unfold assert_consistent, invariants, root_tree.
  destruct (_root st) as [[hr lr]|] eqn:Er.
  - specialize (Hv hr lr eq_refl).
    rewrite (valid_unfold k (heap st) _ Hv).
    replace (bool_decide (is_Some (Some (hr, lr)))) with true
      by (symmetry; apply bool_decide_eq_true; eauto).
    rewrite andb_false_r. unfold bind. split.
    + intros H.
      destruct (_assert_consistent fuel (Some (CNode hr lr)) st)
        as [[n|e] st1] eqn:E; [|discriminate].
      destruct (assert_node_sound st
                  (size_of (tree_at k (heap st) (CNode hr lr)))) with
        (k := k) (fuel := fuel) (c := CNode hr lr) (n := n) (st' := st1)
        as (-> & -> & (Ht & Hf & Hmx) & _); auto.
      { rewrite Er. eauto. }
      destruct (Z.eqb_spec (Z.of_nat (length (leaves (tree_at k (heap st)
                                                       (CNode hr lr)))))
                  (_size st)) as [Hs|]; [|discriminate].
      rewrite Ht, Hf, <- Hs, Z.eqb_refl. split; [reflexivity|].
      intros t [= <-]. exact Hmx.
    + intros [Hi Hmx]. apply andb_true_iff in Hi as [Hi Hs].
      apply andb_true_iff in Hi as [Hf Ht]. apply Z.eqb_eq in Hs.
      rewrite (assert_node_complete st k fuel (CNode hr lr)); auto.
      *  rewrite <- Hs, Z.eqb_refl. reflexivity.
      *  split; [exact Ht|]. split; [exact Hf|]. apply Hmx. reflexivity.
      *  right. eauto.
  - cbn [andb negb]. replace (bool_decide (is_Some (@None node))) with false.
    2:{ symmetry. apply bool_decide_eq_false. intros [x Hx]. discriminate. }
    cbn [negb]. rewrite andb_true_r.
    destruct fuel as [|fuel]; [lia|].
    destruct (Z.eqb_spec (_size st) 0) as [Hs|Hs]; cbn [negb].
    + unfold bind. cbn [_assert_consistent]. unfold ret.
      rewrite Hs. simpl. split; [intros _; split; [reflexivity|discriminate]
                                | reflexivity].
    + split; [discriminate | intros [? _]; discriminate].
Qed.

(** X18: assert_consistent checks the invariants.  On a state whose heap
    holds a tree below the root, and with enough fuel for its depth,
    assert_consistent returns exactly when the three invariants hold (every
    node below the root has between min_entries and max_entries entries,
    every recorded box is the merge of the boxes of the child, the size is
    the number of leaf entries) and the root has at most max_entries
    entries.  Whether it returns or raises, it leaves the tree as it was. *)
Theorem assert_consistent_checks_invariants (k fuel : nat) (st : pystate) :
  (forall hr lr, _root st = Some (hr, lr) -> valid k (heap st) (CNode hr lr)) ->
  (k < fuel)%nat ->
  (assert_consistent fuel st = (Ok tt, st)
   <-> invariants k st = true
       /\ forall t, root_tree k st = Some t -> fanout t <= _max st)
  /\ (forall r st', assert_consistent fuel st = (r, st') -> st' = st).
Proof.
  intros Hv Hk. split; [apply assert_consistent_decides; assumption|].
  intros r st' H. unfold assert_consistent in H.
  destruct (negb (_size st =? 0) && negb (bool_decide (is_Some (_root st))));
    [injection H as _ <-; reflexivity|].
  unfold bind in H.
  destruct (_assert_consistent fuel _ st) as [[n|e] st1] eqn:E;
    apply assert_node_pure in E as ->.
  - destruct (negb (n =? _size st)); injection H as _ <-; reflexivity.
  - injection H as _ <-. reflexivity.
Qed.

Lemma assert_consistent_checks_invariants_witness :
  (forall hr lr, _root two_clusters = Some (hr, lr) ->
     valid 2 (heap two_clusters) (CNode hr lr))
  /\ (assert_consistent 3 two_clusters = (Ok tt, two_clusters)
      <-> invariants 2 two_clusters = true
          /\ forall t, root_tree 2 two_clusters = Some t ->
               fanout t <= _max two_clusters)
  /\ (forall r st', assert_consistent 3 two_clusters = (r, st') ->
        st' = two_clusters).
Proof.
  assert (Hv : forall hr lr, _root two_clusters = Some (hr, lr) ->
                 valid 2 (heap two_clusters) (CNode hr lr)).
  { intros hr lr [= <- <-]. simpl.
    eexists. split; [reflexivity|].
    repeat constructor; simpl; eexists; (split; [reflexivity|]);
      repeat constructor. }
  split; [exact Hv|].
  apply (assert_consistent_checks_invariants 2 3 two_clusters Hv). lia.
Defined.

(** ** Insertion fails only by the division in seed selection *)








Section Total.
Context (min max : Z) (v : pyval) (m g : mbr).
Hypothesis Hmin : 1 <= min.
Hypothesis Hmax : 2 * min <= max.

End Total.



Lemma tree_mbr_at (k : nat) (h : list (list entry)) (ht : nat) (l : loc)
    (data : list entry) :
  h !! l = Some data ->
  tree_mbr (tree_at (S k) h (CNode ht l)) = _calculate_mbr data.
Proof.
  intros Hl. cbn [tree_at]. rewrite Hl. cbn [default].
  destruct ht; simpl; apply calculate_mbr_map; reflexivity.
Qed.













Lemma two_clusters_well_formed : well_formed 2 two_clusters.
Proof.
  split; [split; [simpl; lia|split; [simpl; lia|]]|reflexivity].
  cbn [_root two_clusters]. split; [|simpl; lia].
  split; [|split; [|split; reflexivity]].
  - eexists. split; [reflexivity|].
    apply Forall_cons_2; [|apply Forall_cons_2; [|apply Forall_nil_2]];
      (eexists; split; [reflexivity|]; repeat constructor).
  - cbn. apply (bool_decide_unpack (NoDup [3; 1; 2]%nat)). reflexivity.
Qed.



Lemma added_canonical (cs : list call) :
  Forall is_add cs -> canonical_pairs (flat_map added cs).
Proof.
  unfold canonical_pairs.
  induction 1 as [|c cs Hc _ IH]; [constructor|].
  cbn [flat_map]. apply Forall_app. split; [|exact IH].
  destruct c; try contradiction; repeat constructor; cbn [added fst].
  - apply canonical_spec. lia.
  - apply canonical_spec. unfold _normalize_mbr. lia.
Qed.

Lemma canonical_pairs_perm (l1 l2 : list (mbr * pyval)) :
  l1 ≡ₚ l2 -> canonical_pairs l2 -> canonical_pairs l1.
Proof. unfold canonical_pairs. intros P H. rewrite P. exact H. Qed.

(** X22: a tree built by insertions answers queries from what was
    inserted.  After add_point and add_box calls on a new tree that all
    returned, len is the number of calls, and a query returns the inserted
    pairs that pass the test of the match type and the value filter, each as
    often as it was inserted. *)
Theorem built_tree_yields_what_was_added (max_entries : Z)
    (min_entries : option Z) (fuel : nat) (cs : list call) (st : pystate) :
  Forall is_add cs ->
  on_new_tree max_entries min_entries (do_calls fuel cs) = Ok (Ok tt, st) ->
  __len__ st = Z.of_nat (length cs)
  /\ forall q value mt,
       exists fuel0, forall fuel', (fuel0 <= fuel')%nat ->
         exists found,
           _get_normalized_box fuel' q value mt st = Ok found
           /\ found ≡ₚ map yielded
                         (List.filter (spec_accept q value mt)
                            (flat_map added cs)).
Proof.
  intros Hcs H. unfold on_new_tree in H.
  destruct (__init__ max_entries min_entries) as [st0|e] eqn:E; [|discriminate].
  injection H as H.
  destruct (init_well_formed _ _ _ E) as (Hw0 & Hst0).
  destruct (do_calls_well_formed fuel cs Hcs 0 st0 st Hw0 H) as (k & Hw & P).
  rewrite Hst0, app_nil_r in P. split.
  - destruct Hw as [_ Hsz]. unfold __len__. rewrite Hsz, P. f_equal.
    clear - Hcs. induction Hcs as [|c cs Hc _ IH]; [reflexivity|].
    cbn [flat_map length]. rewrite length_app, IH.
    destruct c; try contradiction; reflexivity.
  - intros q value mt.
    assert (Hc : canonical_pairs (stored k st))
      by (eapply canonical_pairs_perm; [exact P | apply added_canonical, Hcs]).
    destruct (query_well_formed k st q value mt Hw Hc) as [fuel0 H0].
    exists fuel0. intros fuel' Hle. eexists. split; [apply H0, Hle|].
    apply Permutation_map, filter_perm, P.
Qed.

Lemma built_tree_yields_what_was_added_witness :
  on_new_tree 4 None (do_calls 9 two_clusters_calls) = Ok (Ok tt, two_clusters)
  /\ __len__ two_clusters = Z.of_nat (length two_clusters_calls)
  /\ forall q value mt,
       exists fuel0, forall fuel', (fuel0 <= fuel')%nat ->
         exists found,
           _get_normalized_box fuel' q value mt two_clusters = Ok found
           /\ found ≡ₚ map yielded
                         (List.filter (spec_accept q value mt)
                            (flat_map added two_clusters_calls)).
Proof.
  split; [reflexivity|].
  apply (built_tree_yields_what_was_added 4 None 9 two_clusters_calls
           two_clusters).
  - repeat constructor.
  - reflexivity.
Defined.

Lemma get_drain_nil (fuel : nat) (h : list (list entry)) (q : mbr)
    (value : pyval) (mt : MatchType) (stk : list frame) :
  get_drain fuel h q value mt stk = Ok [] ->
  exists stk', get_next fuel h q value mt stk = Ok (None, stk').
Proof.
  destruct fuel as [|fuel]; [discriminate|]. cbn [get_drain].
  destruct (get_next (S fuel) h q value mt stk) as [[[y|] stk']|e];
    try discriminate; [|eauto].
  destruct (get_drain fuel h q value mt stk'); discriminate.
Qed.

(** X23: a deletion that matches nothing.  On a tree in order whose
    stored boxes are canonical, when no stored pair passes the test of the
    match type and the value filter, delete_point and delete_box return 0
    and leave the tree as it was. *)
Theorem delete_without_match_changes_nothing (k : nat) (st : pystate)
    (q : mbr) (value : pyval) (mt : MatchType) :
  well_formed k st -> canonical_pairs (stored k st) ->
  List.filter (spec_accept q value mt) (stored k st) = [] ->
  exists fuel0, forall fuel, (fuel0 <= fuel)%nat ->
    _delete_normalized_mbr fuel q value mt st = (Ok 0, st).
Proof.
  intros Hw Hc Hno.
  destruct (query_well_formed k st q value mt Hw Hc) as [fuel0 H0].
  exists fuel0. intros fuel Hle. specialize (H0 fuel Hle).
  rewrite Hno in H0. unfold _get_normalized_box in H0.
  apply get_drain_nil in H0 as [stk' H0].
  unfold _delete_normalized_mbr, bind, get_root.
  destruct fuel as [|fuel]; [discriminate|].
  cbn [delete_loop]. rewrite H0. reflexivity.
Qed.

Lemma delete_without_match_changes_nothing_witness :
  well_formed 2 two_clusters
  /\ canonical_pairs (stored 2 two_clusters)
  /\ exists fuel0, forall fuel, (fuel0 <= fuel)%nat ->
       _delete_normalized_mbr fuel (5, 5, 5, 5) PyNone INTERSECT two_clusters
       = (Ok 0, two_clusters).
Proof.
  assert (Hc : canonical_pairs (stored 2 two_clusters))
    by (repeat constructor).
  split; [exact two_clusters_well_formed|]. split; [exact Hc|].
  apply (delete_without_match_changes_nothing 2 two_clusters (5, 5, 5, 5)
           PyNone INTERSECT two_clusters_well_formed Hc).
  reflexivity.
Defined.

Lemma dump_leaf_entries (rec : content -> res (list dump_line))
    (data : list entry) :
  Forall (fun e => is_val (snd e)) data ->
  dump_entries rec 0 data
  = Ok (map (fun e => (0%nat, Some (fst e), CVal (snd e))) (map unleaf data)).
Proof.
  induction 1 as [|[m [v|ht l]] data Hv _ IH]; [reflexivity| |contradiction].
  cbn [dump_entries Nat.eqb negb]. cbn [dump_entries] in IH. rewrite IH.
  reflexivity.
Qed.

Lemma dump_inner_entries (rec : content -> res (list dump_line))
    (ht k : nat) (h : list (list entry)) (data : list entry) :
  Forall (fun e => rec (snd e) = Ok (tree_lines (tree_at k h (snd e)))) data ->
  dump_entries rec (S ht) data
  = Ok (flat_map
          (fun e => (S ht, Some (fst e), CVal PyNone) :: tree_lines (snd e))
          (map (fun e => (fst e, tree_at k h (snd e))) data)).
Proof.
  induction 1 as [|[m value] data Hc _ IH]; [reflexivity|].
  cbn [dump_entries Nat.eqb negb map flat_map fst snd] in *.
  rewrite Hc, IH. reflexivity.
Qed.

Lemma dump_tree_at (k : nat) :
  forall fuel h c,
    (k <= fuel)%nat -> valid k h c ->
    _dump fuel h c = Ok (tree_lines (tree_at k h c)).
Proof.
  induction k as [|k IH]; intros fuel h c Hk Hv; [contradiction|].
  destruct c as [v|height l]; [contradiction|].
  destruct fuel as [|fuel]; [lia|].
  destruct Hv as (data & Hl & Hv). cbn [_dump tree_at]. rewrite Hl.
  cbn [default]. destruct height as [|ht]; cbn [tree_lines].
  - apply dump_leaf_entries. exact Hv.
  - apply dump_inner_entries. eapply Forall_impl; [exact Hv|].
    intros e He. apply IH; [lia | exact He].
Qed.

Lemma leaf_lines_app (a b : list dump_line) :
  leaf_lines (a ++ b) = leaf_lines a ++ leaf_lines b.
Proof. apply List.filter_app. Qed.

Lemma leaf_lines_tree_at (k : nat) (h : list (list entry)) :
  forall c,
    leaf_lines (tree_lines (tree_at k h c))
    = map (fun e => (0%nat, Some (fst e), CVal (snd e)))
        (leaves (tree_at k h c)).
Proof.
  induction k as [|k IH]; intros c; [reflexivity|].
  destruct c as [v|height l]; [reflexivity|].
  cbn [tree_at]. destruct height as [|ht]; cbn [tree_lines leaves].
  - induction (map unleaf (default [] (h !! l))) as [|e es IHe];
      [reflexivity|].
    cbn [map]. unfold leaf_lines in *. cbn [List.filter fst Nat.eqb].
    f_equal. exact IHe.
  - induction (default [] (h !! l)) as [|e es IHe]; [reflexivity|].
    cbn [map flat_map snd fst]. rewrite map_app, <- IHe, <- IH.
    unfold leaf_lines. rewrite <- List.filter_app. reflexivity.
Qed.

(** X24: dump lists the tree.  On a state whose heap holds a tree of
    depth at most k below the root, with fuel for that depth, dump yields
    nothing for a tree without root; else it yields a first line with the
    height of the root plus one, the extent of the tree and None, then one
    line for each entry of each node, a node before the nodes below it; the
    lines of height 0 are the stored pairs, in the order of the leaves. *)
Theorem dump_lists_the_tree (k fuel : nat) (st : pystate) :
  (forall hr lr, _root st = Some (hr, lr) -> valid k (heap st) (CNode hr lr)) ->
  (k <= fuel)%nat ->
  (_root st = None -> dump fuel st = Ok [])
  /\ (forall hr lr, _root st = Some (hr, lr) ->
        exists lines,
          dump fuel st = Ok ((S hr, extent k st, CVal PyNone) :: lines)
          /\ lines = tree_lines (tree_at k (heap st) (CNode hr lr))
          /\ leaf_lines lines
             = map (fun e => (0%nat, Some (fst e), CVal (snd e))) (stored k st)).
Proof.
  intros Hv Hk. unfold dump, extent, stored. split.
  - intros ->. reflexivity.
  - intros hr lr Er. rewrite Er. specialize (Hv hr lr Er).
    rewrite (dump_tree_at k fuel (heap st) _ Hk Hv).
    destruct k as [|k']; [contradiction|].
    pose proof Hv as (data & Hl & _). rewrite Hl.
    eexists. split; [|split; [reflexivity|apply leaf_lines_tree_at]].
    rewrite (tree_mbr_at k' (heap st) hr lr data Hl). reflexivity.
Qed.

Lemma dump_lists_the_tree_witness :
  (forall hr lr, _root two_clusters = Some (hr, lr) ->
     valid 2 (heap two_clusters) (CNode hr lr))
  /\ dump 2 two_clusters
     = Ok [(2%nat, Some (0, 0, 11, 11), CVal PyNone);
           (1%nat, Some (0, 0, 2, 2), CVal PyNone);
           (0%nat, Some (0, 0, 0, 0), CVal (PyInt 1));
           (0%nat, Some (0, 0, 2, 2), CVal (PyInt 1));
           (1%nat, Some (1, 1, 11, 11), CVal PyNone);
           (0%nat, Some (1, 1, 1, 1), CVal PyNone);
           (0%nat, Some (11, 11, 11, 11), CVal (PyInt 4));
           (0%nat, Some (10, 10, 10, 10), CVal (PyInt 3))]
  /\ (_root two_clusters = None -> dump 2 two_clusters = Ok [])
  /\ (forall hr lr, _root two_clusters = Some (hr, lr) ->
        exists lines,
          dump 2 two_clusters
          = Ok ((S hr, extent 2 two_clusters, CVal PyNone) :: lines)
          /\ lines = tree_lines (tree_at 2 (heap two_clusters) (CNode hr lr))
          /\ leaf_lines lines
             = map (fun e => (0%nat, Some (fst e), CVal (snd e)))
                 (stored 2 two_clusters)).
Proof.
  assert (Hv : forall hr lr, _root two_clusters = Some (hr, lr) ->
                 valid 2 (heap two_clusters) (CNode hr lr)).
  { intros hr lr [= <- <-].
    destruct two_clusters_well_formed as [(_ & _ & (Hv & _) & _) _].
    exact Hv. }
  split; [exact Hv|]. split; [reflexivity|].
  apply (dump_lists_the_tree 2 2 two_clusters Hv). lia.
Defined.

(** ** The rules *)

Section Levels.
Context (P : mbr * pyval -> Prop).

Lemma entry_level_mono (hs hs' : list nat) (ht : nat) (e : entry) :
  hs `prefix_of` hs' -> entry_level P hs ht e -> entry_level P hs' ht e.
Proof.
  intros Hp. unfold entry_level. destruct ht, (snd e); auto.
  intros [-> H]. split; [reflexivity|]. eapply prefix_lookup_Some; eauto.
Qed.

Lemma entries_level_mono (hs hs' : list nat) (ht : nat) (es : list entry) :
  hs `prefix_of` hs' ->
  Forall (entry_level P hs ht) es -> Forall (entry_level P hs' ht) es.
Proof.
  intros Hp H. eapply Forall_impl; [exact H|].
  intros e. apply entry_level_mono, Hp.
Qed.

Lemma entry_level_node (hs : list nat) (ht : nat) (b b' : mbr)
    (hc : nat) (lc : loc) :
  entry_level P hs ht (b, CNode hc lc) ->
  entry_level P hs ht (b', CNode hc lc).
Proof. destruct ht; exact (fun H => H). Qed.

Lemma kl_ret {A : Type} (hs : list nat) (a : A) (post : list nat -> A -> Prop) :
  post hs a -> keeps_levels P hs (ret a) post.
Proof.
  intros Hp st r st' Hl [= <- <-]. exists hs.
  split; [reflexivity|]. split; [exact Hl|]. intros a' [= <-]. exact Hp.
Qed.

Lemma kl_raise {A : Type} (hs : list nat) (e : exn)
    (post : list nat -> A -> Prop) :
  keeps_levels P hs (raise e) post.
Proof.
  intros st r st' Hl [= <- <-]. exists hs.
  split; [reflexivity|]. split; [exact Hl|]. discriminate.
Qed.

Lemma kl_lift {A : Type} (hs : list nat) (r : res A)
    (post : list nat -> A -> Prop) :
  (forall a, r = Ok a -> post hs a) -> keeps_levels P hs (lift r) post.
Proof.
  intros Hp st r' st' Hl [= <- <-]. exists hs.
  split; [reflexivity|]. split; [exact Hl | exact Hp].
Qed.

Lemma kl_bind {A B : Type} (hs : list nat) (m : M A) (f : A -> M B)
    (post : list nat -> B -> Prop) :
  keeps_levels P hs m (fun hs' a => keeps_levels P hs' (f a) post) ->
  keeps_levels P hs (bind m f) post.
Proof.
  intros Hm st r st' Hl H. unfold bind in H.
  destruct (m st) as [[a|e] st1] eqn:E.
  - destruct (Hm st _ _ Hl E) as (hs1 & P1 & L1 & Hf).
    destruct (Hf a eq_refl st1 r st' L1 H) as (hs2 & P2 & L2 & Hq).
    exists hs2. split; [etransitivity; eassumption | auto].
  - injection H as <- <-.
    destruct (Hm st _ _ Hl E) as (hs1 & P1 & L1 & _).
    exists hs1. split; [exact P1|]. split; [exact L1 | discriminate].
Qed.

Lemma kl_conseq {A : Type} (hs : list nat) (m : M A)
    (R Q : list nat -> A -> Prop) :
  keeps_levels P hs m R ->
  (forall hs' a, hs `prefix_of` hs' -> R hs' a -> Q hs' a) ->
  keeps_levels P hs m Q.
Proof.
  intros Hm HRQ st r st' Hl H.
  destruct (Hm st r st' Hl H) as (hs1 & P1 & L1 & Hp).
  exists hs1. split; [exact P1|]. split; [exact L1|]. auto.
Qed.

Lemma kl_read (hs : list nat) (l : loc)
    (post : list nat -> list entry -> Prop) :
  (forall data,
     (forall ht, hs !! l = Some ht -> Forall (entry_level P hs ht) data) ->
     post hs data) ->
  keeps_levels P hs (read l) post.
Proof.
  intros Hp st r st' Hl H. unfold read in H.
  destruct (heap st !! l) as [data|] eqn:E; injection H as <- <-;
    exists hs; (split; [reflexivity|]); (split; [exact Hl|]);
    [|discriminate].
  intros a [= <-]. apply Hp. intros ht Hht.
  destruct Hl as (_ & Hall & _). eauto.
Qed.

Lemma kl_write (hs : list nat) (l : loc) (data : list entry)
    (post : list nat -> unit -> Prop) :
  (forall ht, hs !! l = Some ht -> Forall (entry_level P hs ht) data) ->
  post hs tt ->
  keeps_levels P hs (write l data) post.
Proof.
  intros Hd Hp st r st' (Hlen & Hall & Hroot) [= <- <-]. exists hs.
  split; [reflexivity|]. split; [|intros [] _; exact Hp].
  split; [|split]; cbn [heap set_heap _root].
  - rewrite length_insert. exact Hlen.
  - intros l' data' ht Hl' Hht.
    apply list_lookup_insert_Some in Hl' as [(<- & <- & _)|[_ Hl']]; eauto.
  - exact Hroot.
Qed.

Lemma kl_alloc (hs : list nat) (ht : nat) (data : list entry)
    (post : list nat -> loc -> Prop) :
  Forall (entry_level P hs ht) data ->
  post (hs ++ [ht]) (length hs) ->
  keeps_levels P hs (alloc data) post.
Proof.
  intros Hd Hp st r st' (Hlen & Hall & Hroot) [= <- <-]. exists (hs ++ [ht]).
  assert (Hpre : hs `prefix_of` hs ++ [ht]) by (apply prefix_app_r; reflexivity).
  split; [exact Hpre|]. split; [|intros a [= <-]; rewrite <- Hlen; exact Hp].
  split; [|split]; cbn [heap set_heap _root].
  - rewrite !length_app, Hlen. reflexivity.
  - intros l data' ht' Hl Hht.
    destruct (decide (l < length hs)%nat) as [Hlt|Hge].
    + rewrite lookup_app_l in Hl by lia. rewrite lookup_app_l in Hht by lia.
      eapply entries_level_mono; eauto.
    + rewrite lookup_app_r in Hl by lia. rewrite lookup_app_r in Hht by lia.
      rewrite <- Hlen in Hl.
      destruct (l - length hs)%nat; [|destruct n; discriminate].
      injection Hl as <-. injection Hht as <-.
      eapply entries_level_mono; eauto.
  - intros hr lr Hr. apply lookup_app_l_Some. auto.
Qed.

Lemma kl_get_root (hs : list nat) (post : list nat -> option node -> Prop) :
  (forall r,
     (forall hr lr, r = Some (hr, lr) -> hs !! lr = Some hr) -> post hs r) ->
  keeps_levels P hs get_root post.
Proof.
  intros Hp st r st' Hl [= <- <-]. exists hs.
  split; [reflexivity|]. split; [exact Hl|]. intros a [= <-].
  apply Hp. apply Hl.
Qed.

Lemma kl_put_root (hs : list nat) (r : option node)
    (post : list nat -> unit -> Prop) :
  (forall hr lr, r = Some (hr, lr) -> hs !! lr = Some hr) ->
  post hs tt ->
  keeps_levels P hs (put_root r) post.
Proof.
  intros Hr Hp st r' st' (Hlen & Hall & Hroot) [= <- <-]. exists hs.
  split; [reflexivity|]. split; [|intros [] _; exact Hp].
  split; [exact Hlen|]. split; [exact Hall | exact Hr].
Qed.

Lemma kl_get {A : Type} (hs : list nat) (f : pystate -> A)
    (post : list nat -> A -> Prop) :
  (forall a, post hs a) -> keeps_levels P hs (fun st => (Ok (f st), st)) post.
Proof.
  intros Hp st r st' Hl [= <- <-]. exists hs.
  split; [reflexivity|]. split; [exact Hl|]. intros a _. apply Hp.
Qed.

Lemma kl_add_size (hs : list nat) (d : Z) (post : list nat -> unit -> Prop) :
  post hs tt -> keeps_levels P hs (add_size d) post.
Proof.
  intros Hp st r st' Hl [= <- <-]. exists hs.
  split; [reflexivity|]. split; [exact Hl|]. intros [] _. exact Hp.
Qed.

(** ** _split *)

Lemma split_loop_keeps (Pe : entry -> Prop) (min : Z) (height : nat) :
  forall stack g0 g1 rest g0' g1',
    split_loop min height stack (g0, g1) = Ok (rest, (g0', g1')) ->
    Forall Pe stack -> Forall Pe (snd (snd g0)) -> Forall Pe (snd (snd g1)) ->
    Forall Pe rest /\ Forall Pe (snd (snd g0')) /\ Forall Pe (snd (snd g1'))
    /\ fst (snd g0') = fst (snd g0) /\ fst (snd g1') = fst (snd g1).
Proof.
  induction stack as [|nd stack IH]; intros g0 g1 rest g0' g1' H Hs H0 H1.
  - injection H as <- <- <-. auto.
  - cbn [split_loop] in H.
    assert (Hr : Forall Pe (rev (nd :: stack))).
    { apply Forall_forall. intros x Hx. rewrite Forall_forall in Hs.
      apply Hs. apply list_elem_of_In, in_rev, list_elem_of_In. exact Hx. }
    destruct g0 as [b0 [h0 es0]], g1 as [b1 [h1 es1]].
    cbn [fst snd] in *.
    destruct (_ && _) in H.
    { unfold split_fill in H.
      destruct (_calculate_mbr _) in H; [|discriminate].
      injection H as <- <- <-. cbn [fst snd].
      repeat split; auto. apply Forall_app. auto. }
    destruct (_ && _) in H.
    { unfold split_fill in H.
      destruct (_calculate_mbr _) in H; [|discriminate].
      injection H as <- <- <-. cbn [fst snd].
      repeat split; auto. apply Forall_app. auto. }
    inversion Hs as [|? ? Hnd Hst]; subst.
    destruct (_best _ _ _ _) as [[[[|[|n]] mm]|]|e] in H; try discriminate.
    + apply IH in H; cbn [split_put fst snd] in *; auto.
      apply Forall_app. auto.
    + apply IH in H; cbn [split_put fst snd] in *; auto.
      apply Forall_app. auto.
Qed.

Lemma split_pure_keeps {C : Type} (Pe : entry -> Prop) (min : Z)
    (height : nat) (root_data : list (mbr * C)) (nodes rest : list entry)
    (g0 g1 : group) :
  split_pure min height root_data nodes = Ok (rest, (g0, g1)) ->
  Forall Pe nodes ->
  Forall Pe rest /\ Forall Pe (snd (snd g0)) /\ Forall Pe (snd (snd g1))
  /\ fst (snd g0) = height /\ fst (snd g1) = height.
Proof.
  unfold split_pure, py_del. intros H Hn.
  destruct (_pick_linear_seeds root_data nodes) as [[i j]|e]; [|discriminate].
  destruct (nodes !! i) as [ni|] eqn:Ei; [|discriminate].
  destruct (nodes !! j) as [nj|] eqn:Ej; [|discriminate].
  destruct (_ <? _)%nat in H; [|discriminate].
  destruct (_ <? _)%nat in H; [|discriminate].
  apply (split_loop_keeps Pe) in H; cbn [fst snd] in *; auto.
  - apply Forall_forall. intros x Hx.
    apply list_elem_of_In, in_rev, list_elem_of_In in Hx.
    revert x Hx. apply Forall_forall. do 2 apply Forall_delete. exact Hn.
  - repeat constructor. eapply Forall_lookup_1; eauto.
  - repeat constructor. eapply Forall_lookup_1; eauto.
Qed.

Lemma split_levels (hs : list nat) (height : nat) (l : loc) :
  hs !! l = Some height ->
  keeps_levels P hs (_split height l)
    (fun hs' sp => Forall (entry_level P hs' (S height)) sp).
Proof.
  intros Hl. unfold _split.
  apply kl_bind, kl_read. intros nodes Hn. specialize (Hn _ Hl).
  apply kl_bind, kl_get_root. intros [[hr lr]|] _; [|apply kl_raise].
  apply kl_bind, kl_read. intros root_data _.
  apply kl_bind, (kl_get hs _min). intros mn.
  apply kl_bind, kl_lift. intros [rest [g0 g1]] Hsp.
  destruct (split_pure_keeps (entry_level P hs height) _ _ _ _ _ _ _ Hsp Hn)
    as (Hrest & H0 & H1 & E0 & E1).
  apply kl_bind, kl_write; [intros ht Hht; congruence|].
  apply kl_bind, (kl_alloc hs height); [exact H0|].
  assert (Hp : hs `prefix_of` hs ++ [height])
    by (apply prefix_app_r; reflexivity).
  apply kl_bind, (kl_alloc (hs ++ [height]) height);
    [eapply entries_level_mono; eauto|].
  apply kl_ret. rewrite E0, E1.
  apply Forall_cons_2; [|apply Forall_cons_2; [|apply Forall_nil_2]];
    (split; [reflexivity|]).
  - apply lookup_app_l_Some. apply list_lookup_middle. reflexivity.
  - apply list_lookup_middle. reflexivity.
Qed.

(** ** _add_node, _add_normalized_mbr *)

Lemma add_node_levels (fuel : nat) :
  forall hs nd target value m,
    node_level hs nd ->
    (forall height l, nd = CNode height l -> (target <= height)%nat) ->
    entry_level P hs target (m, value) ->
    keeps_levels P hs (_add_node fuel nd target value m) (add_node_level P nd).
Proof.
  induction fuel as [|fuel IH]; intros hs nd target value m Hnd Hge Hv.
  - destruct nd; apply kl_raise.
  - cbn [_add_node]. destruct nd as [v|height l]; [apply kl_raise|].
    cbn [node_level] in Hnd. specialize (Hge _ _ eq_refl).
    assert (Hend : forall hs1 data,
               hs `prefix_of` hs1 ->
               Forall (entry_level P hs1 height) data ->
               keeps_levels P hs1
                 (write l data ;;
                  let* max := get_max in
                  if Z.of_nat (length data) <=? max then ret None
                  else let* r := _split height l in ret (Some r))
                 (add_node_level P (CNode height l))).
    { intros hs1 data Hp Hd.
      assert (Hl1 : hs1 !! l = Some height)
        by (eapply prefix_lookup_Some; eauto).
      apply kl_bind, kl_write; [intros ht Hht; congruence|].
      apply kl_bind, (kl_get hs1 _max). intros mx.
      destruct (_ <=? _); [apply kl_ret; exact I|].
      apply kl_bind. eapply kl_conseq; [apply split_levels; exact Hl1|].
      intros hs2 sp _ Hsp. apply kl_ret. exact Hsp. }
    destruct (negb (height =? target)%nat) eqn:Eh.
    + apply negb_true_iff, Nat.eqb_neq in Eh.
      destruct height as [|h']; [lia|].
      apply kl_bind, kl_read. intros data Hd. specialize (Hd _ Hnd).
      apply kl_bind, kl_lift. intros [[i_best mbr_best]|] _; [|apply kl_raise].
      destruct (data !! i_best) as [[b child]|] eqn:Ei; [|apply kl_raise].
      pose proof (Forall_lookup_1 _ _ _ _ Hd Ei) as Hc.
      destruct child as [v0|hc lc]; [contradiction|].
      pose proof Hc as [-> Hlc].
      apply kl_bind, kl_write.
      { intros ht Hht. replace ht with (S h') by congruence.
        apply Forall_insert; [exact Hd | exact Hc]. }
      apply kl_bind.
      eapply kl_conseq;
        [apply (IH hs (CNode h' lc) target value m);
         [exact Hlc | intros ? ? [= <- <-]; lia | exact Hv]|].
      intros hs1 [sp|] Hp Hsp; [|apply kl_ret; exact I].
      cbn [add_node_level] in Hsp.
      assert (Hl1 : hs1 !! l = Some (S h'))
        by (eapply prefix_lookup_Some; eauto).
      apply kl_bind, kl_read. intros data2 Hd2. specialize (Hd2 _ Hl1).
      apply kl_bind, kl_lift. intros data3 Hdel.
      unfold py_del in Hdel. destruct (_ <? _)%nat in Hdel; [|discriminate].
      injection Hdel as <-.
      apply (Hend hs1 _ Hp). apply Forall_app. split; [|exact Hsp].
      apply Forall_delete. exact Hd2.
    + apply negb_false_iff, Nat.eqb_eq in Eh. subst target.
      apply kl_bind, kl_read. intros data Hd. specialize (Hd _ Hnd).
      apply (Hend hs _ (reflexivity _)). apply Forall_app.
      split; [exact Hd | repeat constructor; exact Hv].
Qed.

Lemma add_normalized_mbr_levels (fuel : nat) (hs : list nat) (target : nat)
    (m : mbr) (value : content) :
  entry_level P hs target (m, value) ->
  keeps_levels P hs (_add_normalized_mbr fuel target m value) (fun _ _ => True).
Proof.
  intros Hv. unfold _add_normalized_mbr.
  apply kl_bind, kl_get_root. intros [[h l]|] Hr.
  - specialize (Hr h l eq_refl).
    destruct (Nat.ltb_spec h target) as [|Hge]; [apply kl_raise|].
    apply kl_bind.
    eapply kl_conseq;
      [apply (add_node_levels fuel hs (CNode h l)); auto;
       intros ? ? [= <- <-]; exact Hge|].
    intros hs1 [sp|] Hp Hsp; [|apply kl_ret; exact I].
    cbn [add_node_level] in Hsp.
    destruct sp as [|[b0 [v0|h0 l0]] sp]; try apply kl_raise.
    assert (E : h0 = h).
    { inversion Hsp as [|? ? H0 _]; subst. destruct H0 as [-> _]. reflexivity. }
    subst h0.
    apply kl_bind, (kl_alloc hs1 (S h)); [exact Hsp|].
    apply kl_put_root; [|exact I].
    intros hr lr [= <- <-]. apply list_lookup_middle. reflexivity.
  - destruct (negb (target =? 0)%nat) eqn:Et; [apply kl_raise|].
    apply negb_false_iff, Nat.eqb_eq in Et. subst target.
    apply kl_bind, (kl_alloc hs 0); [repeat constructor; exact Hv|].
    apply kl_put_root; [|exact I].
    intros hr lr [= <- <-]. apply list_lookup_middle. reflexivity.
Qed.

(** ** _delete_node *)

Lemma orphans_level_mono (hs hs' : list nat) (os : list orphan) :
  hs `prefix_of` hs' ->
  Forall (orphan_level P hs) os -> Forall (orphan_level P hs') os.
Proof.
  intros Hp H. eapply Forall_impl; [exact H|].
  intros o. apply entry_level_mono, Hp.
Qed.

Lemma orphans_of_entries (hs : list nat) (height : nat) (data : list entry) :
  Forall (entry_level P hs height) data ->
  Forall (orphan_level P hs) (map (fun n => (height, fst n, snd n)) data).
Proof.
  intros H. apply Forall_fmap. eapply Forall_impl; [exact H|].
  intros [b c] He. exact He.
Qed.

Lemma delete_node_levels (fuel : nat) :
  forall hs nd i m value,
    node_level hs nd ->
    keeps_levels P hs (_delete_node fuel nd i m value) (delete_node_level P).
Proof.
  induction fuel as [|fuel IH]; intros hs nd i m value Hnd;
    [apply kl_raise|].
  cbn [_delete_node]. destruct nd as [v|height l]; [apply kl_raise|].
  cbn [node_level] in Hnd.
  apply kl_bind, kl_read. intros data Hd. specialize (Hd _ Hnd).
  destruct (data !! i) as [[mbr_node contents_node]|] eqn:Ei;
    [|apply kl_ret; exact I].
  pose proof (Forall_lookup_1 _ _ _ _ Hd Ei) as Hc.
  destruct (negb (height =? 0)%nat) eqn:Eh.
  - destruct (_contains mbr_node m); [|apply IH; exact Hnd].
    apply kl_bind.
    eapply kl_conseq; [apply (IH hs contents_node 0%nat m value)|].
    { unfold entry_level in Hc. cbn [snd] in Hc.
      destruct height, contents_node; try contradiction; [exact I|].
      destruct Hc as [-> Hc]. exact Hc. }
    intros hs1 found Hp Hf.
    assert (Hl1 : hs1 !! l = Some height)
      by (eapply prefix_lookup_Some; eauto).
    destruct found as [[[|] inserts]|]; cbn [delete_node_level] in Hf.
    + apply kl_bind, kl_read. intros data1 Hd1. specialize (Hd1 _ Hl1).
      apply kl_bind, kl_lift. intros data2 Hdel.
      unfold py_del in Hdel. destruct (_ <? _)%nat in Hdel; [|discriminate].
      injection Hdel as <-.
      pose proof (Forall_delete _ _ i Hd1) as Hd2.
      apply kl_bind, kl_write; [intros ht Hht; congruence|].
      apply kl_bind, (kl_get hs1 _min). intros mn.
      destruct (_ <? _); apply kl_ret; cbn [delete_node_level]; auto.
      apply Forall_app. split; [exact Hf|].
      apply orphans_of_entries. exact Hd2.
    + apply kl_bind, kl_read. intros data1 Hd1. specialize (Hd1 _ Hl1).
      destruct (data1 !! i) as [[b1 [v1|hc lc]]|] eqn:Ei1; try apply kl_raise.
      apply kl_bind, kl_read. intros cs _.
      destruct (_calculate_mbr cs) as [new_mbr|]; [|apply kl_raise].
      apply kl_bind, kl_write.
      { intros ht Hht. replace ht with height by congruence.
        apply Forall_insert; [exact Hd1|].
        exact (entry_level_node _ _ _ _ _ _ (Forall_lookup_1 _ _ _ _ Hd1 Ei1)). }
      apply kl_ret. exact Hf.
    + apply IH. exact Hl1.
  - destruct (_ && _); [|apply IH; exact Hnd].
    apply kl_bind, kl_lift. intros data2 Hdel.
    unfold py_del in Hdel. destruct (_ <? _)%nat in Hdel; [|discriminate].
    injection Hdel as <-.
    pose proof (Forall_delete _ _ i Hd) as Hd2.
    apply kl_bind, kl_write; [intros ht Hht; congruence|].
    apply kl_bind, (kl_get hs _min). intros mn.
    apply negb_false_iff, Nat.eqb_eq in Eh. subst height.
    destruct (_ <? _); apply kl_ret; cbn [delete_node_level].
    + apply orphans_of_entries. exact Hd2.
    + constructor.
Qed.

(** ** _leaves, _reinsert *)

Lemma leaves_next_levels (fuel : nat) :
  forall hs st stk m value stk',
    levelled P hs st -> frames_level hs stk ->
    leaves_next fuel (heap st) stk = Ok (Some (m, value), stk') ->
    entry_level P hs 0 (m, value) /\ frames_level hs stk'.
Proof.
  induction fuel as [|fuel IH]; intros hs st stk m value stk' Hl Hs H;
    [discriminate|].
  cbn [leaves_next] in H. unfold leaves_step in H.
  destruct stk as [|[[height l] i] up]; [discriminate|].
  inversion Hs as [|? ? Hf Hup]; subst. cbn [fst snd] in Hf.
  destruct (heap st !! l) as [data|] eqn:El; [|discriminate].
  destruct (data !! i) as [[b child]|] eqn:Ei.
  - pose proof Hl as (_ & Hall & _).
    pose proof (Forall_lookup_1 _ _ _ _ (Hall _ _ _ El Hf) Ei) as Hc.
    assert (Hs' : frames_level hs ((height, l, S i) :: up))
      by (constructor; [exact Hf | exact Hup]).
    destruct (negb (height =? 0)%nat) eqn:Eh.
    + destruct child as [v|h' l']; [discriminate|].
      apply (IH hs st ((h', l', 0%nat) :: (height, l, S i) :: up)
               m value stk' Hl); [|exact H].
      constructor; [|exact Hs']. cbn [fst snd].
      unfold entry_level in Hc. cbn [snd] in Hc.
      destruct height; [contradiction|]. destruct Hc as [-> Hc]. exact Hc.
    + injection H as <- <- <-.
      apply negb_false_iff, Nat.eqb_eq in Eh. subst height. auto.
  - apply (IH hs st up m value stk' Hl Hup H).
Qed.

Lemma frames_level_mono (hs hs' : list nat) (stk : list frame) :
  hs `prefix_of` hs' -> frames_level hs stk -> frames_level hs' stk.
Proof.
  intros Hp H. eapply Forall_impl; [exact H|].
  intros f Hf. exact (prefix_lookup_Some _ _ _ _ Hf Hp).
Qed.

Lemma reinsert_leaves_levels (fuel : nat) :
  forall hs stk,
    frames_level hs stk ->
    keeps_levels P hs (reinsert_leaves fuel stk) (fun _ _ => True).
Proof.
  induction fuel as [|fuel IH]; intros hs stk Hs; [apply kl_raise|].
  intros st r st' Hl H. cbn [reinsert_leaves] in H.
  destruct (leaves_next (S fuel) (heap st) stk) as [[[[m value]|] stk']|e] eqn:E.
  - destruct (leaves_next_levels _ _ _ _ _ _ _ Hl Hs E) as [Hv Hs'].
    clear E. revert st r st' Hl H. apply kl_bind.
    eapply kl_conseq; [apply add_normalized_mbr_levels; exact Hv|].
    intros hs1 _ Hp _. apply IH. eapply frames_level_mono; eauto.
  - injection H as <- <-. exists hs. split; [reflexivity | auto].
  - injection H as <- <-. exists hs. split; [reflexivity|].
    split; [exact Hl | discriminate].
Qed.

Lemma reinsert_loop_levels (fuel max_height : nat) (inserts : list orphan) :
  forall hs,
    Forall (orphan_level P hs) inserts ->
    keeps_levels P hs (reinsert_loop fuel max_height inserts) (fun _ _ => True).
Proof.
  induction inserts as [|[[h m] c] rest IH]; intros hs Hi;
    [apply kl_ret; exact I|].
  cbn [reinsert_loop]. inversion Hi as [|? ? Ho Hrest]; subst.
  unfold orphan_level in Ho. cbn [fst snd] in Ho.
  apply kl_bind.
  eapply kl_conseq with (R := fun _ _ => True).
  - destruct (max_height <? h)%nat.
    + destruct c as [v|h' l']; [apply kl_raise|].
      apply reinsert_leaves_levels. repeat constructor. cbn [fst snd].
      unfold entry_level in Ho. cbn [snd] in Ho.
      destruct h; [contradiction|]. destruct Ho as [-> Ho]. exact Ho.
    + apply add_normalized_mbr_levels. exact Ho.
  - intros hs1 _ Hp _. apply IH. eapply orphans_level_mono; eauto.
Qed.

Lemma reinsert_levels (fuel : nat) (hs : list nat) (inserts : list orphan) :
  Forall (orphan_level P hs) inserts ->
  keeps_levels P hs (_reinsert fuel inserts) (fun _ _ => True).
Proof.
  intros Hi. unfold _reinsert. apply kl_bind, kl_get_root. intros root _.
  apply reinsert_loop_levels. exact Hi.
Qed.

(** ** _delete_normalized_mbr *)

Lemma collapse_root_levels (hs : list nat) :
  keeps_levels P hs collapse_root (fun _ _ => True).
Proof.
  unfold collapse_root. apply kl_bind, kl_get_root.
  intros [[[|h] l]|] Hr; try (apply kl_ret; exact I).
  specialize (Hr _ _ eq_refl).
  apply kl_bind, kl_read. intros data Hd. specialize (Hd _ Hr).
  destruct data as [|[b [v|h' l']] [|e rest]];
    try (apply kl_ret; exact I); try apply kl_raise.
  apply kl_put_root; [|exact I]. intros hr lr [= <- <-].
  inversion Hd as [|? ? H0 _]; subst. destruct H0 as [-> H0]. exact H0.
Qed.

Lemma delete_loop_levels (fuel : nat) :
  forall hs q value mt stk count,
    keeps_levels P hs (delete_loop fuel q value mt stk count) (fun _ _ => True).
Proof.
  induction fuel as [|fuel IH]; intros hs q value mt stk count;
    [apply kl_raise|].
  intros st r st' Hl H. cbn [delete_loop] in H.
  destruct (get_next (S fuel) (heap st) q value mt stk)
    as [[[[c mbr_match]|] stk']|e] eqn:E.
  - clear E. revert st r st' Hl H.
    apply kl_bind, kl_get_root. intros root Hr.
    apply kl_bind, kl_lift. intros nd Hnd.
    assert (Hn : node_level hs nd).
    { destruct root as [[hr lr]|]; [|discriminate].
      injection Hnd as <-. exact (Hr _ _ eq_refl). }
    apply kl_bind.
    eapply kl_conseq; [apply delete_node_levels; exact Hn|].
    intros hs1 [[delete inserts]|] Hp Hf; [|apply kl_raise].
    cbn [delete_node_level] in Hf.
    apply kl_bind.
    eapply kl_conseq with (R := fun hs' _ => hs' = hs1).
    { destruct delete; [apply kl_put_root|apply kl_ret]; auto.
      discriminate. }
    intros hs2 _ _ ->.
    apply kl_bind.
    eapply kl_conseq; [apply reinsert_levels; exact Hf|].
    intros hs3 _ _ _.
    apply kl_bind, kl_add_size.
    apply kl_bind.
    eapply kl_conseq; [apply collapse_root_levels|].
    intros hs4 _ _ _. apply IH.
  - injection H as <- <-. exists hs. split; [reflexivity | auto].
  - injection H as <- <-. exists hs. split; [reflexivity|].
    split; [exact Hl | discriminate].
Qed.

Lemma delete_normalized_mbr_levels (fuel : nat) (hs : list nat) (q : mbr)
    (value : pyval) (mt : MatchType) :
  keeps_levels P hs (_delete_normalized_mbr fuel q value mt) (fun _ _ => True).
Proof.
  unfold _delete_normalized_mbr. apply kl_bind, kl_get_root. intros root _.
  apply delete_loop_levels.
Qed.

(** ** Calls *)

Lemma do_call_levels (fuel : nat) (c : call) (hs : list nat) :
  Forall P (added c) ->
  keeps_levels P hs (do_call fuel c) (fun _ _ => True).
Proof.
  intros Hc.
  destruct c; cbn [do_call added] in *;
    unfold add_point, add_box, delete_point, delete_box; apply kl_bind.
  - inversion Hc as [|? ? Hp _]; subst.
    eapply kl_conseq; [apply add_normalized_mbr_levels; exact Hp|].
    intros hs1 _ _ _. apply kl_add_size. exact I.
  - inversion Hc as [|? ? Hp _]; subst.
    eapply kl_conseq; [apply add_normalized_mbr_levels; exact Hp|].
    intros hs1 _ _ _. apply kl_add_size. exact I.
  - eapply kl_conseq; [apply delete_normalized_mbr_levels|].
    intros hs1 _ _ _. apply kl_ret. exact I.
  - eapply kl_conseq; [apply delete_normalized_mbr_levels|].
    intros hs1 _ _ _. apply kl_ret. exact I.
Qed.

Lemma do_calls_levels (fuel : nat) (cs : list call) :
  Forall (fun c => Forall P (added c)) cs ->
  forall hs, keeps_levels P hs (do_calls fuel cs) (fun _ _ => True).
Proof.
  induction 1 as [|c cs Hc _ IH]; intros hs; [apply kl_ret; exact I|].
  cbn [do_calls]. apply kl_bind.
  eapply kl_conseq; [apply do_call_levels; exact Hc|].
  intros hs1 _ _ _. apply IH.
Qed.

End Levels.

(** ** What a levelled P heap holds below the root *)

Lemma levelled_balanced (P : mbr * pyval -> Prop) (hs : list nat)
    (st : pystate) :
  levelled P hs st ->
  forall k ht l,
    hs !! l = Some ht -> (ht < k)%nat ->
    valid k (heap st) (CNode ht l)
    /\ balanced (tree_at k (heap st) (CNode ht l)) = true
    /\ height_of (tree_at k (heap st) (CNode ht l)) = ht.
Proof.
  intros (Hlen & Hall & _).
  induction k as [|k IH]; intros ht l Hl Hk; [lia|].
  assert (Hd : is_Some (heap st !! l)).
  { apply lookup_lt_is_Some_2. rewrite <- Hlen.
    eapply lookup_lt_Some; eauto. }
  destruct Hd as [data Hd]. specialize (Hall _ _ _ Hd Hl).
  cbn [valid tree_at]. rewrite Hd. cbn [default].
  destruct ht as [|ht].
  - split; [|auto]. exists data. split; [reflexivity|].
    eapply Forall_impl; [exact Hall|]. intros [b [v|hc lc]] He; [exact I|].
    contradiction.
  - assert (Hc : Forall (fun e => exists lc, snd e = CNode ht lc
                                   /\ hs !! lc = Some ht) data).
    { eapply Forall_impl; [exact Hall|]. intros [b [v|hc lc]] He;
        [contradiction|]. destruct He as [-> He]. eauto. }
    split; [|split; [|reflexivity]].
    + exists data. split; [reflexivity|].
      eapply Forall_impl; [exact Hc|]. intros e (lc & -> & Hlc).
      apply IH; [exact Hlc | lia].
    + cbn [balanced]. rewrite forallb_forall. intros e He.
      apply in_map_iff in He as (e0 & <- & He0). cbn [snd].
      rewrite Forall_forall in Hc.
      destruct (Hc e0 (proj2 (list_elem_of_In _ _) He0)) as (lc & -> & Hlc).
      destruct (IH ht lc Hlc ltac:(lia)) as (_ & Hb & Hh).
      rewrite Hb, Hh, Nat.eqb_refl. reflexivity.
Qed.

Lemma init_levelled (P : mbr * pyval -> Prop) (max_entries : Z)
    (min_entries : option Z) (st : pystate) :
  __init__ max_entries min_entries = Ok st -> levelled P [] st.
Proof.
  intros H. apply init_ok_inv in H as [-> _].
  split; [reflexivity|]. split; [|discriminate].
  intros l data ht Hl. discriminate.
Qed.

(** X25: the tree stays balanced.  Whatever sequence of add_point,
    add_box, delete_point and delete_box calls is made on a new tree, and
    whether it ends by returning or by raising, the heap holds a tree below
    the root in which every node of height n + 1 holds nodes of height n
    and every node of height 0 holds values: every leaf is at the depth
    that the root records. *)
Theorem tree_stays_balanced (max_entries : Z) (min_entries : option Z)
    (fuel : nat) (cs : list call) (r : res unit) (st : pystate) :
  on_new_tree max_entries min_entries (do_calls fuel cs) = Ok (r, st) ->
  forall hr lr, _root st = Some (hr, lr) ->
    forall k, (hr < k)%nat ->
      valid k (heap st) (CNode hr lr)
      /\ balanced (tree_at k (heap st) (CNode hr lr)) = true
      /\ height_of (tree_at k (heap st) (CNode hr lr)) = hr.
Proof.
  intros H hr lr Hr k Hk. unfold on_new_tree in H.
  destruct (__init__ max_entries min_entries) as [st0|e] eqn:E; [|discriminate].
  injection H as H.
  assert (Hcs : Forall (fun c => Forall (fun _ => True) (added c)) cs).
  { apply Forall_forall. intros c _. apply Forall_forall. auto. }
  destruct (do_calls_levels (fun _ => True) fuel cs Hcs [] st0 r st
              (init_levelled _ _ _ _ E) H)
    as (hs & _ & Hl & _).
  apply (levelled_balanced _ hs st Hl); [|exact Hk].
  destruct Hl as (_ & _ & Hroot). auto.
Qed.

Lemma tree_stays_balanced_witness :
  on_new_tree 2 None (do_calls 3 same_point_calls)
  = Ok (Raise ZeroDivisionError,
        mk_state [origin_entries] 2 1 (Some (0%nat, 0%nat)) 2)
  /\ forall hr lr,
       _root (mk_state [origin_entries] 2 1 (Some (0%nat, 0%nat)) 2)
       = Some (hr, lr) ->
       forall k, (hr < k)%nat ->
         valid k [origin_entries] (CNode hr lr)
         /\ balanced (tree_at k [origin_entries] (CNode hr lr)) = true
         /\ height_of (tree_at k [origin_entries] (CNode hr lr)) = hr.
Proof.
  split; [reflexivity|].
  apply (tree_stays_balanced 2 None 3 same_point_calls
           (Raise ZeroDivisionError)
           (mk_state [origin_entries] 2 1 (Some (0%nat, 0%nat)) 2)).
  reflexivity.
Defined.

(** ** What a query yields on a levelled heap *)

Lemma get_next_levels (P : mbr * pyval -> Prop) (hs : list nat)
    (st : pystate) (q : mbr) (value : pyval) (mt : MatchType) (fuel : nat) :
  levelled P hs st ->
  forall stk y stk',
    frames_level hs stk ->
    get_next fuel (heap st) q value mt stk = Ok (Some y, stk') ->
    yield_ok P q value mt y /\ frames_level hs stk'.
Proof.
  intros Hl. induction fuel as [|fuel IH]; intros stk y stk' Hs H;
    [discriminate|].
  cbn [get_next] in H. unfold get_step in H.
  destruct stk as [|[[height l] i] up]; [discriminate|].
  inversion Hs as [|? ? Hf Hup]; subst. cbn [fst snd] in Hf.
  destruct (heap st !! l) as [data|] eqn:El; [|discriminate].
  destruct (data !! i) as [[b child]|] eqn:Ei; [|apply (IH up); assumption].
  pose proof Hl as (_ & Hall & _).
  pose proof (Forall_lookup_1 _ _ _ _ (Hall _ _ _ El Hf) Ei) as Hc.
  assert (Hs' : frames_level hs ((height, l, S i) :: up))
    by (constructor; [exact Hf | exact Hup]).
  destruct (negb (height =? 0)%nat) eqn:Eh.
  - destruct (prune_test mt b q); [|apply (IH _ _ _ Hs' H)].
    destruct child as [v|h' l']; [discriminate|].
    apply (IH ((h', l', 0%nat) :: (height, l, S i) :: up)); [|exact H].
    constructor; [|exact Hs']. cbn [fst snd].
    unfold entry_level in Hc. cbn [snd] in Hc.
    destruct height; [contradiction|]. destruct Hc as [-> Hc]. exact Hc.
  - destruct (value_test value child && leaf_test mt b q) eqn:Et;
      [|apply (IH _ _ _ Hs' H)].
    injection H as <- <-. split; [|exact Hs'].
    apply negb_false_iff, Nat.eqb_eq in Eh. subst height.
    apply andb_true_iff in Et as [Ev Eb].
    unfold entry_level in Hc. cbn [fst snd] in Hc.
    destruct child as [v|]; [|contradiction].
    exists v. auto.
Qed.

Lemma get_drain_levels (P : mbr * pyval -> Prop) (hs : list nat)
    (st : pystate) (q : mbr) (value : pyval) (mt : MatchType) (fuel : nat) :
  levelled P hs st ->
  forall stk ys,
    frames_level hs stk ->
    get_drain fuel (heap st) q value mt stk = Ok ys ->
    Forall (yield_ok P q value mt) ys.
Proof.
  intros Hl. induction fuel as [|fuel IH]; intros stk ys Hs H;
    [discriminate|].
  cbn [get_drain] in H.
  destruct (get_next (S fuel) (heap st) q value mt stk)
    as [[[y|] stk']|e] eqn:E; try discriminate.
  - destruct (get_next_levels P hs st q value mt _ Hl _ _ _ Hs E) as [Hy Hs'].
    destruct (get_drain fuel (heap st) q value mt stk') as [ys'|] eqn:E';
      [|discriminate].
    injection H as <-. constructor; [exact Hy|]. apply (IH stk'); auto.
  - injection H as <-. constructor.
Qed.

(** X27: a query yields only what was inserted.  Whatever sequence of
    add_point, add_box, delete_point and delete_box calls is made on a new
    tree, and whether it ends by returning or by raising, every pair that
    get_point or get_box yields afterwards holds a value and a box that one
    of the add calls of the sequence inserted, and passes the value filter
    and the test of the match type. *)
Theorem queries_yield_only_added_pairs (max_entries : Z)
    (min_entries : option Z) (fuel : nat) (cs : list call) (r : res unit)
    (st : pystate) (fuel' : nat) (q : mbr) (value : pyval) (mt : MatchType)
    (found : list (content * mbr)) :
  on_new_tree max_entries min_entries (do_calls fuel cs) = Ok (r, st) ->
  _get_normalized_box fuel' q value mt st = Ok found ->
  Forall (fun y => exists v,
            fst y = CVal v /\ (snd y, v) ∈ flat_map added cs
            /\ value_test value (fst y) = true
            /\ leaf_test mt (snd y) q = true) found.
Proof.
  intros H Hq. unfold on_new_tree in H.
  destruct (__init__ max_entries min_entries) as [st0|e] eqn:E; [|discriminate].
  injection H as H.
  set (P := fun p : mbr * pyval => p ∈ flat_map added cs).
  assert (Hcs : Forall (fun c => Forall P (added c)) cs).
  { apply Forall_forall. intros c Hc. apply Forall_forall. intros p Hp.
    unfold P. apply list_elem_of_In, in_flat_map.
    exists c. split; apply list_elem_of_In; assumption. }
  destruct (do_calls_levels P fuel cs Hcs [] st0 r st
              (init_levelled _ _ _ _ E) H)
    as (hs & _ & Hl & _).
  apply (get_drain_levels P hs st q value mt fuel' Hl _ _) in Hq; [exact Hq|].
  destruct Hl as (_ & _ & Hroot).
  destruct (_root st) as [[hr lr]|]; [|constructor].
  repeat constructor. cbn [fst snd]. auto.
Qed.

Lemma queries_yield_only_added_pairs_witness :
  on_new_tree 2 None (do_calls 3 same_point_calls)
  = Ok (Raise ZeroDivisionError,
        mk_state [origin_entries] 2 1 (Some (0%nat, 0%nat)) 2)
  /\ _get_normalized_box 5 (0, 0, 0, 0) PyNone EQUAL
       (mk_state [origin_entries] 2 1 (Some (0%nat, 0%nat)) 2)
     = Ok [(CVal (PyInt 1), (0, 0, 0, 0)); (CVal (PyInt 2), (0, 0, 0, 0));
           (CVal (PyInt 3), (0, 0, 0, 0))]
  /\ Forall (fun y => exists v,
               fst y = CVal v /\ (snd y, v) ∈ flat_map added same_point_calls
               /\ value_test PyNone (fst y) = true
               /\ leaf_test EQUAL (snd y) (0, 0, 0, 0) = true)
       [(CVal (PyInt 1), (0, 0, 0, 0)); (CVal (PyInt 2), (0, 0, 0, 0));
        (CVal (PyInt 3), (0, 0, 0, 0))].
Proof.
  split; [reflexivity|]. split; [reflexivity|].
  apply (queries_yield_only_added_pairs 2 None 3 same_point_calls
           (Raise ZeroDivisionError)
           (mk_state [origin_entries] 2 1 (Some (0%nat, 0%nat)) 2)
           5 (0, 0, 0, 0) PyNone EQUAL); reflexivity.
Defined.

Lemma reached_levelled (max_entries : Z) (min_entries : option Z)
    (fuel : nat) (cs : list call) (r : res unit) (st : pystate) :
  on_new_tree max_entries min_entries (do_calls fuel cs) = Ok (r, st) ->
  exists hs, levelled (fun _ => True) hs st.
Proof.
  intros H. unfold on_new_tree in H.
  destruct (__init__ max_entries min_entries) as [st0|e] eqn:E; [|discriminate].
  injection H as H.
  assert (Hcs : Forall (fun c => Forall (fun _ => True) (added c)) cs).
  { apply Forall_forall. intros c _. apply Forall_forall. auto. }
  destruct (do_calls_levels (fun _ => True) fuel cs Hcs [] st0 r st
              (init_levelled _ _ _ _ E) H)
    as (hs & _ & Hl & _).
  eauto.
Qed.

(** X26: assert_consistent tells whether the invariants hold, after
    whatever was called.  On every state that a sequence of add_point,
    add_box, delete_point and delete_box calls on a new tree leaves, by
    returning or by raising, assert_consistent with fuel for the height of
    the root returns exactly when the three invariants hold and the root
    has at most max_entries entries. *)
Theorem assert_consistent_decides_after_any_calls (max_entries : Z)
    (min_entries : option Z) (fuel : nat) (cs : list call) (r : res unit)
    (st : pystate) (k fuel' : nat) :
  on_new_tree max_entries min_entries (do_calls fuel cs) = Ok (r, st) ->
  (forall hr lr, _root st = Some (hr, lr) -> (hr < k)%nat) ->
  (k < fuel')%nat ->
  assert_consistent fuel' st = (Ok tt, st)
  <-> invariants k st = true
      /\ forall t, root_tree k st = Some t -> fanout t <= _max st.
Proof.
  intros H Hk Hf.
  destruct (reached_levelled _ _ _ _ _ _ H) as [hs Hl].
  apply assert_consistent_decides; [|exact Hf].
  intros hr lr Hr.
  apply (levelled_balanced _ hs st Hl); [|exact (Hk _ _ Hr)].
  destruct Hl as (_ & _ & Hroot). auto.
Qed.

Lemma assert_consistent_decides_after_any_calls_witness :
  on_new_tree 2 None (do_calls 3 same_point_calls)
  = Ok (Raise ZeroDivisionError,
        mk_state [origin_entries] 2 1 (Some (0%nat, 0%nat)) 2)
  /\ invariants 1 (mk_state [origin_entries] 2 1 (Some (0%nat, 0%nat)) 2)
     = false
  /\ fst (assert_consistent 2
            (mk_state [origin_entries] 2 1 (Some (0%nat, 0%nat)) 2))
     = Raise (TooManyChildren 0)
  /\ (assert_consistent 2
        (mk_state [origin_entries] 2 1 (Some (0%nat, 0%nat)) 2)
      = (Ok tt, mk_state [origin_entries] 2 1 (Some (0%nat, 0%nat)) 2)
      <-> invariants 1
            (mk_state [origin_entries] 2 1 (Some (0%nat, 0%nat)) 2) = true
          /\ forall t,
               root_tree 1
                 (mk_state [origin_entries] 2 1 (Some (0%nat, 0%nat)) 2)
               = Some t ->
               fanout t
               <= _max (mk_state [origin_entries] 2 1 (Some (0%nat, 0%nat)) 2)).
Proof.
  split; [reflexivity|]. split; [reflexivity|]. split; [reflexivity|].
  apply (assert_consistent_decides_after_any_calls 2 None 3 same_point_calls
           (Raise ZeroDivisionError)
           (mk_state [origin_entries] 2 1 (Some (0%nat, 0%nat)) 2) 1 2).
  - reflexivity.
  - intros hr lr [= <- <-]. lia.
  - lia.
Defined.

(** ** Reading a tree deeper than it is *)

Lemma valid_le (h : list (list entry)) :
  forall k K c,
    (k <= K)%nat -> valid k h c ->
    valid K h c /\ tree_at K h c = tree_at k h c
    /\ foot_at K h c = foot_at k h c.
Proof.
  induction k as [|k IH]; intros K c Hk Hv; [contradiction|].
  destruct K as [|K]; [lia|].
  destruct c as [v|ht l]; [contradiction|].
  destruct Hv as (data & Hl & Hv). cbn [valid tree_at foot_at].
  rewrite Hl. cbn [default]. destruct ht as [|ht].
  - split; [|auto]. exists data. auto.
  - assert (Hall : Forall (fun e => valid K h (snd e)
                             /\ tree_at K h (snd e) = tree_at k h (snd e)
                             /\ foot_at K h (snd e) = foot_at k h (snd e)) data).
    { eapply Forall_impl; [exact Hv|]. intros e He. apply IH; [lia | exact He]. }
    split; [|split].
    + exists data. split; [reflexivity|].
      eapply Forall_impl; [exact Hall|]. intros e He. apply He.
    + f_equal. apply map_ext_Forall.
      eapply Forall_impl; [exact Hall|]. intros e (_ & -> & _). reflexivity.
    + f_equal. f_equal. apply map_ext_Forall.
      eapply Forall_impl; [exact Hall|]. intros e (_ & _ & ->). reflexivity.
Qed.

Section Deeper.
Context (min max : Z).

Lemma good_le (h : list (list entry)) (k K : nat) (c : content) :
  (k <= K)%nat -> good min max k h c ->
  good min max K h c /\ tree_at K h c = tree_at k h c
  /\ foot_at K h c = foot_at k h c.
Proof.
  intros Hk (Hv & Hn & Ht & Hf).
  destruct (valid_le h k K c Hk Hv) as (Hv' & T & F).
  unfold good. rewrite T, F. auto.
Qed.

Lemma entry_ok_le (h : list (list entry)) (k K : nat) (e : entry) :
  (k <= K)%nat -> entry_ok min max k h e ->
  entry_ok min max K h e /\ etree K h e = etree k h e
  /\ efoot K h e = efoot k h e.
Proof.
  intros Hk (Hv & Ht & Hf & Hb & Hn).
  destruct (valid_le h k K (snd e) Hk Hv) as (Hv' & T & F).
  unfold entry_ok, etree, efoot. rewrite T, F. auto 10.
Qed.

Lemma entries_ok_le (h : list (list entry)) (k K : nat) (es : list entry) :
  (k <= K)%nat -> entries_ok min max k h es ->
  entries_ok min max K h es /\ map (etree K h) es = map (etree k h) es
  /\ feet K h es = feet k h es /\ eleaves K h es = eleaves k h es.
Proof.
  intros Hk [Hall Hnd].
  assert (H : Forall (fun e => entry_ok min max K h e
                          /\ etree K h e = etree k h e
                          /\ efoot K h e = efoot k h e) es).
  { eapply Forall_impl; [exact Hall|]. intros e. apply entry_ok_le, Hk. }
  assert (Ft : feet K h es = feet k h es).
  { unfold feet. f_equal. apply map_ext_Forall.
    eapply Forall_impl; [exact H|]. intros e He. apply He. }
  assert (Et : map (etree K h) es = map (etree k h) es).
  { apply map_ext_Forall.
    eapply Forall_impl; [exact H|]. intros e He. apply He. }
  split; [split|split; [|split]]; auto.
  - eapply Forall_impl; [exact H|]. intros e He. apply He.
  - rewrite Ft. exact Hnd.
  - unfold eleaves. clear - H.
    induction H as [|e es (_ & He & _) _ IH]; [reflexivity|].
    cbn [flat_map]. unfold etree in He. injection He as ->.
    rewrite IH. reflexivity.
Qed.
End Deeper.

Lemma foot_at_val (k : nat) (h : list (list entry)) (v : pyval) :
  foot_at k h (CVal v) = [].
Proof. destruct k; reflexivity. Qed.

Lemma feet_single (k : nat) (h : list (list entry)) (e : entry) :
  feet k h [e] = foot_at k h (snd e).
Proof. unfold feet, efoot. simpl. apply app_nil_r. Qed.

Lemma eleaves_single (k : nat) (h : list (list entry)) (e : entry) :
  eleaves k h [e] = leaves (tree_at k h (snd e)).
Proof. unfold eleaves. simpl. apply app_nil_r. Qed.

Section AddSubtree.
Context (min max : Z) (kv : nat).
Hypothesis Hmin : 1 <= min.
Hypothesis Hmax : 2 * min <= max.

(** The insertion of a value, read deeper. *)
Lemma add_value_g (k K fuel : nat) (c : content) (v : pyval) (m : mbr)
    (st : pystate) (r : option (list entry)) (st' : pystate) :
  good min max k (heap st) c ->
  fanout (tree_at k (heap st) c) <= max ->
  _min st = min -> _max st = max ->
  (k <= K)%nat ->
  _add_node fuel c 0 (CVal v) m st = (Ok r, st') ->
  add_post_g min max [(m, v)] m [] k K st c r st'.
Proof.
  intros Hg Hfan Emin Emax HK H.
  destruct (add_node_spec min max v m Hmin Hmax k fuel c st r st'
              Hg Hfan Emin Emax H)
    as (Hle & Hframe & Hr & Hmin' & Hmax' & Hpost).
  unfold add_post_g. do 5 (split; [assumption|]).
  rewrite app_nil_r. destruct r as [sp|].
  - destruct Hpost as (e0 & e1 & -> & Hsp & Hfr & Hmb & Hlv).
    destruct (entries_ok_le min max (heap st') k K _ HK Hsp)
      as (Hsp' & _ & Ft & El).
    exists e0, e1. rewrite Ft, El. auto.
  - destruct Hpost as (Hg' & Hfr & Hfan' & Hmb & Hlv).
    destruct (good_le min max (heap st') k K c HK Hg') as (Hg'' & T & F).
    rewrite T, F. auto.
Qed.

(** The entry appended to an internal node of its height. *)
Lemma add_here_inner (k K fuel t : nat) (l : loc) (value : content)
    (m : mbr) (st : pystate) (r : option (list entry)) (st' : pystate) :
  good min max (S k) (heap st) (CNode (S t) l) ->
  fanout (tree_at (S k) (heap st) (CNode (S t) l)) <= max ->
  _min st = min -> _max st = max ->
  entry_ok min max kv (heap st) (m, value) ->
  NoDup (foot_at kv (heap st) value) ->
  (forall x, x ∈ foot_at kv (heap st) value ->
     x ∉ foot_at (S k) (heap st) (CNode (S t) l)) ->
  (S k + kv <= K)%nat ->
  _add_node (S fuel) (CNode (S t) l) (S t) value m st = (Ok r, st') ->
  add_post_g min max (leaves (tree_at kv (heap st) value)) m
    (foot_at kv (heap st) value) (S k) K st (CNode (S t) l) r st'.
Proof.
  intros Hg Hfan Emin Emax He Hnv Hdis HK H.
  apply add_node_here_inv in H as (data & Hl & H). cbn zeta in H.
  pose proof (lookup_lt_Some _ _ _ Hl) as Hlt.
  pose proof (proj1 (good_inner min max k (heap st) t l data Hl) Hg)
    as (Hok & Hnl).
  destruct (tree_at_inner k (heap st) t l data Hl) as (T & F).
  rewrite T in Hfan. cbn [fanout] in Hfan. rewrite length_map in Hfan.
  rewrite F in Hdis.
  destruct K as [|Ki]; [lia|].
  set (h := heap st) in *.
  destruct (entries_ok_le min max h k Ki data ltac:(lia) Hok)
    as (HokK & EtK & FtK & ElK).
  destruct (entry_ok_le min max h kv Ki (m, value) ltac:(lia) He)
    as (HeK & EtV & EfV).
  unfold efoot in EfV. cbn [snd] in EfV.
  unfold etree in EtV. cbn [fst snd] in EtV. injection EtV as EtV.
  set (data1 := data ++ [(m, value)]) in *.
  assert (Hok1 : entries_ok min max Ki h data1).
  { apply entries_app. split; [exact HokK|]. split.
    - split; [apply Forall_cons_2; [exact HeK | apply Forall_nil_2]|].
      rewrite feet_single. cbn [snd]. rewrite EfV. exact Hnv.
    - intros x Hx. rewrite feet_single. cbn [snd]. rewrite EfV.
      rewrite FtK in Hx. intros Hx'.
      apply (Hdis x Hx'), list_elem_of_further, Hx. }
  assert (Hnl1 : l ∉ feet Ki h data1).
  { unfold data1. rewrite feet_app, feet_single, FtK. cbn [snd].
    rewrite EfV. intros Hx. apply elem_of_app in Hx as [Hx|Hx]; [contradiction|].
    apply (Hdis l Hx), list_elem_of_here. }
  assert (Hlen1 : Z.of_nat (length data1) = Z.of_nat (length data) + 1).
  { unfold data1. rewrite length_app. simpl. lia. }
  assert (Hmb1 : _calculate_mbr data1 = omerge (_calculate_mbr data) (Some m)).
  { unfold data1. rewrite calculate_mbr_app. reflexivity. }
  assert (Hlv1 : eleaves Ki h data1
                 ≡ₚ leaves (tree_at kv h value) ++ eleaves k h data).
  { unfold data1. rewrite eleaves_app, eleaves_single, ElK. cbn [snd].
    rewrite EtV. apply Permutation_app_comm. }
  assert (Hft1 : forall x, x ∈ feet Ki h data1 ->
                   x ∈ (l :: feet k h data) ++ foot_at kv h value).
  { intros x. unfold data1.
    rewrite feet_app, feet_single, FtK. cbn [snd]. rewrite EfV.
    rewrite !elem_of_app, elem_of_cons. tauto. }
  set (h1 := <[l := data1]> h) in *.
  assert (Hlenh : length h1 = length h) by apply length_insert.
  destruct (inner_store min max Ki t l h data1 Hlt Hok1 Hnl1)
    as (G1 & T1 & F1). fold h1 in G1, T1, F1.
  assert (Hfr1 : forall x, (x < length h)%nat -> x ∉ l :: feet k h data ->
                   h1 !! x = h !! x).
  { intros x _ Hx. apply list_lookup_insert_ne. intros ->.
    apply Hx, list_elem_of_here. }
  unfold add_post_g. fold h. rewrite T, F.
  rewrite Emax in H.
  destruct (Z.leb_spec (Z.of_nat (length data1)) max) as [Hle|Hgt].
  - destruct H as [-> ->]. cbn [heap set_heap _root _min _max]. fold h1.
    split; [lia|]. split; [exact Hfr1|]. do 3 (split; [auto|]).
    rewrite T1, F1. split; [exact G1|]. split.
    { intros x Hx. left. apply elem_of_cons in Hx as [->|Hx].
      - apply elem_of_app. left. apply list_elem_of_here.
      - apply Hft1, Hx. }
    cbn [fanout]. rewrite !length_map. split; [lia|].
    rewrite !tree_mbr_inner, !leaves_inner. auto.
  - destruct H as (sp & Hs & ->).
    destruct (split_inv _ _ _ data1 _ _ Hs) as
      (rest & b0 & es0 & b1 & es1 & -> & -> & C0 & C1 & F0 & F1' & P);
      cbn [heap set_heap _min _max]; rewrite ?Emin, ?Emax; auto; try lia.
    { apply list_lookup_insert_eq. exact Hlt. }
    cbn [heap set_heap _root _min _max] in *. fold h h1 in F0, F1' |- *.
    rewrite Emin, Emax in F0, F1'.
    destruct (entries_frame min max Ki h h1 data1 Hok1) as (Hok1' & Ef1 & Et1).
    { intros x Hx. apply list_lookup_insert_ne. intros ->. contradiction. }
    destruct (inner_split min max Ki t l h1 data1 rest es0 es1 b0 b1)
      as (Hsp' & Pf & Pl); auto; try lia.
    { rewrite Ef1. exact Hnl1. }
    split; [rewrite !length_app, length_insert; simpl; lia|]. split.
    { intros x Hx Hn. rewrite !lookup_app_l
        by (rewrite ?length_app, !length_insert; simpl; lia).
      rewrite list_lookup_insert_ne; [auto|].
      intros ->. apply Hn, list_elem_of_here. }
    do 3 (split; [auto|]).
    eexists _, _. split; [reflexivity|].
    split; [exact Hsp'|]. split; [|split].
    + intros x Hx. rewrite Pf, Ef1 in Hx.
      apply elem_of_cons in Hx as [->|Hx]; [right; lia|].
      apply elem_of_cons in Hx as [->|Hx]; [right; lia|].
      left. apply Hft1, Hx.
    + cbn [fst]. rewrite tree_mbr_inner.
      rewrite <- Hmb1, <- (calculate_mbr_perm _ _ P), calculate_mbr_app, C0, C1.
      reflexivity.
    + rewrite Pl, leaves_inner, (eleaves_frame Ki h h1 data1 Et1).
      exact Hlv1.
Qed.

(** The entries of a node after the entry at [i] made place for [news],
    whose lists may be lists of [ft], lists apart from the node. *)
Lemma replace_child_g (k : nat) (l : loc) (i : nat) (b : mbr)
    (child : content) (h h2 : list (list entry)) (data news : list entry)
    (ft : list loc) :
  (l < length h)%nat ->
  entries_ok min max k h data -> l ∉ feet k h data ->
  data !! i = Some (b, child) ->
  (forall x, (x < length h)%nat -> x ∉ foot_at k h child -> x <> l ->
     h2 !! x = h !! x) ->
  entries_ok min max k h2 news ->
  fresh_or (length h) (foot_at k h child ++ ft) (feet k h2 news) ->
  (forall x, x ∈ ft -> x ∉ l :: feet k h data) ->
  entries_ok min max k h2 (delete i data ++ news)
  /\ (l ∉ feet k h2 (delete i data ++ news))
  /\ fresh_or (length h) (feet k h data ++ ft)
       (feet k h2 (delete i data ++ news))
  /\ eleaves k h2 (delete i data ++ news)
     = eleaves k h (delete i data) ++ eleaves k h2 news
  /\ eleaves k h data
     ≡ₚ leaves (tree_at k h child) ++ eleaves k h (delete i data)
  /\ _calculate_mbr data = omerge (Some b) (_calculate_mbr (delete i data)).
Proof.
  intros Hlt Hok Hnl Hi Hag Hnews Hfresh Hft.
  pose proof (delete_Permutation data i (b, child) Hi) as P.
  pose proof (entries_perm min max k h _ _ P Hok) as Hok1.
  change ((b, child) :: delete i data)
    with ([(b, child)] ++ delete i data) in Hok1.
  apply entries_app in Hok1 as (Hc & Hoth & Hdis).
  rewrite feet_single in Hdis. cbn [snd] in Hdis.
  assert (Hsub : forall x, x ∈ foot_at k h child -> x ∈ feet k h data).
  { intros x Hx. rewrite (feet_perm k h _ _ P).
    change ((b, child) :: delete i data) with ([(b, child)] ++ delete i data).
    rewrite feet_app, feet_single. apply elem_of_app. auto. }
  assert (Hsub' : forall x, x ∈ feet k h (delete i data) -> x ∈ feet k h data).
  { intros x Hx. rewrite (feet_perm k h _ _ P).
    change ((b, child) :: delete i data) with ([(b, child)] ++ delete i data).
    rewrite feet_app. apply elem_of_app. auto. }
  pose proof (entries_bound min max k h _ Hoth) as Hb.
  rewrite Forall_forall in Hb.
  assert (Hago : forall x, x ∈ feet k h (delete i data) -> h2 !! x = h !! x).
  { intros x Hx. apply Hag.
    - apply Hb. exact Hx.
    - intros Hc'. exact (Hdis x Hc' Hx).
    - intros ->. apply Hnl, Hsub'. exact Hx. }
  destruct (entries_frame min max k h h2 _ Hoth Hago) as (Hoth2 & Ef & Et).
  split; [|split; [|split; [|split; [|split]]]].
  - apply entries_app. split; [exact Hoth2|]. split; [exact Hnews|].
    rewrite Ef. intros x Hx Hx'. destruct (Hfresh x Hx') as [Hin|Hge].
    + apply elem_of_app in Hin as [Hin|Hin].
      * exact (Hdis x Hin Hx).
      * apply (Hft x Hin), list_elem_of_further, Hsub', Hx.
    + specialize (Hb x Hx). lia.
  - rewrite feet_app, Ef. intros Hx. apply elem_of_app in Hx as [Hx|Hx].
    + apply Hnl, Hsub'. exact Hx.
    + destruct (Hfresh l Hx) as [Hin|Hge]; [|lia].
      apply elem_of_app in Hin as [Hin|Hin].
      * apply Hnl, Hsub, Hin.
      * apply (Hft l Hin), list_elem_of_here.
  - intros x. rewrite feet_app, Ef. intros Hx.
    apply elem_of_app in Hx as [Hx|Hx].
    + left. apply elem_of_app. left. apply Hsub'. exact Hx.
    + destruct (Hfresh x Hx) as [Hin|Hge]; [left|auto].
      apply elem_of_app in Hin as [Hin|Hin]; apply elem_of_app; auto.
  - rewrite eleaves_app. f_equal. apply eleaves_frame. exact Et.
  - rewrite (eleaves_perm k h _ _ P). unfold eleaves. simpl. reflexivity.
  - rewrite (calculate_mbr_perm _ _ P), calculate_mbr_cons. reflexivity.
Qed.

Lemma add_at_leaf_higher (k fuel t : nat) (l : loc) (value : content)
    (m : mbr) (st : pystate) (r : option (list entry)) (st' : pystate) :
  good min max (S k) (heap st) (CNode 0 l) ->
  _add_node (S fuel) (CNode 0 l) (S t) value m st = (Ok r, st') -> False.
Proof.
  intros ((data & Hl & Hv) & _) H.
  apply add_node_down_inv in H
    as (data' & i & mbr_best & b & child & rc & st2
        & Hl' & _ & Hi & Hrec & _); [|discriminate].
  rewrite Hl in Hl'. injection Hl' as <-.
  pose proof (Forall_lookup_1 _ _ _ _ Hv Hi) as Hc. cbn [snd] in Hc.
  destruct child as [v|]; [|contradiction].
  destruct fuel; discriminate.
Qed.

Lemma entries_child_nodup (k : nat) (h : list (list entry))
    (data : list entry) (i : nat) (b : mbr) (child : content) :
  entries_ok min max k h data -> data !! i = Some (b, child) ->
  NoDup (foot_at k h child).
Proof.
  intros [_ Hnd] Hi.
  pose proof (delete_Permutation data i (b, child) Hi) as P.
  rewrite (feet_perm k h _ _ P) in Hnd.
  change ((b, child) :: delete i data)
    with ([(b, child)] ++ delete i data) in Hnd.
  rewrite feet_app, feet_single in Hnd. apply NoDup_app in Hnd as (Hnd & _).
  exact Hnd.
Qed.

(** The entry added below an internal node that is higher. *)
Lemma add_down_inner (k K fuel ht t : nat) (l : loc) (value : content)
    (m : mbr) (st : pystate) (r : option (list entry)) (st' : pystate) :
  add_spec_g min max kv k ->
  ht <> t ->
  good min max (S k) (heap st) (CNode (S ht) l) ->
  fanout (tree_at (S k) (heap st) (CNode (S ht) l)) <= max ->
  _min st = min -> _max st = max ->
  entry_ok min max kv (heap st) (m, value) ->
  NoDup (foot_at kv (heap st) value) ->
  (forall x, x ∈ foot_at kv (heap st) value ->
     x ∉ foot_at (S k) (heap st) (CNode (S ht) l)) ->
  (S k + kv <= K)%nat ->
  _add_node (S fuel) (CNode (S ht) l) (S t) value m st = (Ok r, st') ->
  add_post_g min max (leaves (tree_at kv (heap st) value)) m
    (foot_at kv (heap st) value) (S k) K st (CNode (S ht) l) r st'.
Proof.
  intros IH Hne Hg Hfan Emin Emax He Hnv Hdis HK H.
  apply add_node_down_inv in H
    as (data & i & mbr_best & b & child & rc & st2
        & Hl & Hbest & Hi & Hrec & Hrc); [|congruence].
  pose proof (lookup_lt_Some _ _ _ Hl) as Hlt.
  pose proof (lookup_lt_Some _ _ _ Hi) as Hilt.
  pose proof (proj1 (good_inner min max k (heap st) ht l data Hl) Hg)
    as (Hok0 & Hnl0).
  destruct (tree_at_inner k (heap st) ht l data Hl) as (T & F).
  rewrite T in Hfan. cbn [fanout] in Hfan. rewrite length_map in Hfan.
  rewrite F in Hdis.
  destruct K as [|Ki]; [lia|].
  unfold add_post_g. rewrite T, F.
  set (h := heap st) in *.
  set (ft := foot_at kv h value) in *.
  set (news := leaves (tree_at kv h value)) in *.
  destruct (entries_ok_le min max h k Ki data ltac:(lia) Hok0)
    as (Hok & EtK & FtK & ElK).
  rewrite <- FtK in Hdis |- *. rewrite <- EtK.
  assert (Hnl : l ∉ feet Ki h data) by (rewrite FtK; exact Hnl0).
  destruct (entries_lookup min max k h data i (b, child) Hok0 Hi)
    as ((Vc0 & Tc0 & Fc0 & Bc0 & Nc0) & _).
  cbn [fst snd] in Vc0, Tc0, Fc0, Bc0, Nc0.
  pose proof (entries_child_nodup k h data i b child Hok0 Hi) as Ndc0.
  destruct (valid_le h k Ki child ltac:(lia) Vc0) as (_ & TcK & FcK).
  destruct (entries_lookup min max Ki h data i (b, child) Hok Hi)
    as (Hc & Hsub).
  unfold efoot in Hsub. cbn [snd] in Hsub.
  destruct Hc as (Vc & Tc & Fc & Bc & Nc). cbn [fst snd] in Vc, Tc, Fc, Bc, Nc.
  assert (Hnlc : l ∉ foot_at Ki h child) by (intros Hx; apply Hnl, Hsub, Hx).
  assert (Hnlv : l ∉ ft).
  { intros Hx. apply (Hdis l Hx), list_elem_of_here. }
  assert (Hcv : forall x, x ∈ ft -> x ∉ foot_at Ki h child).
  { intros x Hx Hx'. apply (Hdis x Hx), list_elem_of_further, Hsub, Hx'. }
  assert (Hmb : mbr_best = _merge b m).
  { destruct (best_first_minimum content_len m (S ht) data)
      as (i' & mb & c' & E & Hi' & _).
    - destruct Hok as [Hall _]. eapply Forall_impl; [exact Hall|].
      intros e (Hv & _). apply valid_node in Hv as (h0 & l0 & ->).
      reflexivity.
    - intros ->. discriminate Hi.
    - rewrite E in Hbest. injection Hbest as <- <-.
      rewrite Hi in Hi'. injection Hi' as <- <-. reflexivity. }
  set (data1 := <[i := (mbr_best, child)]> data) in *.
  set (h1 := <[l := data1]> h) in *.
  assert (Hlen1 : length h1 = length h) by apply length_insert.
  assert (Hag1 : forall x, x <> l -> h1 !! x = h !! x).
  { intros x Hx. apply list_lookup_insert_ne. auto. }
  assert (Hl1 : h1 !! l = Some data1)
    by (apply list_lookup_insert_eq; exact Hlt).
  destruct (tree_frame k h h1 child Vc0) as (Vc1 & Tc1 & Fc1).
  { intros x Hx. apply Hag1. intros ->. rewrite <- FcK in Hx. contradiction. }
  destruct (entry_frame min max kv h h1 (m, value) He) as (He1 & Ef1 & Et1).
  { intros x Hx. apply Hag1. intros ->. contradiction. }
  unfold efoot in Ef1. cbn [snd] in Ef1. fold ft in Ef1.
  unfold etree in Et1. cbn [fst snd] in Et1. injection Et1 as Et1.
  specialize (IH fuel child (S t) value m news (set_heap h1 st) rc st2 Ki).
  unfold add_post_g in IH. cbn [heap set_heap _min _max _root] in IH.
  rewrite Tc1, Fc1, Ef1, <- TcK, <- FcK, Hlen1 in IH.
  destruct IH as (Hle & Hframe & Hroot & Hmin2 & Hmax2 & Hpost); auto.
  { unfold good. rewrite Tc1, Fc1. auto. }
  { rewrite TcK. lia. }
  { cbn [fits]. rewrite Ef1, Et1. auto. }
  { lia. }
  set (h2 := heap st2) in *.
  assert (Hag2 : forall x, (x < length h)%nat -> x ∉ foot_at Ki h child ->
                   x <> l -> h2 !! x = h !! x).
  { intros x Hx Hn Hne'. rewrite Hframe, Hag1; auto. }
  assert (Hl2 : h2 !! l = Some data1) by (rewrite Hframe; auto).
  assert (Hdel : delete i data1 = delete i data) by apply delete_insert_same.
  assert (Hfr0 : forall x, (x < length h)%nat -> x ∉ l :: feet Ki h data ->
                   h2 !! x = h !! x).
  { intros x Hx Hn. apply Hag2; auto.
    - intros Hc. apply Hn, list_elem_of_further, Hsub, Hc.
    - intros ->. apply Hn, list_elem_of_here. }
  destruct rc as [sp|].
  - destruct Hpost as (e0 & e1 & -> & Hsp & Hfr & Hmb2 & Hlv).
    destruct Hrc as (data2 & Hl2' & Hi2 & Hrc).
    fold h2 in Hl2'. rewrite Hl2 in Hl2'. injection Hl2' as <-.
    cbn zeta in Hrc. rewrite Hdel, Hmax2 in Hrc. fold h2 in Hrc.
    destruct (replace_child_g Ki l i b child h h2 data [e0; e1] ft
                Hlt Hok Hnl Hi Hag2 Hsp Hfr Hdis)
      as (Hok3 & Hnl3 & Hfr3 & Hlv3 & Hlvd & Hmbd).
    set (data3 := delete i data ++ [e0; e1]) in *.
    assert (Hlen3 : Z.of_nat (length data3) = Z.of_nat (length data) + 1).
    { unfold data3. rewrite length_app, length_delete by eauto. simpl. lia. }
    assert (Hmb3 : _calculate_mbr data3
                   = omerge (_calculate_mbr data) (Some m)).
    { unfold data3. rewrite calculate_mbr_app, calculate_mbr_two, Hmb2, Bc, Hmbd.
      rewrite <- omerge_assoc, (omerge_comm _ (Some b)). reflexivity. }
    assert (Hlvs3 : eleaves Ki h2 data3 ≡ₚ news ++ eleaves Ki h data).
    { rewrite Hlv3, Hlv, Hlvd.
      rewrite (Permutation_app_comm (eleaves Ki h (delete i data))).
      rewrite <- app_assoc. reflexivity. }
    set (h3 := <[l := data3]> h2) in *.
    assert (Hlt2 : (l < length h2)%nat) by lia.
    assert (Hlen3' : length h3 = length h2) by apply length_insert.
    destruct (inner_store min max Ki ht l h2 data3 Hlt2 Hok3 Hnl3)
      as (G3 & T3 & F3). fold h3 in G3, T3, F3.
    assert (Hfr03 : forall x, (x < length h)%nat -> x ∉ l :: feet Ki h data ->
                      h3 !! x = h !! x).
    { intros x Hx Hn. unfold h3. rewrite list_lookup_insert_ne; auto.
      intros ->. apply Hn, list_elem_of_here. }
    assert (Hfresh3 : fresh_or (length h) ((l :: feet Ki h data) ++ ft)
                        (l :: feet Ki h2 data3)).
    { intros x Hx. apply elem_of_cons in Hx as [->|Hx].
      - left. apply list_elem_of_here.
      - destruct (Hfr3 x Hx) as [Hin|Hge]; [left|right; exact Hge].
        apply list_elem_of_further. exact Hin. }
    destruct (Z.leb_spec (Z.of_nat (length data3)) max) as [Hle3|Hgt3].
    + destruct Hrc as [-> ->]. cbn [heap set_heap _root _min _max].
      fold h3. split; [lia|]. split; [exact Hfr03|].
      do 3 (split; [auto|]).
      rewrite T3, F3. split; [exact G3|].
      split; [exact Hfresh3|].
      cbn [fanout]. rewrite !length_map. split; [lia|].
      rewrite !tree_mbr_inner, !leaves_inner. auto.
    + destruct Hrc as (sp' & Hs & ->).
      destruct (split_inv _ _ _ data3 _ _ Hs) as
        (rest & b0 & es0 & b1 & es1 & -> & -> & C0 & C1 & F0 & F1 & P);
        cbn [heap set_heap _min _max]; rewrite ?Hmin2, ?Hmax2; auto; try lia.
      { apply list_lookup_insert_eq. exact Hlt2. }
      cbn [heap set_heap _root _min _max] in *. fold h3 in F0, F1 |- *.
      rewrite Hmin2, Hmax2 in F0, F1.
      destruct (entries_frame min max Ki h2 h3 data3 Hok3) as (Hok3' & Ef3 & Et3).
      { intros x Hx. apply list_lookup_insert_ne. intros ->. contradiction. }
      destruct (inner_split min max Ki ht l h3 data3 rest es0 es1 b0 b1)
        as (Hsp' & Pf & Pl); auto; try lia.
      { rewrite Ef3. exact Hnl3. }
      split; [rewrite !length_app, length_insert; simpl; lia|]. split.
      { intros x Hx Hn. rewrite !lookup_app_l
          by (rewrite ?length_app, !length_insert; simpl; lia).
        rewrite list_lookup_insert_ne; [auto|].
        intros ->. apply Hn, list_elem_of_here. }
      do 3 (split; [auto|]).
      eexists _, _. split; [reflexivity|].
      split; [exact Hsp'|]. split; [|split].
      * intros x Hx. rewrite Pf, Ef3 in Hx.
        apply elem_of_cons in Hx as [->|Hx]; [right; lia|].
        apply elem_of_cons in Hx as [->|Hx]; [right; lia|].
        apply Hfresh3. apply list_elem_of_further. exact Hx.
      * cbn [fst]. rewrite tree_mbr_inner.
        rewrite <- Hmb3, <- (calculate_mbr_perm _ _ P), calculate_mbr_app, C0, C1.
        reflexivity.
      * rewrite Pl, leaves_inner, (eleaves_frame Ki h2 h3 data3 Et3).
        exact Hlvs3.
  - destruct Hrc as [-> ->]. destruct Hpost as (Gc & Hfr & Hfan2 & Hmb2 & Hlv).
    fold h2 in Gc, Hfr, Hfan2, Hmb2, Hlv |- *.
    assert (Hnews : entries_ok min max Ki h2 [(mbr_best, child)]).
    { destruct Gc as (V & N & Tt & Fo). split.
      - apply Forall_cons_2; [|apply Forall_nil_2].
        unfold entry_ok. cbn [fst snd]. rewrite Hmb2, Bc, Hmb.
        repeat split; auto; lia.
      - rewrite feet_single. exact N. }
    assert (Hfn : feet Ki h2 [(mbr_best, child)] = foot_at Ki h2 child)
      by apply feet_single.
    rewrite <- Hfn in Hfr.
    destruct (replace_child_g Ki l i b child h h2 data [(mbr_best, child)] ft
                Hlt Hok Hnl Hi Hag2 Hnews Hfr Hdis)
      as (Hok3 & Hnl3 & Hfr3 & Hlv3 & Hlvd & Hmbd).
    assert (P1 : delete i data ++ [(mbr_best, child)] ≡ₚ data1).
    { rewrite <- Hdel, <- Permutation_cons_append. symmetry.
      apply delete_Permutation. unfold data1.
      apply list_lookup_insert_eq. exact Hilt. }
    pose proof (entries_perm min max Ki h2 _ _ P1 Hok3) as Hok1.
    rewrite (feet_perm Ki h2 _ _ P1) in Hnl3.
    destruct (inner_at min max Ki ht l h2 h2 data1 Hl2 Hok1 Hnl3)
      as (G3 & T3 & F3); [reflexivity|].
    split; [lia|]. split; [exact Hfr0|]. do 3 (split; [auto|]).
    rewrite T3, F3. split; [exact G3|]. split.
    { intros x Hx. apply elem_of_cons in Hx as [->|Hx].
      - left. apply list_elem_of_here.
      - rewrite <- (feet_perm Ki h2 _ _ P1) in Hx.
        destruct (Hfr3 x Hx) as [Hin|Hge]; [left|right; exact Hge].
        apply list_elem_of_further. exact Hin. }
    cbn [fanout]. rewrite !length_map.
    replace (length data1) with (length data) by (symmetry; apply length_insert).
    split; [lia|]. rewrite !tree_mbr_inner, !leaves_inner. split.
    + unfold data1. rewrite Hmb.
      apply (calculate_mbr_insert data i b m child child Hi).
    + rewrite <- (eleaves_perm Ki h2 _ _ P1), Hlv3, Hlvd, eleaves_single.
      cbn [snd]. rewrite Hlv.
      rewrite (Permutation_app_comm (eleaves Ki h (delete i data))).
      rewrite <- app_assoc. reflexivity.
Qed.

Lemma add_spec_g_holds (k : nat) : add_spec_g min max kv k.
Proof.
  induction k as [|k IH];
    intros fuel c target value m news st r st' K Hg Hfan Emin Emax Hfit Hdis HK H.
  - destruct Hg as [[] _].
  - destruct c as [v0|height l]; [destruct Hg as [[] _]|].
    destruct fuel as [|fuel]; [discriminate|].
    destruct target as [|t].
    + destruct Hfit as (v & -> & ->). rewrite foot_at_val.
      apply (add_value_g (S k) K (S fuel) _ v m st r st' Hg Hfan Emin Emax);
        [lia | exact H].
    + destruct Hfit as (He & Hnv & ->).
      destruct (decide (height = S t)) as [->|Hne].
      * exact (add_here_inner k K fuel t l value m st r st'
                 Hg Hfan Emin Emax He Hnv Hdis HK H).
      * destruct height as [|ht].
        -- exfalso. exact (add_at_leaf_higher k fuel t l value m st r st' Hg H).
        -- assert (Hne' : ht <> t) by congruence.
           exact (add_down_inner k K fuel ht t l value m st r st'
                    IH Hne' Hg Hfan Emin Emax He Hnv Hdis HK H).
Qed.
End AddSubtree.

Lemma add_normalized_mbr_g (fuel kv k target : nat) (m : mbr)
    (value : content) (news : list (mbr * pyval)) (st st' : pystate) :
  shape_ok k st ->
  fits (_min st) (_max st) kv (heap st) target m value news ->
  (forall x, x ∈ foot_at kv (heap st) value -> x ∉ root_foot k st) ->
  _add_normalized_mbr fuel target m value st = (Ok tt, st') ->
  exists K, added_to news (foot_at kv (heap st) value) k st K st'.
Proof.
  intros (Hmin & Hmax & Hroot) Hfit Hdis H.
  pose proof (add_normalized_mbr_keeps_counters fuel target m value st _ _ H)
    as (Esz & Emax & Emin).
  unfold added_to, shape_ok, stored, root_foot in *. rewrite Emax, Emin.
  unfold _add_normalized_mbr in H. unfold bind at 1 in H.
  unfold get_root at 1 in H.
  destruct (_root st) as [[h l]|] eqn:Er.
  - destruct Hroot as (Hg & Hfan).
    destruct (h <? target)%nat; [discriminate|].
    unfold bind at 1 in H.
    destruct (_add_node fuel (CNode h l) target value m st) as [[r|e] st1] eqn:E;
      [|discriminate].
    destruct (add_spec_g_holds (_min st) (_max st) kv Hmin Hmax k fuel
                (CNode h l) target value m news st r st1 (k + kv)%nat
                Hg Hfan eq_refl eq_refl Hfit Hdis ltac:(lia) E)
      as (Hle & Hframe & Hr1 & Hmin1 & Hmax1 & Hpost).
    set (K := (k + kv)%nat) in *.
    destruct r as [sp|].
    + destruct Hpost as (e0 & e1 & -> & Hsp & Hfr & Hmb & Hlv).
      destruct e0 as [b0 c0].
      assert (Hc0 : exists h0 l0, c0 = CNode h0 l0).
      { destruct Hsp as [Hall _]. inversion Hall as [|? ? He0 _]; subst.
        destruct He0 as (Hv & _). exact (valid_node _ _ _ Hv). }
      destruct Hc0 as (h0 & l0 & ->).
      unfold bind, alloc, put_root in H. injection H as <-.
      cbn [_root heap set_root set_heap _size] in *.
      set (h1 := heap st1) in *.
      pose proof (entries_bound _ _ _ _ _ Hsp) as Hb.
      rewrite Forall_forall in Hb.
      destruct (inner_at (_min st) (_max st) K h0 (length h1) h1
                  (h1 ++ [[(b0, CNode h0 l0); e1]])
                  [(b0, CNode h0 l0); e1]) as (G & T & F); auto.
      { apply list_lookup_middle. reflexivity. }
      { intros Hx. specialize (Hb _ Hx). lia. }
      { intros x Hx. apply lookup_app_l. apply Hb. exact Hx. }
      exists (S K). rewrite T, F.
      split; [split; [|split; [|split]]|]; auto.
      { cbn [fanout map length]. lia. }
      split; [rewrite leaves_inner; exact Hlv|].
      split; [rewrite length_app; simpl; lia|]. split.
      { intros x Hx Hn. rewrite lookup_app_l by lia. apply Hframe; [exact Hx|].
        intros Hx'. apply Hn, elem_of_app. auto. }
      split; [|exact Esz].
      intros x Hx. apply elem_of_cons in Hx as [->|Hx]; [right; lia|].
      apply Hfr, Hx.
    + injection H as <-. rewrite Hr1, Er.
      destruct Hpost as (Hg' & Hfr & Hfan' & Hmb & Hlv).
      exists K. split; [split; [|split; [|split]]|]; auto; [lia|].
      split; [exact Hlv|]. split; [exact Hle|]. split; [|auto].
      intros x Hx Hn. apply Hframe; [exact Hx|].
      intros Hx'. apply Hn, elem_of_app. auto.
  - destruct (negb (target =? 0)%nat) eqn:Et; [discriminate|].
    apply negb_false_iff, Nat.eqb_eq in Et. subst target.
    destruct Hfit as (v & -> & ->).
    unfold bind, alloc, put_root in H.
    injection H as <-. cbn [_root heap set_root set_heap _size] in *.
    destruct (good_leaf (_min st) (_max st) 0 (heap st ++ [[(m, CVal v)]])
                (length (heap st)) [(m, CVal v)]) as (G & T & F).
    { apply list_lookup_middle. reflexivity. }
    { repeat constructor. }
    exists 1%nat. rewrite T, F.
    split; [split; [|split; [|split]]|]; auto.
    { cbn [fanout map length]. lia. }
    split; [reflexivity|].
    split; [rewrite length_app; simpl; lia|]. split.
    { intros x Hx _. apply lookup_app_l. exact Hx. }
    split; [|exact Esz].
    intros x Hx. apply list_elem_of_singleton in Hx as ->. right. lia.
Qed.

Lemma added_to_refl (k : nat) (st : pystate) :
  shape_ok k st -> added_to [] [] k st k st.
Proof.
  intros Hs. split; [exact Hs|]. split; [reflexivity|]. split; [lia|].
  split; [auto|]. split; [|reflexivity].
  intros x Hx. left. rewrite app_nil_r. exact Hx.
Qed.

Lemma added_to_trans (n1 n2 : list (mbr * pyval)) (ft1 ft2 : list loc)
    (k K1 K2 : nat) (st st1 st2 : pystate) :
  added_to n1 ft1 k st K1 st1 -> added_to n2 ft2 K1 st1 K2 st2 ->
  (forall x, x ∈ ft2 -> (x < length (heap st))%nat) ->
  added_to (n1 ++ n2) (ft1 ++ ft2) k st K2 st2.
Proof.
  intros (S1 & P1 & L1 & F1 & R1 & Z1) (S2 & P2 & L2 & F2 & R2 & Z2) Hb.
  split; [exact S2|]. split.
  { rewrite P2, P1, !app_assoc.
    apply Permutation_app_tail, Permutation_app_comm. }
  split; [lia|]. split; [|split; [|congruence]].
  - intros x Hx Hn. rewrite F2, F1; auto.
    + intros Hx'. apply Hn. rewrite !elem_of_app in *. tauto.
    + lia.
    + intros Hx'. apply elem_of_app in Hx' as [Hx'|Hx'].
      * destruct (R1 x Hx') as [Hin|Hge]; [|lia].
        apply Hn. rewrite !elem_of_app in *. tauto.
      * apply Hn. rewrite !elem_of_app. tauto.
  - intros x Hx. destruct (R2 x Hx) as [Hin|Hge]; [|right; lia].
    apply elem_of_app in Hin as [Hin|Hin].
    + destruct (R1 x Hin) as [Hin'|Hge]; [left|right; exact Hge].
      rewrite !elem_of_app in *. tauto.
    + left. rewrite !elem_of_app. tauto.
Qed.

Lemma added_to_perm (n n' : list (mbr * pyval)) (ft ft' : list loc)
    (k K : nat) (st st' : pystate) :
  n ≡ₚ n' -> (forall x, x ∈ ft -> x ∈ ft') ->
  added_to n ft k st K st' -> added_to n' ft' k st K st'.
Proof.
  intros P Hsub (S1 & P1 & L1 & F1 & R1 & Z1).
  split; [exact S1|]. split; [rewrite <- P; exact P1|]. split; [exact L1|].
  split; [|split; [|exact Z1]].
  - intros x Hx Hn. apply F1; [exact Hx|]. intros Hx'. apply Hn.
    rewrite !elem_of_app in *. destruct Hx'; auto.
  - intros x Hx. destruct (R1 x Hx) as [Hin|Hge]; [left|right; exact Hge].
    rewrite !elem_of_app in *. destruct Hin; auto.
Qed.

Lemma ofeet_app (K : nat) (h : list (list entry)) (a b : list orphan) :
  ofeet K h (a ++ b) = ofeet K h a ++ ofeet K h b.
Proof. unfold ofeet. rewrite map_app, concat_app. reflexivity. Qed.

Lemma orphan_leaves_app (K : nat) (h : list (list entry))
    (a b : list orphan) :
  orphan_leaves K h (a ++ b) = orphan_leaves K h a ++ orphan_leaves K h b.
Proof. apply flat_map_app. Qed.

Lemma ofeet_elem (K : nat) (h : list (list entry)) (os : list orphan)
    (x : loc) :
  x ∈ ofeet K h os <-> exists o, o ∈ os /\ x ∈ ofoot K h o.
Proof.
  unfold ofeet. induction os as [|o os IH]; simpl.
  - split; [intros H; inversion H | intros (o & Ho & _); inversion Ho].
  - rewrite elem_of_app, IH. split.
    + intros [Hx|(o' & Ho' & Hx)].
      * exists o. split; [apply list_elem_of_here | exact Hx].
      * exists o'. split; [apply list_elem_of_further; exact Ho' | exact Hx].
    + intros (o' & Ho' & Hx). apply elem_of_cons in Ho' as [->|Ho'];
        [left; exact Hx | right; eauto].
Qed.

Section Orphans.
Context (min max : Z).

Lemma orphans_app (K : nat) (h : list (list entry)) (a b : list orphan) :
  orphans_ok min max K h (a ++ b)
  <-> orphans_ok min max K h a /\ orphans_ok min max K h b
      /\ (forall x, x ∈ ofeet K h a -> x ∉ ofeet K h b).
Proof.
  unfold orphans_ok. rewrite Forall_app, ofeet_app, NoDup_app. tauto.
Qed.

Lemma orphans_nil (K : nat) (h : list (list entry)) :
  orphans_ok min max K h [].
Proof. split; [constructor | apply NoDup_nil_2]. Qed.

(** The entries of a leaf as orphans. *)
Lemma orphans_of_leaf (K : nat) (h : list (list entry)) (data : list entry) :
  Forall (fun e => is_val (snd e)) data ->
  orphans_ok min max K h (map (fun n => (0%nat, fst n, snd n)) data)
  /\ ofeet K h (map (fun n => (0%nat, fst n, snd n)) data) = []
  /\ orphan_leaves K h (map (fun n => (0%nat, fst n, snd n)) data)
     = map unleaf data.
Proof.
  intros Hd.
  assert (F : ofeet K h (map (fun n => (0%nat, fst n, snd n)) data) = []).
  { unfold ofeet. induction Hd as [|[b c] data Hc _ IH]; [reflexivity|].
    destruct c as [v|]; [|contradiction].
    cbn [map concat]. unfold ofoot at 1. cbn [snd].
    rewrite foot_at_val, IH. reflexivity. }
  split; [|split; [exact F|]].
  - split; [|rewrite F; apply NoDup_nil_2].
    apply Forall_fmap. eapply Forall_impl; [exact Hd|].
    intros [b c] He. exact He.
  - unfold orphan_leaves. clear F.
    induction Hd as [|[b c] data Hc _ IH]; [reflexivity|].
    destruct c as [v|]; [|contradiction].
    cbn [map flat_map]. rewrite IH. reflexivity.
Qed.

(** The entries of an internal node as orphans. *)
Lemma orphans_of_inner (K ht : nat) (h : list (list entry))
    (data : list entry) :
  entries_ok min max K h data ->
  orphans_ok min max K h (map (fun n => (S ht, fst n, snd n)) data)
  /\ ofeet K h (map (fun n => (S ht, fst n, snd n)) data) = feet K h data
  /\ orphan_leaves K h (map (fun n => (S ht, fst n, snd n)) data)
     = eleaves K h data.
Proof.
  intros [Hall Hnd].
  assert (F : ofeet K h (map (fun n => (S ht, fst n, snd n)) data)
              = feet K h data).
  { unfold ofeet, feet. rewrite map_map. reflexivity. }
  split; [|split; [exact F|]].
  - split; [|rewrite F; exact Hnd].
    apply Forall_fmap. eapply Forall_impl; [exact Hall|].
    intros [b c] He. exact He.
  - unfold orphan_leaves, eleaves. clear F Hnd.
    induction Hall as [|[b c] data Hc _ IH]; [reflexivity|].
    cbn [map flat_map]. rewrite IH. f_equal.
    destruct Hc as (Hv & _). cbn [snd] in Hv.
    apply valid_node in Hv as (hc & lc & ->). reflexivity.
Qed.

Lemma orphan_frame (K : nat) (h h' : list (list entry)) (o : orphan) :
  orphan_ok min max K h o ->
  (forall x, x ∈ ofoot K h o -> h' !! x = h !! x) ->
  orphan_ok min max K h' o /\ ofoot K h' o = ofoot K h o
  /\ oleaves K h' o = oleaves K h o.
Proof.
  destruct o as [[ht b] c]. unfold orphan_ok, ofoot, oleaves. cbn [fst snd].
  intros Ho Hag. destruct ht as [|ht].
  - destruct c as [v|]; [|contradiction]. rewrite !foot_at_val. auto.
  - destruct (entry_frame min max K h h' (b, c) Ho Hag) as (Ho' & Ef & Et).
    unfold efoot in Ef. unfold etree in Et. cbn [fst snd] in Ef, Et.
    injection Et as Et. rewrite Ef, Et. auto.
Qed.

Lemma orphans_frame (K : nat) (h h' : list (list entry)) (os : list orphan) :
  orphans_ok min max K h os ->
  (forall x, x ∈ ofeet K h os -> h' !! x = h !! x) ->
  orphans_ok min max K h' os /\ ofeet K h' os = ofeet K h os
  /\ orphan_leaves K h' os = orphan_leaves K h os.
Proof.
  intros [Hall Hnd] Hag.
  assert (H : Forall (fun o => orphan_ok min max K h' o
                          /\ ofoot K h' o = ofoot K h o
                          /\ oleaves K h' o = oleaves K h o) os).
  { rewrite Forall_forall in Hall |- *. intros o Ho.
    apply orphan_frame; [auto|]. intros x Hx. apply Hag.
    apply ofeet_elem. eauto. }
  assert (F : ofeet K h' os = ofeet K h os).
  { unfold ofeet. f_equal. apply map_ext_Forall.
    eapply Forall_impl; [exact H|]. intros o Ho. apply Ho. }
  split; [split|split]; auto.
  - eapply Forall_impl; [exact H|]. intros o Ho. apply Ho.
  - rewrite F. exact Hnd.
  - unfold orphan_leaves. clear - H.
    induction H as [|o os (_ & _ & Ho) _ IH]; [reflexivity|].
    cbn [flat_map]. rewrite Ho, IH. reflexivity.
Qed.

Lemma orphan_le (k K : nat) (h : list (list entry)) (o : orphan) :
  (k <= K)%nat -> orphan_ok min max k h o ->
  orphan_ok min max K h o /\ ofoot K h o = ofoot k h o
  /\ oleaves K h o = oleaves k h o.
Proof.
  destruct o as [[ht b] c]. unfold orphan_ok, ofoot, oleaves. cbn [fst snd].
  intros Hk Ho. destruct ht as [|ht].
  - destruct c as [v|]; [|contradiction]. rewrite !foot_at_val. auto.
  - destruct (entry_ok_le min max h k K (b, c) Hk Ho) as (Ho' & Et & Ef).
    unfold efoot in Ef. unfold etree in Et. cbn [fst snd] in Ef, Et.
    injection Et as Et. rewrite Ef, Et. auto.
Qed.

Lemma orphans_le (k K : nat) (h : list (list entry)) (os : list orphan) :
  (k <= K)%nat -> orphans_ok min max k h os ->
  orphans_ok min max K h os /\ ofeet K h os = ofeet k h os
  /\ orphan_leaves K h os = orphan_leaves k h os.
Proof.
  intros Hk [Hall Hnd].
  assert (H : Forall (fun o => orphan_ok min max K h o
                          /\ ofoot K h o = ofoot k h o
                          /\ oleaves K h o = oleaves k h o) os).
  { eapply Forall_impl; [exact Hall|]. intros o. apply orphan_le, Hk. }
  assert (F : ofeet K h os = ofeet k h os).
  { unfold ofeet. f_equal. apply map_ext_Forall.
    eapply Forall_impl; [exact H|]. intros o Ho. apply Ho. }
  split; [split|split]; auto.
  - eapply Forall_impl; [exact H|]. intros o Ho. apply Ho.
  - rewrite F. exact Hnd.
  - unfold orphan_leaves. clear - H.
    induction H as [|o os (_ & _ & Ho) _ IH]; [reflexivity|].
    cbn [flat_map]. rewrite Ho, IH. reflexivity.
Qed.

Lemma ofeet_bound (K : nat) (h : list (list entry)) (os : list orphan) :
  orphans_ok min max K h os ->
  Forall (fun x => (x < length h)%nat) (ofeet K h os).
Proof.
  intros [Hall _]. apply Forall_forall. intros x Hx.
  apply ofeet_elem in Hx as (o & Ho & Hx).
  rewrite Forall_forall in Hall. specialize (Hall o Ho).
  destruct o as [[ht b] c]. unfold orphan_ok, ofoot in *. cbn [fst snd] in *.
  destruct ht as [|ht].
  - destruct c; [|contradiction]. rewrite foot_at_val in Hx. inversion Hx.
  - destruct Hall as (Hv & _). cbn [snd] in Hv.
    pose proof (foot_at_bound K h c Hv) as Hb. rewrite Forall_forall in Hb.
    auto.
Qed.
End Orphans.

Lemma delete_node_inner_inv (fuel ht : nat) (l : loc) (i : nat) (m : mbr)
    (value : pyval) (st : pystate) (r : option (bool * list orphan))
    (st' : pystate) :
  _delete_node (S fuel) (CNode (S ht) l) i m value st = (Ok r, st') ->
  exists data, heap st !! l = Some data /\
    match data !! i with
    | None => r = None /\ st' = st
    | Some (mbr_node, child) =>
        (_contains mbr_node m = false
         /\ _delete_node fuel (CNode (S ht) l) (S i) m value st = (Ok r, st'))
        \/ (_contains mbr_node m = true
            /\ exists found st1,
                 _delete_node fuel child 0 m value st = (Ok found, st1)
                 /\ match found with
                    | None =>
                        _delete_node fuel (CNode (S ht) l) (S i) m value st1
                        = (Ok r, st')
                    | Some (true, inserts) =>
                        exists data1,
                          heap st1 !! l = Some data1
                          /\ (i < length data1)%nat
                          /\ st' = set_heap (<[l := delete i data1]> (heap st1)) st1
                          /\ r = (if Z.of_nat (length (delete i data1)) <? _min st1
                                  then Some (true,
                                             inserts ++
                                             map (fun n => (S ht, fst n, snd n))
                                               (delete i data1))
                                  else Some (false, inserts))
                    | Some (false, inserts) =>
                        exists data1 b1 hc lc cs new_mbr,
                          heap st1 !! l = Some data1
                          /\ data1 !! i = Some (b1, CNode hc lc)
                          /\ heap st1 !! lc = Some cs
                          /\ _calculate_mbr cs = Some new_mbr
                          /\ st' = set_heap
                                     (<[l := <[i := (new_mbr, CNode hc lc)]> data1]>
                                        (heap st1)) st1
                          /\ r = Some (false, inserts)
                    end)
    end.
Proof.
  cbn [_delete_node]. cbn [Nat.eqb negb].
  unfold bind at 1. unfold read at 1.
  destruct (heap st !! l) as [data|]; [|discriminate].
  intros H. exists data. split; [reflexivity|].
  destruct (data !! i) as [[mbr_node child]|];
    [|injection H as <- <-; auto].
  destruct (_contains mbr_node m) eqn:Ec; [right|left; auto].
  split; [reflexivity|].
  unfold bind at 1 in H.
  destruct (_delete_node fuel child 0 m value st) as [[found|e] st1] eqn:E;
    [|discriminate].
  exists found, st1. split; [reflexivity|].
  destruct found as [[[|] inserts]|]; [| |exact H].
  - unfold bind at 1 in H. unfold read at 1 in H.
    destruct (heap st1 !! l) as [data1|] eqn:E1; [|discriminate].
    unfold bind at 1 in H. unfold lift at 1, py_del in H.
    destruct (Nat.ltb_spec i (length data1)) as [Hlt|]; [|discriminate].
    unfold bind at 1 in H. unfold write at 1 in H.
    unfold bind at 1 in H. unfold get_min at 1 in H. cbn [_min set_heap] in H.
    exists data1. split; [reflexivity|]. split; [exact Hlt|].
    destruct (Z.of_nat (length (delete i data1)) <? _min st1);
      injection H as <- <-; auto.
  - unfold bind at 1 in H. unfold read at 1 in H.
    destruct (heap st1 !! l) as [data1|] eqn:E1; [|discriminate].
    destruct (data1 !! i) as [[b1 [v1|hc lc]]|] eqn:Ei1; try discriminate.
    unfold bind at 1 in H. unfold read at 1 in H.
    destruct (heap st1 !! lc) as [cs|] eqn:Ec1; [|discriminate].
    destruct (_calculate_mbr cs) as [new_mbr|] eqn:Em; [|discriminate].
    unfold bind, write, ret in H. injection H as <- <-.
    exists data1, b1, hc, lc, cs, new_mbr. auto 10.
Qed.

Section DeleteNode.
Context (min max : Z) (m : mbr) (value : pyval).

Lemma delete_leaf_spec (fuel : nat) :
  delete_spec_at min max m value fuel ->
  forall k l i st r st',
    good min max (S k) (heap st) (CNode 0 l) ->
    _min st = min ->
    _delete_node (S fuel) (CNode 0 l) i m value st = (Ok r, st') ->
    delete_post min max m value (S k) st (CNode 0 l) r st'.
Proof.
  intros IH k l i st r st' Hg Emin H.
  pose proof Hg as ((data & Hl & Hv) & _).
  rewrite (delete_node_leaf_S _ _ _ _ _ _ _ Hl) in H.
  destruct (data !! i) as [[mbr_node cn]|] eqn:Ei;
    [|injection H as <- <-; reflexivity].
  destruct (mbr_eqb mbr_node m && value_test value cn) eqn:Et;
    [|exact (IH (S k) (CNode 0 l) (S i) st r st' Hg Emin H)].
  apply andb_true_iff in Et as [Eb Ev]. apply mbr_eqb_eq in Eb. subst mbr_node.
  pose proof (Forall_lookup_1 _ _ _ _ Hv Ei) as Hc. cbn [snd] in Hc.
  destruct cn as [v|]; [|contradiction].
  pose proof (lookup_lt_Some _ _ _ Hl) as Hlt.
  destruct (good_leaf min max k (heap st) l data Hl Hv) as (_ & T & F).
  set (data' := delete i data) in *.
  assert (Hv' : Forall (fun e => is_val (snd e)) data')
    by (apply Forall_delete; exact Hv).
  assert (P : map unleaf data ≡ₚ (m, v) :: map unleaf data').
  { rewrite (delete_Permutation data i _ Ei). reflexivity. }
  assert (Hlen : (length data' <= length data)%nat).
  { unfold data'. rewrite length_delete by eauto. lia. }
  injection H as <- <-. unfold leaf_deletion. rewrite Emin.
  set (h' := <[l := data']> (heap st)).
  assert (Hl' : h' !! l = Some data')
    by (apply list_lookup_insert_eq; exact Hlt).
  destruct (good_leaf min max k h' l data' Hl' Hv') as (G' & T' & F').
  assert (Hfr : forall x, x ∉ foot_at (S k) (heap st) (CNode 0 l) ->
                  h' !! x = heap st !! x).
  { intros x Hx. apply list_lookup_insert_ne. intros ->.
    apply Hx. rewrite F. apply list_elem_of_here. }
  destruct (Z.ltb_spec (Z.of_nat (length data')) min) as [Hlo|Hhi];
    cbn [delete_post heap set_heap _root]; fold h';
    (split; [apply length_insert|]); (split; [exact Hfr|]);
    (split; [reflexivity|]).
  - destruct (orphans_of_leaf min max (S k) h' data' Hv') as (Ho & Fo & Lo).
    split; [exact Ho|]. rewrite Fo, Lo, T. cbn [leaves].
    split; [intros x Hx; inversion Hx|].
    exists v. split; [exact Ev | exact P].
  - split; [apply orphans_nil|].
    split; [intros x Hx; inversion Hx|].
    exists v. split; [exact Ev|].
    split; [exact G'|]. rewrite T, T', F, F'. cbn [fanout leaves].
    rewrite !length_map. split; [lia|]. split; [lia|]. split.
    + intros x Hx. split; [exact Hx | intros Hx'; inversion Hx'].
    + cbn [orphan_leaves flat_map]. rewrite app_nil_r. exact P.
Qed.

Lemma delete_inner_spec (fuel : nat) :
  delete_spec_at min max m value fuel ->
  forall k ht l i st r st',
    good min max (S k) (heap st) (CNode (S ht) l) ->
    _min st = min ->
    _delete_node (S fuel) (CNode (S ht) l) i m value st = (Ok r, st') ->
    delete_post min max m value (S k) st (CNode (S ht) l) r st'.
Proof.
  intros IH k ht l i st r st' Hg Emin H.
  apply delete_node_inner_inv in H as (data & Hl & H).
  destruct (data !! i) as [[b child]|] eqn:Hi;
    [|destruct H as [-> ->]; reflexivity].
  destruct H as [[_ H]|(_ & found & st1 & Hrec & H)];
    [exact (IH (S k) _ (S i) st r st' Hg Emin H)|].
  pose proof (lookup_lt_Some _ _ _ Hl) as Hlt.
  pose proof (lookup_lt_Some _ _ _ Hi) as Hilt.
  pose proof (proj1 (good_inner min max k (heap st) ht l data Hl) Hg)
    as (Hok & Hnl).
  destruct (tree_at_inner k (heap st) ht l data Hl) as (T & F).
  destruct (entries_lookup min max k (heap st) data i (b, child) Hok Hi)
    as (Hc & Hsub).
  unfold efoot in Hsub. cbn [snd] in Hsub.
  pose proof (entries_child_nodup min max k (heap st) data i b child Hok Hi)
    as Ndc.
  pose proof Hc as (Vc & Tc & Fc & Bc & Nc).
  cbn [fst snd] in Vc, Tc, Fc, Bc, Nc.
  assert (Hgc : good min max k (heap st) child) by (unfold good; auto).
  assert (Hnlc : l ∉ foot_at k (heap st) child)
    by (intros Hx; apply Hnl, Hsub, Hx).
  pose proof (IH k child 0%nat st found st1 Hgc Emin Hrec) as Hpost.
  pose proof (delete_node_keeps_counters fuel child 0%nat m value st _ _ Hrec)
    as (_ & _ & Emin1).
  destruct found as [[del inserts]|].
  2:{ cbn [delete_post] in Hpost. subst st1.
      exact (IH (S k) _ (S i) st r st' Hg Emin H). }
  cbn [delete_post] in Hpost.
  destruct Hpost as (Hlen1 & Hfr1 & Hroot1 & Hos & Hsubo & v & Ev & Hpost).
  set (h := heap st) in *. set (h1 := heap st1) in *.
  assert (Hl1 : h1 !! l = Some data) by (rewrite Hfr1; auto).
  assert (Hlt1 : (l < length h1)%nat) by lia.
  pose proof (delete_Permutation data i (b, child) Hi) as P.
  pose proof (entries_perm min max k h _ _ P Hok) as Hokp.
  change ((b, child) :: delete i data)
    with ([(b, child)] ++ delete i data) in Hokp.
  apply entries_app in Hokp as (_ & Hoth & Hdis).
  rewrite feet_single in Hdis. cbn [snd] in Hdis.
  assert (Hsub' : forall x, x ∈ feet k h (delete i data) -> x ∈ feet k h data).
  { intros x Hx. rewrite (feet_perm k h _ _ P).
    change ((b, child) :: delete i data) with ([(b, child)] ++ delete i data).
    rewrite feet_app. apply elem_of_app. auto. }
  assert (Hago : forall x, x ∈ feet k h (delete i data) -> h1 !! x = h !! x).
  { intros x Hx. apply Hfr1. intros Hc'. exact (Hdis x Hc' Hx). }
  destruct (entries_frame min max k h h1 _ Hoth Hago) as (Hoth1 & Ef1 & Et1).
  assert (Hlvd : eleaves k h data
                 ≡ₚ leaves (tree_at k h child) ++ eleaves k h (delete i data)).
  { rewrite (eleaves_perm k h _ _ P). unfold eleaves. simpl. reflexivity. }
  assert (Hol : forall x, x ∈ ofeet k h1 inserts ->
                  x <> l /\ x ∉ feet k h (delete i data)).
  { intros x Hx. specialize (Hsubo x Hx). split; [intros ->; contradiction|].
    intros Hx'. exact (Hdis x Hsubo Hx'). }
  assert (Hfr0 : forall x, x ∉ l :: feet k h data -> x <> l /\ h1 !! x = h !! x).
  { intros x Hx. split; [intros ->; apply Hx, list_elem_of_here|].
    apply Hfr1. intros Hx'. apply Hx, list_elem_of_further, Hsub, Hx'. }
  destruct del.
  - destruct H as (data1 & Hl1' & _ & -> & ->).
    fold h1 in Hl1'. rewrite Hl1 in Hl1'. injection Hl1' as <-.
    set (data2 := delete i data) in *.
    assert (Hnl2 : l ∉ feet k h1 data2).
    { rewrite Ef1. intros Hx. apply Hnl, Hsub', Hx. }
    destruct (inner_store min max k ht l h1 data2 Hlt1 Hoth1 Hnl2)
      as (G2 & T2 & F2).
    set (h2 := <[l := data2]> h1) in *.
    assert (Hag2 : forall x, x <> l -> h2 !! x = h1 !! x).
    { intros x Hx. apply list_lookup_insert_ne. auto. }
    destruct (orphans_frame min max k h1 h2 inserts Hos) as (Hos2 & Fo2 & Lo2).
    { intros x Hx. apply Hag2, Hol, Hx. }
    destruct (orphans_le min max k (S k) h2 inserts ltac:(lia) Hos2)
      as (Hos3 & Fo3 & Lo3).
    destruct (entries_frame min max k h1 h2 data2 Hoth1) as (Hoth2 & Ef2 & Et2).
    { intros x Hx. apply Hag2. intros ->. contradiction. }
    assert (Hlen2 : (length data2 <= length data)%nat).
    { unfold data2. rewrite length_delete by eauto. lia. }
    rewrite Emin1, Emin.
    destruct (Z.ltb_spec (Z.of_nat (length data2)) min) as [Hlo|Hhi];
      cbn [delete_post heap set_heap _root]; fold h h2;
      (split; [unfold h2; rewrite length_insert; exact Hlen1|]);
      (split; [rewrite F; intros x Hx; destruct (Hfr0 x Hx) as [Hx1 Hx2];
               rewrite Hag2; auto|]);
      (split; [exact Hroot1|]).
    + destruct (entries_ok_le min max h2 k (S k) data2 ltac:(lia) Hoth2)
        as (Hoth3 & _ & Ef3 & El3).
      destruct (orphans_of_inner min max (S k) ht h2 data2 Hoth3)
        as (Ho & Fo & Lo).
      split.
      { apply orphans_app. split; [exact Hos3|]. split; [exact Ho|].
        intros x Hx. rewrite Fo, Ef3, Ef2, Ef1. rewrite Fo3, Fo2 in Hx.
        apply Hol, Hx. }
      split.
      { intros x. rewrite ofeet_app, Fo, Ef3, Ef2, Ef1, Fo3, Fo2, F.
        intros Hx. apply list_elem_of_further.
        apply elem_of_app in Hx as [Hx|Hx]; [apply Hsub, Hsubo, Hx|].
        apply Hsub', Hx. }
      exists v. split; [exact Ev|].
      rewrite T, leaves_inner, orphan_leaves_app, Lo, El3, Lo3, Lo2.
      rewrite (eleaves_frame k h1 h2 data2 Et2), (eleaves_frame k h h1 data2 Et1).
      rewrite Hlvd, Hpost. reflexivity.
    + split; [exact Hos3|]. split.
      { intros x. rewrite Fo3, Fo2, F. intros Hx.
        apply list_elem_of_further, Hsub, Hsubo, Hx. }
      exists v. split; [exact Ev|]. split; [exact G2|].
      rewrite T, T2, F, F2. cbn [fanout]. rewrite !length_map.
      split; [lia|]. split; [lia|]. split.
      * intros x Hx. rewrite Fo3, Fo2. rewrite Ef1 in Hx.
        apply elem_of_cons in Hx as [->|Hx].
        -- split; [apply list_elem_of_here|]. intros Hx. apply (proj1 (Hol _ Hx)).
           reflexivity.
        -- split; [apply list_elem_of_further, Hsub', Hx|].
           intros Hx'. apply (proj2 (Hol _ Hx')), Hx.
      * rewrite !leaves_inner, Lo3, Lo2, (eleaves_frame k h h1 data2 Et1).
        rewrite Hlvd, Hpost.
        rewrite (Permutation_app_comm (eleaves k h data2)). reflexivity.
  - destruct Hpost as (Gc1 & Hfanc & Hfanm & Hfootc & Hlvc).
    destruct H as (data1 & b1 & hc & lc & cs & new_mbr
                   & Hl1' & Hi1 & Hcs & Hmb & -> & ->).
    fold h1 in Hl1', Hcs. rewrite Hl1 in Hl1'. injection Hl1' as <-.
    rewrite Hi in Hi1. injection Hi1 as <- ->.
    assert (Hnm : tree_mbr (tree_at k h1 (CNode hc lc)) = Some new_mbr).
    { destruct k as [|k']; [destruct Vc|].
      rewrite (tree_mbr_at k' h1 hc lc cs Hcs). exact Hmb. }
    set (child := CNode hc lc) in *.
    assert (Hnews : entries_ok min max k h1 [(new_mbr, child)]).
    { destruct Gc1 as (V & N & Tt & Fo). split.
      - apply Forall_cons_2; [|apply Forall_nil_2].
        unfold entry_ok. cbn [fst snd]. repeat split; auto; lia.
      - rewrite feet_single. exact N. }
    assert (Hfresh : fresh_or (length h) (foot_at k h child ++ [])
                       (feet k h1 [(new_mbr, child)])).
    { intros x Hx. rewrite feet_single in Hx. cbn [snd] in Hx.
      left. rewrite app_nil_r. apply Hfootc, Hx. }
    destruct (replace_child_g min max k l i b child h h1 data
                [(new_mbr, child)] [] Hlt Hok Hnl Hi)
      as (Hok3 & Hnl3 & Hfr3 & Hlv3 & _ & _); auto.
    { intros x Hx. inversion Hx. }
    set (data3 := <[i := (new_mbr, child)]> data) in *.
    assert (P1 : delete i data ++ [(new_mbr, child)] ≡ₚ data3).
    { rewrite <- (delete_insert_same data i (new_mbr, child)).
      rewrite <- Permutation_cons_append. symmetry.
      apply delete_Permutation. unfold data3.
      apply list_lookup_insert_eq. exact Hilt. }
    pose proof (entries_perm min max k h1 _ _ P1 Hok3) as Hok1.
    rewrite (feet_perm k h1 _ _ P1) in Hnl3.
    destruct (inner_store min max k ht l h1 data3 Hlt1 Hok1 Hnl3)
      as (G3 & T3 & F3).
    set (h2 := <[l := data3]> h1) in *.
    assert (Hag2 : forall x, x <> l -> h2 !! x = h1 !! x).
    { intros x Hx. apply list_lookup_insert_ne. auto. }
    destruct (orphans_frame min max k h1 h2 inserts Hos) as (Hos2 & Fo2 & Lo2).
    { intros x Hx. apply Hag2, Hol, Hx. }
    destruct (orphans_le min max k (S k) h2 inserts ltac:(lia) Hos2)
      as (Hos3 & Fo3 & Lo3).
    pose proof (entries_bound min max k h1 _ Hok1) as Hb1.
    rewrite Forall_forall in Hb1.
    assert (Hft3 : forall x, x ∈ feet k h1 data3 ->
                     x ∈ feet k h data /\ x ∉ ofeet k h1 inserts).
    { intros x Hx. rewrite <- (feet_perm k h1 _ _ P1), feet_app in Hx.
      apply elem_of_app in Hx as [Hx|Hx].
      - rewrite Ef1 in Hx. split; [apply Hsub', Hx|].
        intros Hx'. apply (proj2 (Hol _ Hx')), Hx.
      - rewrite feet_single in Hx. cbn [snd] in Hx.
        destruct (Hfootc x Hx) as [H1 H2]. split; [apply Hsub, H1 | exact H2]. }
    cbn [delete_post heap set_heap _root]. fold h h2.
    split; [unfold h2; rewrite length_insert; exact Hlen1|].
    split.
    { rewrite F. intros x Hx. destruct (Hfr0 x Hx) as [Hx1 Hx2].
      rewrite Hag2; auto. }
    split; [exact Hroot1|]. split; [exact Hos3|]. split.
    { intros x. rewrite Fo3, Fo2, F. intros Hx.
      apply list_elem_of_further, Hsub, Hsubo, Hx. }
    exists v. split; [exact Ev|]. split; [exact G3|].
    rewrite T, T3, F, F3. cbn [fanout]. rewrite !length_map.
    unfold data3. rewrite length_insert.
    split; [lia|]. split; [lia|]. split.
    + intros x Hx. rewrite Fo3, Fo2.
      apply elem_of_cons in Hx as [->|Hx].
      * split; [apply list_elem_of_here|]. intros Hx.
        apply (proj1 (Hol _ Hx)). reflexivity.
      * destruct (Hft3 x Hx) as [H1 H2].
        split; [apply list_elem_of_further, H1 | exact H2].
    + rewrite !leaves_inner, Lo3, Lo2.
      fold data3. rewrite <- (eleaves_perm k h1 _ _ P1), Hlv3, eleaves_single.
      cbn [snd]. rewrite Hlvd, Hlvc.
      rewrite (Permutation_app_comm (eleaves k h (delete i data))).
      cbn [app]. apply perm_skip. rewrite <- !app_assoc.
      apply Permutation_app_head, Permutation_app_comm.
Qed.

Lemma delete_node_spec (fuel : nat) : delete_spec_at min max m value fuel.
Proof.
  induction fuel as [|fuel IH]; intros k c i st r st' Hg Emin H;
    [discriminate|].
  destruct k as [|k]; [destruct Hg as [[] _]|].
  destruct c as [v|[|ht] l]; [destruct Hg as [[] _]| |].
  - exact (delete_leaf_spec fuel IH k l i st r st' Hg Emin H).
  - exact (delete_inner_spec fuel IH k ht l i st r st' Hg Emin H).
Qed.
End DeleteNode.

Lemma eleaves_le (h : list (list entry)) (k K : nat) (es : list entry) :
  (k <= K)%nat -> Forall (fun e => valid k h (snd e)) es ->
  eleaves K h es = eleaves k h es.
Proof.
  intros Hk. unfold eleaves. induction 1 as [|e es He _ IH]; [reflexivity|].
  cbn [flat_map]. rewrite IH.
  destruct (valid_le h k K (snd e) Hk He) as (_ & -> & _). reflexivity.
Qed.

Lemma frame_leaves_eq (K : nat) (h : list (list entry)) (height : nat)
    (l : loc) (i : nat) (data : list entry) :
  h !! l = Some data ->
  frame_leaves K h (height, l, i)
  = match height with
    | O => map unleaf (drop i data)
    | S _ => eleaves (pred K) h (drop i data)
    end.
Proof. intros Hl. unfold frame_leaves. cbn [fst snd]. rewrite Hl. reflexivity. Qed.

Lemma stack_leaves_cons (K : nat) (h : list (list entry)) (f : frame)
    (stk : list frame) :
  stack_leaves K h (f :: stk) = frame_leaves K h f ++ stack_leaves K h stk.
Proof. reflexivity. Qed.

(** A new activation yields the pairs below its node. *)
Lemma frame_leaves_start (K : nat) (h : list (list entry)) (ht : nat)
    (l : loc) :
  valid K h (CNode ht l) ->
  frame_leaves (S K) h (ht, l, 0%nat) = leaves (tree_at K h (CNode ht l)).
Proof.
  unfold frame_leaves. cbn [fst snd pred]. rewrite drop_0.
  destruct K as [|K]; [contradiction|].
  intros (data & Hl & Hv). destruct ht as [|ht].
  - cbn [tree_at]. rewrite Hl. reflexivity.
  - rewrite (proj1 (tree_at_inner K h ht l data Hl)), leaves_inner, Hl.
    cbn [default]. apply eleaves_le; [lia | exact Hv].
Qed.

Lemma leaves_next_spec (K : nat) (h : list (list entry)) (F : list loc)
    (fuel : nat) :
  forall stk r stk',
    Forall (frame_ok (S K) h F) stk ->
    leaves_next fuel h stk = Ok (r, stk') ->
    match r with
    | Some (m, value) =>
        exists v, value = CVal v
          /\ stack_leaves (S K) h stk = (m, v) :: stack_leaves (S K) h stk'
          /\ Forall (frame_ok (S K) h F) stk'
    | None => stack_leaves (S K) h stk = []
    end.
Proof.
  induction fuel as [|fuel IH]; intros stk r stk' Hs H; [discriminate|].
  cbn [leaves_next] in H. unfold leaves_step in H.
  destruct stk as [|[[height l] i] up]; [injection H as <- <-; reflexivity|].
  inversion Hs as [|? ? Hf Hup]; subst.
  destruct Hf as [Hv Hsub]. cbn [fst snd] in Hv, Hsub.
  pose proof Hv as (data & Hl & Hd). rewrite Hl in H.
  assert (E0 : stack_leaves (S K) h ((height, l, i) :: up)
               = match height with
                 | O => map unleaf (drop i data)
                 | S _ => eleaves K h (drop i data)
                 end ++ stack_leaves (S K) h up).
  { rewrite stack_leaves_cons, (frame_leaves_eq _ _ _ _ _ _ Hl). reflexivity. }
  rewrite E0. clear E0.
  destruct (data !! i) as [[m0 child]|] eqn:Ei.
  - rewrite (drop_S _ _ _ Ei).
    assert (Hs' : Forall (frame_ok (S K) h F) ((height, l, S i) :: up)).
    { constructor; [split; assumption | exact Hup]. }
    assert (E1 : stack_leaves (S K) h ((height, l, S i) :: up)
                 = match height with
                   | O => map unleaf (drop (S i) data)
                   | S _ => eleaves K h (drop (S i) data)
                   end ++ stack_leaves (S K) h up).
    { rewrite stack_leaves_cons, (frame_leaves_eq _ _ _ _ _ _ Hl).
      reflexivity. }
    destruct height as [|ht]; cbn [Nat.eqb negb] in H;
      pose proof (Forall_lookup_1 _ _ _ _ Hd Ei) as Hc; cbn [snd] in Hc.
    + injection H as <- <-.
      destruct child as [v|]; [|contradiction].
      exists v. split; [reflexivity|]. split; [|exact Hs'].
      rewrite E1. reflexivity.
    + destruct child as [v|h' l']; [destruct K; contradiction|].
      destruct (valid_le h K (S K) (CNode h' l') ltac:(lia) Hc)
        as (Hc' & Tc & Fc).
      assert (Hs2 : Forall (frame_ok (S K) h F)
                      ((h', l', 0%nat) :: (S ht, l, S i) :: up)).
      { constructor; [|exact Hs']. split; [exact Hc'|]. cbn [fst snd].
        intros x Hx. apply Hsub. rewrite Fc in Hx.
        destruct (tree_at_inner K h ht l data Hl) as (_ & ->).
        apply list_elem_of_further, feet_elem.
        exists (m0, CNode h' l'). split; [|exact Hx].
        eapply list_elem_of_lookup_2; eauto. }
      specialize (IH _ r stk' Hs2 H).
      assert (E : stack_leaves (S K) h ((h', l', 0%nat) :: (S ht, l, S i) :: up)
                  = eleaves K h ((m0, CNode h' l') :: drop (S i) data)
                    ++ stack_leaves (S K) h up).
      { rewrite stack_leaves_cons, E1, (frame_leaves_start K h h' l' Hc).
        unfold eleaves at 2. cbn [flat_map snd].
        rewrite <- app_assoc. reflexivity. }
      rewrite <- E. exact IH.
  - apply lookup_ge_None in Ei. rewrite drop_ge by exact Ei.
    assert (E : match height with
                | 0%nat => map unleaf []
                | S _ => eleaves K h []
                end = []) by (destruct height; reflexivity).
    rewrite E. cbn [app]. apply (IH up r stk' Hup H).
Qed.

(** The activations on a heap that agrees on the lists of [F]. *)
Lemma frames_frame (K : nat) (h h' : list (list entry)) (F : list loc)
    (stk : list frame) :
  (forall x, x ∈ F -> h' !! x = h !! x) ->
  Forall (frame_ok (S K) h F) stk ->
  Forall (frame_ok (S K) h' F) stk
  /\ stack_leaves (S K) h' stk = stack_leaves (S K) h stk.
Proof.
  intros Hag. induction 1 as [|[[height l] i] stk [Hv Hsub] _ [IH1 IH2]].
  - split; [constructor | reflexivity].
  - cbn [fst snd] in Hv, Hsub.
    destruct (tree_frame (S K) h h' _ Hv) as (Hv' & T & Ft).
    { intros x Hx. apply Hag, Hsub, Hx. }
    split.
    + constructor; [|exact IH1]. split; [exact Hv'|]. cbn [fst snd].
      rewrite Ft. exact Hsub.
    + rewrite !stack_leaves_cons, IH2. f_equal.
      pose proof Hv as (data & Hl & Hd).
      assert (Hl' : h' !! l = Some data).
      { rewrite Hag; [exact Hl|]. apply Hsub. destruct height.
        - apply list_elem_of_here.
        - cbn [foot_at]. apply list_elem_of_here. }
      rewrite (frame_leaves_eq _ _ _ _ _ _ Hl), (frame_leaves_eq _ _ _ _ _ _ Hl').
      cbn [pred].
      destruct height as [|ht]; [reflexivity|].
      assert (Hall : Forall (fun e => tree_at K h' (snd e)
                                     = tree_at K h (snd e)) data).
      { apply Forall_forall. intros e He.
        rewrite Forall_forall in Hd.
        destruct (tree_frame K h h' (snd e) (Hd e He)) as (_ & Te & _);
          [|exact Te].
        intros x Hx. apply Hag, Hsub.
        destruct (tree_at_inner K h ht l data Hl) as (_ & ->).
        apply list_elem_of_further, feet_elem. eauto. }
      apply (Forall_drop _ i) in Hall. unfold eleaves.
      induction Hall as [|e es He _ IHe]; [reflexivity|].
      cbn [flat_map]. rewrite He, IHe. reflexivity.
Qed.

(** ** BaseTree._reinsert puts back what the orphans hold *)

(** The loop over [_leaves]: every pair below the activations goes into
    the tree, whose lists the traversed subtree does not share. *)
Lemma reinsert_leaves_spec (K : nat) (F : list loc) (fuel : nat) :
  forall stk k st st',
    shape_ok k st ->
    Forall (frame_ok (S K) (heap st) F) stk ->
    (forall x, x ∈ F -> (x < length (heap st))%nat /\ x ∉ root_foot k st) ->
    reinsert_leaves fuel stk st = (Ok tt, st') ->
    exists k', added_to (stack_leaves (S K) (heap st) stk) [] k st k' st'.
Proof.
  induction fuel as [|fuel IH]; intros stk k st st' Hs Hf HF H;
    [discriminate|].
  cbn [reinsert_leaves] in H.
  destruct (leaves_next (S fuel) (heap st) stk) as [[[[m value]|] stk']|e] eqn:E;
    [| |discriminate].
  - pose proof (leaves_next_spec K (heap st) F _ _ _ _ Hf E)
      as (v & -> & El & Hf').
    unfold bind in H.
    destruct (_add_normalized_mbr fuel 0 m (CVal v) st) as [[[]|e] st1] eqn:Ea;
      [|discriminate].
    destruct (add_normalized_mbr_g fuel 0 k 0 m (CVal v) [(m, v)] st st1 Hs)
      as (K1 & Ha).
    { exists v. auto. }
    { intros x Hx. rewrite foot_at_val in Hx. inversion Hx. }
    { exact Ea. }
    rewrite foot_at_val in Ha.
    pose proof Ha as (S1 & P1 & L1 & F1 & R1 & Z1).
    assert (Hag : forall x, x ∈ F -> heap st1 !! x = heap st !! x).
    { intros x Hx. destruct (HF x Hx) as [Hlt Hn].
      apply F1; [exact Hlt|]. rewrite app_nil_r. exact Hn. }
    destruct (frames_frame K (heap st) (heap st1) F stk' Hag Hf')
      as (Hf1 & El1).
    destruct (IH stk' K1 st1 st' S1 Hf1) as (k' & Hb); [|exact H|].
    { intros x Hx. destruct (HF x Hx) as [Hlt Hn]. split; [lia|].
      intros Hx'. destruct (R1 x Hx') as [Hin|Hge]; [|lia].
      rewrite app_nil_r in Hin. auto. }
    exists k'. rewrite El. rewrite El1 in Hb.
    apply (added_to_trans [(m, v)] _ [] [] k K1 k' st st1 st' Ha Hb).
    intros x Hx. inversion Hx.
  - injection H as <-.
    rewrite (leaves_next_spec K (heap st) F _ _ _ _ Hf E).
    exists k. apply added_to_refl, Hs.
Qed.

(** One orphan: put back whole at its height, or pair by pair when the
    tree is lower than the orphan. *)
Lemma reinsert_one_spec (fuel mh Ko : nat) (h : nat) (m : mbr) (c : content)
    (k : nat) (st st1 : pystate) :
  shape_ok k st ->
  orphans_ok (_min st) (_max st) Ko (heap st) [(h, m, c)] ->
  (forall x, x ∈ ofeet Ko (heap st) [(h, m, c)] -> x ∉ root_foot k st) ->
  (if (mh <? h)%nat then
     match c with
     | CNode h' l' => reinsert_leaves fuel [(h', l', 0%nat)]
     | CVal _ => raise TypeError
     end
   else _add_normalized_mbr fuel h m c) st = (Ok tt, st1) ->
  (exists K1, added_to (orphan_leaves Ko (heap st) [(h, m, c)])
                (ofeet Ko (heap st) [(h, m, c)]) k st K1 st1)
  /\ _min st1 = _min st /\ _max st1 = _max st.
Proof.
  intros Hs [Hall Hnd] Hd H.
  inversion Hall as [|? ? Ho _]; subst.
  unfold orphan_ok in Ho. cbn [fst snd] in Ho.
  unfold ofeet, orphan_leaves, ofoot, oleaves in *.
  cbn [map concat flat_map fst snd] in *. rewrite !app_nil_r in *.
  destruct (mh <? h)%nat.
  - destruct c as [v|h' l']; [discriminate|].
    pose proof (reinsert_leaves_keeps_counters fuel _ st _ _ H)
      as (_ & Emax & Emin).
    split; [|auto].
    destruct h as [|h0]; [contradiction|].
    destruct Ho as (Hv & _). cbn [snd] in Hv.
    destruct (valid_le (heap st) Ko (S Ko) (CNode h' l') ltac:(lia) Hv)
      as (Hv' & Tc & Fc).
    destruct (reinsert_leaves_spec Ko (foot_at Ko (heap st) (CNode h' l'))
                fuel [(h', l', 0%nat)] k st st1 Hs) as (K1 & Ha).
    { constructor; [|constructor]. split; [exact Hv'|]. cbn [fst snd].
      rewrite Fc. auto. }
    { intros x Hx. split; [|apply Hd, Hx].
      pose proof (foot_at_bound Ko (heap st) _ Hv) as Hb.
      rewrite Forall_forall in Hb. apply Hb, Hx. }
    { exact H. }
    exists K1. rewrite stack_leaves_cons in Ha.
    rewrite (frame_leaves_start Ko (heap st) h' l' Hv) in Ha.
    cbn [stack_leaves flat_map] in Ha. rewrite app_nil_r in Ha.
    eapply added_to_perm; [reflexivity| |exact Ha].
    intros x Hx. inversion Hx.
  - pose proof (add_normalized_mbr_keeps_counters fuel h m c st _ _ H)
      as (_ & Emax & Emin).
    split; [|auto].
    eapply (add_normalized_mbr_g fuel Ko k h m c); [exact Hs| |exact Hd|exact H].
    destruct h as [|h0]; cbn [fits].
    + destruct c as [v|]; [|contradiction]. exists v. auto.
    + split; [exact Ho|]. split; [exact Hnd|].
      destruct Ho as (Hv & _). cbn [snd] in Hv.
      apply valid_node in Hv as (hc & lc & ->). reflexivity.
Qed.

Lemma reinsert_loop_spec (fuel mh Ko : nat) :
  forall inserts k st st',
    shape_ok k st ->
    orphans_ok (_min st) (_max st) Ko (heap st) inserts ->
    (forall x, x ∈ ofeet Ko (heap st) inserts -> x ∉ root_foot k st) ->
    reinsert_loop fuel mh inserts st = (Ok tt, st') ->
    exists k', added_to (orphan_leaves Ko (heap st) inserts)
                 (ofeet Ko (heap st) inserts) k st k' st'.
Proof.
  induction inserts as [|[[h m] c] rest IH]; intros k st st' Hs Ho Hd H.
  - injection H as <-. exists k. apply added_to_refl, Hs.
  - cbn [reinsert_loop] in H. unfold bind at 1 in H.
    match type of H with
    | match ?step st with _ => _ end = _ =>
        destruct (step st) as [[[]|e] st1] eqn:E1; [|discriminate]
    end.
    change ((h, m, c) :: rest) with ([(h, m, c)] ++ rest) in Ho, Hd |- *.
    apply orphans_app in Ho as (Ho1 & Ho2 & Hdis).
    rewrite ofeet_app in Hd. rewrite ofeet_app, orphan_leaves_app.
    destruct (reinsert_one_spec fuel mh Ko h m c k st st1 Hs Ho1)
      as ((K1 & Ha) & Emin & Emax); [|exact E1|].
    { intros x Hx. apply Hd, elem_of_app. auto. }
    pose proof Ha as (S1 & P1 & L1 & F1 & R1 & Z1).
    pose proof (ofeet_bound _ _ _ _ _ Ho2) as Hb.
    rewrite Forall_forall in Hb.
    destruct (orphans_frame (_min st) (_max st) Ko (heap st) (heap st1) rest
                Ho2) as (Ho2' & Ef & El).
    { intros x Hx. apply F1; [apply Hb, Hx|].
      intros Hx'. apply elem_of_app in Hx' as [Hx'|Hx'].
      - apply (Hd x); [apply elem_of_app; auto | exact Hx'].
      - apply (Hdis x Hx' Hx). }
    rewrite <- Emin, <- Emax in Ho2'.
    destruct (IH K1 st1 st' S1 Ho2') as (k' & Hb2); [|exact H|].
    { rewrite Ef. intros x Hx Hx'. destruct (R1 x Hx') as [Hin|Hge].
      - apply elem_of_app in Hin as [Hin|Hin].
        + apply (Hd x); [apply elem_of_app; auto | exact Hin].
        + apply (Hdis x Hin Hx).
      - specialize (Hb x Hx). lia. }
    rewrite Ef, El in Hb2. exists k'.
    apply (added_to_trans _ _ _ _ k K1 k' st st1 st' Ha Hb2).
    intros x Hx. apply Hb, Hx.
Qed.

(** ** The test on the root after a deletion *)

Lemma collapse_root_spec (k : nat) (st st' : pystate) :
  shape_ok k st -> collapse_root st = (Ok tt, st') ->
  exists k', shape_ok k' st' /\ stored k' st' = stored k st
             /\ _size st' = _size st.
Proof.
  intros Hs H. unfold collapse_root, bind, get_root in H.
  destruct (_root st) as [[[|h] l]|] eqn:Er.
  1, 3: injection H as <-; exists k; auto.
  unfold read in H.
  destruct (heap st !! l) as [data|] eqn:Hl; [|discriminate].
  destruct data as [|[b [v|h' l']] [|e rest]]; try discriminate;
    try (injection H as <-; exists k; auto; fail).
  unfold put_root in H. injection H as <-.
  destruct Hs as (Hmin & Hmax & Hr). rewrite Er in Hr.
  destruct Hr as (Hg & Hfan).
  destruct k as [|k0]; [destruct Hg as [[] _]|].
  apply (good_inner _ _ k0 _ h l _ Hl) in Hg as ((Hall & Hnd) & Hnl).
  inversion Hall as [|? ? He _]; subst.
  exists k0. unfold shape_ok, stored.
  cbn [_root heap set_root _min _max _size]. rewrite Er.
  split; [split; [exact Hmin | split; [exact Hmax|]]|].
  - split.
    + apply (entry_ok_good _ _ _ _ (b, CNode h' l') He).
      unfold feet in Hnd. cbn [map concat] in Hnd.
      rewrite app_nil_r in Hnd. exact Hnd.
    + destruct He as (_ & _ & _ & _ & Hf). cbn [snd] in Hf. lia.
  - split; [|reflexivity].
    rewrite (proj1 (tree_at_inner k0 _ h l _ Hl)), leaves_inner.
    unfold eleaves. cbn [flat_map snd]. rewrite app_nil_r. reflexivity.
Qed.

(** ** One round of the loop of [_delete_normalized_mbr] *)

Lemma shape_ok_size (k : nat) (st : pystate) (n : Z) :
  shape_ok k st -> shape_ok k (set_size n st).
Proof. intros H. exact H. Qed.

Lemma delete_step_spec (fuel k : nat) (st st1 st3 st5 : pystate) (h : nat)
    (l : loc) (mm : mbr) (value : pyval) (del : bool)
    (inserts : list orphan) :
  well_formed k st ->
  _root st = Some (h, l) ->
  _delete_node fuel (CNode h l) 0 mm value st = (Ok (Some (del, inserts)), st1) ->
  _reinsert fuel inserts (if del then set_root None st1 else st1)
  = (Ok tt, st3) ->
  collapse_root (set_size (_size st3 + -1) st3) = (Ok tt, st5) ->
  exists k' v,
    well_formed k' st5
    /\ stored k st ≡ₚ (mm, v) :: stored k' st5
    /\ value_test value (CVal v) = true.
Proof.
  intros [Hs Hsz] Er Ed Hre Hco.
  pose proof Hs as (Hmin & Hmax & Hr). rewrite Er in Hr.
  destruct Hr as (Hg & Hfan).
  pose proof (delete_node_spec (_min st) (_max st) mm value fuel k (CNode h l)
                0%nat st _ st1 Hg eq_refl Ed) as Hp.
  cbn [delete_post] in Hp.
  destruct Hp as (Hlen & Hfr & Hroot & Hor & Hsub & v & Hv & Hcase).
  pose proof (delete_node_keeps_counters fuel _ _ _ _ st _ _ Ed)
    as (Esz1 & Emax1 & Emin1).
  assert (Hmid : exists k3, shape_ok k3 st3
                   /\ stored k st ≡ₚ (mm, v) :: stored k3 st3
                   /\ _size st3 = _size st).
  { unfold _reinsert, bind, get_root in Hre.
    destruct del.
    - cbn [_root set_root] in Hre.
      destruct (reinsert_loop_spec fuel 0 k inserts 0%nat
                  (set_root None st1) st3) as (k3 & Ha).
      + unfold shape_ok. cbn [_root set_root _min _max].
        rewrite Emin1, Emax1. auto.
      + cbn [_min _max heap set_root]. rewrite Emin1, Emax1. exact Hor.
      + intros x _ Hx. inversion Hx.
      + exact Hre.
      + destruct Ha as (S3 & P3 & _ & _ & _ & Z3).
        exists k3. split; [exact S3|]. split; [|cbn [_size set_root] in Z3; lia].
        unfold stored at 1. rewrite Er. rewrite Hcase.
        apply Permutation_cons; [reflexivity|].
        cbn [heap set_root] in P3. unfold stored at 2 in P3.
        cbn [_root set_root] in P3. rewrite app_nil_r in P3.
        symmetry. exact P3.
    - rewrite Hroot, Er in Hre.
      destruct Hcase as (Hg1 & Hf1 & _ & Hft & Hlv).
      destruct (reinsert_loop_spec fuel h k inserts k st1 st3) as (k3 & Ha).
      + unfold shape_ok. rewrite Hroot, Er, Emin1, Emax1.
        split; [exact Hmin|]. split; [exact Hmax|]. split; [exact Hg1 | lia].
      + rewrite Emin1, Emax1. exact Hor.
      + unfold root_foot. rewrite Hroot, Er. intros x Hx Hx'.
        apply (proj2 (Hft x Hx')), Hx.
      + exact Hre.
      + destruct Ha as (S3 & P3 & _ & _ & _ & Z3).
        exists k3. split; [exact S3|]. split; [|lia].
        unfold stored at 1. rewrite Er. rewrite Hlv.
        apply Permutation_cons; [reflexivity|].
        rewrite P3. unfold stored. rewrite Hroot, Er.
        apply Permutation_app_comm. }
  destruct Hmid as (k3 & S3 & P3 & Z3).
  destruct (collapse_root_spec k3 (set_size (_size st3 + -1) st3) st5
              (shape_ok_size _ _ _ S3) Hco) as (k5 & S5 & E5 & Z5).
  exists k5, v. split; [split; [exact S5|]|split; [|exact Hv]].
  - rewrite Z5. cbn [_size set_size]. rewrite Z3, Hsz.
    change (stored k3 (set_size (_size st3 + -1) st3)) with (stored k3 st3)
      in E5.
    rewrite E5. apply Permutation_length in P3. rewrite P3.
    cbn [length]. lia.
  - change (stored k3 (set_size (_size st3 + -1) st3)) with (stored k3 st3)
      in E5.
    rewrite E5. exact P3.
Qed.

(** What the query hands to the loop passed the test of the match type. *)
Lemma get_next_yield (fuel : nat) :
  forall h q value mt stk c mm stk',
    get_next fuel h q value mt stk = Ok (Some (c, mm), stk') ->
    leaf_test mt mm q = true.
Proof.
  induction fuel as [|fuel IH]; intros h q value mt stk c mm stk' H;
    [discriminate|].
  cbn [get_next] in H. unfold get_step in H.
  destruct stk as [|[[height l] i] up]; [discriminate|].
  destruct (h !! l) as [data|]; [|discriminate].
  destruct (data !! i) as [[b cn]|]; [|eauto].
  destruct (negb (height =? 0)%nat).
  - destruct (prune_test mt b q); [|eauto].
    destruct cn; [discriminate | eauto].
  - destruct (value_test value cn && leaf_test mt b q) eqn:Et; [|eauto].
    injection H as <- <- <-. apply andb_true_iff in Et. apply Et.
Qed.

Lemma delete_loop_spec (fuel : nat) :
  forall q value mt stk count k st n st',
    well_formed k st ->
    delete_loop fuel q value mt stk count st = (Ok n, st') ->
    exists k' removed,
      well_formed k' st'
      /\ stored k st ≡ₚ removed ++ stored k' st'
      /\ n = count + Z.of_nat (length removed)
      /\ Forall (removable q value mt) removed.
Proof.
  induction fuel as [|fuel IH]; intros q value mt stk count k st n st' Hw H;
    [discriminate|].
  cbn [delete_loop] in H.
  destruct (get_next (S fuel) (heap st) q value mt stk)
    as [[[[c mm]|] stk']|e] eqn:E; [| |discriminate].
  - apply get_next_yield in E.
    unfold bind at 1 in H. unfold get_root at 1 in H.
    unfold bind at 1 in H. unfold lift at 1 in H.
    destruct (_root st) as [[h l]|] eqn:Er; [|discriminate].
    cbn [root_content] in H. unfold bind at 1 in H.
    destruct (_delete_node fuel (CNode h l) 0 mm value st)
      as [[[[del inserts]|]|e] st1] eqn:Ed; try discriminate.
    unfold bind at 1 in H.
    assert (E2 : (if del then put_root None else ret tt) st1
                 = (Ok tt, if del then set_root None st1 else st1))
      by (destruct del; reflexivity).
    rewrite E2 in H. clear E2.
    unfold bind at 1 in H.
    destruct (_reinsert fuel inserts (if del then set_root None st1 else st1))
      as [[[]|e] st3] eqn:Hre; [|discriminate].
    unfold bind at 1 in H. unfold add_size at 1 in H.
    unfold bind at 1 in H.
    destruct (collapse_root (set_size (_size st3 + -1) st3))
      as [[[]|e] st5] eqn:Hco; [|discriminate].
    destruct (delete_step_spec fuel k st st1 st3 st5 h l mm value del inserts
                Hw Er Ed Hre Hco) as (k5 & v & Hw5 & P5 & Hv).
    destruct (IH _ _ _ _ _ _ _ _ _ Hw5 H) as (k' & removed & Hw' & P' & -> & Hall).
    exists k', ((mm, v) :: removed). split; [exact Hw'|]. split.
    { rewrite P5, P'. reflexivity. }
    split; [cbn [length]; lia|].
    constructor; [split; assumption | exact Hall].
  - injection H as <- <-. exists k, []. split; [exact Hw|].
    split; [reflexivity|]. split; [cbn; lia | constructor].
Qed.

(** ** Deletion keeps the tree in order *)

Lemma delete_normalized_mbr_spec (fuel k : nat) (q : mbr) (value : pyval)
    (mt : MatchType) (st : pystate) (n : Z) (st' : pystate) :
  well_formed k st ->
  _delete_normalized_mbr fuel q value mt st = (Ok n, st') ->
  exists k' removed,
    well_formed k' st'
    /\ stored k st ≡ₚ removed ++ stored k' st'
    /\ n = Z.of_nat (length removed)
    /\ Forall (removable q value mt) removed.
Proof.
  intros Hw H. unfold _delete_normalized_mbr, bind, get_root in H.
  destruct (delete_loop_spec fuel _ _ _ _ _ _ _ _ _ Hw H)
    as (k' & removed & Hw' & P & -> & Hall).
  exists k', removed. auto.
Qed.

(** X28: deletion removes matching pairs only, and keeps the tree in
    order.  On a tree in order, a delete_point or delete_box that returns n
    leaves a tree in order that satisfies the three invariants; it holds
    the pairs of before without n of them, each of which passed the test of
    the match type against the query box and the value filter; len has
    gone down by n. *)
Theorem delete_removes_matching_pairs (fuel k : nat) (q : mbr)
    (value : pyval) (mt : MatchType) (st : pystate) (n : Z) (st' : pystate) :
  well_formed k st ->
  _delete_normalized_mbr fuel q value mt st = (Ok n, st') ->
  exists k' removed,
    well_formed k' st' /\ invariants k' st' = true
    /\ stored k st ≡ₚ removed ++ stored k' st'
    /\ n = Z.of_nat (length removed)
    /\ __len__ st' = __len__ st - n
    /\ Forall (removable q value mt) removed.
Proof.
  intros Hw H.
  destruct (delete_normalized_mbr_spec fuel k q value mt st n st' Hw H)
    as (k' & removed & Hw' & P & -> & Hall).
  exists k', removed. split; [exact Hw'|].
  split; [apply well_formed_invariants_holds, Hw'|].
  split; [exact P|]. split; [reflexivity|]. split; [|exact Hall].
  destruct Hw as [_ Hsz]. destruct Hw' as [_ Hsz']. unfold __len__.
  rewrite Hsz, Hsz'. apply Permutation_length in P.
  rewrite P, length_app. lia.
Qed.

Lemma delete_removes_matching_pairs_witness :
  well_formed 2 two_clusters
  /\ _delete_normalized_mbr 9 (0, 0, 0, 0) (PyInt 1) EQUAL two_clusters
     = (Ok 1,
        mk_state
          [[]; [((0, 0, 2, 2), CVal (PyInt 1))];
           [((1, 1, 1, 1), CVal PyNone); ((11, 11, 11, 11), CVal (PyInt 4));
            ((10, 10, 10, 10), CVal (PyInt 3))];
           [((1, 1, 11, 11), CNode 0 2%nat)];
           [((0, 0, 2, 2), CVal (PyInt 1)); ((1, 1, 1, 1), CVal PyNone);
            ((11, 11, 11, 11), CVal (PyInt 4));
            ((10, 10, 10, 10), CVal (PyInt 3))]]
          4 2 (Some (0%nat, 4%nat)) 4)
  /\ exists k' removed,
       well_formed k'
         (mk_state
            [[]; [((0, 0, 2, 2), CVal (PyInt 1))];
             [((1, 1, 1, 1), CVal PyNone); ((11, 11, 11, 11), CVal (PyInt 4));
              ((10, 10, 10, 10), CVal (PyInt 3))];
             [((1, 1, 11, 11), CNode 0 2%nat)];
             [((0, 0, 2, 2), CVal (PyInt 1)); ((1, 1, 1, 1), CVal PyNone);
              ((11, 11, 11, 11), CVal (PyInt 4));
              ((10, 10, 10, 10), CVal (PyInt 3))]]
            4 2 (Some (0%nat, 4%nat)) 4)
       /\ invariants k'
            (mk_state
               [[]; [((0, 0, 2, 2), CVal (PyInt 1))];
                [((1, 1, 1, 1), CVal PyNone);
                 ((11, 11, 11, 11), CVal (PyInt 4));
                 ((10, 10, 10, 10), CVal (PyInt 3))];
                [((1, 1, 11, 11), CNode 0 2%nat)];
                [((0, 0, 2, 2), CVal (PyInt 1)); ((1, 1, 1, 1), CVal PyNone);
                 ((11, 11, 11, 11), CVal (PyInt 4));
                 ((10, 10, 10, 10), CVal (PyInt 3))]]
               4 2 (Some (0%nat, 4%nat)) 4) = true
       /\ stored 2 two_clusters
          ≡ₚ removed
             ++ stored k'
                  (mk_state
                     [[]; [((0, 0, 2, 2), CVal (PyInt 1))];
                      [((1, 1, 1, 1), CVal PyNone);
                       ((11, 11, 11, 11), CVal (PyInt 4));
                       ((10, 10, 10, 10), CVal (PyInt 3))];
                      [((1, 1, 11, 11), CNode 0 2%nat)];
                      [((0, 0, 2, 2), CVal (PyInt 1));
                       ((1, 1, 1, 1), CVal PyNone);
                       ((11, 11, 11, 11), CVal (PyInt 4));
                       ((10, 10, 10, 10), CVal (PyInt 3))]]
                     4 2 (Some (0%nat, 4%nat)) 4)
       /\ 1 = Z.of_nat (length removed)
       /\ __len__
            (mk_state
               [[]; [((0, 0, 2, 2), CVal (PyInt 1))];
                [((1, 1, 1, 1), CVal PyNone);
                 ((11, 11, 11, 11), CVal (PyInt 4));
                 ((10, 10, 10, 10), CVal (PyInt 3))];
                [((1, 1, 11, 11), CNode 0 2%nat)];
                [((0, 0, 2, 2), CVal (PyInt 1)); ((1, 1, 1, 1), CVal PyNone);
                 ((11, 11, 11, 11), CVal (PyInt 4));
                 ((10, 10, 10, 10), CVal (PyInt 3))]]
               4 2 (Some (0%nat, 4%nat)) 4)
         = __len__ two_clusters - 1
       /\ Forall (removable (0, 0, 0, 0) (PyInt 1) EQUAL) removed.
Proof.
  split; [exact two_clusters_well_formed|]. split; [reflexivity|].
  apply (delete_removes_matching_pairs 9 2 (0, 0, 0, 0) (PyInt 1) EQUAL
           two_clusters 1 _ two_clusters_well_formed).
  reflexivity.
Defined.

(** ** Any calls that return *)

Lemma do_call_in_order (fuel : nat) (c : call) (k : nat) (st st' : pystate) :
  well_formed k st ->
  do_call fuel c st = (Ok tt, st') ->
  exists k' removed,
    well_formed k' st'
    /\ added c ++ stored k st ≡ₚ removed ++ stored k' st'.
Proof.
  intros Hw H.
  assert (Hdel : forall q value mt,
             bind (_delete_normalized_mbr fuel q value mt) (fun _ => ret tt) st
             = (Ok tt, st') ->
             exists k' removed,
               well_formed k' st'
               /\ [] ++ stored k st ≡ₚ removed ++ stored k' st').
  { intros q value mt Hd. unfold bind in Hd.
    destruct (_delete_normalized_mbr fuel q value mt st) as [[n|e] st1] eqn:E;
      [|discriminate].
    injection Hd as <-.
    destruct (delete_normalized_mbr_spec fuel k q value mt st n st1 Hw E)
      as (k' & removed & Hw' & P & _).
    exists k', removed. auto. }
  destruct c as [v x y|v x1 y1 x2 y2|x y v mt|x1 y1 x2 y2 v mt].
  - destruct (do_call_well_formed fuel (AddPoint v x y) k st st' I Hw H)
      as (k' & Hw' & P).
    exists k', []. split; [exact Hw'|]. symmetry. exact P.
  - destruct (do_call_well_formed fuel (AddBox v x1 y1 x2 y2) k st st' I Hw H)
      as (k' & Hw' & P).
    exists k', []. split; [exact Hw'|]. symmetry. exact P.
  - exact (Hdel _ _ _ H).
  - exact (Hdel _ _ _ H).
Qed.

Lemma do_calls_in_order (fuel : nat) (cs : list call) :
  forall k st st',
    well_formed k st ->
    do_calls fuel cs st = (Ok tt, st') ->
    exists k' removed,
      well_formed k' st'
      /\ flat_map added cs ++ stored k st ≡ₚ removed ++ stored k' st'.
Proof.
  induction cs as [|c cs IH]; intros k st st' Hw H.
  - injection H as <-. exists k, []. auto.
  - cbn [do_calls] in H. unfold bind in H.
    destruct (do_call fuel c st) as [[[]|e] st1] eqn:E; [|discriminate].
    destruct (do_call_in_order fuel c k st st1 Hw E) as (k1 & r1 & Hw1 & P1).
    destruct (IH k1 st1 st' Hw1 H) as (k' & r2 & Hw' & P2).
    exists k', (r1 ++ r2). split; [exact Hw'|].
    cbn [flat_map].
    transitivity (flat_map added cs ++ (added c ++ stored k st)).
    { rewrite (Permutation_app_comm (added c)), <- app_assoc. reflexivity. }
    rewrite P1.
    transitivity (r1 ++ (flat_map added cs ++ stored k1 st1)).
    { rewrite !app_assoc. apply Permutation_app_tail, Permutation_app_comm. }
    rewrite P2, app_assoc. reflexivity.
Qed.

Lemma well_formed_consistent (k fuel : nat) (st : pystate) :
  well_formed k st -> (k < fuel)%nat ->
  assert_consistent fuel st = (Ok tt, st).
Proof.
  intros Hw Hk. pose proof Hw as [(_ & _ & Hr) _].
  apply (assert_consistent_decides k fuel st); [|exact Hk|].
  - intros hr lr Er. rewrite Er in Hr. apply Hr.
  - split; [apply well_formed_invariants_holds, Hw|].
    intros t Ht. unfold root_tree in Ht.
    destruct (_root st) as [[hr lr]|]; [|discriminate].
    destruct Hr as [(Hv & _) Hf].
    rewrite (valid_unfold k (heap st) _ Hv) in Ht. injection Ht as <-.
    exact Hf.
Qed.

(** X29: calls that return leave a tree in order.  After any sequence of
    add_point, add_box, delete_point and delete_box calls on a new tree
    that all returned, the tree satisfies the three invariants, len is the
    number of stored pairs, the stored pairs are inserted pairs (each at
    most as often as it was inserted), and assert_consistent returns. *)
Theorem returning_calls_leave_tree_in_order (max_entries : Z)
    (min_entries : option Z) (fuel : nat) (cs : list call) (st : pystate) :
  on_new_tree max_entries min_entries (do_calls fuel cs) = Ok (Ok tt, st) ->
  exists k removed,
    well_formed k st /\ invariants k st = true
    /\ __len__ st = Z.of_nat (length (stored k st))
    /\ flat_map added cs ≡ₚ removed ++ stored k st
    /\ forall fuel', (k < fuel')%nat ->
         assert_consistent fuel' st = (Ok tt, st).
Proof.
  intros H. unfold on_new_tree in H.
  destruct (__init__ max_entries min_entries) as [st0|e] eqn:E; [|discriminate].
  injection H as H.
  destruct (init_well_formed _ _ _ E) as (Hw0 & Hst0).
  destruct (do_calls_in_order fuel cs 0 st0 st Hw0 H) as (k & removed & Hw & P).
  rewrite Hst0, app_nil_r in P.
  exists k, removed. split; [exact Hw|].
  split; [apply well_formed_invariants_holds, Hw|].
  split; [apply Hw|]. split; [exact P|].
  intros fuel' Hk. apply (well_formed_consistent k fuel' st Hw Hk).
Qed.

Lemma returning_calls_leave_tree_in_order_witness :
  on_new_tree 4 None
    (do_calls 9 (two_clusters_calls
                 ++ [DeletePoint 0 0 (PyInt 1) EQUAL; AddPoint (PyInt 7) 5 5]))
  = Ok (Ok tt,
        mk_state
          [[]; [((0, 0, 2, 2), CVal (PyInt 1))];
           [((1, 1, 1, 1), CVal PyNone); ((11, 11, 11, 11), CVal (PyInt 4));
            ((10, 10, 10, 10), CVal (PyInt 3))];
           [((1, 1, 11, 11), CNode 0 2%nat)];
           [((11, 11, 11, 11), CVal (PyInt 4))];
           [((0, 0, 2, 2), CVal (PyInt 1));
            ((11, 11, 11, 11), CVal (PyInt 4))];
           [((1, 1, 1, 1), CVal PyNone); ((5, 5, 5, 5), CVal (PyInt 7));
            ((10, 10, 10, 10), CVal (PyInt 3))];
           [((0, 0, 11, 11), CNode 0 5%nat); ((1, 1, 10, 10), CNode 0 6%nat)]]
          4 2 (Some (1%nat, 7%nat)) 5)
  /\ exists k removed,
       let st :=
         mk_state
           [[]; [((0, 0, 2, 2), CVal (PyInt 1))];
            [((1, 1, 1, 1), CVal PyNone); ((11, 11, 11, 11), CVal (PyInt 4));
             ((10, 10, 10, 10), CVal (PyInt 3))];
            [((1, 1, 11, 11), CNode 0 2%nat)];
            [((11, 11, 11, 11), CVal (PyInt 4))];
            [((0, 0, 2, 2), CVal (PyInt 1));
             ((11, 11, 11, 11), CVal (PyInt 4))];
            [((1, 1, 1, 1), CVal PyNone); ((5, 5, 5, 5), CVal (PyInt 7));
             ((10, 10, 10, 10), CVal (PyInt 3))];
            [((0, 0, 11, 11), CNode 0 5%nat); ((1, 1, 10, 10), CNode 0 6%nat)]]
           4 2 (Some (1%nat, 7%nat)) 5 in
       well_formed k st /\ invariants k st = true
       /\ __len__ st = Z.of_nat (length (stored k st))
       /\ flat_map added
            (two_clusters_calls
             ++ [DeletePoint 0 0 (PyInt 1) EQUAL; AddPoint (PyInt 7) 5 5])
          ≡ₚ removed ++ stored k st
       /\ forall fuel', (k < fuel')%nat ->
            assert_consistent fuel' st = (Ok tt, st).
Proof.
  split; [reflexivity|].
  apply (returning_calls_leave_tree_in_order 4 None 9
           (two_clusters_calls
            ++ [DeletePoint 0 0 (PyInt 1) EQUAL; AddPoint (PyInt 7) 5 5])).
  reflexivity.
Defined.

(** X30: an entry goes in at its height.  On a tree in order,
    _add_normalized_mbr with a target height above 0 and an entry in order
    (its child a tree with tight boxes and bounded fan-out under the box of
    the entry, in lists that the tree does not use), when it returns, leaves
    a tree in order that holds the pairs below the entry and the pairs of
    before; with target height 0 it adds the one pair.  The size is not
    touched, and no list outside the tree and the entry has changed. *)
Theorem add_entry_at_its_height (fuel kv k target : nat) (m : mbr)
    (value : content) (news : list (mbr * pyval)) (st st' : pystate) :
  shape_ok k st ->
  fits (_min st) (_max st) kv (heap st) target m value news ->
  (forall x, x ∈ foot_at kv (heap st) value -> x ∉ root_foot k st) ->
  _add_normalized_mbr fuel target m value st = (Ok tt, st') ->
  exists K,
    shape_ok K st'
    /\ stored K st' ≡ₚ news ++ stored k st
    /\ _size st' = _size st
    /\ forall x, (x < length (heap st))%nat ->
         x ∉ root_foot k st ++ foot_at kv (heap st) value ->
         heap st' !! x = heap st !! x.
Proof.
  intros Hs Hfit Hdis H.
  destruct (add_normalized_mbr_g fuel kv k target m value news st st'
              Hs Hfit Hdis H) as (K & S1 & P1 & _ & F1 & _ & Z1).
  exists K. auto.
Qed.

Lemma add_entry_at_its_height_witness :
  shape_ok 2 leaf_aside
  /\ _add_normalized_mbr 3 1 (1, 1, 3, 3) (CNode 0 1%nat) leaf_aside
     = (Ok tt,
        mk_state
          [[((0, 0, 0, 0), CVal (PyInt 1))];
           [((1, 1, 1, 1), CVal (PyInt 2)); ((3, 3, 3, 3), CVal PyNone)];
           [((0, 0, 0, 0), CNode 0 0%nat); ((1, 1, 3, 3), CNode 0 1%nat)]]
          4 1 (Some (1%nat, 2%nat)) 1)
  /\ exists K,
       let st' :=
         mk_state
           [[((0, 0, 0, 0), CVal (PyInt 1))];
            [((1, 1, 1, 1), CVal (PyInt 2)); ((3, 3, 3, 3), CVal PyNone)];
            [((0, 0, 0, 0), CNode 0 0%nat); ((1, 1, 3, 3), CNode 0 1%nat)]]
           4 1 (Some (1%nat, 2%nat)) 1 in
       shape_ok K st'
       /\ stored K st'
          ≡ₚ [((1, 1, 1, 1), PyInt 2); ((3, 3, 3, 3), PyNone)]
             ++ stored 2 leaf_aside
       /\ _size st' = _size leaf_aside
       /\ forall x, (x < length (heap leaf_aside))%nat ->
            x ∉ root_foot 2 leaf_aside
                ++ foot_at 1 (heap leaf_aside) (CNode 0 1%nat) ->
            heap st' !! x = heap leaf_aside !! x.
Proof.
  assert (Hs : shape_ok 2 leaf_aside).
  { split; [simpl; lia|]. split; [simpl; lia|].
    cbn [_root leaf_aside]. split; [|simpl; lia].
    split; [|split; [|split; reflexivity]].
    - eexists. split; [reflexivity|].
      apply Forall_cons_2; [|apply Forall_nil_2].
      eexists. split; [reflexivity|]. repeat constructor.
    - cbn. apply (bool_decide_unpack (NoDup [2; 0]%nat)). reflexivity. }
  split; [exact Hs|]. split; [reflexivity|].
  apply (add_entry_at_its_height 3 1 2 1 (1, 1, 3, 3) (CNode 0 1%nat)
           [((1, 1, 1, 1), PyInt 2); ((3, 3, 3, 3), PyNone)] leaf_aside _ Hs).
  - split; [|split; [|reflexivity]].
    + split; [|split; [reflexivity|split; [reflexivity|split; [reflexivity|]]]].
      * eexists. split; [reflexivity|]. repeat constructor.
      * simpl. lia.
    + cbn. apply (bool_decide_unpack (NoDup [1]%nat)). reflexivity.
  - cbn. intros x Hx.
    apply list_elem_of_singleton in Hx as ->.
    apply (bool_decide_unpack (1%nat ∉ [2; 0]%nat)). reflexivity.
  - reflexivity.
Defined.
